(** * Shared queue (squeue.c) of Postgres-XL: shallow embedding and proofs

    The development follows squeue.c function by function.  A consumer's
    cyclic queue lives in shared memory; here every [ConsState] carries the
    bytes of its own region ([cs_q], addressed by offsets from [cs_qstart]).
    C [int] fields are modelled in [Z]; the theorems about the queue assume
    [slot_wf] and [row_ok], under which every intermediate value of the
    modelled arithmetic lies between 0 and [INT_MAX], so no 32-bit
    operation wraps. *)

From Stdlib Require Import ZArith Lia Bool.
From Stdlib Require Import Strings.Byte.
From stdpp Require Import base list gmap strings.

Local Open Scope Z_scope.

(** ** Bytes and the host representation of [int] *)

Definition byte_of_Z (z : Z) : byte :=
  match Byte.of_N (Z.to_N (z mod 256)) with
  | Some b => b
  | None => x00
  end.

Definition Z_of_byte (b : byte) : Z := Z.of_N (Byte.to_N b).

(** [sizeof(int)] *)
Definition SIZEOF_INT : Z := 4.

Definition INT_MAX : Z := 2147483647.

(** The four bytes [memcpy] sees at the address of an [int] (two's
    complement, least significant byte first). *)
Definition int_bytes (z : Z) : list byte :=
  [ byte_of_Z z; byte_of_Z (z / 256); byte_of_Z (z / 65536);
    byte_of_Z (z / 16777216) ].

(** The [int] that four bytes denote once copied over an [int] variable. *)
Definition bytes_int (bs : list byte) : Z :=
  let u := Z_of_byte (nth 0 bs x00)
           + 256 * Z_of_byte (nth 1 bs x00)
           + 65536 * Z_of_byte (nth 2 bs x00)
           + 16777216 * Z_of_byte (nth 3 bs x00) in
  if u <? 2147483648 then u else u - 4294967296.

(** ** Shared memory regions *)

Definition memory := Z -> byte.

(** [memcpy(base + pos, buf, length buf)] *)
Fixpoint memcpy_to (m : memory) (pos : Z) (buf : list byte) : memory :=
  match buf with
  | [] => m
  | b :: bs => memcpy_to (fun a => if a =? pos then b else m a) (pos + 1) bs
  end.

(** [memcpy(buf, base + pos, n)] *)
Fixpoint memcpy_from (m : memory) (pos : Z) (n : nat) : list byte :=
  match n with
  | O => []
  | S k => m pos :: memcpy_from m (pos + 1) k
  end.

(** ** Consumer state *)

Definition LONG_TUPLE : Z := -42.

Inductive ConsStatus :=
| CONSUMER_ACTIVE
| CONSUMER_EOF
| CONSUMER_ERROR
| CONSUMER_DONE.

Global Instance ConsStatus_eq_dec : EqDecision ConsStatus.
Proof. solve_decision. Defined.

Record ConsState := mkConsState {
  cs_pid : Z;
  cs_node : Z;
  cs_ntuples : Z;
  cs_status : ConsStatus;
  cs_q : memory;          (* the bytes at cs_qstart *)
  cs_qlength : Z;
  cs_qreadpos : Z;
  cs_qwritepos : Z
}.

Definition set_ntuples (n : Z) (c : ConsState) : ConsState :=
  mkConsState (cs_pid c) (cs_node c) n (cs_status c) (cs_q c)
    (cs_qlength c) (cs_qreadpos c) (cs_qwritepos c).

Definition set_status (s : ConsStatus) (c : ConsState) : ConsState :=
  mkConsState (cs_pid c) (cs_node c) (cs_ntuples c) s (cs_q c)
    (cs_qlength c) (cs_qreadpos c) (cs_qwritepos c).

Definition set_pid (p : Z) (c : ConsState) : ConsState :=
  mkConsState p (cs_node c) (cs_ntuples c) (cs_status c) (cs_q c)
    (cs_qlength c) (cs_qreadpos c) (cs_qwritepos c).

Definition set_node (n : Z) (c : ConsState) : ConsState :=
  mkConsState (cs_pid c) n (cs_ntuples c) (cs_status c) (cs_q c)
    (cs_qlength c) (cs_qreadpos c) (cs_qwritepos c).

Definition set_q (m : memory) (c : ConsState) : ConsState :=
  mkConsState (cs_pid c) (cs_node c) (cs_ntuples c) (cs_status c) m
    (cs_qlength c) (cs_qreadpos c) (cs_qwritepos c).

Definition set_qreadpos (p : Z) (c : ConsState) : ConsState :=
  mkConsState (cs_pid c) (cs_node c) (cs_ntuples c) (cs_status c) (cs_q c)
    (cs_qlength c) p (cs_qwritepos c).

Definition set_qwritepos (p : Z) (c : ConsState) : ConsState :=
  mkConsState (cs_pid c) (cs_node c) (cs_ntuples c) (cs_status c) (cs_q c)
    (cs_qlength c) (cs_qreadpos c) p.

(** ** The queue macros *)

Definition QUEUE_FREE_SPACE (cstate : ConsState) : Z :=
  if cs_ntuples cstate >? 0 then
    if cs_qreadpos cstate >=? cs_qwritepos cstate
    then cs_qreadpos cstate - cs_qwritepos cstate
    else cs_qlength cstate + cs_qreadpos cstate - cs_qwritepos cstate
  else cs_qlength cstate.

Definition QUEUE_WRITE (cstate : ConsState) (len : Z) (buf : list byte)
  : ConsState :=
  if cs_qwritepos cstate + len <=? cs_qlength cstate then
    let q := memcpy_to (cs_q cstate) (cs_qwritepos cstate)
               (take (Z.to_nat len) buf) in
    let wp := cs_qwritepos cstate + len in
    let wp := if wp =? cs_qlength cstate then 0 else wp in
    set_qwritepos wp (set_q q cstate)
  else
    let part := cs_qlength cstate - cs_qwritepos cstate in
    let q := memcpy_to (cs_q cstate) (cs_qwritepos cstate)
               (take (Z.to_nat part) buf) in
    let wp := len - part in
    let q := memcpy_to q 0 (take (Z.to_nat wp) (drop (Z.to_nat part) buf)) in
    set_qwritepos wp (set_q q cstate).

Definition QUEUE_READ (cstate : ConsState) (len : Z)
  : list byte * ConsState :=
  if cs_qreadpos cstate + len <=? cs_qlength cstate then
    let buf := memcpy_from (cs_q cstate) (cs_qreadpos cstate) (Z.to_nat len) in
    let rp := cs_qreadpos cstate + len in
    let rp := if rp =? cs_qlength cstate then 0 else rp in
    (buf, set_qreadpos rp cstate)
  else
    let part := cs_qlength cstate - cs_qreadpos cstate in
    let buf1 := memcpy_from (cs_q cstate) (cs_qreadpos cstate) (Z.to_nat part) in
    let rp := len - part in
    let buf2 := memcpy_from (cs_q cstate) 0 (Z.to_nat rp) in
    (buf1 ++ buf2, set_qreadpos rp cstate).

(** ** Data rows

    A [RemoteDataRow] is the message of a tuple; [msglen] is the number of
    its bytes ([msgnode] plays no part in the queue). *)

Definition RemoteDataRow := list byte.

Definition msglen (datarow : RemoteDataRow) : Z := Z.of_nat (length datarow).

(** ** Locks, latches and the trace of synchronisation calls

    The functions below return, next to their result, the calls they make
    on locks and latches, in program order.  [cs_lwlock i] and [cs_latch i]
    are [sqs_consumer_sync[i].cs_lwlock] and [.cs_latch] of the sync block of
    the queue at hand.  [hash_remove key sync] is the call
    [hash_search(SharedQueues, key, HASH_REMOVE, NULL)], made on an entry
    whose header holds [sq_sync = sync] when the hash table takes it
    back. *)

Inductive LWLockId :=
| SQueuesLock
| sqs_producer_lwlock
| cs_lwlock (i : Z).

Inductive LWLockMode := LW_EXCLUSIVE | LW_SHARED.

Inductive LatchId :=
| sqs_producer_latch
| cs_latch (i : Z).

Inductive Event :=
| LWLockAcquire (l : LWLockId) (m : LWLockMode)
| LWLockRelease (l : LWLockId)
| SetLatch (l : LatchId)
| ResetLatch (l : LatchId)
| OwnLatch (l : LatchId)
| DisownLatch (l : LatchId)
| WaitLatch (l : LatchId) (timeout : Z)
| pg_usleep (microsec : Z)
| ExecClearTuple
| hash_remove (key : string) (sync : option nat).

Global Instance LWLockId_eq_dec : EqDecision LWLockId.
Proof. solve_decision. Defined.
Global Instance LatchId_eq_dec : EqDecision LatchId.
Proof. solve_decision. Defined.
Global Instance LWLockMode_eq_dec : EqDecision LWLockMode.
Proof. solve_decision. Defined.
Global Instance Event_eq_dec : EqDecision Event.
Proof. solve_decision. Defined.

(** ** The producer's local tuple store *)

(** Modelled from the spec: the overflow store is PostgreSQL's tuplestore,
    whose code is not part of squeue.c.  Following the spec it is a FIFO of
    rows with two read pointers, pointer 0 (the bookmark, active while
    writing) and pointer 1 (the advancing pointer); a pointer is at EOF when
    no row is left after it. *)
Record Tuplestorestate := mkTuplestore {
  ts_tuples : list RemoteDataRow;
  ts_ptr0 : nat;
  ts_ptr1 : nat;
  ts_active : nat
}.

(** Modelled from the spec: [tuplestore_begin_datarow] followed by
    [tuplestore_alloc_read_pointer], which yields pointer 1. *)
Definition tuplestore_begin_datarow : Tuplestorestate :=
  mkTuplestore [] 0 0 0.

(** Modelled from the spec: append a row at the end of the store. *)
Definition tuplestore_puttupleslot (ts : Tuplestorestate) (row : RemoteDataRow)
  : Tuplestorestate :=
  mkTuplestore (ts_tuples ts ++ [row]) (ts_ptr0 ts) (ts_ptr1 ts) (ts_active ts).

(** Modelled from the spec: switch the active read pointer. *)
Definition tuplestore_select_read_pointer (ts : Tuplestorestate) (ptr : nat)
  : Tuplestorestate :=
  mkTuplestore (ts_tuples ts) (ts_ptr0 ts) (ts_ptr1 ts) ptr.

Definition ts_ptr (ts : Tuplestorestate) (ptr : nat) : nat :=
  match ptr with O => ts_ptr0 ts | _ => ts_ptr1 ts end.

Definition ts_set_ptr (ts : Tuplestorestate) (ptr : nat) (pos : nat)
  : Tuplestorestate :=
  match ptr with
  | O => mkTuplestore (ts_tuples ts) pos (ts_ptr1 ts) (ts_active ts)
  | _ => mkTuplestore (ts_tuples ts) (ts_ptr0 ts) pos (ts_active ts)
  end.

(** Modelled from the spec: store-EOF of the active pointer. *)
Definition tuplestore_ateof (ts : Tuplestorestate) : bool :=
  bool_decide (length (ts_tuples ts) ≤ ts_ptr ts (ts_active ts))%nat.

(** Modelled from the spec: copy pointer [srcptr] over pointer [destptr]. *)
Definition tuplestore_copy_read_pointer (ts : Tuplestorestate)
  (srcptr destptr : nat) : Tuplestorestate :=
  ts_set_ptr ts destptr (ts_ptr ts srcptr).

(** Modelled from the spec: fetch the row at the active pointer and advance
    it; [None] at store-EOF. *)
Definition tuplestore_gettupleslot (ts : Tuplestorestate)
  : option (RemoteDataRow * Tuplestorestate) :=
  match ts_tuples ts !! ts_ptr ts (ts_active ts) with
  | Some row => Some (row, ts_set_ptr ts (ts_active ts)
                             (S (ts_ptr ts (ts_active ts))))
  | None => None
  end.

(** Modelled from the spec: free the rows that lie before both pointers. *)
Definition tuplestore_trim (ts : Tuplestorestate) : Tuplestorestate :=
  let k := Nat.min (ts_ptr0 ts) (ts_ptr1 ts) in
  mkTuplestore (drop k (ts_tuples ts)) (ts_ptr0 ts - k)%nat
    (ts_ptr1 ts - k)%nat (ts_active ts).

(** Modelled from the spec: drop every row and rewind the pointers. *)
Definition tuplestore_clear (ts : Tuplestorestate) : Tuplestorestate :=
  mkTuplestore [] 0 0 (ts_active ts).

(** ** sq_push_long_tuple *)

Definition sq_push_long_tuple (cstate : ConsState) (datarow : RemoteDataRow)
  : bool * ConsState :=
  if cs_ntuples cstate =? 0 then
    let cstate := QUEUE_WRITE cstate SIZEOF_INT (int_bytes (msglen datarow)) in
    let len := cs_qlength cstate - SIZEOF_INT in
    let cstate := QUEUE_WRITE cstate len datarow in
    (false, set_ntuples 1 cstate)
  else
    let offset := bytes_int (memcpy_from (cs_q cstate) 0 (Z.to_nat SIZEOF_INT)) in
    let len := msglen datarow - offset in
    let cstate := QUEUE_WRITE cstate SIZEOF_INT (int_bytes len) in
    if len >? cs_qlength cstate - SIZEOF_INT then
      let len := cs_qlength cstate - SIZEOF_INT in
      let cstate := QUEUE_WRITE cstate len (drop (Z.to_nat offset) datarow) in
      (false, set_ntuples 1 cstate)
    else
      let cstate := QUEUE_WRITE cstate len (drop (Z.to_nat offset) datarow) in
      (true, set_ntuples 1 cstate).

(** ** SharedQueueDump *)

(** The exit taken when the next row does not fit: restore the read
    position, trim, make pointer 0 active again. *)
Definition dump_give_back (tuplestore : Tuplestorestate) : Tuplestorestate :=
  let tuplestore := tuplestore_copy_read_pointer tuplestore 0 1 in
  let tuplestore := tuplestore_trim tuplestore in
  tuplestore_select_read_pointer tuplestore 0.

(** The exit taken when the store is exhausted. *)
Definition dump_finish (tuplestore : Tuplestorestate) : Tuplestorestate :=
  let tuplestore := tuplestore_trim tuplestore in
  tuplestore_select_read_pointer tuplestore 0.

(** The [while (!tuplestore_ateof(tuplestore))] loop; [n] bounds the number
    of rows still to fetch. *)
Fixpoint dump_loop (n : nat) (consumerIdx : Z) (cstate : ConsState)
  (tuplestore : Tuplestorestate)
  : bool * ConsState * Tuplestorestate * list Event :=
  if tuplestore_ateof tuplestore then
    (true, cstate, dump_finish tuplestore, [])
  else
    match n with
    | O => (false, cstate, dump_give_back tuplestore, [])
    | S n =>
      let tuplestore := tuplestore_copy_read_pointer tuplestore 1 0 in
      match tuplestore_gettupleslot tuplestore with
      | None => (true, cstate, dump_finish tuplestore, [])
      | Some (datarow, tuplestore) =>
        if QUEUE_FREE_SPACE cstate <? SIZEOF_INT + msglen datarow then
          if cs_ntuples cstate <=? 0 then
            let '(done, cstate) := sq_push_long_tuple cstate datarow in
            let ev := [SetLatch (cs_latch consumerIdx)] in
            if done then
              let '(r, cstate, tuplestore, ev') :=
                dump_loop n consumerIdx cstate tuplestore in
              (r, cstate, tuplestore, ev ++ ev')
            else (false, cstate, dump_give_back tuplestore, ev)
          else (false, cstate, dump_give_back tuplestore, [])
        else
          let ntuples := cs_ntuples cstate in
          let cstate := QUEUE_WRITE cstate SIZEOF_INT
                          (int_bytes (msglen datarow)) in
          let cstate := QUEUE_WRITE cstate (msglen datarow) datarow in
          let cstate := set_ntuples (ntuples + 1) cstate in
          let ev := if ntuples =? 0 then [SetLatch (cs_latch consumerIdx)]
                    else [] in
          let '(r, cstate, tuplestore, ev') :=
            dump_loop n consumerIdx cstate tuplestore in
          (r, cstate, tuplestore, ev ++ ev')
      end
    end.

Definition SharedQueueDump (consumerIdx : Z) (cstate : ConsState)
  (tuplestore : Tuplestorestate)
  : bool * ConsState * Tuplestorestate * list Event :=
  if bool_decide (cs_status cstate ≠ CONSUMER_ACTIVE) then
    (true, cstate, tuplestore_clear tuplestore, [])
  else
    let tuplestore := tuplestore_select_read_pointer tuplestore 1 in
    dump_loop (length (ts_tuples tuplestore)) consumerIdx cstate tuplestore.

(** ** SharedQueueWrite *)

Definition SharedQueueWrite (consumerIdx : Z) (cstate : ConsState)
  (datarow : RemoteDataRow) (tuplestore : option Tuplestorestate)
  : ConsState * option Tuplestorestate * list Event :=
  let clwlock := cs_lwlock consumerIdx in
  let ev0 := [LWLockAcquire clwlock LW_EXCLUSIVE] in
  let '(dumped, cstate, tuplestore, ev1) :=
    match tuplestore with
    | Some ts =>
      if QUEUE_FREE_SPACE cstate >? cs_qlength cstate `quot` 2 then
        let '(dumped, cstate, ts, ev) :=
          SharedQueueDump consumerIdx cstate ts in
        (dumped, cstate, Some ts, ev)
      else (false, cstate, Some ts, [])
    | None => (true, cstate, None, [])
    end in
  match dumped, tuplestore with
  | false, Some ts =>
    (cstate, Some (tuplestore_puttupleslot ts datarow),
     ev0 ++ ev1 ++ [LWLockRelease clwlock])
  | _, _ =>
    if QUEUE_FREE_SPACE cstate <? SIZEOF_INT + msglen datarow then
      let ts := match tuplestore with
                | Some ts => ts
                | None => tuplestore_begin_datarow
                end in
      (cstate, Some (tuplestore_puttupleslot ts datarow),
       ev0 ++ ev1 ++ [LWLockRelease clwlock])
    else if bool_decide (cs_status cstate = CONSUMER_ACTIVE) then
      let ntuples := cs_ntuples cstate in
      let cstate := QUEUE_WRITE cstate SIZEOF_INT
                      (int_bytes (msglen datarow)) in
      let cstate := QUEUE_WRITE cstate (msglen datarow) datarow in
      let cstate := set_ntuples (ntuples + 1) cstate in
      let ev := if ntuples =? 0 then [SetLatch (cs_latch consumerIdx)]
                else [] in
      (cstate, tuplestore, ev0 ++ ev1 ++ ev ++ [LWLockRelease clwlock])
    else
      (cstate, tuplestore, ev0 ++ ev1 ++ [LWLockRelease clwlock])
  end.

(** ** SharedQueueRead and sq_pull_long_tuple

    Both functions sleep in [WaitLatch] with no lock held.  What the other
    processes do to the consumer's state meanwhile is the parameter [wait]:
    it maps the state of the rest of the system ([Env]) and the consumer
    state at the time the latch wait starts to their values when the wait
    ends.  [fuel] bounds the number of waits; a call that is still
    sleeping when the fuel is spent yields [ReadBlocked]. *)

Inductive ReadResult :=
| ReadTuple (datarow : RemoteDataRow) (* returns false, row stored in slot *)
| ReadEmpty                           (* returns false, slot cleared *)
| ReadEOF                             (* returns true *)
| ReadError                           (* ereport(ERROR), ERRCODE_PRODUCER_ERROR *)
| ReadBlocked.

Section Consumer.

Context {Env : Type}.
Variable wait : Env -> ConsState -> Env * ConsState.

(** One pass of the [for (;;)] body of [sq_pull_long_tuple] down to the
    test [offset == datarow->msglen]: the bytes are stored at
    [datarow->msg + offset], that is appended to the [msg] read so far.
    C compares the [int] [len] with [cs_qlength - sizeof(int)] in
    [size_t]; the comparison in [Z] is the same for [0 <= len] and
    [sizeof(int) <= cs_qlength], which holds for the lengths the producer
    writes into a queue that satisfies [ring_inv]. *)
Definition pull_chunk (cstate : ConsState) (len : Z) (offset : Z)
  (msg : list byte) : ConsState * Z * list byte :=
  let len := if len >? cs_qlength cstate - SIZEOF_INT
             then cs_qlength cstate - SIZEOF_INT else len in
  let '(buf, cstate) := QUEUE_READ cstate len in
  (cstate, offset + len, msg ++ buf).

(** Entering long tuple mode: mark the queue and leave the number of bytes
    already read at its beginning. *)
Definition pull_request_more (cstate : ConsState) (offset : Z) : ConsState :=
  let cstate := set_ntuples LONG_TUPLE cstate in
  set_q (memcpy_to (cs_q cstate) 0 (int_bytes offset)) cstate.

(** The [while (cstate->cs_ntuples == LONG_TUPLE)] loop of
    [sq_pull_long_tuple], entered with the marker just set, and the rest of
    the [for (;;)] loop after it. *)
Fixpoint pull_wait (fuel : nat) (consumerIdx : Z) (datalen : Z) (env : Env)
  (cstate : ConsState) (offset : Z) (msg : list byte)
  : option (list byte) * Env * ConsState * list Event :=
  match fuel with
  | O => (None, env, cstate, [])
  | S fuel =>
    let ev := [ SetLatch sqs_producer_latch;
                ResetLatch (cs_latch consumerIdx);
                LWLockRelease (cs_lwlock consumerIdx);
                LWLockRelease sqs_producer_lwlock;
                WaitLatch (cs_latch consumerIdx) (-1) ] in
    let '(env, cstate) := wait env cstate in
    let ev := ev ++ [ LWLockAcquire sqs_producer_lwlock LW_SHARED;
                      LWLockAcquire (cs_lwlock consumerIdx) LW_EXCLUSIVE ] in
    if cs_ntuples cstate =? LONG_TUPLE then
      let '(r, env, cstate, ev') :=
        pull_wait fuel consumerIdx datalen env cstate offset msg in
      (r, env, cstate, ev ++ ev')
    else
      let '(buf, cstate) := QUEUE_READ cstate SIZEOF_INT in
      let len := bytes_int buf in
      let '(cstate, offset, msg) := pull_chunk cstate len offset msg in
      if offset =? datalen then (Some msg, env, cstate, ev)
      else
        let cstate := pull_request_more cstate offset in
        let '(r, env, cstate, ev') :=
          pull_wait fuel consumerIdx datalen env cstate offset msg in
        (r, env, cstate, ev ++ ev')
  end.

Definition sq_pull_long_tuple (fuel : nat) (consumerIdx : Z) (datalen : Z)
  (env : Env) (cstate : ConsState)
  : option (list byte) * Env * ConsState * list Event :=
  let '(cstate, offset, msg) := pull_chunk cstate datalen 0 [] in
  if offset =? datalen then (Some msg, env, cstate, [])
  else
    let cstate := pull_request_more cstate offset in
    pull_wait fuel consumerIdx datalen env cstate offset msg.

(** The end of [SharedQueueRead] once the message is read in: store the
    row in the slot, count it off and release the locks. *)
Definition read_deliver (consumerIdx : Z)
  (r : option (list byte) * Env * ConsState * list Event)
  : ReadResult * Env * ConsState * list Event :=
  let '(r, env, cstate, ev) := r in
  match r with
  | None => (ReadBlocked, env, cstate, ev)
  | Some msg =>
    let cstate := set_ntuples (cs_ntuples cstate - 1) cstate in
    (ReadTuple msg, env, cstate,
     ev ++ [ LWLockRelease (cs_lwlock consumerIdx);
             LWLockRelease sqs_producer_lwlock ])
  end.

(** The part of [SharedQueueRead] after the [while] loop: at least one row
    is queued.  As in [pull_chunk], the comparison of the length read
    from the queue with [cs_qlength - sizeof(int)] is the one of C as
    long as that length is not negative, that is for a queue that
    satisfies [ring_inv]. *)
Definition read_row (fuel : nat) (consumerIdx : Z) (env : Env)
  (cstate : ConsState) : ReadResult * Env * ConsState * list Event :=
  let '(buf, cstate) := QUEUE_READ cstate SIZEOF_INT in
  let datalen := bytes_int buf in
  read_deliver consumerIdx
    (if datalen >? cs_qlength cstate - SIZEOF_INT then
       sq_pull_long_tuple fuel consumerIdx datalen env cstate
     else
       let '(msg, cstate) := QUEUE_READ cstate datalen in
       (Some msg, env, cstate, [])).

(** The [while (cstate->cs_ntuples <= 0)] loop and what follows it. *)
Fixpoint read_loop (fuel : nat) (consumerIdx : Z) (canwait : bool) (env : Env)
  (cstate : ConsState) : ReadResult * Env * ConsState * list Event :=
  if cs_ntuples cstate <=? 0 then
    match cs_status cstate with
    | CONSUMER_EOF =>
      (ReadEOF, env, set_status CONSUMER_DONE cstate,
       [ DisownLatch (cs_latch consumerIdx);
         LWLockRelease (cs_lwlock consumerIdx);
         ExecClearTuple;
         SetLatch sqs_producer_latch;
         LWLockRelease sqs_producer_lwlock ])
    | CONSUMER_ERROR =>
      (ReadError, env, cstate,
       [ LWLockRelease (cs_lwlock consumerIdx);
         LWLockRelease sqs_producer_lwlock ])
    | _ =>
      if canwait then
        match fuel with
        | O => (ReadBlocked, env, cstate, [])
        | S fuel =>
          let ev := [ ResetLatch (cs_latch consumerIdx);
                      LWLockRelease (cs_lwlock consumerIdx);
                      SetLatch sqs_producer_latch;
                      LWLockRelease sqs_producer_lwlock;
                      WaitLatch (cs_latch consumerIdx) (-1) ] in
          let '(env, cstate) := wait env cstate in
          let ev := ev ++ [ LWLockAcquire sqs_producer_lwlock LW_SHARED;
                            LWLockAcquire (cs_lwlock consumerIdx)
                              LW_EXCLUSIVE ] in
          let '(r, env, cstate, ev') :=
            read_loop fuel consumerIdx canwait env cstate in
          (r, env, cstate, ev ++ ev')
        end
      else
        (ReadEmpty, env, cstate,
         [ LWLockRelease (cs_lwlock consumerIdx);
           LWLockRelease sqs_producer_lwlock;
           ExecClearTuple ])
    end
  else read_row fuel consumerIdx env cstate.

Definition SharedQueueRead (fuel : nat) (consumerIdx : Z) (canwait : bool)
  (env : Env) (cstate : ConsState)
  : ReadResult * Env * ConsState * list Event :=
  let ev := [ LWLockAcquire sqs_producer_lwlock LW_SHARED;
              LWLockAcquire (cs_lwlock consumerIdx) LW_EXCLUSIVE ] in
  let '(r, env, cstate, ev') :=
    read_loop fuel consumerIdx canwait env cstate in
  (r, env, cstate, ev ++ ev').

End Consumer.

(** ** Shared queue header *)

(** [sq_sync] is the index of the entry's sync block in the pool
    ([None] stands for [NULL]); [sq_nconsumers] is the length of the
    variable length array [sq_consumers]. *)
Record SQueueHeader := mkSQueueHeader {
  sq_key : string;
  sq_pid : Z;
  sq_nodeid : Z;
  sq_sync : option nat;
  sq_refcnt : Z;
  sq_consumers : list ConsState
}.

Definition sq_nconsumers (sq : SQueueHeader) : Z :=
  Z.of_nat (length (sq_consumers sq)).

Definition set_sq_consumers (l : list ConsState) (sq : SQueueHeader)
  : SQueueHeader :=
  mkSQueueHeader (sq_key sq) (sq_pid sq) (sq_nodeid sq) (sq_sync sq)
    (sq_refcnt sq) l.

Definition set_sq_refcnt (n : Z) (sq : SQueueHeader) : SQueueHeader :=
  mkSQueueHeader (sq_key sq) (sq_pid sq) (sq_nodeid sq) (sq_sync sq)
    n (sq_consumers sq).

Definition set_sq_sync (s : option nat) (sq : SQueueHeader) : SQueueHeader :=
  mkSQueueHeader (sq_key sq) (sq_pid sq) (sq_nodeid sq) s
    (sq_refcnt sq) (sq_consumers sq).

Definition set_sq_producer (pid nodeid : Z) (sq : SQueueHeader)
  : SQueueHeader :=
  mkSQueueHeader (sq_key sq) pid nodeid (sq_sync sq)
    (sq_refcnt sq) (sq_consumers sq).

(** [for (i = 0; i < squeue->sq_nconsumers; i++)] with the body [f] applied
    to [sq_consumers[i]]; the traces of the passes are concatenated. *)
Fixpoint for_consumers (f : Z -> ConsState -> ConsState * list Event)
  (i : Z) (l : list ConsState) : list ConsState * list Event :=
  match l with
  | [] => ([], [])
  | cstate :: l =>
    let '(cstate, ev) := f i cstate in
    let '(l, ev') := for_consumers f (i + 1) l in
    (cstate :: l, ev ++ ev')
  end.

(** Discard the rows of a queue: [cs_ntuples = 0] and
    [cs_qreadpos = cs_qwritepos = 0]. *)
Definition discard_tuples (cstate : ConsState) : ConsState :=
  set_qwritepos 0 (set_qreadpos 0 (set_ntuples 0 cstate)).

(** ** SharedQueueReset *)

Definition reset_producer_body (i : Z) (cstate : ConsState)
  : ConsState * list Event :=
  let ev :=
    if bool_decide (cs_status cstate ≠ CONSUMER_EOF
                    ∧ cs_status cstate ≠ CONSUMER_DONE)
    then [SetLatch (cs_latch i); SetLatch sqs_producer_latch] else [] in
  let cstate :=
    if bool_decide (cs_status cstate ≠ CONSUMER_EOF
                    ∧ cs_status cstate ≠ CONSUMER_DONE)
    then discard_tuples (set_status CONSUMER_ERROR cstate) else cstate in
  (cstate, [LWLockAcquire (cs_lwlock i) LW_EXCLUSIVE] ++ ev
           ++ [LWLockRelease (cs_lwlock i)]).

Definition reset_consumer (consumerIdx : Z) (cstate : ConsState)
  : ConsState * list Event :=
  let ev0 := [LWLockAcquire (cs_lwlock consumerIdx) LW_EXCLUSIVE] in
  if bool_decide (cs_status cstate ≠ CONSUMER_DONE) then
    (set_status CONSUMER_DONE cstate,
     ev0 ++ (if cs_pid cstate >? 0
             then [DisownLatch (cs_latch consumerIdx)] else [])
         ++ [SetLatch sqs_producer_latch;
             LWLockRelease (cs_lwlock consumerIdx)])
  else (cstate, ev0 ++ [LWLockRelease (cs_lwlock consumerIdx)]).

Definition SharedQueueReset (squeue : SQueueHeader) (consumerIdx : Z)
  : SQueueHeader * list Event :=
  match sq_sync squeue with
  | None => (squeue, [])
  | Some _ =>
    let ev0 := [LWLockAcquire sqs_producer_lwlock LW_SHARED] in
    if consumerIdx =? -1 then
      let '(l, ev) := for_consumers reset_producer_body 0
                        (sq_consumers squeue) in
      (set_sq_consumers l squeue,
       ev0 ++ ev ++ [LWLockRelease sqs_producer_lwlock])
    else
      match sq_consumers squeue !! Z.to_nat consumerIdx with
      | Some cstate =>
        let '(cstate, ev) := reset_consumer consumerIdx cstate in
        (set_sq_consumers
           (<[Z.to_nat consumerIdx := cstate]> (sq_consumers squeue)) squeue,
         ev0 ++ ev ++ [LWLockRelease sqs_producer_lwlock])
      | None => (squeue, ev0 ++ [LWLockRelease sqs_producer_lwlock])
      end
  end.

(** ** SharedQueueResetNotConnected *)

Definition reset_not_connected_body (i : Z) (cstate : ConsState)
  : ConsState * list Event :=
  if bool_decide (cs_pid cstate = 0 ∧ cs_status cstate ≠ CONSUMER_DONE) then
    (discard_tuples (set_status CONSUMER_DONE cstate),
     [LWLockAcquire (cs_lwlock i) LW_EXCLUSIVE;
      SetLatch (cs_latch i);
      LWLockRelease (cs_lwlock i)])
  else
    (cstate, [LWLockAcquire (cs_lwlock i) LW_EXCLUSIVE;
              LWLockRelease (cs_lwlock i)]).

Definition SharedQueueResetNotConnected (squeue : SQueueHeader)
  : SQueueHeader * list Event :=
  let '(l, ev) := for_consumers reset_not_connected_body 0
                    (sq_consumers squeue) in
  (set_sq_consumers l squeue,
   [LWLockAcquire sqs_producer_lwlock LW_EXCLUSIVE] ++ ev
   ++ [LWLockRelease sqs_producer_lwlock]).

(** ** SharedQueueCanPause *)

(** The loop [for (i = 0; result && (i < squeue->sq_nconsumers); i++)]. *)
Fixpoint canpause_loop (l : list ConsState) (i : Z) (result : bool)
  (usedspace ncons : Z) : bool * Z * Z * list Event :=
  match l with
  | [] => (result, usedspace, ncons, [])
  | cstate :: l =>
    if result then
      let '(result, usedspace, ncons) :=
        if bool_decide (cs_status cstate = CONSUMER_ACTIVE) then
          (cs_ntuples cstate >? 0,
           usedspace +
             (if cs_qwritepos cstate >? cs_qreadpos cstate
              then cs_qwritepos cstate - cs_qreadpos cstate
              else cs_qlength cstate + cs_qwritepos cstate
                   - cs_qreadpos cstate),
           ncons + 1)
        else (result, usedspace, ncons) in
      let '(r, ev) := canpause_loop l (i + 1) result usedspace ncons in
      (r, [LWLockAcquire (cs_lwlock i) LW_SHARED;
           LWLockRelease (cs_lwlock i)] ++ ev)
    else (result, usedspace, ncons, [])
  end.

Definition SharedQueueCanPause (squeue : SQueueHeader) : bool * list Event :=
  let '(result, usedspace, ncons, ev) :=
    canpause_loop (sq_consumers squeue) 0 true 0 0 in
  if ncons =? 0 then (false, ev)
  else if result then
    (usedspace `quot` ncons >?
       match sq_consumers squeue with
       | cstate :: _ => cs_qlength cstate
       | [] => 0
       end `quot` 2, ev)
  else (result, ev).

(** ** SharedQueueFinish *)

(** The body of the loop over the consumers; the third component tells
    whether the consumer's store is still counted in [nstores]. *)
Definition finish_consumer (i : Z) (cstate : ConsState)
  (tuplestore : option Tuplestorestate)
  : ConsState * option Tuplestorestate * bool * list Event :=
  let '(cstate, tuplestore, counted, ev) :=
    match tuplestore with
    | Some ts =>
      if bool_decide (cs_status cstate ≠ CONSUMER_ACTIVE) then
        (cstate, None, false, [])
      else if QUEUE_FREE_SPACE cstate >? cs_qlength cstate `quot` 2 then
        let '(dumped, cstate, ts, ev) := SharedQueueDump i cstate ts in
        if dumped then
          (set_status CONSUMER_EOF cstate, None, false,
           ev ++ [SetLatch (cs_latch i)])
        else (cstate, Some ts, true, ev ++ [SetLatch (cs_latch i)])
      else (cstate, Some ts, true, [])
    | None =>
      if bool_decide (cs_status cstate = CONSUMER_ACTIVE) then
        (set_status CONSUMER_EOF cstate, None, false, [SetLatch (cs_latch i)])
      else (cstate, None, false, [])
    end in
  (cstate, tuplestore, counted,
   [LWLockAcquire (cs_lwlock i) LW_EXCLUSIVE] ++ ev
   ++ [LWLockRelease (cs_lwlock i)]).

Fixpoint finish_loop (i : Z) (l : list ConsState)
  (tuplestore : list (option Tuplestorestate))
  : list ConsState * list (option Tuplestorestate) * Z * list Event :=
  match l with
  | [] => ([], tuplestore, 0, [])
  | cstate :: l =>
    let '(cstate, ts, counted, ev) :=
      finish_consumer i cstate (mjoin (head tuplestore)) in
    let '(l, tss, nstores, ev') := finish_loop (i + 1) l (tail tuplestore) in
    (cstate :: l, ts :: tss, (if counted then 1 else 0) + nstores, ev ++ ev')
  end.

Definition SharedQueueFinish (squeue : SQueueHeader)
  (tuplestore : list (option Tuplestorestate))
  : Z * SQueueHeader * list (option Tuplestorestate) * list Event :=
  let '(l, tss, nstores, ev) :=
    finish_loop 0 (sq_consumers squeue) tuplestore in
  (nstores, set_sq_consumers l squeue, tss, ev).

(** ** The shared memory of all queues

    [SharedQueues] is the hash table keyed by queue name, [SQueueSyncs] the
    pool of sync blocks: entry [idx] holds the [queue] back pointer of
    [GET_SQUEUE_SYNC(idx)], the key of the queue it is assigned to or
    [None] for [NULL]. *)
Record Shmem := mkShmem {
  SharedQueues : gmap string SQueueHeader;
  SQueueSyncs : list (option string)
}.

Definition set_queue (sq : SQueueHeader) (shm : Shmem) : Shmem :=
  mkShmem (<[sq_key sq := sq]> (SharedQueues shm)) (SQueueSyncs shm).

(** [sqsync->queue = NULL] *)
Definition clear_sync_queue (sync : option nat) (syncs : list (option string))
  : list (option string) :=
  match sync with
  | Some idx => <[idx := None]> syncs
  | None => syncs
  end.

(** The tail shared by [SharedQueueUnBind] and [SharedQueueRelease]:
    [if (--sq->sq_refcnt == 0)] clear the association with the sync block in
    both directions ([sqsync->queue = NULL] in the pool, [sq->sq_sync =
    NULL] in the header) and remove the hash table entry.  The memory of a
    removed entry goes back to the free list of the hash table;
    [hash_remove] records the [sq_sync] the header holds at that moment. *)
Definition drop_reference (sq : SQueueHeader) (shm : Shmem)
  : Shmem * list Event :=
  let sq := set_sq_refcnt (sq_refcnt sq - 1) sq in
  if sq_refcnt sq =? 0 then
    let syncs := clear_sync_queue (sq_sync sq) (SQueueSyncs shm) in
    let sq := set_sq_sync None sq in
    (mkShmem (delete (sq_key sq) (SharedQueues shm)) syncs,
     [hash_remove (sq_key sq) (sq_sync sq)])
  else (set_queue sq shm, []).

(** Index of the first consumer whose [cs_node] is [nodeid]. *)
Fixpoint find_consumer_node (nodeid : Z) (i : Z) (l : list ConsState)
  : option (Z * ConsState) :=
  match l with
  | [] => None
  | cstate :: l =>
    if cs_node cstate =? nodeid then Some (i, cstate)
    else find_consumer_node nodeid (i + 1) l
  end.

Section Registry.

(** Constants of squeue.h and of the build, and the caller's identity. *)
Variable NUM_SQUEUES : nat.
Variable SQUEUE_SIZE : Z.
Variable sizeof_SQueueHeader : Z.
Variable sizeof_ConsState : Z.
Variable MyProcPid : Z.
(** The node id of the session's parent node. *)
Variable PGXC_PARENT_NODE_ID : Z.

Definition SQUEUE_HDR_SIZE (nconsumers : Z) : Z :=
  sizeof_SQueueHeader + nconsumers * sizeof_ConsState.

(** *** SharedQueueAcquire *)

Inductive AcquireResult :=
| AcquireOk
| AcquireOutOfQueues       (* "out of shared queue, please increase ..." *)
| AcquireRaceUnresolved (trycount : Z).

(** First sync block of the pool whose [queue] is [NULL]. *)
Fixpoint first_free_sync (idx : nat) (syncs : list (option string))
  : option nat :=
  match syncs with
  | [] => None
  | None :: _ => Some idx
  | Some _ :: syncs => first_free_sync (S idx) syncs
  end.

(** A freshly formatted consumer queue; nothing is read from its bytes
    before they are written. *)
Definition format_consumer (qsize : Z) : ConsState :=
  mkConsState 0 (-1) 0 CONSUMER_ACTIVE (fun _ => x00) qsize 0 0.

(** The entry as the first [SharedQueueAcquire] formats it.  The source
    asserts [ncons > 0] and that the consumer queues end inside the entry,
    which they do when [SQUEUE_HDR_SIZE ncons <= SQUEUE_SIZE]; for other
    arguments the C division is by zero or the queues lie outside the
    entry, and the definition does not describe what the code does. *)
Definition format_queue (sqname : string) (ncons : Z)
  (syncs : list (option string)) : SQueueHeader :=
  let qsize := (SQUEUE_SIZE - SQUEUE_HDR_SIZE ncons) `quot` ncons in
  mkSQueueHeader sqname 0 (-1) (first_free_sync 0 syncs) 1
    (replicate (Z.to_nat ncons) (format_consumer qsize)).

(** The loop that decides [old_squeue] for an entry with a bound producer. *)
Definition acquire_old_squeue (sq : SQueueHeader) : bool * list Event :=
  match find_consumer_node PGXC_PARENT_NODE_ID 0 (sq_consumers sq) with
  | Some (i, cstate) =>
    (bool_decide (cs_status cstate = CONSUMER_DONE),
     [LWLockAcquire (cs_lwlock i) LW_EXCLUSIVE; LWLockRelease (cs_lwlock i)])
  | None => (true, [])
  end.

(** What the other processes do to the shared memory while this one
    sleeps in [pg_usleep] with no lock held. *)
Variable sleep : Shmem -> Shmem.

(** The code from the label [tryagain] on; [n] is the number of retries
    left before [trycount] reaches 10. *)
Fixpoint acquire_loop (n : nat) (trycount : Z) (sqname : string) (ncons : Z)
  (shm : Shmem) : AcquireResult * Shmem * list Event :=
  let ev0 := [LWLockAcquire SQueuesLock LW_EXCLUSIVE] in
  match SharedQueues shm !! sqname with
  | None =>
    if bool_decide (NUM_SQUEUES ≤ size (SharedQueues shm))%nat then
      (AcquireOutOfQueues, shm, ev0)
    else
      let sq := format_queue sqname ncons (SQueueSyncs shm) in
      (AcquireOk,
       mkShmem (<[sqname := sq]> (SharedQueues shm))
         (match sq_sync sq with
          | Some idx => <[idx := Some sqname]> (SQueueSyncs shm)
          | None => SQueueSyncs shm
          end),
       ev0 ++ [LWLockRelease SQueuesLock])
  | Some sq =>
    let '(old_squeue, ev1) :=
      if sq_pid sq =? 0 then (false, []) else acquire_old_squeue sq in
    if old_squeue then
      let ev := ev0 ++ ev1 ++ [LWLockRelease SQueuesLock; pg_usleep 1000000] in
      let shm := sleep shm in
      let trycount := trycount + 1 in
      if trycount >=? 10 then (AcquireRaceUnresolved trycount, shm, ev)
      else
        match n with
        | O => (AcquireRaceUnresolved trycount, shm, ev)
        | S n =>
          let '(r, shm, ev') := acquire_loop n trycount sqname ncons shm in
          (r, shm, ev ++ ev')
        end
    else
      (AcquireOk,
       mkShmem (<[sqname := set_sq_refcnt (sq_refcnt sq + 1) sq]>
                  (SharedQueues shm)) (SQueueSyncs shm),
       ev0 ++ ev1 ++ [LWLockRelease SQueuesLock])
  end.

Definition SharedQueueAcquire (sqname : string) (ncons : Z) (shm : Shmem)
  : AcquireResult * Shmem * list Event :=
  acquire_loop 10 0 sqname ncons shm.

(** *** SharedQueueDisconnectConsumer *)

Definition disconnect_body (i : Z) (cstate : ConsState)
  : ConsState * list Event :=
  (if cs_node cstate =? PGXC_PARENT_NODE_ID
   then discard_tuples (set_status CONSUMER_DONE cstate) else cstate,
   [LWLockAcquire (cs_lwlock i) LW_EXCLUSIVE; LWLockRelease (cs_lwlock i)]).

(** The argument is [None] when the backend has no [SharedQueues] table. *)
Definition SharedQueueDisconnectConsumer (sqname : string)
  (shm : option Shmem) : option Shmem * list Event :=
  match shm with
  | None => (None, [])
  | Some shm =>
    let ev0 := [LWLockAcquire SQueuesLock LW_EXCLUSIVE] in
    match SharedQueues shm !! sqname with
    | None => (Some shm, ev0 ++ [LWLockRelease SQueuesLock])
    | Some squeue =>
      if sq_pid squeue =? 0 then
        (Some shm, ev0 ++ [LWLockRelease SQueuesLock])
      else
        let '(l, ev) := for_consumers disconnect_body 0
                          (sq_consumers squeue) in
        (Some (set_queue (set_sq_consumers l squeue) shm),
         ev0 ++ [LWLockAcquire sqs_producer_lwlock LW_EXCLUSIVE;
                 LWLockRelease SQueuesLock]
             ++ ev
             ++ [SetLatch sqs_producer_latch;
                 LWLockRelease sqs_producer_lwlock])
    end
  end.

(** *** SharedQueueRelease *)

(** The consumer found for the caller's node. *)
Definition release_consumer (i : Z) (cstate : ConsState)
  : ConsState * list Event :=
  let ev0 := [LWLockAcquire (cs_lwlock i) LW_EXCLUSIVE] in
  let ev1 := [LWLockRelease (cs_lwlock i);
              LWLockRelease sqs_producer_lwlock] in
  if cs_pid cstate =? 0 then (cstate, ev0 ++ ev1)
  else if bool_decide (cs_status cstate ≠ CONSUMER_DONE) then
    let cstate := set_status CONSUMER_DONE cstate in
    if cs_pid cstate >? 0 then
      (set_pid 0 cstate,
       ev0 ++ [DisownLatch (cs_latch i); SetLatch sqs_producer_latch] ++ ev1)
    else (cstate, ev0 ++ [SetLatch sqs_producer_latch] ++ ev1)
  else (cstate, ev0 ++ ev1).

(** The consumer was never bound: mark every unused consumer slot. *)
Definition release_unbound_body (i : Z) (cstate : ConsState)
  : ConsState * list Event :=
  if cs_node cstate =? -1 then
    (set_status CONSUMER_DONE cstate,
     [LWLockAcquire (cs_lwlock i) LW_EXCLUSIVE;
      SetLatch sqs_producer_latch;
      LWLockRelease (cs_lwlock i)])
  else (cstate, []).

(** The part of [SharedQueueRelease] that runs under the producer lock,
    down to the label [done]. *)
Definition release_slots (sq : SQueueHeader) : SQueueHeader * list Event :=
  if sq_nodeid sq =? -1 then (sq, [LWLockRelease sqs_producer_lwlock])
  else if negb (sq_nodeid sq =? PGXC_PARENT_NODE_ID) then
    match find_consumer_node PGXC_PARENT_NODE_ID 0 (sq_consumers sq) with
    | Some (i, cstate) =>
      let '(cstate, ev) := release_consumer i cstate in
      (set_sq_consumers (<[Z.to_nat i := cstate]> (sq_consumers sq)) sq, ev)
    | None =>
      let '(l, ev) := for_consumers release_unbound_body 0
                        (sq_consumers sq) in
      (set_sq_consumers l sq, ev ++ [LWLockRelease sqs_producer_lwlock])
    end
  else (sq, [LWLockRelease sqs_producer_lwlock]).

Definition SharedQueueRelease (sqname : string) (shm : Shmem)
  : Shmem * list Event :=
  let ev0 := [LWLockAcquire SQueuesLock LW_EXCLUSIVE] in
  match SharedQueues shm !! sqname with
  | Some sq =>
    let ev0 := ev0 ++ [LWLockAcquire sqs_producer_lwlock LW_EXCLUSIVE] in
    let '(sq, ev1) := release_slots sq in
    let '(shm, ev2) := drop_reference sq shm in
    (shm, ev0 ++ ev1 ++ ev2 ++ [LWLockRelease SQueuesLock])
  | None => (shm, ev0 ++ [LWLockRelease SQueuesLock])
  end.

End Registry.

Section Binding.

Variable MyProcPid : Z.
Variable PGXC_PARENT_NODE_ID : Z.
(** Markers of squeue.h stored in the consumer map. *)
Variable SQ_CONS_SELF : Z.
Variable SQ_CONS_NONE : Z.

(** *** SharedQueueBind *)

Inductive BindResult :=
| BindNotFound                      (* "Shared queue %s not found" *)
| BindProducerFailed (status : ConsStatus)
| BindOk (myindex : Z) (consMap : list Z).

(** The scan of the consumer slots for a node of [consNodes] in the
    producer branch: the map entry written, if any, and the slots. *)
Fixpoint bind_assign (nodeid : Z) (j : Z) (l : list ConsState)
  : option Z * list ConsState :=
  match l with
  | [] => (None, [])
  | cstate :: l =>
    if cs_node cstate =? nodeid then (Some SQ_CONS_NONE, cstate :: l)
    else if cs_node cstate =? -1 then (Some j, set_node nodeid cstate :: l)
    else
      let '(r, l) := bind_assign nodeid (j + 1) l in
      (r, cstate :: l)
  end.

(** [foreach(lc, distNodes)] of the producer branch. *)
Fixpoint bind_producer_loop (distNodes consNodes : list Z)
  (l : list ConsState) : list Z * list ConsState :=
  match distNodes with
  | [] => ([], l)
  | nodeid :: distNodes =>
    if nodeid =? PGXC_PARENT_NODE_ID then
      let '(consMap, l) := bind_producer_loop distNodes consNodes l in
      (SQ_CONS_SELF :: consMap, l)
    else if bool_decide (nodeid ∈ consNodes) then
      let '(r, l) := bind_assign nodeid 0 l in
      let '(consMap, l) := bind_producer_loop distNodes consNodes l in
      (match r with Some e => e :: consMap | None => consMap end, l)
    else
      let '(consMap, l) := bind_producer_loop distNodes consNodes l in
      (SQ_CONS_NONE :: consMap, l)
  end.

(** [foreach(lc, consNodes)] of the consumer branch; [inl status] is the
    error raised when the producer has failed already. *)
Fixpoint bind_consumer_loop (consNodes : list Z) (sq_nodeid : Z)
  (l : list ConsState) (myindex : Z)
  : (ConsStatus + Z) * list ConsState * list Event :=
  match consNodes with
  | [] => (inr myindex, l, [])
  | nodeid :: consNodes =>
    if nodeid =? sq_nodeid then
      bind_consumer_loop consNodes sq_nodeid l myindex
    else
      match find_consumer_node nodeid 0 l with
      | Some (i, cstate) =>
        if nodeid =? PGXC_PARENT_NODE_ID then
          let ev0 := [LWLockAcquire (cs_lwlock i) LW_EXCLUSIVE] in
          if bool_decide (cs_status cstate = CONSUMER_ERROR
                          ∨ cs_status cstate = CONSUMER_DONE) then
            (inl (cs_status cstate),
             <[Z.to_nat i := set_status CONSUMER_DONE cstate]> l,
             ev0 ++ [SetLatch sqs_producer_latch;
                     LWLockRelease (cs_lwlock i);
                     LWLockRelease sqs_producer_lwlock])
          else
            let l := <[Z.to_nat i := set_pid MyProcPid cstate]> l in
            let '(r, l, ev) := bind_consumer_loop consNodes sq_nodeid l i in
            (r, l, ev0 ++ [OwnLatch (cs_latch i);
                           LWLockRelease (cs_lwlock i)] ++ ev)
        else bind_consumer_loop consNodes sq_nodeid l myindex
      | None => bind_consumer_loop consNodes sq_nodeid l myindex
      end
  end.

Definition SharedQueueBind (sqname : string) (consNodes distNodes : list Z)
  (shm : Shmem) : BindResult * Shmem * list Event :=
  let ev0 := [LWLockAcquire SQueuesLock LW_EXCLUSIVE] in
  match SharedQueues shm !! sqname with
  | None => (BindNotFound, shm, ev0)
  | Some sq =>
    let ev0 := ev0 ++ [LWLockAcquire sqs_producer_lwlock LW_EXCLUSIVE;
                       LWLockRelease SQueuesLock] in
    if sq_pid sq =? 0 then
      let sq := set_sq_producer MyProcPid PGXC_PARENT_NODE_ID sq in
      let '(consMap, l) :=
        bind_producer_loop distNodes consNodes (sq_consumers sq) in
      let sq := set_sq_refcnt (sq_refcnt sq + 1) (set_sq_consumers l sq) in
      (BindOk (-1) consMap, set_queue sq shm,
       ev0 ++ [OwnLatch sqs_producer_latch;
               LWLockRelease sqs_producer_lwlock])
    else
      let '(r, l, ev) :=
        bind_consumer_loop consNodes (sq_nodeid sq) (sq_consumers sq) (-1) in
      let shm := set_queue (set_sq_consumers l sq) shm in
      match r with
      | inl status => (BindProducerFailed status, shm, ev0 ++ ev)
      | inr myindex =>
        (BindOk myindex [], shm,
         ev0 ++ ev ++ [LWLockRelease sqs_producer_lwlock])
      end
  end.

(** *** SharedQueueUnBind *)

Inductive UnBindResult :=
| UnBindDone
| UnBindBlocked
| UnBindNoEntry.

(** The scan of the consumers under the producer lock: the slots, the
    number [c_count] of consumers to wait for, and the trace. *)
Fixpoint unbind_scan (failed : bool) (i : Z) (l : list ConsState)
  : list ConsState * Z * list Event :=
  match l with
  | [] => ([], 0, [])
  | cstate :: l =>
    let '(l, c_count, ev') := unbind_scan failed (i + 1) l in
    let ev0 := [LWLockAcquire (cs_lwlock i) LW_EXCLUSIVE] in
    let ev1 := [LWLockRelease (cs_lwlock i)] in
    if bool_decide (cs_status cstate = CONSUMER_ACTIVE) && failed then
      (set_status CONSUMER_ERROR cstate :: l, c_count, ev0 ++ ev1 ++ ev')
    else if bool_decide (cs_status cstate ≠ CONSUMER_DONE) && negb failed then
      (cstate :: l, c_count + 1,
       ev0 ++ [SetLatch (cs_latch i); ResetLatch sqs_producer_latch]
           ++ ev1 ++ ev')
    else (cstate :: l, c_count, ev0 ++ ev1 ++ ev')
  end.

(** The recheck under [SQueuesLock]: the number [consumer_running]. *)
Fixpoint unbind_recheck (i : Z) (l : list ConsState) : Z * list Event :=
  match l with
  | [] => (0, [])
  | cstate :: l =>
    let '(n, ev) := unbind_recheck (i + 1) l in
    ((if bool_decide (cs_status cstate = CONSUMER_ACTIVE)
         && negb (cs_pid cstate =? 0) then 1 else 0) + n,
     [LWLockAcquire (cs_lwlock i) LW_EXCLUSIVE; LWLockRelease (cs_lwlock i)]
     ++ ev)
  end.

(** What the other processes do while the producer sleeps on its latch,
    and whether the wait ended by timeout. *)
Variable wait_producer : Shmem -> Shmem * bool.
(** What the other processes do between the release of the producer lock
    after the scan and the acquisition of [SQueuesLock]. *)
Variable unlocked : Shmem -> Shmem.

(** The code from the label [CHECK] on; the queue is named by its key.
    [fuel] bounds the number of passes through the scan. *)
Fixpoint unbind_loop (fuel : nat) (sqname : string) (failed : bool)
  (shm : Shmem) : UnBindResult * Shmem * list Event :=
  match fuel with
  | O => (UnBindBlocked, shm, [])
  | S fuel =>
    match SharedQueues shm !! sqname with
    | None => (UnBindNoEntry, shm, [])
    | Some squeue =>
      let '(l, c_count, ev1) := unbind_scan failed 0 (sq_consumers squeue) in
      let shm := set_queue (set_sq_consumers l squeue) shm in
      let ev := [LWLockAcquire sqs_producer_lwlock LW_EXCLUSIVE] ++ ev1
                ++ [LWLockRelease sqs_producer_lwlock] in
      if c_count =? 0 then
        let shm := unlocked shm in
        let ev := ev ++ [LWLockAcquire SQueuesLock LW_EXCLUSIVE;
                         LWLockAcquire sqs_producer_lwlock LW_EXCLUSIVE] in
        match SharedQueues shm !! sqname with
        | None => (UnBindNoEntry, shm, ev)
        | Some squeue =>
          let '(consumer_running, ev2) :=
            unbind_recheck 0 (sq_consumers squeue) in
          if consumer_running =? 0 then
            let '(shm, ev3) := drop_reference squeue shm in
            (UnBindDone, shm,
             ev ++ ev2 ++ [DisownLatch sqs_producer_latch] ++ ev3
                ++ [LWLockRelease sqs_producer_lwlock;
                    LWLockRelease SQueuesLock])
          else
            let '(r, shm, ev') := unbind_loop fuel sqname failed shm in
            (r, shm, ev ++ ev2 ++ [LWLockRelease sqs_producer_lwlock;
                                   LWLockRelease SQueuesLock] ++ ev')
        end
      else
        let '(shm, timeout) := wait_producer shm in
        let ev := ev ++ [WaitLatch sqs_producer_latch 10000] in
        let '(shm, ev2) :=
          if timeout then
            match SharedQueues shm !! sqname with
            | Some squeue =>
              let '(squeue, ev) := SharedQueueResetNotConnected squeue in
              (set_queue squeue shm, ev)
            | None => (shm, [])
            end
          else (shm, []) in
        let '(r, shm, ev') := unbind_loop fuel sqname failed shm in
        (r, shm, ev ++ ev2 ++ ev')
    end
  end.

Definition SharedQueueUnBind (fuel : nat) (sqname : string) (failed : bool)
  (shm : Shmem) : UnBindResult * Shmem * list Event :=
  unbind_loop fuel sqname failed shm.

End Binding.

(** ** Sample states used to exercise the theorems *)

(** A slot of a 16 byte queue in the given status, formatted as
    [SharedQueueAcquire] leaves it and bound to node 7. *)
Definition sample_consumer (status : ConsStatus) : ConsState :=
  mkConsState 0 7 0 status (fun _ => x00) 16 0 0.

Definition sample_queue (pid : Z) (status : ConsStatus) : SQueueHeader :=
  mkSQueueHeader "q" pid (-1) (Some 0%nat) 1 [sample_consumer status].

Definition sample_shmem (pid : Z) (status : ConsStatus) : Shmem :=
  mkShmem {[ "q" := sample_queue pid status ]} [Some "q"; None].

(** ** Traces named in the statements *)

(** The trace of [SharedQueueRead] for an empty queue marked EOF. *)
Definition eof_trace (consumerIdx : Z) : list Event :=
  [ DisownLatch (cs_latch consumerIdx);
    LWLockRelease (cs_lwlock consumerIdx);
    ExecClearTuple;
    SetLatch sqs_producer_latch;
    LWLockRelease sqs_producer_lwlock ].


(** The trace of one sleep of [SharedQueueRead] on an empty queue. *)
Definition read_wait_trace (consumerIdx : Z) : list Event :=
  [ ResetLatch (cs_latch consumerIdx);
    LWLockRelease (cs_lwlock consumerIdx);
    SetLatch sqs_producer_latch;
    LWLockRelease sqs_producer_lwlock;
    WaitLatch (cs_latch consumerIdx) (-1);
    LWLockAcquire sqs_producer_lwlock LW_SHARED;
    LWLockAcquire (cs_lwlock consumerIdx) LW_EXCLUSIVE ].

(** ** Occupancy of the consumer queues *)

(** Bytes in use in a consumer queue: what [QUEUE_FREE_SPACE] leaves. *)
Definition ring_occupancy (cstate : ConsState) : Z :=
  cs_qlength cstate - QUEUE_FREE_SPACE cstate.

Definition active_consumers (l : list ConsState) : list ConsState :=
  filter (fun cstate => cs_status cstate = CONSUMER_ACTIVE) l.

Definition sum_Z (l : list Z) : Z := foldr Z.add 0 l.

(** The condition of the specification for a pause of the producer: no
    active consumer has an empty queue, some consumer is active, and the
    average number of bytes in use in the queues of the active consumers
    exceeds half the queue length [L]; the average and the half are exact
    fractions, compared after multiplying out. *)
Definition spec_can_pause (L : Z) (squeue : SQueueHeader) : Prop :=
  Forall (fun cstate => cs_status cstate = CONSUMER_ACTIVE ->
                        cs_ntuples cstate > 0) (sq_consumers squeue)
  /\ active_consumers (sq_consumers squeue) <> []
  /\ 2 * sum_Z (ring_occupancy <$> active_consumers (sq_consumers squeue))
     > L * Z.of_nat (length (active_consumers (sq_consumers squeue))).

(** ** Locks held along a trace *)

Fixpoint remove_lock (l : LWLockId) (held : list LWLockId) : list LWLockId :=
  match held with
  | [] => []
  | l' :: held => if decide (l = l') then held else l' :: remove_lock l held
  end.

(** The locks held after one more call. *)
Definition held_step (held : list LWLockId) (e : Event) : list LWLockId :=
  match e with
  | LWLockAcquire l _ => l :: held
  | LWLockRelease l => remove_lock l held
  | _ => held
  end.

Definition held_after (held : list LWLockId) (ev : list Event)
  : list LWLockId :=
  foldl held_step held ev.

(** [check e held] holds for every call [e] of the trace, [held] being the
    locks held when the call is made. *)
Fixpoint trace_all (check : Event -> list LWLockId -> bool)
  (held : list LWLockId) (ev : list Event) : bool :=
  match ev with
  | [] => true
  | e :: ev => check e held && trace_all check (held_step held e) ev
  end.

(** No lock is held by the process when it sleeps. *)
Definition sleeps_unlocked (ev : list Event) : bool :=
  trace_all (fun e held =>
               match e with
               | pg_usleep _ | WaitLatch _ _ => bool_decide (held = [])
               | _ => true
               end) [] ev.

(** The hash table entry is only removed with [SQueuesLock] held. *)
Definition removes_locked (ev : list Event) : bool :=
  trace_all (fun e held =>
               match e with
               | hash_remove _ _ => bool_decide (SQueuesLock ∈ held)
               | _ => true
               end) [] ev.

(** The sleeps of a trace, with their lengths in microseconds. *)
Definition sleeps (ev : list Event) : list Z :=
  omap (fun e => match e with pg_usleep us => Some us | _ => None end) ev.

(** ** Stale queues seen by SharedQueueAcquire *)

(** The entry named [sqname] has a bound producer and the first consumer
    slot of the caller's node, if there is one, is [CONSUMER_DONE]. *)
Definition stale_queue (me : Z) (sqname : string) (shm : Shmem) : bool :=
  match SharedQueues shm !! sqname with
  | Some sq =>
    negb (sq_pid sq =? 0)
    && match find_consumer_node me 0 (sq_consumers sq) with
       | Some (_, cstate) => bool_decide (cs_status cstate = CONSUMER_DONE)
       | None => true
       end
  | None => false
  end.

(** A data row of [n] bytes. *)
Definition sample_row (n : nat) : RemoteDataRow := replicate n x41.

(** ** Dropping references to a queue *)

(** A call that leaves [SQueuesLock] alone and removes no entry. *)
Definition keeps_registry (e : Event) : Prop :=
  match e with
  | LWLockRelease SQueuesLock => False
  | hash_remove _ _ => False
  | _ => True
  end.

(** What a call that drops one reference of the entry [sq] found under
    [sqname] leaves behind, [shm] being the shared memory when the
    reference is dropped: when the count reaches zero the entry is no longer
    in the hash table, the sync block no longer points to it and the header
    no longer points to the sync block when the entry is removed; otherwise
    the entry stays, one reference less, and nothing is removed. *)
Definition reference_dropped (sqname : string) (sq : SQueueHeader)
  (shm shm' : Shmem) (ev : list Event) : Prop :=
  if sq_refcnt sq =? 1 then
    SharedQueues shm' !! sqname = None
    /\ SQueueSyncs shm' = clear_sync_queue (sq_sync sq) (SQueueSyncs shm)
    /\ hash_remove sqname None ∈ ev
    /\ (forall sync, hash_remove sqname sync ∈ ev -> sync = None)
  else
    (exists sq', SharedQueues shm' !! sqname = Some sq'
                 /\ sq_key sq' = sqname
                 /\ sq_refcnt sq' = sq_refcnt sq - 1
                 /\ sq_sync sq' = sq_sync sq)
    /\ SQueueSyncs shm' = SQueueSyncs shm
    /\ (forall sync, hash_remove sqname sync ∉ ev).

(** The calls that drop a reference. *)
Inductive DropCall :=
| CallRelease (node : Z)
| CallUnBind (failed : bool).

(** A sequence of [SharedQueueRelease] and [SharedQueueUnBind] calls on one
    queue, run one after the other with no other process active: a wait of
    the producer ends by timeout.  [None] when an unbind does not complete
    within [fuel] scans. *)
Fixpoint run_drops (fuel : nat) (calls : list DropCall) (sqname : string)
  (shm : Shmem) : option Shmem :=
  match calls with
  | [] => Some shm
  | CallRelease node :: calls =>
    run_drops fuel calls sqname (SharedQueueRelease node sqname shm).1
  | CallUnBind failed :: calls =>
    match SharedQueueUnBind (fun shm => (shm, true)) (fun shm => shm)
            fuel sqname failed shm with
    | (UnBindDone, shm, _) => run_drops fuel calls sqname shm
    | _ => None
    end
  end.

(** A trace that leaves the set of held locks as it found it and removes
    no entry. *)
Definition neutral (ev : list Event) : Prop :=
  (forall held, held_after held ev = held)
  /\ Forall (fun e => forall k s, e <> hash_remove k s) ev.

(** What reference counting sees of the shared memory: the sync pool and,
    of the entry named [sqname], its key, reference count and sync block. *)
Definition ref_view (sqname : string) (shm : Shmem)
  : list (option string) * option (string * Z * option nat) :=
  (SQueueSyncs shm,
   (fun sq => (sq_key sq, sq_refcnt sq, sq_sync sq))
     <$> SharedQueues shm !! sqname).

(** The reference count of the entry named [sqname], if there is one. *)
Definition refcnt_of (sqname : string) (shm : Shmem) : option Z :=
  sq_refcnt <$> SharedQueues shm !! sqname.

(** ** Sample runs of the registry calls

    Calls as the sessions of nodes 1 (pid 100, the producer) and 7 (pid
    200, a consumer) issue them on the queue ["q"], in a build with 64
    queues of 65536 bytes; no other process is active. *)

Definition sample_empty : Shmem := mkShmem ∅ [None; None].

Definition sample_acquire (node : Z) (shm : Shmem) : Shmem :=
  (SharedQueueAcquire 64 65536 64 48 node (fun shm => shm) "q" 1 shm).1.2.

Definition sample_bind (pid node : Z) (shm : Shmem) : Shmem :=
  (SharedQueueBind pid node (-1) (-2) "q" [1; 7] [1; 7] shm).1.2.

Definition sample_release (node : Z) (shm : Shmem) : Shmem :=
  (SharedQueueRelease node "q" shm).1.

Definition sample_unbind (shm : Shmem) : UnBindResult * Shmem :=
  (SharedQueueUnBind (fun shm => (shm, true)) (fun shm => shm) 3 "q" false
     shm).1.

(** ** The cyclic queue as a byte stream *)

(** A position advanced past the end of a queue of length [L] goes round. *)
Definition wrap (L x : Z) : Z := if x <? L then x else x - L.

(** The [n] bytes found from position [pos] on, going round at [L]. *)
Definition cyc_load (q : memory) (L pos : Z) (n : nat) : list byte :=
  (fun i : nat => q (wrap L (pos + Z.of_nat i))) <$> seq 0 n.

(** The longest queue for which the [int] sums of the queue macros,
    [cs_qwritepos + len], [cs_qreadpos + len] and
    [cs_qlength + cs_qreadpos], stay below [INT_MAX]: [INT_MAX / 2]. *)
Definition QLENGTH_MAX : Z := 1073741823.

(** The positions are inside a queue that can hold more than a length. *)
Definition slot_wf (cstate : ConsState) : Prop :=
  SIZEOF_INT < cs_qlength cstate <= QLENGTH_MAX
  /\ 0 <= cs_qreadpos cstate < cs_qlength cstate
  /\ 0 <= cs_qwritepos cstate < cs_qlength cstate.

(** A row whose length fits a C [int]. *)
Definition row_ok (datarow : RemoteDataRow) : Prop := msglen datarow <= INT_MAX.

(** The bytes of a row in the queue: length, then message. *)
Definition record (datarow : RemoteDataRow) : list byte :=
  int_bytes (msglen datarow) ++ datarow.

(** The queue holds exactly the bytes [s], from the read position to the
    write position. *)
Definition stream_inv (cstate : ConsState) (s : list byte) : Prop :=
  Z.of_nat (length s) <= cs_qlength cstate
  /\ cs_qwritepos cstate
     = wrap (cs_qlength cstate) (cs_qreadpos cstate + Z.of_nat (length s))
  /\ cyc_load (cs_q cstate) (cs_qlength cstate) (cs_qreadpos cstate)
       (length s) = s.

(** Two consumer states that differ at most in the queue bytes and in the
    positions named. *)
Definition same_but_queue (c c' : ConsState) : Prop :=
  cs_pid c' = cs_pid c /\ cs_node c' = cs_node c
  /\ cs_ntuples c' = cs_ntuples c /\ cs_status c' = cs_status c
  /\ cs_qlength c' = cs_qlength c.

(** ** What the queue holds

    The states of a consumer queue between two calls: rows queued whole
    ([Normal]), or a row [t] longer than the queue on its way: its first
    part queued ([LongFirst]), the consumer waiting for more after [off]
    bytes ([LongWait]), a middle part queued ([LongMid]), the last part
    queued, whole rows behind it ([LongLast]). *)
Inductive RingMode :=
| Normal (rq : list RemoteDataRow)
| LongFirst (t : RemoteDataRow)
| LongWait (t : RemoteDataRow) (off : Z)
| LongMid (t : RemoteDataRow) (off : Z)
| LongLast (t : RemoteDataRow) (off : Z) (rq : list RemoteDataRow).

Definition ring_inv (cstate : ConsState) (mode : RingMode) : Prop :=
  slot_wf cstate
  /\ let L := cs_qlength cstate in
     match mode with
     | Normal rq =>
       cs_ntuples cstate = Z.of_nat (length rq)
       /\ stream_inv cstate (concat (record <$> rq))
     | LongFirst t =>
       L - SIZEOF_INT < msglen t /\ row_ok t
       /\ cs_ntuples cstate = 1
       /\ stream_inv cstate
            (int_bytes (msglen t) ++ take (Z.to_nat (L - SIZEOF_INT)) t)
     | LongWait t off =>
       L - SIZEOF_INT < msglen t /\ 0 < off < msglen t /\ row_ok t
       /\ cs_ntuples cstate = LONG_TUPLE
       /\ cs_qwritepos cstate = cs_qreadpos cstate
       /\ memcpy_from (cs_q cstate) 0 (Z.to_nat SIZEOF_INT) = int_bytes off
     | LongMid t off =>
       0 < off /\ L - SIZEOF_INT < msglen t - off /\ row_ok t
       /\ cs_ntuples cstate = 1
       /\ stream_inv cstate
            (int_bytes (msglen t - off)
             ++ take (Z.to_nat (L - SIZEOF_INT)) (drop (Z.to_nat off) t))
     | LongLast t off rq =>
       0 < off < msglen t /\ msglen t - off <= L - SIZEOF_INT /\ row_ok t
       /\ cs_ntuples cstate = 1 + Z.of_nat (length rq)
       /\ stream_inv cstate
            (int_bytes (msglen t - off) ++ drop (Z.to_nat off) t
             ++ concat (record <$> rq))
     end.

(** The bytes of the queue in use, lengths included. *)
Definition used_bytes (L : Z) (mode : RingMode) : Z :=
  match mode with
  | Normal rq => Z.of_nat (length (concat (record <$> rq)))
  | LongFirst _ | LongMid _ _ => L
  | LongWait _ _ => 0
  | LongLast t off rq =>
    SIZEOF_INT + (msglen t - off)
    + Z.of_nat (length (concat (record <$> rq)))
  end.

(** The queue after one more whole row. *)
Definition mode_push (mode : RingMode) (t : RemoteDataRow) : RingMode :=
  match mode with
  | Normal rq => Normal (rq ++ [t])
  | LongLast t0 off rq => LongLast t0 off (rq ++ [t])
  | _ => mode
  end.

(** Whole rows can be queued behind what the queue holds. *)
Definition accepts_rows (mode : RingMode) : bool :=
  match mode with
  | Normal _ | LongLast _ _ _ => true
  | _ => false
  end.

(** The trace of one sleep of [sq_pull_long_tuple]. *)
Definition pull_wait_trace (consumerIdx : Z) : list Event :=
  [ SetLatch sqs_producer_latch;
    ResetLatch (cs_latch consumerIdx);
    LWLockRelease (cs_lwlock consumerIdx);
    LWLockRelease sqs_producer_lwlock;
    WaitLatch (cs_latch consumerIdx) (-1);
    LWLockAcquire sqs_producer_lwlock LW_SHARED;
    LWLockAcquire (cs_lwlock consumerIdx) LW_EXCLUSIVE ].

(** The trace of the release of both locks at the end of a read. *)
Definition read_unlock_trace (consumerIdx : Z) : list Event :=
  [ LWLockRelease (cs_lwlock consumerIdx);
    LWLockRelease sqs_producer_lwlock ].

(** ** The rows on their way to a consumer *)

(** The rows of the store that were not moved to the queue yet. *)
Definition pending (ts : Tuplestorestate) : list RemoteDataRow :=
  drop (ts_ptr1 ts) (ts_tuples ts).

Definition pending_store (store : option Tuplestorestate)
  : list RemoteDataRow :=
  match store with
  | Some ts => pending ts
  | None => []
  end.

(** The advancing pointer is inside the store. *)
Definition store_ok (store : option Tuplestorestate) : Prop :=
  match store with
  | Some ts => (ts_ptr1 ts <= length (ts_tuples ts))%nat
  | None => True
  end.

(** The rows written and not yet read, in the order written: those in the
    queue, then those in the store [p].  A long row on its way stays at the
    head of the store until its last part is queued. *)
Definition in_flight (mode : RingMode) (p : list RemoteDataRow)
  : list RemoteDataRow :=
  match mode with
  | Normal rq => rq ++ p
  | LongLast t _ rq => t :: rq ++ p
  | LongFirst _ | LongWait _ _ | LongMid _ _ => p
  end.

Definition long_head (mode : RingMode) (p : list RemoteDataRow) : Prop :=
  match mode with
  | LongFirst t | LongWait t _ | LongMid t _ => exists rest, p = t :: rest
  | _ => True
  end.

(** What calls of the producer can make of the queue. *)
Inductive producer_moves : RingMode -> RingMode -> Prop :=
| pm_normal rq more : producer_moves (Normal rq) (Normal (rq ++ more))
| pm_first t : producer_moves (Normal []) (LongFirst t)
| pm_first_stay t : producer_moves (LongFirst t) (LongFirst t)
| pm_wait_stay t off : producer_moves (LongWait t off) (LongWait t off)
| pm_wait_mid t off : producer_moves (LongWait t off) (LongMid t off)
| pm_wait_last t off rq :
    producer_moves (LongWait t off) (LongLast t off rq)
| pm_mid_stay t off : producer_moves (LongMid t off) (LongMid t off)
| pm_last t off rq more :
    producer_moves (LongLast t off rq) (LongLast t off (rq ++ more)).

(** The queue and the store of a consumer agree with [mode]. *)
Definition flight_inv (cstate : ConsState) (store : option Tuplestorestate)
  (mode : RingMode) : Prop :=
  ring_inv cstate mode /\ store_ok store
  /\ long_head mode (pending_store store)
  /\ Forall row_ok (pending_store store).

(** ** Runs of the producer and one consumer over a queue *)

Inductive ProducerCall :=
| PWrite (datarow : RemoteDataRow)  (* SharedQueueWrite for the consumer *)
| PFinish.                          (* the consumer's pass of SharedQueueFinish *)

(** The producer's side: the store it keeps for the consumer, and the rows
    it has written for the consumer while the consumer was active, in the
    order of the calls. *)
Record Producer := mkProducer {
  p_store : option Tuplestorestate;
  p_written : list RemoteDataRow
}.

Definition produce (consumerIdx : Z) (call : ProducerCall) (p : Producer)
  (cstate : ConsState) : Producer * ConsState :=
  match call with
  | PWrite datarow =>
    let '(cstate', store, _) :=
      SharedQueueWrite consumerIdx cstate datarow (p_store p) in
    (mkProducer store
       (if bool_decide (cs_status cstate = CONSUMER_ACTIVE)
        then p_written p ++ [datarow] else p_written p),
     cstate')
  | PFinish =>
    let '(cstate', store, _, _) :=
      finish_consumer consumerIdx cstate (p_store p) in
    (mkProducer store (p_written p), cstate')
  end.

Fixpoint produce_all (consumerIdx : Z) (calls : list ProducerCall)
  (p : Producer) (cstate : ConsState) : Producer * ConsState :=
  match calls with
  | [] => (p, cstate)
  | call :: calls =>
    let '(p, cstate) := produce consumerIdx call p cstate in
    produce_all consumerIdx calls p cstate
  end.

(** What surrounds a sleeping consumer: the producer, and the calls it
    makes during each of the sleeps to come.  When the schedule is spent
    nobody touches the queue. *)
Definition ReadEnv : Type := Producer * list (list ProducerCall).

Definition producer_turn (consumerIdx : Z) (env : ReadEnv)
  (cstate : ConsState) : ReadEnv * ConsState :=
  match env.2 with
  | [] => (env, cstate)
  | calls :: schedule =>
    let '(p, cstate) := produce_all consumerIdx calls env.1 cstate in
    ((p, schedule), cstate)
  end.

Inductive Call :=
| Produce (call : ProducerCall)
| Consume (canwait : bool) (fuel : nat)
    (schedule : list (list ProducerCall)).   (* SharedQueueRead *)

Record System := mkSystem {
  sys_cstate : ConsState;
  sys_producer : Producer;
  sys_read : list RemoteDataRow;   (* the rows the reads returned *)
  sys_eof : bool;                  (* a read returned true *)
  sys_blocked : bool               (* a read is still sleeping *)
}.

Definition step (consumerIdx : Z) (s : System) (call : Call) : System :=
  if sys_blocked s then s
  else
    match call with
    | Produce pc =>
      let '(p, cstate) :=
        produce consumerIdx pc (sys_producer s) (sys_cstate s) in
      mkSystem cstate p (sys_read s) (sys_eof s) false
    | Consume canwait fuel schedule =>
      let '(r, env, cstate, _) :=
        SharedQueueRead (producer_turn consumerIdx) fuel consumerIdx canwait
          (sys_producer s, schedule) (sys_cstate s) in
      match r with
      | ReadTuple datarow =>
        mkSystem cstate env.1 (sys_read s ++ [datarow]) (sys_eof s) false
      | ReadEOF => mkSystem cstate env.1 (sys_read s) true false
      | ReadBlocked => mkSystem cstate env.1 (sys_read s) (sys_eof s) true
      | _ => mkSystem cstate env.1 (sys_read s) (sys_eof s) false
      end
    end.

Definition run (consumerIdx : Z) (calls : list Call) (s : System) : System :=
  foldl (step consumerIdx) s calls.

Definition call_rows_ok (call : ProducerCall) : Prop :=
  match call with
  | PWrite datarow => row_ok datarow
  | PFinish => True
  end.

Definition calls_ok (call : Call) : Prop :=
  match call with
  | Produce pc => call_rows_ok pc
  | Consume _ _ schedule => Forall (Forall call_rows_ok) schedule
  end.

(** A consumer state as [SharedQueueBind] leaves it: active, nothing
    queued. *)
Definition fresh_slot (cstate : ConsState) : Prop :=
  slot_wf cstate /\ cs_status cstate = CONSUMER_ACTIVE
  /\ cs_ntuples cstate = 0 /\ cs_qreadpos cstate = cs_qwritepos cstate.

Definition start (cstate : ConsState) : System :=
  mkSystem cstate (mkProducer None []) [] false false.

(** The rows written are those read, then those in the queue, then those
    in the store; once the consumer is not active any more nothing is left
    in the store. *)
Definition sys_inv (cstate : ConsState) (p : Producer)
  (read : list RemoteDataRow) (mode : RingMode) : Prop :=
  if bool_decide (cs_status cstate = CONSUMER_ACTIVE) then
    flight_inv cstate (p_store p) mode
    /\ p_written p = read ++ in_flight mode (pending_store (p_store p))
  else
    ring_inv cstate mode /\ accepts_rows mode = true
    /\ p_written p = read ++ in_flight mode [].

(** The queue between two reads: no long row is half read. *)
Definition idle (mode : RingMode) : Prop :=
  match mode with
  | Normal _ | LongFirst _ => True
  | _ => False
  end.

(** What [sq_pull_long_tuple] leaves behind when it was reading the long
    row [t]. *)
Definition pull_post (read : list RemoteDataRow) (t : RemoteDataRow)
  (out : option (list byte) * ReadEnv * ConsState * list Event) : Prop :=
  Forall (Forall call_rows_ok) out.1.1.2.2
  /\ match out.1.1.1 with
     | Some msg =>
       msg = t
       /\ exists rq,
            sys_inv (set_ntuples (cs_ntuples out.1.2 - 1) out.1.2)
              out.1.1.2.1 (read ++ [t]) (Normal rq)
     | None => exists mode, sys_inv out.1.2 out.1.1.2.1 read mode
     end.

(** What [SharedQueueRead] leaves behind. *)
Definition read_post (read : list RemoteDataRow)
  (out : ReadResult * ReadEnv * ConsState * list Event) : Prop :=
  Forall (Forall call_rows_ok) out.1.1.2.2
  /\ match out.1.1.1 with
     | ReadTuple datarow =>
       exists mode,
         idle mode /\ sys_inv out.1.2 out.1.1.2.1 (read ++ [datarow]) mode
     | ReadEOF =>
       cs_status out.1.2 <> CONSUMER_ACTIVE
       /\ sys_inv out.1.2 out.1.1.2.1 read (Normal [])
     | ReadBlocked => exists mode, sys_inv out.1.2 out.1.1.2.1 read mode
     | _ => exists mode, idle mode /\ sys_inv out.1.2 out.1.1.2.1 read mode
     end.

(** The account of the rows along a run.  Once a read has returned true
    the consumer is not active any more and every row written was read. *)
Definition run_inv (s : System) : Prop :=
  if sys_eof s then
    p_written (sys_producer s) = sys_read s
    /\ cs_status (sys_cstate s) <> CONSUMER_ACTIVE
    /\ ring_inv (sys_cstate s) (Normal [])
  else
    exists mode,
      sys_inv (sys_cstate s) (sys_producer s) (sys_read s) mode
      /\ (sys_blocked s = false -> idle mode).

(** ** Writing rows and reading them back

    The producer writes its rows with [SharedQueueWrite]; when it has
    written them all it goes through [SharedQueueFinish] whenever it is
    woken up, until the stores are empty.  The consumer reads with
    [canwait] set. *)

(** The calls that write the rows [ts] for the consumer. *)
Definition writes (ts : list RemoteDataRow) : list Call :=
  (fun t => Produce (PWrite t)) <$> ts.

(** [k] reads of the consumer; at each of the at most [fuel] wake-ups of
    the producer during a read the producer makes its pass of
    [SharedQueueFinish]. *)
Definition drain_reads (fuel k : nat) : list Call :=
  replicate k (Consume true fuel (replicate fuel [PFinish])).

(** [fuel] wake-ups of the producer are enough for the row [t] to go
    through a queue of [L] bytes, [L - 4] bytes at a time. *)
Definition fits_fuel (fuel : nat) (L : Z) (t : RemoteDataRow) : Prop :=
  msglen t <= Z.of_nat fuel * (L - SIZEOF_INT).

(** The rows the calls hand to [SharedQueueWrite], in the order of the
    calls. *)
Definition rows_written (calls : list Call) : list RemoteDataRow :=
  omap (fun call => match call with
                    | Produce (PWrite t) => Some t
                    | _ => None
                    end) calls.

(** A write of the producer, or a read during which the producer does
    nothing. *)
Definition write_or_poll (call : Call) : Prop :=
  match call with
  | Produce (PWrite t) => row_ok t
  | Consume _ _ [] => True
  | _ => False
  end.

(** A consumer that is still to be served: active, or at the end of its
    data and not yet told. *)
Definition live (cstate : ConsState) : Prop :=
  cs_status cstate = CONSUMER_ACTIVE \/ cs_status cstate = CONSUMER_EOF.

(** What a read leaves as it is while the producer only runs
    [SharedQueueFinish]: the rows recorded as written, the schedule of the
    producer up to the passes made, the length of the queue, and that the
    consumer is still to be served. *)
Definition drain_kept (p : Producer) (cstate : ConsState) (env : ReadEnv)
  (c : ConsState) : Prop :=
  p_written env.1 = p_written p
  /\ (exists m, env.2 = replicate m [PFinish])
  /\ cs_qlength c = cs_qlength cstate
  /\ (live cstate -> live c).

(** A row whose bytes differ from one another. *)
Definition counting_row (n : nat) : RemoteDataRow :=
  (fun i => byte_of_Z (Z.of_nat i)) <$> seq 0 n.

(** Three rows for a queue of 16 bytes: the first fits, the second is
    longer than the queue, the third fits. *)
Definition sample_rows : list RemoteDataRow :=
  [counting_row 3; counting_row 40; counting_row 5].

(** Three rows written to a queue of 16 bytes, the second longer than the
    queue, then read while the producer runs [SharedQueueFinish]. *)
Definition sample_run : list Call :=
  [ Produce (PWrite (counting_row 3));
    Produce (PWrite (counting_row 40));
    Produce (PWrite (counting_row 5));
    Consume false 0 [];
    Consume true 5 (replicate 5 [PFinish]);
    Consume true 5 (replicate 5 [PFinish]);
    Produce PFinish;
    Consume true 5 (replicate 5 [PFinish]) ].

(** A run that leaves the consumer asleep in [sq_pull_long_tuple], the
    first part of a row of 40 bytes read. *)
Definition long_run : list Call :=
  [ Produce (PWrite (counting_row 40));
    Produce PFinish;
    Consume true 1 [] ].

(** How [cs_ntuples] and the two positions go together. *)
Definition positions_agree (cstate : ConsState) : Prop :=
  (cs_ntuples cstate <= 0 -> cs_qreadpos cstate = cs_qwritepos cstate)
  /\ (0 < cs_ntuples cstate ->
      (cs_qreadpos cstate = cs_qwritepos cstate
       <-> QUEUE_FREE_SPACE cstate = 0)).

(** The sample queue of 16 bytes after a row of [n] bytes was written to
    it. *)
Definition sample_written (n : nat) : ConsState :=
  (SharedQueueWrite 0 (sample_consumer CONSUMER_ACTIVE) (counting_row n)
     None).1.1.

(** A queue with two consumers of 16 bytes each, a row of 5 bytes written
    to the first (9 bytes in use) and one of 4 bytes to the second (8 bytes
    in use). *)
Definition sample_pause_queue : SQueueHeader :=
  set_sq_consumers [sample_written 5; sample_written 4]
    (sample_queue 100 CONSUMER_ACTIVE).

(** The sample queue once a row of 40 bytes was written and the producer
    went through [SharedQueueFinish]: the first part of the row is queued. *)
Definition sample_long_first : ConsState :=
  sys_cstate (run 0 [Produce (PWrite (counting_row 40)); Produce PFinish]
                (start (sample_consumer CONSUMER_ACTIVE))).


(** ** The lock discipline

    squeue.c asks for a strict order between [SQueuesLock], the producer
    lock of a queue and the lock of a consumer, and sleeps only after
    releasing what it holds. *)

Definition lock_rank (l : LWLockId) : Z :=
  match l with
  | SQueuesLock => 0
  | sqs_producer_lwlock => 1
  | cs_lwlock _ => 2
  end.

(** A call is in order when it is made with the locks [held]: a lock is
    acquired only above every lock held, a lock released is held, and the
    process holds nothing when it goes to sleep. *)
Definition lock_step_ok (e : Event) (held : list LWLockId) : bool :=
  match e with
  | LWLockAcquire l _ => forallb (fun h => lock_rank h <? lock_rank l) held
  | LWLockRelease l => bool_decide (l ∈ held)
  | pg_usleep _ | WaitLatch _ _ => bool_decide (held = [])
  | _ => true
  end.

(** The locks held after a trace all of whose calls are in order. *)
Fixpoint lock_check (held : list LWLockId) (ev : list Event)
  : option (list LWLockId) :=
  match ev with
  | [] => Some held
  | e :: ev =>
    if lock_step_ok e held then lock_check (held_step held e) ev else None
  end.

(** Every call of the trace is in order and no lock is left held. *)
Definition lock_disciplined (ev : list Event) : Prop :=
  trace_all lock_step_ok [] ev = true /\ held_after [] ev = [].

(** A call on a latch, or the clearing of the destination slot. *)
Definition latch_call (e : Event) : Prop :=
  match e with
  | SetLatch _ | ResetLatch _ | OwnLatch _ | DisownLatch _
  | ExecClearTuple | hash_remove _ _ => True
  | _ => False
  end.

(** The locks a read holds between its sleeps. *)
Definition read_locks (consumerIdx : Z) : list LWLockId :=
  [cs_lwlock consumerIdx; sqs_producer_lwlock].

(** ** What SharedQueueUnBind and the resets do to the consumers *)

(** The consumers of the entry named [sqname]. *)
Definition entry_consumers (sqname : string) (shm : Shmem)
  : option (list ConsState) :=
  sq_consumers <$> SharedQueues shm !! sqname.

(** A consumer as the scan of a failed [SharedQueueUnBind] leaves it. *)
Definition mark_failed (cstate : ConsState) : ConsState :=
  if bool_decide (cs_status cstate = CONSUMER_ACTIVE)
  then set_status CONSUMER_ERROR cstate else cstate.

(** The consumer is connected: a session has bound to it. *)
Definition connected (cstate : ConsState) : Prop := cs_pid cstate <> 0.

Definition consumer_done (cstate : ConsState) : Prop :=
  cs_status cstate = CONSUMER_DONE.

(** The calls to [WaitLatch] of a trace. *)
Definition latch_waits (ev : list Event) : list (LatchId * Z) :=
  omap (fun e => match e with
                 | WaitLatch l timeout => Some (l, timeout)
                 | _ => None
                 end) ev.

(** A consumer as [SharedQueueResetNotConnected] leaves it. *)
Definition drop_unconnected (cstate : ConsState) : ConsState :=
  if bool_decide (cs_pid cstate = 0 ∧ cs_status cstate ≠ CONSUMER_DONE)
  then discard_tuples (set_status CONSUMER_DONE cstate) else cstate.

(** The number of local stores a producer still holds. *)
Definition stores_left (tuplestore : list (option Tuplestorestate)) : Z :=
  Z.of_nat (length (omap id tuplestore)).

(** A consumer is active exactly when the producer holds a store for it. *)
Definition active_iff_store (cstate : ConsState)
  (tuplestore : option Tuplestorestate) : Prop :=
  cs_status cstate = CONSUMER_ACTIVE <-> is_Some tuplestore.

(** The only change of status [SharedQueueFinish] makes. *)
Definition finish_status (before after : ConsState) : Prop :=
  cs_status after = cs_status before
  \/ (cs_status before = CONSUMER_ACTIVE /\ cs_status after = CONSUMER_EOF).

(** The association between the entries of the hash table and the sync
    blocks: the pool has [NUM_SQUEUES] blocks, every entry is stored under
    its key and points to a block whose [queue] points back to it, and
    every block in use belongs to an entry. *)
Definition registry_inv (NUM_SQUEUES : nat) (shm : Shmem) : Prop :=
  length (SQueueSyncs shm) = NUM_SQUEUES
  /\ (forall k sq, SharedQueues shm !! k = Some sq ->
        sq_key sq = k
        /\ exists idx, sq_sync sq = Some idx
                       /\ SQueueSyncs shm !! idx = Some (Some k))
  /\ (forall idx k, SQueueSyncs shm !! idx = Some (Some k) ->
        exists sq, SharedQueues shm !! k = Some sq /\ sq_sync sq = Some idx).

(** ** SharedQueuesInit *)

(** The locks of a sync block, as indices into [SQueueLocks]. *)
Record SQueueSyncLocks := mkSQueueSyncLocks {
  sqs_producer_lwlock_idx : Z;
  sqs_consumer_lwlock_idx : list Z
}.

(** [for (j = 0; j < MaxDataNodes-1; j++)] with the counter [l] of the
    locks handed out so far; [n] passes are left. *)
Fixpoint init_consumer_sync (n : nat) (l : Z) : list Z * Z :=
  match n with
  | O => ([], l)
  | S n =>
    let '(consumers, l') := init_consumer_sync n (l + 1) in
    (l :: consumers, l')
  end.

(** [for (i = 0; i < NUM_SQUEUES; i++)]; [n] passes are left. *)
Fixpoint init_sync_blocks (MaxDataNodes : Z) (n : nat) (l : Z)
  : list SQueueSyncLocks * Z :=
  match n with
  | O => ([], l)
  | S n =>
    let producer := l in
    let '(consumers, l) :=
      init_consumer_sync (Z.to_nat (MaxDataNodes - 1)) (l + 1) in
    let '(blocks, l) := init_sync_blocks MaxDataNodes n l in
    (mkSQueueSyncLocks producer consumers :: blocks, l)
  end.

(** The first call, in the postmaster ([found] is false): the empty hash
    table, the pool of sync blocks with [queue = NULL], the locks of the
    blocks, and [nlocks], the length of [SQueueLocks]. *)
Definition SharedQueuesInit (NUM_SQUEUES : nat) (MaxDataNodes : Z)
  : Shmem * list SQueueSyncLocks * Z :=
  let nlocks := Z.of_nat NUM_SQUEUES * MaxDataNodes in
  (mkShmem ∅ (replicate NUM_SQUEUES None),
   (init_sync_blocks MaxDataNodes NUM_SQUEUES 0).1, nlocks).

(** The locks in use, in the order of the blocks. *)
Definition locks_in_use (blocks : list SQueueSyncLocks) : list Z :=
  concat ((fun b => sqs_producer_lwlock_idx b :: sqs_consumer_lwlock_idx b)
            <$> blocks).

(** An entry as [SharedQueueAcquire] formats it, with two consumer queues
    of 16 bytes. *)
Definition sample_acquired : Shmem :=
  mkShmem {[ "q" := mkSQueueHeader "q" 0 (-1) (Some 0%nat) 1
                      (replicate 2 (format_consumer 16)) ]}
    [Some "q"; None].

(** The nodes of [distNodes] that get a consumer queue when the producer
    binds: those of [consNodes] other than the producer's own node. *)
Definition queued_nodes (PGXC_PARENT_NODE_ID : Z) (consNodes distNodes : list Z)
  : list Z :=
  filter (fun n => n <> PGXC_PARENT_NODE_ID /\ n ∈ consNodes) distNodes.

(** The shared memory once a call that works on the entry in place
    ([SharedQueueWrite], [SharedQueueRead], [SharedQueueFinish]) has left
    the consumers [l] in the entry [sqname]. *)
Definition with_consumers (sqname : string) (l : list ConsState)
  (shm : Shmem) : Shmem :=
  match SharedQueues shm !! sqname with
  | Some sq => set_queue (set_sq_consumers l sq) shm
  | None => shm
  end.

(** The shared memory [shm] with one more entry, which has the sync block
    [idx]. *)
Definition with_entry (sq : SQueueHeader) (idx : nat) (shm : Shmem) : Shmem :=
  mkShmem (<[sq_key sq := sq]> (SharedQueues shm))
    (<[idx := Some (sq_key sq)]> (SQueueSyncs shm)).

(** An entry with the sync block [idx], as the calls of its life cycle
    leave it. *)
Definition life_queue (sqname : string) (idx : nat) (pid nodeid refcnt : Z)
  (l : list ConsState) : SQueueHeader :=
  mkSQueueHeader sqname pid nodeid (Some idx) refcnt l.

(** The size [SharedQueueAcquire] gives the queue of a single consumer. *)
Definition life_qsize (SQUEUE_SIZE sizeof_SQueueHeader sizeof_ConsState : Z)
  : Z :=
  (SQUEUE_SIZE - SQUEUE_HDR_SIZE sizeof_SQueueHeader sizeof_ConsState 1)
    `quot` 1.

(** The slot of a consumer that has bound to a formatted queue. *)
Definition life_slot (pid node qsize : Z) : ConsState :=
  set_pid pid (set_node node (format_consumer qsize)).

(** What [SharedQueueDisconnectConsumer] does to a slot. *)
Definition disconnect_slot (PGXC_PARENT_NODE_ID : Z) (cstate : ConsState)
  : ConsState :=
  if cs_node cstate =? PGXC_PARENT_NODE_ID
  then discard_tuples (set_status CONSUMER_DONE cstate) else cstate.

(** A queue with three references whose producer, on node 1, and only
    consumer, on node 7, are bound. *)
Definition sample_bound_queue : SQueueHeader :=
  mkSQueueHeader "q" 100 1 (Some 0%nat) 3
    [set_pid 200 (sample_consumer CONSUMER_ACTIVE)].

Definition sample_bound : Shmem :=
  mkShmem {[ "q" := sample_bound_queue ]} [Some "q"; None].

(** * Proofs *)

(** ** SharedQueueDisconnectConsumer *)

(** C10. When the named queue exists but no producer is bound
    ([sq_pid = 0]), [SharedQueueDisconnectConsumer] only takes and releases
    [SQueuesLock]: the shared memory (every consumer slot, its status, queue
    positions and tuple count, the reference count, the sync pool) is left as
    it was, and the call does exactly what it does for a queue that does not
    exist. *)
Theorem disconnect_unbound_producer_noop
  (me : Z) (sqname : string) (shm : Shmem) (squeue : SQueueHeader) :
  SharedQueues shm !! sqname = Some squeue ->
  sq_pid squeue = 0 ->
  SharedQueueDisconnectConsumer me sqname (Some shm)
  = (Some shm, [LWLockAcquire SQueuesLock LW_EXCLUSIVE;
                LWLockRelease SQueuesLock])
  /\ forall shm0 : Shmem,
      SharedQueues shm0 !! sqname = None ->
      SharedQueueDisconnectConsumer me sqname (Some shm0)
      = (Some shm0, [LWLockAcquire SQueuesLock LW_EXCLUSIVE;
                     LWLockRelease SQueuesLock]).
Proof.
  intros Hlook Hpid. split.
  - unfold SharedQueueDisconnectConsumer. rewrite Hlook, Hpid. reflexivity.
  - intros shm0 Hnone. unfold SharedQueueDisconnectConsumer.
    rewrite Hnone. reflexivity.
Qed.

Lemma disconnect_unbound_producer_noop_witness :
  SharedQueueDisconnectConsumer 7 "q" (Some (sample_shmem 0 CONSUMER_ACTIVE))
  = (Some (sample_shmem 0 CONSUMER_ACTIVE),
     [LWLockAcquire SQueuesLock LW_EXCLUSIVE; LWLockRelease SQueuesLock])
  /\ forall shm0 : Shmem,
      SharedQueues shm0 !! "q" = None ->
      SharedQueueDisconnectConsumer 7 "q" (Some shm0)
      = (Some shm0, [LWLockAcquire SQueuesLock LW_EXCLUSIVE;
                     LWLockRelease SQueuesLock]).
Proof.
  apply (disconnect_unbound_producer_noop 7 "q" (sample_shmem 0 CONSUMER_ACTIVE)
           (sample_queue 0 CONSUMER_ACTIVE)); reflexivity.
Defined.

(** ** SharedQueueRead *)

Section ReadFacts.

Context {Env : Type}.
Variable wait : Env -> ConsState -> Env * ConsState.

Lemma read_row_not_eof fuel idx env cstate :
  (read_row wait fuel idx env cstate).1.1.1 <> ReadEOF.
Proof.
  unfold read_row, read_deliver.
  destruct (QUEUE_READ cstate SIZEOF_INT) as [buf c1].
  destruct (bytes_int buf >? cs_qlength c1 - SIZEOF_INT).
  - destruct (sq_pull_long_tuple wait fuel idx (bytes_int buf) env c1)
      as [[[[msg|] e] c] ev]; simpl; discriminate.
  - destruct (QUEUE_READ c1 (bytes_int buf)) as [msg c2]. simpl. discriminate.
Qed.




End ReadFacts.


(** ** SharedQueueCanPause *)

Lemma canpause_occupancy cstate :
  cs_ntuples cstate > 0 ->
  (if cs_qwritepos cstate >? cs_qreadpos cstate
   then cs_qwritepos cstate - cs_qreadpos cstate
   else cs_qlength cstate + cs_qwritepos cstate - cs_qreadpos cstate)
  = ring_occupancy cstate.
Proof.
  intros Hn. unfold ring_occupancy, QUEUE_FREE_SPACE.
  destruct (cs_ntuples cstate >? 0) eqn:E; [|lia].
  destruct (cs_qwritepos cstate >? cs_qreadpos cstate) eqn:E1;
    destruct (cs_qreadpos cstate >=? cs_qwritepos cstate) eqn:E2; lia.
Qed.

Lemma canpause_loop_false l i usedspace ncons :
  canpause_loop l i false usedspace ncons = (false, usedspace, ncons, []).
Proof. destruct l; reflexivity. Qed.

Lemma sum_Z_cons x l : sum_Z (x :: l) = x + sum_Z l.
Proof. reflexivity. Qed.

Lemma canpause_loop_spec l :
  forall i usedspace ncons,
  exists r u n ev,
    canpause_loop l i true usedspace ncons = (r, u, n, ev)
    /\ (r = true <->
        Forall (fun cstate => cs_status cstate = CONSUMER_ACTIVE ->
                              cs_ntuples cstate > 0) l)
    /\ (r = true ->
        u = usedspace + sum_Z (ring_occupancy <$> active_consumers l)
        /\ n = ncons + Z.of_nat (length (active_consumers l))).
Proof.
  induction l as [|c l IH]; intros i usedspace ncons.
  - exists true, usedspace, ncons, []. split; [reflexivity|].
    split; [split; auto|]. intros _. unfold sum_Z; simpl. lia.
  - cbn [canpause_loop]. unfold active_consumers. rewrite filter_cons.
    fold (active_consumers l).
    destruct (decide (cs_status c = CONSUMER_ACTIVE)) as [Ha|Ha].
    + rewrite bool_decide_eq_true_2 by done.
      destruct (cs_ntuples c >? 0) eqn:Hn.
      * destruct (IH (i + 1)
          (usedspace + (if cs_qwritepos c >? cs_qreadpos c
                        then cs_qwritepos c - cs_qreadpos c
                        else cs_qlength c + cs_qwritepos c - cs_qreadpos c))
          (ncons + 1)) as (r & u & n & ev & E & IH1 & IH2).
        rewrite E. exists r, u, n. eexists. split; [reflexivity|]. split.
        -- rewrite IH1. split.
           ++ intros H. constructor; auto. intros _. lia.
           ++ intros H. inversion H; auto.
        -- intros Hr. destruct (IH2 Hr) as [-> ->].
           rewrite canpause_occupancy by lia.
           rewrite fmap_cons, sum_Z_cons, length_cons, Nat2Z.inj_succ.
           split; lia.
      * rewrite canpause_loop_false.
        exists false. do 3 eexists. split; [reflexivity|]. split.
        -- split; [discriminate|]. intros H. inversion H as [|? ? Hc ?]; subst.
           specialize (Hc Ha). lia.
        -- discriminate.
    + rewrite bool_decide_eq_false_2 by done.
      destruct (IH (i + 1) usedspace ncons) as (r & u & n & ev & E & IH1 & IH2).
      rewrite E. exists r, u, n. eexists. split; [reflexivity|].
      split; [|exact IH2].
      rewrite IH1. split.
      * intros H. constructor; auto. intros; contradiction.
      * intros H. inversion H; auto.
Qed.

Lemma ring_occupancy_bounds cstate :
  slot_wf cstate -> 0 <= ring_occupancy cstate <= cs_qlength cstate.
Proof.
  intros (HL & Hrp & Hwp). unfold ring_occupancy, QUEUE_FREE_SPACE.
  destruct (cs_ntuples cstate >? 0); [|lia].
  destruct (Z.geb_spec (cs_qreadpos cstate) (cs_qwritepos cstate)); lia.
Qed.

Lemma sum_occupancy_nonneg l :
  Forall slot_wf l -> 0 <= sum_Z (ring_occupancy <$> l).
Proof.
  induction 1 as [|c l Hc _ IH]; [unfold sum_Z; simpl; lia|].
  rewrite fmap_cons, sum_Z_cons.
  pose proof (ring_occupancy_bounds c Hc). lia.
Qed.

Lemma truncated_average (L total n : Z) :
  0 <= L -> 0 <= total -> 0 < n ->
  (total `quot` n >? L `quot` 2) = true <-> n * (L / 2 + 1) <= total.
Proof.
  intros HL Ht Hn. rewrite Z.gtb_gt, !Z.quot_div_nonneg by lia.
  split.
  - intros H. assert (Hle : L / 2 + 1 <= total / n) by lia.
    pose proof (Z.mul_div_le total n Hn). nia.
  - intros H. assert (L / 2 + 1 <= total / n); [|lia].
    apply Z.div_le_lower_bound; lia.
Qed.

(** C8 as stated fails.  Two active consumers with queues of 16 bytes
    hold one row each, 9 and 8 bytes with the lengths: the average, 8.5
    bytes, exceeds half the queue length, yet [SharedQueueCanPause]
    returns false, for the [int] quotient [17 / 2] is 8. *)
Lemma average_above_half_no_pause :
  spec_can_pause 16 sample_pause_queue
  /\ Forall (fun cstate => slot_wf cstate /\ cs_qlength cstate = 16)
       (sq_consumers sample_pause_queue)
  /\ (SharedQueueCanPause sample_pause_queue).1 = false.
Proof.
  split; [|split].
  - split; [|split].
    + repeat constructor; intros _; vm_compute; reflexivity.
    + vm_compute. discriminate.
    + vm_compute. reflexivity.
  - repeat constructor; vm_compute; intuition discriminate.
  - vm_compute. reflexivity.
Qed.

(** C8, amended.  For consumer queues of one length [L], which together
    take no more than [INT_MAX] bytes of the entry,
    [SharedQueueCanPause] returns true exactly when every consumer in
    status [CONSUMER_ACTIVE] has at least one tuple queued, at least one
    consumer is active, and the bytes in use in the queues of the [n]
    active consumers add up to at least [n * (L / 2 + 1)], [L / 2] rounded
    down: the [int] quotient of the sum by [n] exceeds the [int] quotient
    of [L] by 2.  A call that returns true therefore meets the condition of
    the specification; the condition of the specification can hold when
    the call returns false, but only with an average between [L / 2] and
    [L / 2 + 1] rounded down. *)
Theorem canpause_iff (L : Z) (squeue : SQueueHeader) :
  Forall (fun cstate => slot_wf cstate /\ cs_qlength cstate = L)
    (sq_consumers squeue) ->
  L * sq_nconsumers squeue <= INT_MAX ->
  let active := active_consumers (sq_consumers squeue) in
  let total := sum_Z (ring_occupancy <$> active) in
  let n := Z.of_nat (length active) in
  ((SharedQueueCanPause squeue).1 = true
   <-> Forall (fun cstate => cs_status cstate = CONSUMER_ACTIVE ->
                             cs_ntuples cstate > 0) (sq_consumers squeue)
       /\ active <> []
       /\ n * (L / 2 + 1) <= total)
  /\ ((SharedQueueCanPause squeue).1 = true -> spec_can_pause L squeue)
  /\ (spec_can_pause L squeue -> (SharedQueueCanPause squeue).1 = false ->
      L * n < 2 * total < 2 * n * (L / 2 + 1)).
Proof.
  intros Hwf _. cbv zeta.
  assert (Hcode :
    (SharedQueueCanPause squeue).1 = true
    <-> Forall (fun cstate => cs_status cstate = CONSUMER_ACTIVE ->
                              cs_ntuples cstate > 0) (sq_consumers squeue)
        /\ active_consumers (sq_consumers squeue) <> []
        /\ Z.of_nat (length (active_consumers (sq_consumers squeue)))
           * (L / 2 + 1)
           <= sum_Z (ring_occupancy
                       <$> active_consumers (sq_consumers squeue))).
  { unfold SharedQueueCanPause.
    destruct (canpause_loop_spec (sq_consumers squeue) 0 0 0)
      as (r & u & n & ev & E & H1 & H2).
    rewrite E. destruct r.
    - destruct (H2 eq_refl) as [-> ->].
      assert (Hall := proj1 H1 eq_refl).
      rewrite !Z.add_0_l.
      destruct (active_consumers (sq_consumers squeue)) as [|c l] eqn:Ea.
      + simpl. split; [discriminate|]. intros (_ & Hne & _). congruence.
      + destruct (Z.eqb_spec (Z.of_nat (length (c :: l))) 0) as [Ez|Ez];
          [rewrite length_cons in Ez; lia|].
        cbn [fst].
        assert (Hact : Forall slot_wf (c :: l)).
        { rewrite <- Ea. unfold active_consumers.
          apply Forall_forall. intros x Hx.
          apply list_elem_of_filter in Hx as [_ Hx].
          rewrite Forall_forall in Hwf. apply Hwf in Hx as [Hx _].
          exact Hx. }
        destruct (sq_consumers squeue) as [|c0 cs] eqn:Ec;
          [discriminate Ea|].
        assert (HL0 : cs_qlength c0 = L /\ 0 <= L).
        { inversion Hwf as [|? ? [(HL & _) Hq] _]; subst. split; [reflexivity|].
          unfold SIZEOF_INT in HL. lia. }
        destruct HL0 as [-> HL].
        rewrite truncated_average;
          [|exact HL|apply sum_occupancy_nonneg; exact Hact
           |rewrite length_cons; lia].
        split; [intros Hgt; repeat split; auto|intros (_ & _ & Hgt); exact Hgt].
    - assert (Hf : (if n =? 0 then (false, ev) else (false, ev)).1 = false)
        by (destruct (n =? 0); reflexivity).
      rewrite Hf. split; [discriminate|].
      intros (Hall & _). apply H1 in Hall. discriminate. }
  assert (HL : active_consumers (sq_consumers squeue) <> [] -> 0 <= L).
  { intros Hne. destruct (sq_consumers squeue) as [|c0 cs] eqn:Ec;
      [contradiction Hne; reflexivity|].
    inversion Hwf as [|? ? [(HL & _) Hq] _]; subst.
    unfold SIZEOF_INT in HL. lia. }
  split; [exact Hcode|]. split.
  - intros H. apply Hcode in H as (Hall & Hne & Hsum).
    split; [exact Hall|]. split; [exact Hne|].
    specialize (HL Hne).
    assert (Hn : 0 < Z.of_nat (length (active_consumers (sq_consumers squeue)))).
    { destruct (active_consumers (sq_consumers squeue)); [congruence|].
      rewrite length_cons. lia. }
    pose proof (Z.mod_pos_bound L 2 ltac:(lia)).
    pose proof (Z.div_mod L 2 ltac:(lia)). nia.
  - intros (Hall & Hne & Hsum) Hfalse. split; [lia|].
    destruct (Z.le_gt_cases
                (Z.of_nat (length (active_consumers (sq_consumers squeue)))
                 * (L / 2 + 1))
                (sum_Z (ring_occupancy
                          <$> active_consumers (sq_consumers squeue))))
      as [Hle|Hgt]; [|lia].
    assert (Ht : (SharedQueueCanPause squeue).1 = true)
      by (apply Hcode; auto).
    congruence.
Qed.

Lemma canpause_iff_witness :
  (SharedQueueCanPause sample_pause_queue).1 = true
  <-> Forall (fun cstate => cs_status cstate = CONSUMER_ACTIVE ->
                            cs_ntuples cstate > 0)
        (sq_consumers sample_pause_queue)
      /\ active_consumers (sq_consumers sample_pause_queue) <> []
      /\ Z.of_nat (length (active_consumers (sq_consumers sample_pause_queue)))
         * (16 / 2 + 1)
         <= sum_Z (ring_occupancy
                     <$> active_consumers (sq_consumers sample_pause_queue)).
Proof.
  apply (canpause_iff 16 sample_pause_queue).
  - repeat constructor; vm_compute; intuition discriminate.
  - vm_compute. discriminate.
Defined.

(** ** SharedQueueWrite on a consumer that is not active *)

(** C5 as stated fails: a slot marked [CONSUMER_DONE] whose 16 byte queue
    cannot take a 13 byte row (17 bytes with the length) gets the row
    appended to a newly created store. *)
Lemma write_inactive_appends_to_store :
  cs_status (sample_consumer CONSUMER_DONE) = CONSUMER_DONE
  /\ (SharedQueueWrite 0 (sample_consumer CONSUMER_DONE) (sample_row 13) None).1.2
     = Some (mkTuplestore [sample_row 13] 0 0 0).
Proof. split; reflexivity. Qed.

(** C5, amended. A [SharedQueueWrite] on a consumer whose status is not
    [CONSUMER_ACTIVE] never touches the consumer state, raises no error and
    sets no latch.  The row is dropped at once only if the queue has room
    for it and the store is absent or was emptied by [SharedQueueDump]
    (queue more than half free); otherwise the row is appended to the
    store, which is created when absent. *)
Theorem write_inactive_leaves_queue
  (consumerIdx : Z) (cstate : ConsState) (datarow : RemoteDataRow)
  (tuplestore : option Tuplestorestate) :
  cs_status cstate <> CONSUMER_ACTIVE ->
  SharedQueueWrite consumerIdx cstate datarow tuplestore
  = (cstate,
     match tuplestore with
     | None =>
       if QUEUE_FREE_SPACE cstate <? SIZEOF_INT + msglen datarow
       then Some (tuplestore_puttupleslot tuplestore_begin_datarow datarow)
       else None
     | Some ts =>
       if QUEUE_FREE_SPACE cstate >? cs_qlength cstate `quot` 2 then
         if QUEUE_FREE_SPACE cstate <? SIZEOF_INT + msglen datarow
         then Some (tuplestore_puttupleslot (tuplestore_clear ts) datarow)
         else Some (tuplestore_clear ts)
       else Some (tuplestore_puttupleslot ts datarow)
     end,
     [LWLockAcquire (cs_lwlock consumerIdx) LW_EXCLUSIVE;
      LWLockRelease (cs_lwlock consumerIdx)]).
Proof.
  intros Hs. unfold SharedQueueWrite, SharedQueueDump.
  destruct tuplestore as [ts|].
  - destruct (QUEUE_FREE_SPACE cstate >? cs_qlength cstate `quot` 2).
    + rewrite bool_decide_eq_true_2 by done.
      destruct (QUEUE_FREE_SPACE cstate <? SIZEOF_INT + msglen datarow);
        [reflexivity|].
      rewrite bool_decide_eq_false_2 by done. reflexivity.
    + reflexivity.
  - destruct (QUEUE_FREE_SPACE cstate <? SIZEOF_INT + msglen datarow);
      [reflexivity|].
    rewrite bool_decide_eq_false_2 by done. reflexivity.
Qed.

Lemma write_inactive_leaves_queue_witness :
  SharedQueueWrite 0 (sample_consumer CONSUMER_EOF) (sample_row 3) None
  = (sample_consumer CONSUMER_EOF, None,
     [LWLockAcquire (cs_lwlock 0) LW_EXCLUSIVE; LWLockRelease (cs_lwlock 0)]).
Proof.
  apply (write_inactive_leaves_queue 0 (sample_consumer CONSUMER_EOF)
           (sample_row 3) None).
  simpl. discriminate.
Defined.

(** ** Traces and locks *)

(** Equality of traces up to the bracketing of [++]. *)
Ltac trace_eq :=
  simpl; repeat (rewrite <- app_assoc; simpl); reflexivity.

Lemma trace_all_app check ev1 : forall held ev2,
  trace_all check held (ev1 ++ ev2)
  = trace_all check held ev1 && trace_all check (held_after held ev1) ev2.
Proof.
  induction ev1 as [|e ev1 IH]; intros held ev2; simpl; [reflexivity|].
  rewrite IH, andb_assoc. reflexivity.
Qed.

Lemma held_after_app held ev1 ev2 :
  held_after held (ev1 ++ ev2) = held_after (held_after held ev1) ev2.
Proof. apply foldl_app. Qed.

Lemma sleeps_app ev1 ev2 : sleeps (ev1 ++ ev2) = sleeps ev1 ++ sleeps ev2.
Proof. apply omap_app. Qed.

(** ** SharedQueueAcquire *)

Section AcquireFacts.

Variable NUM_SQUEUES : nat.
Variable SQUEUE_SIZE sizeof_SQueueHeader sizeof_ConsState : Z.
Variable me : Z.
Variable sleep : Shmem -> Shmem.

Local Abbreviation acquire_loop' :=
  (acquire_loop NUM_SQUEUES SQUEUE_SIZE sizeof_SQueueHeader sizeof_ConsState
     me sleep).

(** The trace of the scan that decides [old_squeue] takes and releases at
    most one consumer lock. *)
Lemma acquire_old_squeue_trace sq :
  (acquire_old_squeue me sq).2 = []
  \/ exists i, (acquire_old_squeue me sq).2
               = [LWLockAcquire (cs_lwlock i) LW_EXCLUSIVE;
                  LWLockRelease (cs_lwlock i)].
Proof.
  unfold acquire_old_squeue.
  destruct (find_consumer_node me 0 (sq_consumers sq)) as [[i c]|]; simpl; eauto.
Qed.

Lemma stale_queue_old_squeue sqname shm sq :
  SharedQueues shm !! sqname = Some sq ->
  stale_queue me sqname shm
  = (if sq_pid sq =? 0 then (false, [])
     else acquire_old_squeue me sq).1.
Proof.
  intros H. unfold stale_queue, acquire_old_squeue. rewrite H.
  destruct (sq_pid sq =? 0); simpl; [reflexivity|].
  destruct (find_consumer_node me 0 (sq_consumers sq)) as [[i c]|]; reflexivity.
Qed.

Lemma acquire_loop_eq n trycount sqname ncons shm :
  acquire_loop' n trycount sqname ncons shm
  = let ev0 := [LWLockAcquire SQueuesLock LW_EXCLUSIVE] in
    match SharedQueues shm !! sqname with
    | None =>
      if bool_decide (NUM_SQUEUES ≤ size (SharedQueues shm))%nat then
        (AcquireOutOfQueues, shm, ev0)
      else
        let sq := format_queue SQUEUE_SIZE sizeof_SQueueHeader
                    sizeof_ConsState sqname ncons (SQueueSyncs shm) in
        (AcquireOk,
         mkShmem (<[sqname := sq]> (SharedQueues shm))
           (match sq_sync sq with
            | Some idx => <[idx := Some sqname]> (SQueueSyncs shm)
            | None => SQueueSyncs shm
            end),
         ev0 ++ [LWLockRelease SQueuesLock])
    | Some sq =>
      let '(old_squeue, ev1) :=
        if sq_pid sq =? 0 then (false, []) else acquire_old_squeue me sq in
      if old_squeue then
        let ev := ev0 ++ ev1 ++ [LWLockRelease SQueuesLock; pg_usleep 1000000] in
        let shm := sleep shm in
        let trycount := trycount + 1 in
        if trycount >=? 10 then (AcquireRaceUnresolved trycount, shm, ev)
        else
          match n with
          | O => (AcquireRaceUnresolved trycount, shm, ev)
          | S n =>
            let '(r, shm, ev') := acquire_loop' n trycount sqname ncons shm in
            (r, shm, ev ++ ev')
          end
      else
        (AcquireOk,
         mkShmem (<[sqname := set_sq_refcnt (sq_refcnt sq + 1) sq]>
                    (SharedQueues shm)) (SQueueSyncs shm),
         ev0 ++ ev1 ++ [LWLockRelease SQueuesLock])
    end.
Proof. destruct n; reflexivity. Qed.

(** One try on a queue that is not stale: no sleep, no further try. *)
Lemma acquire_loop_fresh n trycount sqname ncons shm :
  stale_queue me sqname shm = false ->
  exists r shm' ev,
    acquire_loop' n trycount sqname ncons shm = (r, shm', ev)
    /\ (forall t, r <> AcquireRaceUnresolved t)
    /\ sleeps ev = []
    /\ trace_all (fun e held =>
                    match e with
                    | pg_usleep _ | WaitLatch _ _ => bool_decide (held = [])
                    | _ => true
                    end) [] ev = true.
Proof.
  intros Hs. rewrite acquire_loop_eq. cbv zeta.
  destruct (SharedQueues shm !! sqname) as [sq|] eqn:Hl.
  - rewrite (stale_queue_old_squeue _ _ _ Hl) in Hs.
    assert (Hev1 : (if sq_pid sq =? 0 then (false, [])
                    else acquire_old_squeue me sq).2 = []
                   \/ exists i, (if sq_pid sq =? 0 then (false, [])
                                 else acquire_old_squeue me sq).2
                        = [LWLockAcquire (cs_lwlock i) LW_EXCLUSIVE;
                           LWLockRelease (cs_lwlock i)]).
    { destruct (sq_pid sq =? 0); [left; reflexivity|].
      apply acquire_old_squeue_trace. }
    destruct (if sq_pid sq =? 0 then (false, []) else acquire_old_squeue me sq)
      as [old ev1]; simpl in Hs, Hev1; subst old.
    do 3 eexists; split; [reflexivity|].
    destruct Hev1 as [->|[i ->]]; repeat split; try discriminate.
  - destruct (bool_decide (NUM_SQUEUES ≤ size (SharedQueues shm))%nat);
      do 3 eexists; (split; [reflexivity|]); repeat split; discriminate.
Qed.

Lemma acquire_loop_stale :
  forall k n trycount sqname ncons shm,
    9 <= Z.of_nat n + trycount -> 0 <= trycount <= 9 ->
    Z.of_nat k + trycount <= 10 ->
    (forall j, (j < k)%nat -> stale_queue me sqname (Nat.iter j sleep shm) = true) ->
    (Z.of_nat k + trycount < 10 ->
     stale_queue me sqname (Nat.iter k sleep shm) = false) ->
    exists r shm' ev,
      acquire_loop' n trycount sqname ncons shm = (r, shm', ev)
      /\ sleeps ev = replicate k 1000000
      /\ trace_all (fun e held =>
                      match e with
                      | pg_usleep _ | WaitLatch _ _ => bool_decide (held = [])
                      | _ => true
                      end) [] ev = true
      /\ (Z.of_nat k + trycount = 10 ->
          r = AcquireRaceUnresolved 10 /\ shm' = Nat.iter k sleep shm)
      /\ (Z.of_nat k + trycount < 10 -> forall t, r <> AcquireRaceUnresolved t).
Proof.
  induction k as [|k IH]; intros n trycount sqname ncons shm Hn Ht Hk Hst Hfr.
  - destruct (acquire_loop_fresh n trycount sqname ncons shm)
      as (r & shm' & ev & E & Hr & Hsl & Htr).
    { apply Hfr. lia. }
    exists r, shm', ev. repeat split; auto; intros; lia.
  - assert (Hs0 := Hst 0%nat ltac:(lia)). simpl in Hs0.
    pose proof Hs0 as Hs0'. unfold stale_queue in Hs0'.
    destruct (SharedQueues shm !! sqname) as [sq|] eqn:Hl; [|discriminate].
    rewrite (stale_queue_old_squeue _ _ _ Hl) in Hs0.
    assert (Hev1 : (if sq_pid sq =? 0 then (false, [])
                    else acquire_old_squeue me sq).2 = []
                   \/ exists i, (if sq_pid sq =? 0 then (false, [])
                                 else acquire_old_squeue me sq).2
                        = [LWLockAcquire (cs_lwlock i) LW_EXCLUSIVE;
                           LWLockRelease (cs_lwlock i)]).
    { destruct (sq_pid sq =? 0); [left; reflexivity|].
      apply acquire_old_squeue_trace. }
    rewrite acquire_loop_eq. cbv zeta. rewrite Hl.
    destruct (if sq_pid sq =? 0 then (false, []) else acquire_old_squeue me sq)
      as [old ev1]; simpl in Hs0, Hev1; subst old.
    set (ev := [LWLockAcquire SQueuesLock LW_EXCLUSIVE] ++ _ ++ _).
    assert (Hevs : sleeps ev = [1000000]
                   /\ trace_all (fun e held =>
                      match e with
                      | pg_usleep _ | WaitLatch _ _ => bool_decide (held = [])
                      | _ => true
                      end) [] ev = true
                   /\ held_after [] ev = []).
    { subst ev. destruct Hev1 as [->|[i ->]]; simpl;
        rewrite ?decide_True by done; simpl; rewrite ?decide_True by done;
        auto. }
    destruct Hevs as (Hsl & Htr & Hheld).
    destruct (Z.geb_spec (trycount + 1) 10) as [Hge|Hlt].
    + assert (k = 0%nat) by lia. subst k.
      exists (AcquireRaceUnresolved (trycount + 1)), (sleep shm), ev.
      split; [reflexivity|]. repeat split; auto.
      * f_equal. lia.
      * intros; lia.
    + destruct n as [|n]; [lia|].
      destruct (IH n (trycount + 1) sqname ncons (sleep shm))
        as (r & shm' & ev' & E & Hsl' & Htr' & Hfull & Hpart).
      { lia. } { lia. } { lia. }
      { intros j Hj. specialize (Hst (S j) ltac:(lia)).
        rewrite Nat.iter_succ_r in Hst. exact Hst. }
      { intros Hlt'. specialize (Hfr ltac:(lia)).
        rewrite Nat.iter_succ_r in Hfr. exact Hfr. }
      rewrite E. exists r, shm', (ev ++ ev'). split; [reflexivity|].
      repeat split.
      * rewrite sleeps_app, Hsl, Hsl'. reflexivity.
      * rewrite trace_all_app, Htr, Hheld, Htr'. reflexivity.
      * apply Hfull. lia.
      * destruct (Hfull ltac:(lia)) as [_ ->].
        rewrite Nat.iter_succ_r. reflexivity.
      * intros Hlt'. apply Hpart. lia.
Qed.

End AcquireFacts.

(** C6 as stated fails: the entry has a bound producer (pid 5) and the
    slot of the caller's node (7) is [CONSUMER_ACTIVE], not
    [CONSUMER_DONE]; [SharedQueueAcquire] does not sleep or retry, it takes
    a reference and returns. *)
Lemma acquire_live_slot_does_not_retry :
  sq_pid (sample_queue 5 CONSUMER_ACTIVE) <> 0
  /\ (exists cstate, cstate ∈ sq_consumers (sample_queue 5 CONSUMER_ACTIVE)
                     /\ cs_node cstate = 7
                     /\ cs_status cstate <> CONSUMER_DONE)
  /\ SharedQueueAcquire 64 65536 64 48 7 (fun shm => shm) "q" 1
       (sample_shmem 5 CONSUMER_ACTIVE)
     = (AcquireOk,
        mkShmem {[ "q" := set_sq_refcnt 2 (sample_queue 5 CONSUMER_ACTIVE) ]}
          [Some "q"; None],
        [LWLockAcquire SQueuesLock LW_EXCLUSIVE;
         LWLockAcquire (cs_lwlock 0) LW_EXCLUSIVE;
         LWLockRelease (cs_lwlock 0);
         LWLockRelease SQueuesLock]).
Proof.
  split; [simpl; lia|]. split; [|reflexivity].
  exists (sample_consumer CONSUMER_ACTIVE).
  split; [simpl; apply list_elem_of_here|]. split; [reflexivity|discriminate].
Qed.

(** C6, amended. [SharedQueueAcquire] retries when it finds an entry whose
    producer is bound ([sq_pid <> 0]) and the first slot of the caller's
    node is [CONSUMER_DONE] or there is no such slot.  Each such try
    releases [SQueuesLock] and sleeps one second ([pg_usleep(1000000L)])
    with no lock held.  If the first [k < 10] tries see such an entry and
    the next one does not, the call ends without the race error after [k]
    sleeps; if ten tries in a row see it, the call fails with "Couldn't
    resolve SQueue race condition after 10 tries", having changed nothing
    itself. *)
Theorem acquire_retries_while_stale
  (NUM_SQUEUES : nat) (SQUEUE_SIZE sizeof_SQueueHeader sizeof_ConsState : Z)
  (me : Z) (sleep : Shmem -> Shmem) (sqname : string) (ncons : Z)
  (shm : Shmem) (k : nat) :
  (k <= 10)%nat ->
  (forall j, (j < k)%nat -> stale_queue me sqname (Nat.iter j sleep shm) = true) ->
  ((k < 10)%nat -> stale_queue me sqname (Nat.iter k sleep shm) = false) ->
  let '(r, shm', ev) :=
    SharedQueueAcquire NUM_SQUEUES SQUEUE_SIZE sizeof_SQueueHeader
      sizeof_ConsState me sleep sqname ncons shm in
  sleeps ev = replicate k 1000000
  /\ sleeps_unlocked ev = true
  /\ (k = 10%nat -> r = AcquireRaceUnresolved 10
                    /\ shm' = Nat.iter 10 sleep shm)
  /\ ((k < 10)%nat -> forall t, r <> AcquireRaceUnresolved t).
Proof.
  intros Hk Hst Hfr. unfold SharedQueueAcquire.
  assert (Hfr' : Z.of_nat k + 0 < 10 ->
                 stale_queue me sqname (Nat.iter k sleep shm) = false)
    by (intros; apply Hfr; lia).
  destruct (acquire_loop_stale NUM_SQUEUES SQUEUE_SIZE sizeof_SQueueHeader
              sizeof_ConsState me sleep k 10 0 sqname ncons shm
              ltac:(lia) ltac:(lia) ltac:(lia) Hst Hfr')
    as (r & shm' & ev & E & Hsl & Htr & Hfull & Hpart).
  rewrite E. split; [exact Hsl|]. split; [exact Htr|]. split.
  - intros Hk10. destruct (Hfull ltac:(lia)) as [-> ->]. subst k. split; reflexivity.
  - intros Hk10. apply Hpart. lia.
Qed.

Lemma acquire_retries_while_stale_witness :
  let '(r, shm', ev) :=
    SharedQueueAcquire 64 65536 64 48 7 (fun shm => shm) "q" 1
      (sample_shmem 5 CONSUMER_DONE) in
  sleeps ev = replicate 10 1000000
  /\ sleeps_unlocked ev = true
  /\ (10%nat = 10%nat -> r = AcquireRaceUnresolved 10
        /\ shm' = Nat.iter 10 (fun shm => shm) (sample_shmem 5 CONSUMER_DONE))
  /\ ((10 < 10)%nat -> forall t, r <> AcquireRaceUnresolved t).
Proof.
  apply (acquire_retries_while_stale 64 65536 64 48 7 (fun shm => shm) "q" 1
           (sample_shmem 5 CONSUMER_DONE) 10).
  - lia.
  - intros j Hj. do 10 (destruct j as [|j]; [reflexivity|]). lia.
  - lia.
Defined.

(** ** Reference counting: SharedQueueRelease and SharedQueueUnBind *)

Lemma remove_lock_keeps l l' held :
  l <> l' -> l' ∈ held -> l' ∈ remove_lock l held.
Proof.
  intros Hne. induction held as [|h held IH]; simpl; intros Hin.
  - exact Hin.
  - destruct (decide (l = h)) as [->|Hlh].
    + apply elem_of_cons in Hin as [->|Hin]; [congruence|exact Hin].
    + apply elem_of_cons in Hin as [->|Hin].
      * apply list_elem_of_here.
      * apply list_elem_of_further. auto.
Qed.

Lemma keeps_registry_held e held :
  keeps_registry e -> SQueuesLock ∈ held -> SQueuesLock ∈ held_step held e.
Proof.
  destruct e as [l m|l| | | | | | | |]; simpl; intros Hk Hin; auto.
  - apply list_elem_of_further. exact Hin.
  - destruct l; try contradiction; apply remove_lock_keeps; auto; discriminate.
Qed.

Lemma keeps_registry_trace ev : forall held,
  Forall keeps_registry ev -> SQueuesLock ∈ held ->
  SQueuesLock ∈ held_after held ev
  /\ trace_all (fun e held =>
                  match e with
                  | hash_remove _ _ => bool_decide (SQueuesLock ∈ held)
                  | _ => true
                  end) held ev = true.
Proof.
  induction ev as [|e ev IH]; intros held Hall Hin; simpl.
  - auto.
  - inversion Hall as [|? ? He Hev]; subst.
    destruct (IH (held_step held e) Hev (keeps_registry_held _ _ He Hin))
      as [H1 H2].
    split; [exact H1|]. rewrite H2, andb_true_r.
    destruct e; simpl in *; try reflexivity. contradiction.
Qed.

(** A trace without [hash_remove] passes the check whatever is held. *)
Lemma no_remove_trace ev : forall held,
  Forall (fun e => forall k s, e <> hash_remove k s) ev ->
  trace_all (fun e held =>
               match e with
               | hash_remove _ _ => bool_decide (SQueuesLock ∈ held)
               | _ => true
               end) held ev = true.
Proof.
  induction ev as [|e ev IH]; intros held Hall; simpl; [reflexivity|].
  inversion Hall as [|? ? He Hev]; subst.
  rewrite IH by assumption. rewrite andb_true_r.
  destruct e; try reflexivity. exfalso. eapply He. reflexivity.
Qed.

Lemma for_consumers_events (P : Event -> Prop) f :
  (forall i c, Forall P (f i c).2) ->
  forall l i, Forall P (for_consumers f i l).2.
Proof.
  intros Hf. induction l as [|c l IH]; intros i; simpl.
  - constructor.
  - specialize (Hf i c). destruct (f i c) as [c' ev].
    specialize (IH (i + 1)). destruct (for_consumers f (i + 1) l) as [l' ev'].
    simpl in *. apply Forall_app. auto.
Qed.

Lemma drop_reference_spec sqname sq shm :
  sq_key sq = sqname ->
  reference_dropped sqname sq shm (drop_reference sq shm).1
    (drop_reference sq shm).2.
Proof.
  intros Hk. unfold reference_dropped, drop_reference.
  cbn [sq_refcnt set_sq_refcnt set_sq_sync sq_key sq_sync].
  destruct (Z.eqb_spec (sq_refcnt sq) 1) as [E|E].
  - rewrite E. simpl. rewrite Hk. repeat split.
    + apply lookup_delete_eq.
    + apply list_elem_of_here.
    + intros sync H. apply list_elem_of_singleton in H. congruence.
  - destruct (Z.eqb_spec (sq_refcnt sq - 1) 0) as [E'|E']; [lia|].
    simpl. repeat split.
    + eexists. split; [rewrite Hk; apply lookup_insert_eq|]. simpl. auto.
    + intros sync H. inversion H.
Qed.

(** [drop_reference] without the bookkeeping of the header write. *)
Lemma drop_reference_eq sq shm :
  drop_reference sq shm
  = (let sq := set_sq_refcnt (sq_refcnt sq - 1) sq in
     if sq_refcnt sq =? 0 then
       (mkShmem (delete (sq_key sq) (SharedQueues shm))
          (clear_sync_queue (sq_sync sq) (SQueueSyncs shm)),
        [hash_remove (sq_key sq) None])
     else (set_queue sq shm, [])).
Proof. reflexivity. Qed.

Lemma reference_dropped_same sqname sq sq0 shm shm' ev :
  sq_refcnt sq = sq_refcnt sq0 -> sq_sync sq = sq_sync sq0 ->
  reference_dropped sqname sq shm shm' ev ->
  reference_dropped sqname sq0 shm shm' ev.
Proof.
  unfold reference_dropped. intros Hr Hs. rewrite Hr, Hs. auto.
Qed.

Lemma reference_dropped_trace sqname sq shm shm' ev pre post :
  Forall (fun e => forall k s, e <> hash_remove k s) pre ->
  Forall (fun e => forall k s, e <> hash_remove k s) post ->
  reference_dropped sqname sq shm shm' ev ->
  reference_dropped sqname sq shm shm' (pre ++ ev ++ post).
Proof.
  unfold reference_dropped. intros Hpre Hpost.
  assert (Hin : forall sync, hash_remove sqname sync ∈ pre ++ ev ++ post ->
                             hash_remove sqname sync ∈ ev).
  { intros sync Hin. apply elem_of_app in Hin as [Hin|Hin].
    - rewrite Forall_forall in Hpre. exfalso. eapply Hpre; eauto.
    - apply elem_of_app in Hin as [Hin|Hin]; [auto|].
      rewrite Forall_forall in Hpost. exfalso. eapply Hpost; eauto. }
  destruct (sq_refcnt sq =? 1).
  - intros (? & ? & Hev & Honly). repeat split; auto.
    apply elem_of_app. right. apply elem_of_app. left. exact Hev.
  - intros (? & ? & Hnin). repeat split; auto.
    intros sync Hs. eapply Hnin, Hin, Hs.
Qed.

Lemma keeps_registry_no_remove ev :
  Forall keeps_registry ev -> Forall (fun e => forall k s, e <> hash_remove k s) ev.
Proof.
  intros H. eapply Forall_impl; [exact H|]. intros e He k s ->. exact He.
Qed.

Section ReleaseFacts.

Variable me : Z.

Lemma release_consumer_events i c :
  Forall keeps_registry (release_consumer i c).2.
Proof.
  unfold release_consumer.
  destruct (cs_pid c =? 0); simpl; [repeat constructor|].
  destruct (bool_decide (cs_status c ≠ CONSUMER_DONE)); simpl;
    [|repeat constructor].
  destruct (cs_pid c >? 0); simpl; repeat constructor.
Qed.

Lemma release_slots_spec sq :
  sq_key (release_slots me sq).1 = sq_key sq
  /\ sq_refcnt (release_slots me sq).1 = sq_refcnt sq
  /\ sq_sync (release_slots me sq).1 = sq_sync sq
  /\ Forall keeps_registry (release_slots me sq).2.
Proof.
  unfold release_slots.
  destruct (sq_nodeid sq =? -1); [simpl; repeat split; repeat constructor|].
  destruct (negb (sq_nodeid sq =? me)); [|simpl; repeat split; repeat constructor].
  destruct (find_consumer_node me 0 (sq_consumers sq)) as [[i c]|].
  - pose proof (release_consumer_events i c) as H.
    destruct (release_consumer i c) as [c' ev]. simpl in *. auto.
  - pose proof (for_consumers_events keeps_registry release_unbound_body) as H.
    specialize (H ltac:(intros i c; unfold release_unbound_body;
                        destruct (cs_node c =? -1); simpl; repeat constructor)
                  (sq_consumers sq) 0).
    destruct (for_consumers release_unbound_body 0 (sq_consumers sq)) as [l ev].
    simpl in *. repeat split; auto. apply Forall_app. split; auto.
    repeat constructor.
Qed.

Lemma release_spec sqname shm sq :
  SharedQueues shm !! sqname = Some sq -> sq_key sq = sqname ->
  removes_locked (SharedQueueRelease me sqname shm).2 = true
  /\ reference_dropped sqname sq shm (SharedQueueRelease me sqname shm).1
       (SharedQueueRelease me sqname shm).2.
Proof.
  intros Hl Hk. unfold SharedQueueRelease. rewrite Hl.
  destruct (release_slots_spec sq) as (Hk' & Hr' & Hs' & Hev).
  destruct (release_slots me sq) as [sq1 ev1]. simpl in Hk', Hr', Hs', Hev.
  pose proof (drop_reference_spec sqname sq1 shm ltac:(congruence)) as Hd.
  assert (Hdev : (drop_reference sq1 shm).2 = [] \/
                 (drop_reference sq1 shm).2 = [hash_remove (sq_key sq1) None]).
  { unfold drop_reference. destruct (_ =? 0); simpl; auto. }
  destruct (drop_reference sq1 shm) as [shm' ev2]. simpl in Hd, Hdev |- *.
  split.
  - unfold removes_locked.
    change ([LWLockAcquire SQueuesLock LW_EXCLUSIVE]
            ++ [LWLockAcquire sqs_producer_lwlock LW_EXCLUSIVE])
      with [LWLockAcquire SQueuesLock LW_EXCLUSIVE;
            LWLockAcquire sqs_producer_lwlock LW_EXCLUSIVE].
    cbn [app trace_all held_step andb].
    rewrite trace_all_app.
    destruct (keeps_registry_trace ev1 [sqs_producer_lwlock; SQueuesLock] Hev)
      as [Hheld Htr].
    { apply list_elem_of_further, list_elem_of_here. }
    rewrite Htr. cbn [andb].
    destruct Hdev as [->| ->]; cbn [app trace_all held_step andb];
      rewrite ?bool_decide_eq_true_2 by exact Hheld; reflexivity.
  - apply (reference_dropped_same sqname sq1 sq); auto.
    apply (reference_dropped_trace sqname sq1 shm shm' ev2
             ([LWLockAcquire SQueuesLock LW_EXCLUSIVE;
               LWLockAcquire sqs_producer_lwlock LW_EXCLUSIVE] ++ ev1)
             [LWLockRelease SQueuesLock]).
    + apply Forall_app. split; [repeat constructor; discriminate|].
      apply keeps_registry_no_remove. exact Hev.
    + repeat constructor; discriminate.
    + exact Hd.
Qed.

End ReleaseFacts.

Lemma neutral_nil : neutral [].
Proof. split; [reflexivity|constructor]. Qed.

Lemma neutral_app ev1 ev2 : neutral ev1 -> neutral ev2 -> neutral (ev1 ++ ev2).
Proof.
  intros [H1 F1] [H2 F2]. split.
  - intros held. rewrite held_after_app, H1, H2. reflexivity.
  - apply Forall_app. auto.
Qed.

Lemma neutral_locked l m ev :
  neutral ev -> neutral ([LWLockAcquire l m] ++ ev ++ [LWLockRelease l]).
Proof.
  intros [H F]. split.
  - intros held. rewrite !held_after_app, H. simpl.
    rewrite decide_True by done. reflexivity.
  - apply Forall_app. split; [repeat constructor; discriminate|].
    apply Forall_app. split; [exact F|].
    repeat constructor; discriminate.
Qed.

Lemma neutral_latch ev :
  Forall (fun e => match e with
                   | SetLatch _ | ResetLatch _ | OwnLatch _ | DisownLatch _
                   | WaitLatch _ _ | ExecClearTuple | pg_usleep _ => True
                   | _ => False
                   end) ev ->
  neutral ev.
Proof.
  induction ev as [|e ev IH]; intros Hall; [apply neutral_nil|].
  inversion Hall as [|? ? He Hev]; subst.
  destruct (IH Hev) as [H F]. split.
  - intros held. simpl. destruct e; try contradiction; simpl; apply H.
  - constructor; [|exact F]. destruct e; try contradiction; discriminate.
Qed.

Lemma for_consumers_neutral f :
  (forall i c, neutral (f i c).2) ->
  forall l i, neutral (for_consumers f i l).2.
Proof.
  intros Hf. induction l as [|c l IH]; intros i; simpl.
  - apply neutral_nil.
  - specialize (Hf i c). destruct (f i c) as [c' ev].
    specialize (IH (i + 1)). destruct (for_consumers f (i + 1) l) as [l' ev'].
    simpl in *. apply neutral_app; auto.
Qed.

Lemma unbind_scan_neutral failed l : forall i,
  neutral (unbind_scan failed i l).2.
Proof.
  induction l as [|c l IH]; intros i; simpl; [apply neutral_nil|].
  specialize (IH (i + 1)).
  destruct (unbind_scan failed (i + 1) l) as [[l' n] ev']. simpl in IH.
  destruct (bool_decide (cs_status c = CONSUMER_ACTIVE) && failed); simpl.
  - apply (neutral_app [_; _]); [|exact IH].
    apply (neutral_locked _ _ []); apply neutral_nil.
  - destruct (bool_decide (cs_status c ≠ CONSUMER_DONE) && negb failed); simpl.
    + apply (neutral_app [_; _; _; _]); [|exact IH].
      apply (neutral_locked _ _ [_; _]).
      apply neutral_latch. repeat constructor.
    + apply (neutral_app [_; _]); [|exact IH].
      apply (neutral_locked _ _ []); apply neutral_nil.
Qed.

Lemma unbind_recheck_neutral l : forall i, neutral (unbind_recheck i l).2.
Proof.
  induction l as [|c l IH]; intros i; simpl; [apply neutral_nil|].
  specialize (IH (i + 1)).
  destruct (unbind_recheck (i + 1) l) as [n ev']. simpl in *.
  apply (neutral_app [_; _]); [|exact IH].
  apply (neutral_locked _ _ []); apply neutral_nil.
Qed.

Lemma reset_not_connected_neutral squeue :
  neutral (SharedQueueResetNotConnected squeue).2.
Proof.
  unfold SharedQueueResetNotConnected.
  pose proof (for_consumers_neutral reset_not_connected_body) as H.
  specialize (H ltac:(intros i c; unfold reset_not_connected_body;
                      destruct (bool_decide _); simpl;
                      [apply (neutral_locked _ _ [_]);
                       apply neutral_latch; repeat constructor
                      |apply (neutral_locked _ _ []); apply neutral_nil])
                (sq_consumers squeue) 0).
  destruct (for_consumers reset_not_connected_body 0 (sq_consumers squeue))
    as [l ev]. simpl in *.
  apply neutral_locked. exact H.
Qed.

Lemma unbind_recheck_keeps l : forall i,
  Forall keeps_registry (unbind_recheck i l).2.
Proof.
  induction l as [|c l IH]; intros i; simpl; [constructor|].
  specialize (IH (i + 1)).
  destruct (unbind_recheck (i + 1) l) as [n ev']. simpl in *.
  repeat constructor. exact IH.
Qed.

Lemma ref_view_set_consumers sqname shm sq l :
  SharedQueues shm !! sqname = Some sq -> sq_key sq = sqname ->
  ref_view sqname (set_queue (set_sq_consumers l sq) shm) = ref_view sqname shm.
Proof.
  intros Hl Hk. unfold ref_view, set_queue. simpl. rewrite Hk.
  rewrite lookup_insert_eq, Hl. simpl. rewrite Hk. reflexivity.
Qed.

Lemma ref_view_lookup sqname shm shm' sq :
  ref_view sqname shm' = ref_view sqname shm ->
  SharedQueues shm !! sqname = Some sq ->
  exists sq', SharedQueues shm' !! sqname = Some sq'
              /\ sq_key sq' = sq_key sq /\ sq_refcnt sq' = sq_refcnt sq
              /\ sq_sync sq' = sq_sync sq /\ SQueueSyncs shm' = SQueueSyncs shm.
Proof.
  unfold ref_view. intros H Hl. rewrite Hl in H. simpl in H.
  destruct (SharedQueues shm' !! sqname) as [sq'|]; simpl in H; [|congruence].
  exists sq'. inversion H. auto.
Qed.

Section UnBindFacts.

Variable wait_producer : Shmem -> Shmem * bool.
Variable unlocked : Shmem -> Shmem.

(** A completed unbind: neutral passes, then the final section under
    [SQueuesLock] and the producer lock, in which the reference is dropped
    from the entry [sq0] found in the shared memory [shm0].  When the other
    processes leave the entry's reference count and sync block alone, they
    are in [shm0] what they were at the call. *)
Lemma unbind_done_spec sqname failed : forall fuel shm shm' ev,
  unbind_loop wait_producer unlocked fuel sqname failed shm
  = (UnBindDone, shm', ev) ->
  exists passes fin shm0 sq0,
    neutral passes
    /\ Forall keeps_registry fin
    /\ held_after [] fin = [sqs_producer_lwlock; SQueuesLock]
    /\ SharedQueues shm0 !! sqname = Some sq0
    /\ shm' = (drop_reference sq0 shm0).1
    /\ ev = passes ++ fin ++ (drop_reference sq0 shm0).2
            ++ [LWLockRelease sqs_producer_lwlock; LWLockRelease SQueuesLock]
    /\ ((forall s, ref_view sqname (wait_producer s).1 = ref_view sqname s) ->
        (forall s, ref_view sqname (unlocked s) = ref_view sqname s) ->
        (forall sq, SharedQueues shm !! sqname = Some sq -> sq_key sq = sqname) ->
        ref_view sqname shm0 = ref_view sqname shm).
Proof.
  induction fuel as [|fuel IH]; intros shm shm' ev H; simpl in H;
    [discriminate|].
  destruct (SharedQueues shm !! sqname) as [squeue|] eqn:Hl; [|discriminate].
  pose proof (unbind_scan_neutral failed (sq_consumers squeue) 0) as Hscan.
  destruct (unbind_scan failed 0 (sq_consumers squeue)) as [[l c_count] ev1].
  simpl in Hscan.
  assert (Hpass : neutral ([LWLockAcquire sqs_producer_lwlock LW_EXCLUSIVE]
                           ++ ev1 ++ [LWLockRelease sqs_producer_lwlock]))
    by (apply neutral_locked; exact Hscan).
  set (pass := [LWLockAcquire sqs_producer_lwlock LW_EXCLUSIVE]
               ++ ev1 ++ [LWLockRelease sqs_producer_lwlock]) in *.
  assert (Hv0 : (forall sq, Some squeue = Some sq -> sq_key sq = sqname) ->
                ref_view sqname (set_queue (set_sq_consumers l squeue) shm)
                = ref_view sqname shm).
  { intros Hk. apply ref_view_set_consumers; auto. }
  destruct (c_count =? 0).
  - set (shm1 := unlocked (set_queue (set_sq_consumers l squeue) shm)) in *.
    destruct (SharedQueues shm1 !! sqname) as [sq1|] eqn:Hl1; [|discriminate].
    pose proof (unbind_recheck_neutral (sq_consumers sq1) 0) as Hre.
    pose proof (unbind_recheck_keeps (sq_consumers sq1) 0) as Hkeep.
    destruct (unbind_recheck 0 (sq_consumers sq1)) as [running ev2].
    simpl in Hre, Hkeep.
    destruct (running =? 0).
    + destruct (drop_reference sq1 shm1) as [shm2 ev3] eqn:Hd.
      inversion H; subst.
      exists pass,
        ([LWLockAcquire SQueuesLock LW_EXCLUSIVE;
          LWLockAcquire sqs_producer_lwlock LW_EXCLUSIVE]
         ++ ev2 ++ [DisownLatch sqs_producer_latch]), shm1, sq1.
      rewrite Hd. simpl fst. simpl snd.
      split; [exact Hpass|]. split.
      { apply Forall_app. split; [repeat constructor|].
        apply Forall_app. split; [exact Hkeep|repeat constructor]. }
      split.
      { rewrite !held_after_app. destruct Hre as [Hre _]. rewrite Hre.
        reflexivity. }
      split; [exact Hl1|]. split; [reflexivity|].
      split; [unfold pass; trace_eq|].
      intros Hw Hu Hk. unfold shm1. rewrite Hu. auto.
    + destruct (unbind_loop wait_producer unlocked fuel sqname failed shm1)
        as [[r shm2] ev'] eqn:Hrec.
      inversion H; subst.
      destruct (IH _ _ _ Hrec) as (passes & fin & shm0 & sq0 & Hn & Hf & Hh
                                   & Hl0 & -> & -> & Hview).
      exists ((pass ++ [LWLockAcquire SQueuesLock LW_EXCLUSIVE;
                        LWLockAcquire sqs_producer_lwlock LW_EXCLUSIVE]
               ++ ev2 ++ [LWLockRelease sqs_producer_lwlock;
                          LWLockRelease SQueuesLock]) ++ passes),
        fin, shm0, sq0.
      split.
      { apply neutral_app; [|exact Hn]. apply neutral_app; [exact Hpass|].
        replace ([LWLockAcquire SQueuesLock LW_EXCLUSIVE;
                  LWLockAcquire sqs_producer_lwlock LW_EXCLUSIVE]
                 ++ ev2 ++ [LWLockRelease sqs_producer_lwlock;
                            LWLockRelease SQueuesLock])
          with ([LWLockAcquire SQueuesLock LW_EXCLUSIVE]
                ++ ([LWLockAcquire sqs_producer_lwlock LW_EXCLUSIVE] ++ ev2
                    ++ [LWLockRelease sqs_producer_lwlock])
                ++ [LWLockRelease SQueuesLock]) by trace_eq.
        apply neutral_locked. apply neutral_locked. exact Hre. }
      split; [exact Hf|]. split; [exact Hh|]. split; [exact Hl0|].
      split; [reflexivity|]. split; [unfold pass; trace_eq|].
      intros Hw Hu Hk.
      assert (Hv1 : ref_view sqname shm1 = ref_view sqname shm)
        by (unfold shm1; rewrite Hu; auto).
      rewrite <- Hv1. apply Hview; auto.
      intros sq Hsq.
      destruct (ref_view_lookup _ _ _ _ Hv1 Hl) as (sq' & Hl' & Hk' & _).
      rewrite Hl' in Hsq. inversion Hsq; subst. rewrite Hk'. auto.
  - destruct (wait_producer (set_queue (set_sq_consumers l squeue) shm))
      as [shm1 timeout] eqn:Hwp.
    set (r2 := if timeout then _ else _) in H.
    assert (Hr2 : neutral r2.2
                  /\ ((forall sq, SharedQueues shm1 !! sqname = Some sq ->
                                  sq_key sq = sqname) ->
                      ref_view sqname r2.1 = ref_view sqname shm1)).
    { subst r2. destruct timeout; [|split; [apply neutral_nil|reflexivity]].
      destruct (SharedQueues shm1 !! sqname) as [sq1|] eqn:Hl1;
        [|split; [apply neutral_nil|reflexivity]].
      pose proof (reset_not_connected_neutral sq1) as Hn.
      unfold SharedQueueResetNotConnected in *.
      destruct (for_consumers reset_not_connected_body 0 (sq_consumers sq1))
        as [l2 evr]. simpl in *. split; [exact Hn|].
      intros Hk. apply ref_view_set_consumers; auto. }
    destruct r2 as [shm2 ev2]. simpl in Hr2. destruct Hr2 as [Hr2 Hv2].
    destruct (unbind_loop wait_producer unlocked fuel sqname failed shm2)
      as [[r shm3] ev'] eqn:Hrec.
    inversion H; subst.
    destruct (IH _ _ _ Hrec) as (passes & fin & shm0 & sq0 & Hn & Hf & Hh
                                 & Hl0 & -> & -> & Hview).
    exists (((pass ++ [WaitLatch sqs_producer_latch 10000]) ++ ev2) ++ passes),
      fin, shm0, sq0.
    split.
    { apply neutral_app; [|exact Hn]. apply neutral_app; [|exact Hr2].
      apply neutral_app; [exact Hpass|].
      apply neutral_latch. repeat constructor. }
    split; [exact Hf|]. split; [exact Hh|]. split; [exact Hl0|].
    split; [reflexivity|]. split; [unfold pass; trace_eq|].
    intros Hw Hu Hk.
    assert (Hv1 : ref_view sqname shm1 = ref_view sqname shm).
    { specialize (Hw (set_queue (set_sq_consumers l squeue) shm)).
      rewrite Hwp in Hw. simpl in Hw. rewrite Hw. auto. }
    assert (Hk1 : forall sq, SharedQueues shm1 !! sqname = Some sq ->
                             sq_key sq = sqname).
    { intros sq Hsq.
      destruct (ref_view_lookup _ _ _ _ Hv1 Hl) as (sq' & Hl' & Hk' & _).
      rewrite Hl' in Hsq. inversion Hsq; subst. rewrite Hk'. auto. }
    rewrite <- Hv1, <- (Hv2 Hk1). apply Hview; auto.
    intros sq Hsq.
    assert (Hv12 : ref_view sqname shm2 = ref_view sqname shm)
      by (rewrite (Hv2 Hk1); exact Hv1).
    destruct (ref_view_lookup _ _ _ _ Hv12 Hl) as (sq' & Hl' & Hk' & _).
    rewrite Hl' in Hsq. inversion Hsq; subst. rewrite Hk'. auto.
Qed.

End UnBindFacts.

Lemma drop_reference_events sq shm :
  (drop_reference sq shm).2 = []
  \/ (drop_reference sq shm).2 = [hash_remove (sq_key sq) None].
Proof. unfold drop_reference. destruct (_ =? 0); simpl; auto. Qed.

Lemma unbind_spec wait_producer unlocked fuel sqname failed shm sq shm' ev :
  SharedQueues shm !! sqname = Some sq -> sq_key sq = sqname ->
  (forall s, ref_view sqname (wait_producer s).1 = ref_view sqname s) ->
  (forall s, ref_view sqname (unlocked s) = ref_view sqname s) ->
  SharedQueueUnBind wait_producer unlocked fuel sqname failed shm
  = (UnBindDone, shm', ev) ->
  removes_locked ev = true /\ reference_dropped sqname sq shm shm' ev.
Proof.
  intros Hl Hk Hw Hu H. unfold SharedQueueUnBind in H.
  destruct (unbind_done_spec _ _ _ _ _ _ _ _ H)
    as (passes & fin & shm0 & sq0 & Hn & Hf & Hh & Hl0 & -> & -> & Hview).
  assert (Hv : ref_view sqname shm0 = ref_view sqname shm).
  { apply Hview; auto. intros sq1 Hsq1. rewrite Hl in Hsq1.
    inversion Hsq1; subst. reflexivity. }
  destruct (ref_view_lookup _ _ _ _ Hv Hl) as (sq' & Hl' & Hk' & Hr' & Hs' & Hy).
  rewrite Hl0 in Hl'. inversion Hl'; subst sq'.
  split.
  - unfold removes_locked. destruct Hn as [Hbal Hnr].
    rewrite trace_all_app, (no_remove_trace passes [] Hnr), Hbal.
    rewrite trace_all_app,
      (no_remove_trace fin [] (keeps_registry_no_remove _ Hf)), Hh.
    destruct (drop_reference_events sq0 shm0) as [-> | ->]; reflexivity.
  - subst sqname.
    pose proof (drop_reference_spec (sq_key sq) sq0 shm0 Hk') as Hd.
    apply (reference_dropped_same _ sq0 sq); auto.
    rewrite (app_assoc passes fin).
    apply reference_dropped_trace.
    + apply Forall_app. split; [exact (proj2 Hn)|].
      apply keeps_registry_no_remove. exact Hf.
    + repeat constructor; discriminate.
    + unfold reference_dropped in *. rewrite <- Hy. exact Hd.
Qed.

Lemma reference_dropped_refcnt sqname sq shm shm' ev :
  reference_dropped sqname sq shm shm' ev ->
  refcnt_of sqname shm'
  = (if sq_refcnt sq =? 1 then None else Some (sq_refcnt sq - 1))
  /\ (sq_refcnt sq <> 1 ->
      exists sq', SharedQueues shm' !! sqname = Some sq'
                  /\ sq_key sq' = sqname
                  /\ sq_refcnt sq' = sq_refcnt sq - 1).
Proof.
  unfold reference_dropped, refcnt_of.
  destruct (Z.eqb_spec (sq_refcnt sq) 1) as [E|E].
  - intros (-> & _). split; [reflexivity|]. intros; contradiction.
  - intros ((sq' & Hl & Hk & Hr & _) & _). rewrite Hl. simpl. rewrite Hr.
    split; [reflexivity|]. intros _. eauto.
Qed.

(** An entry that holds [r] references is gone after [r] calls that drop
    one, and not before. *)
Lemma run_drops_count fuel sqname : forall calls shm sq shm',
  SharedQueues shm !! sqname = Some sq -> sq_key sq = sqname ->
  1 <= sq_refcnt sq -> Z.of_nat (length calls) <= sq_refcnt sq ->
  run_drops fuel calls sqname shm = Some shm' ->
  refcnt_of sqname shm'
  = if sq_refcnt sq =? Z.of_nat (length calls) then None
    else Some (sq_refcnt sq - Z.of_nat (length calls)).
Proof.
  induction calls as [|c calls IH]; intros shm sq shm' Hl Hk Hpos Hlen Hrun.
  - simpl in *. inversion Hrun; subst. unfold refcnt_of. rewrite Hl. simpl.
    change (Z.of_nat 0) with 0.
    destruct (Z.eqb_spec (sq_refcnt sq) 0); [lia|]. f_equal. lia.
  - rewrite length_cons, Nat2Z.inj_succ in *.
    assert (Hstep : exists shm1 ev,
               reference_dropped sqname sq shm shm1 ev
               /\ run_drops fuel calls sqname shm1 = Some shm').
    { destruct c as [node|failed]; simpl in Hrun.
      - destruct (release_spec node sqname shm sq Hl Hk) as [_ Hd].
        eauto.
      - destruct (SharedQueueUnBind _ _ fuel sqname failed shm)
          as [[r shm1] ev] eqn:E.
        destruct r; try discriminate.
        destruct (unbind_spec (fun s => (s, true)) (fun s => s) fuel sqname
                    failed shm sq shm1 ev Hl Hk
                    (fun s => eq_refl) (fun s => eq_refl) E) as [_ Hd].
        eauto. }
    destruct Hstep as (shm1 & ev & Hd & Hrun1).
    destruct (reference_dropped_refcnt _ _ _ _ _ Hd) as [Hc Hnext].
    destruct (Z.eqb_spec (sq_refcnt sq) 1) as [E1|E1].
    + assert (calls = []) by (destruct calls; [reflexivity|simpl in Hlen; lia]).
      subst calls. simpl in Hrun1. inversion Hrun1; subst shm1.
      rewrite Hc. rewrite E1. reflexivity.
    + destruct (Hnext E1) as (sq' & Hl' & Hk' & Hr').
      rewrite (IH shm1 sq' shm' Hl' Hk' ltac:(lia) ltac:(lia) Hrun1).
      rewrite Hr'.
      destruct (Z.eqb_spec (sq_refcnt sq - 1) (Z.of_nat (length calls)));
        destruct (Z.eqb_spec (sq_refcnt sq) (Z.succ (Z.of_nat (length calls))));
        try lia; [reflexivity|]. f_equal. lia.
Qed.

(** ** References taken by SharedQueueAcquire and SharedQueueBind *)

Lemma acquire_existing_takes_reference
  NUM_SQUEUES SQUEUE_SIZE sizeof_SQueueHeader sizeof_ConsState me sleep
  sqname ncons shm sq :
  SharedQueues shm !! sqname = Some sq ->
  stale_queue me sqname shm = false ->
  exists shm' ev,
    SharedQueueAcquire NUM_SQUEUES SQUEUE_SIZE sizeof_SQueueHeader
      sizeof_ConsState me sleep sqname ncons shm = (AcquireOk, shm', ev)
    /\ refcnt_of sqname shm' = Some (sq_refcnt sq + 1).
Proof.
  intros Hl Hs. unfold SharedQueueAcquire. rewrite acquire_loop_eq.
  cbv zeta. rewrite Hl. rewrite (stale_queue_old_squeue _ _ _ _ Hl) in Hs.
  destruct (if sq_pid sq =? 0 then (false, []) else acquire_old_squeue me sq)
    as [old ev1]; simpl in Hs; subst old.
  do 2 eexists. split; [reflexivity|].
  unfold refcnt_of. simpl. rewrite lookup_insert_eq. reflexivity.
Qed.

Lemma acquire_new_takes_reference
  NUM_SQUEUES SQUEUE_SIZE sizeof_SQueueHeader sizeof_ConsState me sleep
  sqname ncons shm :
  SharedQueues shm !! sqname = None ->
  (size (SharedQueues shm) < NUM_SQUEUES)%nat ->
  exists shm' ev,
    SharedQueueAcquire NUM_SQUEUES SQUEUE_SIZE sizeof_SQueueHeader
      sizeof_ConsState me sleep sqname ncons shm = (AcquireOk, shm', ev)
    /\ refcnt_of sqname shm' = Some 1.
Proof.
  intros Hl Hsz. unfold SharedQueueAcquire. rewrite acquire_loop_eq.
  cbv zeta. rewrite Hl. rewrite bool_decide_eq_false_2 by lia.
  do 2 eexists. split; [reflexivity|].
  unfold refcnt_of. simpl. rewrite lookup_insert_eq. reflexivity.
Qed.

Lemma bind_references MyProcPid me SQ_CONS_SELF SQ_CONS_NONE sqname
  consNodes distNodes shm sq :
  SharedQueues shm !! sqname = Some sq -> sq_key sq = sqname ->
  refcnt_of sqname
    (SharedQueueBind MyProcPid me SQ_CONS_SELF SQ_CONS_NONE sqname consNodes
       distNodes shm).1.2
  = Some (if sq_pid sq =? 0 then sq_refcnt sq + 1 else sq_refcnt sq).
Proof.
  intros Hl Hk. unfold SharedQueueBind. rewrite Hl.
  destruct (sq_pid sq =? 0).
  - destruct (bind_producer_loop me SQ_CONS_SELF SQ_CONS_NONE distNodes
                consNodes _) as [consMap l].
    unfold refcnt_of, set_queue. simpl. rewrite Hk, lookup_insert_eq.
    reflexivity.
  - destruct (bind_consumer_loop MyProcPid me consNodes (sq_nodeid sq)
                (sq_consumers sq) (-1)) as [[r l] ev].
    assert (Hq : refcnt_of sqname (set_queue (set_sq_consumers l sq) shm)
                 = Some (sq_refcnt sq)).
    { unfold refcnt_of, set_queue. simpl. rewrite Hk, lookup_insert_eq.
      reflexivity. }
    destruct r; exact Hq.
Qed.

(** C9 as stated fails on the second part.  With one participant (the
    producer acquires, binds and unbinds) the entry is still in the hash
    table after the one matching call; with two participants that both
    acquire and bind, it is still there after the consumer's release and
    the producer's unbind: one more release is needed. *)
Lemma k_participants_k_calls_leave_entry :
  (let shm := sample_bind 100 1 (sample_acquire 1 sample_empty) in
   (sample_unbind shm).1 = UnBindDone
   /\ refcnt_of "q" (sample_unbind shm).2 = Some 1)
  /\ (let shm := sample_bind 200 7
                   (sample_bind 100 1
                      (sample_acquire 7 (sample_acquire 1 sample_empty))) in
      let shm := sample_release 7 shm in
      (sample_unbind shm).1 = UnBindDone
      /\ refcnt_of "q" (sample_unbind shm).2 = Some 1
      /\ refcnt_of "q" (sample_release 1 (sample_unbind shm).2) = None).
Proof. vm_compute. repeat split; reflexivity. Qed.

(** C9, amended.  Whenever [SharedQueueRelease] or [SharedQueueUnBind]
    decrements the reference count of an entry and it reaches zero, the
    entry is removed from the hash table while [SQueuesLock] is held and
    its association with the sync block is cleared in both directions:
    the block of the pool no longer names the entry, and the header given
    back to the hash table holds [sq_sync = NULL].  Otherwise the entry
    stays with one reference less and nothing is removed.  An entry that
    holds [r] references is therefore gone after exactly [r] such calls.
    The references are taken by [SharedQueueAcquire] (one per call) and by
    the producer's [SharedQueueBind] (one); a consumer's bind takes none. *)
Theorem drop_to_zero_removes_entry
  (me : Z) (sqname : string) (shm : Shmem) (sq : SQueueHeader) :
  SharedQueues shm !! sqname = Some sq ->
  sq_key sq = sqname ->
  1 <= sq_refcnt sq ->
  (removes_locked (SharedQueueRelease me sqname shm).2 = true
   /\ reference_dropped sqname sq shm (SharedQueueRelease me sqname shm).1
        (SharedQueueRelease me sqname shm).2)
  /\ (forall wait_producer unlocked fuel failed shm' ev,
        (forall s, ref_view sqname (wait_producer s).1 = ref_view sqname s) ->
        (forall s, ref_view sqname (unlocked s) = ref_view sqname s) ->
        SharedQueueUnBind wait_producer unlocked fuel sqname failed shm
        = (UnBindDone, shm', ev) ->
        removes_locked ev = true
        /\ reference_dropped sqname sq shm shm' ev)
  /\ (forall fuel calls shm',
        Z.of_nat (length calls) <= sq_refcnt sq ->
        run_drops fuel calls sqname shm = Some shm' ->
        refcnt_of sqname shm'
        = if sq_refcnt sq =? Z.of_nat (length calls) then None
          else Some (sq_refcnt sq - Z.of_nat (length calls)))
  /\ (forall NUM_SQUEUES SQUEUE_SIZE sizeof_SQueueHeader sizeof_ConsState
             sleep ncons,
        stale_queue me sqname shm = false ->
        refcnt_of sqname
          (SharedQueueAcquire NUM_SQUEUES SQUEUE_SIZE sizeof_SQueueHeader
             sizeof_ConsState me sleep sqname ncons shm).1.2
        = Some (sq_refcnt sq + 1))
  /\ (forall MyProcPid SQ_CONS_SELF SQ_CONS_NONE consNodes distNodes,
        refcnt_of sqname
          (SharedQueueBind MyProcPid me SQ_CONS_SELF SQ_CONS_NONE sqname
             consNodes distNodes shm).1.2
        = Some (if sq_pid sq =? 0 then sq_refcnt sq + 1 else sq_refcnt sq)).
Proof.
  intros Hl Hk Hpos.
  split; [apply release_spec; assumption|].
  split.
  { intros wp unl fuel failed shm' ev Hw Hu H.
    eapply unbind_spec; eauto. }
  split.
  { intros fuel calls shm' Hlen Hrun.
    eapply run_drops_count; eauto. }
  split.
  { intros NUM SIZE hdr csz sleep ncons Hs.
    destruct (acquire_existing_takes_reference NUM SIZE hdr csz me sleep
                sqname ncons shm sq Hl Hs) as (shm' & ev & -> & Hr).
    exact Hr. }
  intros pid self none consNodes distNodes.
  apply bind_references; assumption.
Qed.

Lemma drop_to_zero_removes_entry_witness :
  removes_locked
    (SharedQueueRelease 7 "q" (sample_shmem 100 CONSUMER_DONE)).2 = true
  /\ reference_dropped "q" (sample_queue 100 CONSUMER_DONE)
       (sample_shmem 100 CONSUMER_DONE)
       (SharedQueueRelease 7 "q" (sample_shmem 100 CONSUMER_DONE)).1
       (SharedQueueRelease 7 "q" (sample_shmem 100 CONSUMER_DONE)).2.
Proof.
  apply (drop_to_zero_removes_entry 7 "q" (sample_shmem 100 CONSUMER_DONE)
           (sample_queue 100 CONSUMER_DONE)); [reflexivity|reflexivity|].
  simpl. lia.
Defined.

(** ** Bytes *)

Lemma Z_of_byte_of_Z z : Z_of_byte (byte_of_Z z) = z mod 256.
Proof.
  unfold Z_of_byte, byte_of_Z.
  assert (Hr : 0 <= z mod 256 < 256) by (apply Z.mod_pos_bound; lia).
  destruct (Byte.of_N (Z.to_N (z mod 256))) as [b|] eqn:E.
  - apply Byte.to_of_N in E. rewrite E. lia.
  - apply Byte.of_N_None_iff in E. lia.
Qed.

Lemma int_bytes_length z : length (int_bytes z) = 4%nat.
Proof. reflexivity. Qed.

Lemma bytes_int_int_bytes z :
  - 2147483648 <= z <= INT_MAX -> bytes_int (int_bytes z) = z.
Proof.
  unfold INT_MAX, QLENGTH_MAX. intros Hz. unfold bytes_int, int_bytes. simpl nth.
  rewrite !Z_of_byte_of_Z.
  destruct (Z.ltb_spec
              (z mod 256 + 256 * (z / 256 mod 256) + 65536 * (z / 65536 mod 256)
               + 16777216 * (z / 16777216 mod 256)) 2147483648);
    Z.div_mod_to_equations; lia.
Qed.

(** ** Memory copies and the cyclic queue *)

Ltac wrap_lia :=
  unfold wrap in *;
  repeat match goal with
         | |- context [?a <? ?b] => destruct (Z.ltb_spec a b)
         | H : context [?a <? ?b] |- _ => destruct (Z.ltb_spec a b)
         end; lia.

Lemma memcpy_from_fmap m : forall n pos,
  memcpy_from m pos n = (fun i : nat => m (pos + Z.of_nat i)) <$> seq 0 n.
Proof.
  induction n as [|n IH]; intros pos; [reflexivity|].
  cbn [memcpy_from seq fmap list_fmap]. rewrite IH.
  replace (pos + Z.of_nat 0) with pos by lia. f_equal.
  rewrite <- fmap_S_seq, <- list_fmap_compose.
  apply list_fmap_ext. intros i x _. simpl. f_equal. lia.
Qed.

Lemma memcpy_from_length m n pos : length (memcpy_from m pos n) = n.
Proof. rewrite memcpy_from_fmap, length_fmap, length_seq. reflexivity. Qed.

Lemma memcpy_to_get buf : forall m pos a,
  memcpy_to m pos buf a
  = if (pos <=? a) && (a <? pos + Z.of_nat (length buf))
    then nth (Z.to_nat (a - pos)) buf x00 else m a.
Proof.
  induction buf as [|b buf IH]; intros m pos a.
  - simpl. change (Z.of_nat 0) with 0.
    destruct (Z.leb_spec pos a); destruct (Z.ltb_spec a (pos + 0));
      simpl; try reflexivity; lia.
  - cbn [memcpy_to]. rewrite IH. rewrite length_cons, Nat2Z.inj_succ.
    destruct (Z.leb_spec (pos + 1) a); destruct (Z.leb_spec pos a);
      destruct (Z.ltb_spec a (pos + 1 + Z.of_nat (length buf)));
      destruct (Z.ltb_spec a (pos + Z.succ (Z.of_nat (length buf))));
      simpl; try lia.
    all: destruct (Z.eqb_spec a pos); try lia; try reflexivity.
    all: try (replace (Z.to_nat (a - pos)) with (S (Z.to_nat (a - (pos + 1))))
                by lia; reflexivity).
    all: subst a; replace (pos - pos) with 0 by lia; reflexivity.
Qed.

Lemma cyc_load_length q L pos n : length (cyc_load q L pos n) = n.
Proof. unfold cyc_load. rewrite length_fmap, length_seq. reflexivity. Qed.

Lemma cyc_load_lookup q L pos n i :
  (i < n)%nat ->
  cyc_load q L pos n !! i = Some (q (wrap L (pos + Z.of_nat i))).
Proof.
  intros Hi. unfold cyc_load. rewrite list_lookup_fmap.
  rewrite lookup_seq_lt by exact Hi. reflexivity.
Qed.

Lemma cyc_load_app q L pos a b :
  0 <= pos < L -> Z.of_nat a + Z.of_nat b <= L ->
  cyc_load q L pos (a + b)
  = cyc_load q L pos a ++ cyc_load q L (wrap L (pos + Z.of_nat a)) b.
Proof.
  intros Hp Hab. unfold cyc_load. rewrite seq_app, fmap_app. f_equal.
  rewrite Nat.add_0_l. rewrite <- (Nat.add_0_r a) at 1.
  rewrite <- fmap_add_seq, <- list_fmap_compose.
  apply list_fmap_ext. intros i x Hx. simpl.
  apply lookup_seq in Hx as [-> Hlt]. f_equal.
  rewrite Nat2Z.inj_add. wrap_lia.
Qed.

Lemma cyc_load_ext q q' L pos n :
  (forall i, (i < n)%nat ->
             q' (wrap L (pos + Z.of_nat i)) = q (wrap L (pos + Z.of_nat i))) ->
  cyc_load q' L pos n = cyc_load q L pos n.
Proof.
  intros H. unfold cyc_load. apply list_fmap_ext. intros i x Hx.
  apply lookup_seq in Hx as [-> Hlt]. apply H. exact Hlt.
Qed.

Lemma QUEUE_READ_spec cstate len :
  0 <= cs_qreadpos cstate < cs_qlength cstate ->
  0 <= len <= cs_qlength cstate ->
  QUEUE_READ cstate len
  = (cyc_load (cs_q cstate) (cs_qlength cstate) (cs_qreadpos cstate)
       (Z.to_nat len),
     set_qreadpos (wrap (cs_qlength cstate) (cs_qreadpos cstate + len)) cstate).
Proof.
  intros Hp Hl. unfold QUEUE_READ.
  destruct (Z.leb_spec (cs_qreadpos cstate + len) (cs_qlength cstate)) as [H|H].
  - f_equal.
    + rewrite memcpy_from_fmap. unfold cyc_load.
      apply list_fmap_ext. intros i x Hx.
      apply lookup_seq in Hx as [-> Hlt]. f_equal. wrap_lia.
    + f_equal. destruct (Z.eqb_spec (cs_qreadpos cstate + len) (cs_qlength cstate));
        wrap_lia.
  - f_equal; [|f_equal; wrap_lia].
    replace (Z.to_nat len)
      with (Z.to_nat (cs_qlength cstate - cs_qreadpos cstate)
            + Z.to_nat (len - (cs_qlength cstate - cs_qreadpos cstate)))%nat
      by lia.
    rewrite cyc_load_app by lia. f_equal.
    + rewrite memcpy_from_fmap. unfold cyc_load.
      apply list_fmap_ext. intros i x Hx.
      apply lookup_seq in Hx as [-> Hlt]. f_equal. wrap_lia.
    + rewrite memcpy_from_fmap. unfold cyc_load.
      apply list_fmap_ext. intros i x Hx.
      apply lookup_seq in Hx as [-> Hlt]. f_equal. wrap_lia.
Qed.

Lemma nth_take_lt (buf : list byte) n i :
  (i < n)%nat -> nth i (take n buf) x00 = nth i buf x00.
Proof.
  revert n i. induction buf as [|b buf IH]; intros n i Hi.
  - rewrite take_nil. reflexivity.
  - destruct n; [lia|]. destruct i; [reflexivity|]. simpl. apply IH. lia.
Qed.

Lemma nth_drop (buf : list byte) n i :
  nth i (drop n buf) x00 = nth (n + i) buf x00.
Proof.
  revert n. induction buf as [|b buf IH]; intros n.
  - rewrite drop_nil. destruct i, n; reflexivity.
  - destruct n; [reflexivity|]. simpl. apply IH.
Qed.

Lemma QUEUE_WRITE_fields cstate len buf :
  0 <= cs_qwritepos cstate < cs_qlength cstate ->
  0 <= len <= cs_qlength cstate ->
  let c := QUEUE_WRITE cstate len buf in
  cs_qwritepos c = wrap (cs_qlength cstate) (cs_qwritepos cstate + len)
  /\ cs_qreadpos c = cs_qreadpos cstate
  /\ cs_qlength c = cs_qlength cstate
  /\ cs_ntuples c = cs_ntuples cstate
  /\ cs_status c = cs_status cstate
  /\ cs_pid c = cs_pid cstate
  /\ cs_node c = cs_node cstate.
Proof.
  intros Hp Hl. unfold QUEUE_WRITE.
  destruct (Z.leb_spec (cs_qwritepos cstate + len) (cs_qlength cstate));
    simpl; repeat split.
  - destruct (Z.eqb_spec (cs_qwritepos cstate + len) (cs_qlength cstate));
      wrap_lia.
  - wrap_lia.
Qed.

Lemma QUEUE_WRITE_get cstate len buf j :
  0 <= cs_qwritepos cstate < cs_qlength cstate ->
  0 <= len <= cs_qlength cstate ->
  len <= Z.of_nat (length buf) ->
  0 <= j < cs_qlength cstate ->
  cs_q (QUEUE_WRITE cstate len buf)
    (wrap (cs_qlength cstate) (cs_qwritepos cstate + j))
  = if j <? len then nth (Z.to_nat j) buf x00
    else cs_q cstate (wrap (cs_qlength cstate) (cs_qwritepos cstate + j)).
Proof.
  intros Hp Hl Hb Hj. unfold QUEUE_WRITE.
  destruct (Z.leb_spec (cs_qwritepos cstate + len) (cs_qlength cstate)) as [H|H];
    simpl; rewrite !memcpy_to_get, ?length_take.
  - destruct (Z.ltb_spec j len).
    + replace (wrap (cs_qlength cstate) (cs_qwritepos cstate + j))
        with (cs_qwritepos cstate + j) by wrap_lia.
      destruct (Z.leb_spec (cs_qwritepos cstate) (cs_qwritepos cstate + j));
        [|lia].
      destruct (Z.ltb_spec (cs_qwritepos cstate + j)
                  (cs_qwritepos cstate
                   + Z.of_nat (Z.to_nat len `min` length buf))); [|lia].
      simpl. rewrite nth_take_lt by lia. f_equal. lia.
    + set (a := wrap (cs_qlength cstate) (cs_qwritepos cstate + j)).
      assert (Ha : a < cs_qwritepos cstate \/ cs_qwritepos cstate + len <= a)
        by (subst a; wrap_lia).
      destruct (Z.leb_spec (cs_qwritepos cstate) a);
        destruct (Z.ltb_spec a (cs_qwritepos cstate
                   + Z.of_nat (Z.to_nat len `min` length buf)));
        simpl; try reflexivity; lia.
  - set (L := cs_qlength cstate) in *. set (wp := cs_qwritepos cstate) in *.
    set (a := wrap L (wp + j)).
    assert (Hlen1 : Z.of_nat (Z.to_nat (L - wp) `min` length buf) = L - wp)
      by lia.
    assert (Hlen2 : Z.of_nat (Z.to_nat (len - (L - wp))
                              `min` length (drop (Z.to_nat (L - wp)) buf))
                    = len - (L - wp)) by (rewrite length_drop; lia).
    rewrite Hlen1, Hlen2.
    destruct (Z.ltb_spec j len).
    + destruct (Z.ltb_spec (wp + j) L).
      * (* first part *)
        assert (a = wp + j) by (subst a; wrap_lia).
        destruct (Z.leb_spec 0 a); [|lia].
        destruct (Z.ltb_spec a (0 + (len - (L - wp)))); [lia|]. simpl.
        destruct (Z.leb_spec wp a); [|lia].
        destruct (Z.ltb_spec a (wp + (L - wp))); [|lia]. simpl.
        rewrite nth_take_lt by lia. f_equal. lia.
      * (* second part *)
        assert (a = wp + j - L) by (subst a; wrap_lia).
        destruct (Z.leb_spec 0 a); [|lia].
        destruct (Z.ltb_spec a (0 + (len - (L - wp)))); [|lia]. simpl.
        rewrite nth_take_lt by lia. rewrite nth_drop. f_equal. lia.
    + assert (a = wp + j - L) by (subst a; wrap_lia).
      destruct (Z.leb_spec 0 a); [|lia].
      destruct (Z.ltb_spec a (0 + (len - (L - wp)))); [lia|]. simpl.
      destruct (Z.leb_spec wp a); [lia|]. simpl. reflexivity.
Qed.

(** Appending [len] bytes behind the [used] bytes in the queue. *)
Lemma QUEUE_WRITE_stream cstate used len buf :
  0 <= cs_qreadpos cstate < cs_qlength cstate ->
  0 <= used -> 0 <= len -> used + len <= cs_qlength cstate ->
  len <= Z.of_nat (length buf) ->
  cs_qwritepos cstate
  = wrap (cs_qlength cstate) (cs_qreadpos cstate + used) ->
  cyc_load (cs_q (QUEUE_WRITE cstate len buf)) (cs_qlength cstate)
    (cs_qreadpos cstate) (Z.to_nat (used + len))
  = cyc_load (cs_q cstate) (cs_qlength cstate) (cs_qreadpos cstate)
      (Z.to_nat used)
    ++ take (Z.to_nat len) buf.
Proof.
  intros Hrp Hu Hl Hsum Hb Hwp.
  set (L := cs_qlength cstate) in *. set (rp := cs_qreadpos cstate) in *.
  assert (Hw : 0 <= cs_qwritepos cstate < L) by (rewrite Hwp; wrap_lia).
  apply list_eq. intros i.
  destruct (Nat.lt_ge_cases i (Z.to_nat (used + len))) as [Hi|Hi].
  2:{ rewrite !lookup_ge_None_2; [reflexivity| |].
      - rewrite length_app, cyc_load_length, length_take. lia.
      - rewrite cyc_load_length. lia. }
  rewrite cyc_load_lookup by exact Hi.
  destruct (Nat.lt_ge_cases i (Z.to_nat used)) as [Hiu|Hiu].
  - rewrite lookup_app_l by (rewrite cyc_load_length; exact Hiu).
    rewrite cyc_load_lookup by exact Hiu. f_equal.
    replace (wrap L (rp + Z.of_nat i))
      with (wrap L (cs_qwritepos cstate + (L - used + Z.of_nat i)))
      by (rewrite Hwp; wrap_lia).
    rewrite QUEUE_WRITE_get by (fold L; lia).
    destruct (Z.ltb_spec (L - used + Z.of_nat i) len); [lia|reflexivity].
  - rewrite lookup_app_r by (rewrite cyc_load_length; exact Hiu).
    rewrite cyc_load_length.
    replace (wrap L (rp + Z.of_nat i))
      with (wrap L (cs_qwritepos cstate + (Z.of_nat i - used)))
      by (rewrite Hwp; wrap_lia).
    rewrite QUEUE_WRITE_get by (fold L; lia).
    destruct (Z.ltb_spec (Z.of_nat i - used) len); [|lia].
    rewrite lookup_take_lt by lia.
    replace (Z.to_nat (Z.of_nat i - used)) with (i - Z.to_nat used)%nat by lia.
    destruct (buf !! (i - Z.to_nat used)%nat) eqn:E.
    + rewrite (nth_lookup_Some _ _ _ _ E). reflexivity.
    + apply lookup_ge_None in E. lia.
Qed.

(** ** Streams in the queue *)

Lemma stream_write cstate s len buf :
  slot_wf cstate -> stream_inv cstate s ->
  0 <= len -> Z.of_nat (length s) + len <= cs_qlength cstate ->
  len <= Z.of_nat (length buf) ->
  let c := QUEUE_WRITE cstate len buf in
  slot_wf c /\ stream_inv c (s ++ take (Z.to_nat len) buf)
  /\ same_but_queue cstate c /\ cs_qreadpos c = cs_qreadpos cstate.
Proof.
  intros (HL & Hrp & Hwp) (Hs & Hw & Hload) Hlen Hsum Hbuf c.
  destruct (QUEUE_WRITE_fields cstate len buf Hwp ltac:(lia))
    as (Fw & Fr & Fl & Fn & Fs & Fp & Fd).
  fold c in Fw, Fr, Fl, Fn, Fs, Fp, Fd.
  assert (Hlt : length (take (Z.to_nat len) buf) = Z.to_nat len)
    by (rewrite length_take; lia).
  split; [|split; [|split]].
  - unfold slot_wf. rewrite Fl, Fr, Fw. repeat split; try lia.
    all: rewrite Hw; wrap_lia.
  - unfold stream_inv. rewrite Fl, Fr, Fw, length_app, Hlt. repeat split.
    + lia.
    + rewrite Hw. wrap_lia.
    + replace (length s + Z.to_nat len)%nat
        with (Z.to_nat (Z.of_nat (length s) + len)) by lia.
      subst c.
      rewrite (QUEUE_WRITE_stream cstate (Z.of_nat (length s)) len buf Hrp
                 ltac:(lia) ltac:(lia) ltac:(lia) ltac:(lia) Hw).
      rewrite Nat2Z.id, Hload. reflexivity.
  - unfold same_but_queue. auto.
  - exact Fr.
Qed.

Lemma stream_read cstate a b :
  slot_wf cstate -> stream_inv cstate (a ++ b) ->
  QUEUE_READ cstate (Z.of_nat (length a))
  = (a, set_qreadpos (wrap (cs_qlength cstate)
                        (cs_qreadpos cstate + Z.of_nat (length a))) cstate)
  /\ slot_wf (set_qreadpos (wrap (cs_qlength cstate)
                              (cs_qreadpos cstate + Z.of_nat (length a)))
                cstate)
  /\ stream_inv (set_qreadpos (wrap (cs_qlength cstate)
                                 (cs_qreadpos cstate + Z.of_nat (length a)))
                   cstate) b.
Proof.
  intros (HL & Hrp & Hwp) (Hs & Hw & Hload).
  rewrite length_app, Nat2Z.inj_add in Hs, Hw.
  rewrite length_app, cyc_load_app in Hload by lia.
  apply app_inj_1 in Hload as [Ha Hb]; [|apply cyc_load_length].
  split; [|split].
  - rewrite QUEUE_READ_spec by lia. rewrite Nat2Z.id, Ha. reflexivity.
  - unfold slot_wf. simpl. repeat split; try lia; wrap_lia.
  - unfold stream_inv. simpl. repeat split.
    + lia.
    + rewrite Hw. wrap_lia.
    + exact Hb.
Qed.

Lemma stream_free_space cstate s :
  slot_wf cstate -> stream_inv cstate s ->
  QUEUE_FREE_SPACE cstate
  = if cs_ntuples cstate >? 0
    then (if bool_decide (s = []) then 0
          else cs_qlength cstate - Z.of_nat (length s))
    else cs_qlength cstate.
Proof.
  intros (HL & Hrp & Hwp) (Hs & Hw & _). unfold QUEUE_FREE_SPACE.
  destruct (cs_ntuples cstate >? 0); [|reflexivity].
  destruct s as [|x s].
  - rewrite bool_decide_eq_true_2 by done. simpl in *.
    destruct (Z.geb_spec (cs_qreadpos cstate) (cs_qwritepos cstate));
      rewrite Hw in *; wrap_lia.
  - rewrite bool_decide_eq_false_2 by done. rewrite length_cons in *.
    destruct (Z.geb_spec (cs_qreadpos cstate) (cs_qwritepos cstate));
      rewrite Hw in *; wrap_lia.
Qed.

(** ** Rows in the queue *)

Lemma record_length t : Z.of_nat (length (record t)) = SIZEOF_INT + msglen t.
Proof. unfold record, msglen, SIZEOF_INT. rewrite length_app. simpl. lia. Qed.

Lemma same_but_queue_refl c : same_but_queue c c.
Proof. unfold same_but_queue. auto. Qed.

Lemma same_but_queue_trans c1 c2 c3 :
  same_but_queue c1 c2 -> same_but_queue c2 c3 -> same_but_queue c1 c3.
Proof.
  unfold same_but_queue. intros (?&?&?&?&?) (?&?&?&?&?).
  repeat split; congruence.
Qed.

Lemma enqueue_record cstate s t :
  slot_wf cstate -> stream_inv cstate s ->
  Z.of_nat (length s) + SIZEOF_INT + msglen t <= cs_qlength cstate ->
  let c := QUEUE_WRITE (QUEUE_WRITE cstate SIZEOF_INT (int_bytes (msglen t)))
             (msglen t) t in
  slot_wf c /\ stream_inv c (s ++ record t)
  /\ same_but_queue cstate c /\ cs_qreadpos c = cs_qreadpos cstate.
Proof.
  intros Hwf Hs Hfit.
  assert (Hm : 0 <= msglen t) by (unfold msglen; lia).
  destruct (stream_write cstate s SIZEOF_INT (int_bytes (msglen t)) Hwf Hs)
    as (Hwf1 & Hs1 & Hsame1 & Hrp1); try (unfold SIZEOF_INT in *; simpl; lia).
  set (c1 := QUEUE_WRITE cstate SIZEOF_INT (int_bytes (msglen t))) in *.
  assert (HL1 : cs_qlength c1 = cs_qlength cstate) by apply Hsame1.
  change (take (Z.to_nat SIZEOF_INT) (int_bytes (msglen t)))
    with (int_bytes (msglen t)) in Hs1.
  destruct (stream_write c1 (s ++ int_bytes (msglen t)) (msglen t) t Hwf1 Hs1)
    as (Hwf2 & Hs2 & Hsame2 & Hrp2).
  { exact Hm. }
  { rewrite length_app, HL1. unfold SIZEOF_INT in *. simpl. lia. }
  { unfold msglen. lia. }
  simpl. split; [exact Hwf2|]. split.
  - assert (Ht : take (Z.to_nat (msglen t)) t = t)
      by (unfold msglen; rewrite Nat2Z.id; apply firstn_all).
    rewrite Ht in Hs2. unfold record. rewrite app_assoc. exact Hs2.
  - split; [eapply same_but_queue_trans; eauto|congruence].
Qed.

Lemma concat_record_nil_length (rq : list RemoteDataRow) :
  concat (record <$> rq) = [] -> rq = [].
Proof. destruct rq as [|t rq]; [reflexivity|]. simpl. discriminate. Qed.

Lemma ring_free_space cstate mode :
  ring_inv cstate mode ->
  QUEUE_FREE_SPACE cstate
  = cs_qlength cstate - used_bytes (cs_qlength cstate) mode.
Proof.
  intros [Hwf Hm]. pose proof Hwf as (HL & _).
  destruct mode as [rq|t|t off|t off|t off rq]; cbv zeta in Hm;
    cbn [used_bytes].
  - destruct Hm as [Hn Hs]. rewrite (stream_free_space _ _ Hwf Hs).
    destruct rq as [|t rq].
    + rewrite Hn. simpl. lia.
    + rewrite Hn. rewrite length_cons.
      destruct (Z.gtb_spec (Z.of_nat (S (length rq))) 0); [|lia].
      rewrite bool_decide_eq_false_2 by (simpl; discriminate). reflexivity.
  - destruct Hm as (Hlong & Hok & Hn & Hs).
    rewrite (stream_free_space _ _ Hwf Hs), Hn.
    change (1 >? 0) with true. cbv iota.
    rewrite bool_decide_eq_false_2 by (simpl; discriminate).
    rewrite length_app, length_take, int_bytes_length.
    unfold msglen, SIZEOF_INT in *. lia.
  - destruct Hm as (Hlong & Hoff & Hok & Hn & _).
    unfold QUEUE_FREE_SPACE. rewrite Hn. simpl. lia.
  - destruct Hm as (Hoff & Hlong & Hok & Hn & Hs).
    rewrite (stream_free_space _ _ Hwf Hs), Hn.
    change (1 >? 0) with true. cbv iota.
    rewrite bool_decide_eq_false_2 by (simpl; discriminate).
    rewrite length_app, length_take, length_drop, int_bytes_length.
    unfold msglen, SIZEOF_INT in *. lia.
  - destruct Hm as (Hoff & Hshort & Hok & Hn & Hs).
    rewrite (stream_free_space _ _ Hwf Hs), Hn.
    destruct (Z.gtb_spec (1 + Z.of_nat (length rq)) 0); [|lia].
    rewrite bool_decide_eq_false_2 by (simpl; discriminate).
    rewrite !length_app, length_drop, int_bytes_length.
    unfold msglen, SIZEOF_INT in *. lia.
Qed.

Lemma concat_record_snoc (rq : list RemoteDataRow) t :
  concat (record <$> (rq ++ [t])) = concat (record <$> rq) ++ record t.
Proof. rewrite fmap_app, concat_app. simpl. rewrite app_nil_r. reflexivity. Qed.

(** Queueing a whole row: the two [QUEUE_WRITE] and the count. *)
Lemma enqueue_mode cstate mode t :
  ring_inv cstate mode -> accepts_rows mode = true ->
  SIZEOF_INT + msglen t <= QUEUE_FREE_SPACE cstate ->
  let c := set_ntuples (cs_ntuples cstate + 1)
             (QUEUE_WRITE
                (QUEUE_WRITE cstate SIZEOF_INT (int_bytes (msglen t)))
                (msglen t) t) in
  ring_inv c (mode_push mode t)
  /\ cs_status c = cs_status cstate /\ cs_qlength c = cs_qlength cstate
  /\ cs_pid c = cs_pid cstate /\ cs_node c = cs_node cstate.
Proof.
  intros Hinv Hacc Hfit.
  pose proof (ring_free_space _ _ Hinv) as Hfree.
  destruct Hinv as [Hwf Hm].
  destruct mode as [rq|?|? ?|? ?|t0 off rq]; try discriminate;
    cbv zeta in Hm; cbn [used_bytes] in Hfree.
  - destruct Hm as [Hn Hs].
    destruct (enqueue_record cstate _ t Hwf Hs ltac:(lia))
      as (Hwf' & Hs' & (Hp & Hd & Hn' & Hst & HL') & Hrp').
    simpl. split; [|auto].
    split; [exact Hwf'|]. cbv zeta. cbn [mode_push]. split.
    + simpl. rewrite length_app, Nat2Z.inj_add. simpl. lia.
    + rewrite concat_record_snoc. exact Hs'.
  - destruct Hm as (Hoff & Hshort & Hok & Hn & Hs).
    rewrite !length_app, !Nat2Z.inj_add, length_drop, int_bytes_length
      in Hfit || idtac.
    destruct (enqueue_record cstate _ t Hwf Hs) as
      (Hwf' & Hs' & (Hp & Hd & Hn' & Hst & HL') & Hrp').
    { rewrite !length_app, length_drop, int_bytes_length.
      unfold msglen, SIZEOF_INT in *. lia. }
    simpl. split; [|auto].
    split; [exact Hwf'|]. cbv zeta. cbn [mode_push].
    simpl cs_qlength. rewrite HL'.
    split; [exact Hoff|]. split; [exact Hshort|]. split; [exact Hok|]. split.
    + simpl. rewrite length_app, Nat2Z.inj_add. simpl. lia.
    + rewrite concat_record_snoc, !app_assoc.
      rewrite !app_assoc in Hs'. exact Hs'.
Qed.

Lemma stream_inv_empty cstate :
  slot_wf cstate -> cs_qwritepos cstate = cs_qreadpos cstate ->
  stream_inv cstate [].
Proof.
  intros (HL & Hrp & Hwp) Heq. unfold stream_inv. simpl. repeat split.
  - lia.
  - rewrite Heq. wrap_lia.
Qed.

(** The first call of [sq_push_long_tuple] for a row. *)
Lemma push_first cstate t :
  ring_inv cstate (Normal []) ->
  cs_qlength cstate - SIZEOF_INT < msglen t -> row_ok t ->
  exists c, sq_push_long_tuple cstate t = (false, c)
            /\ ring_inv c (LongFirst t)
            /\ cs_status c = cs_status cstate
            /\ cs_qlength c = cs_qlength cstate
            /\ cs_pid c = cs_pid cstate /\ cs_node c = cs_node cstate.
Proof.
  intros [Hwf [Hn Hs]] Hlong Hok. simpl in Hn, Hs.
  pose proof Hwf as (HL & _).
  unfold sq_push_long_tuple. rewrite Hn. simpl (0 =? 0).
  destruct (stream_write cstate [] SIZEOF_INT (int_bytes (msglen t)) Hwf Hs)
    as (Hwf1 & Hs1 & (Hp1 & Hd1 & Hn1 & Hst1 & HL1) & Hrp1);
    try (unfold SIZEOF_INT in *; simpl; lia).
  set (c1 := QUEUE_WRITE cstate SIZEOF_INT (int_bytes (msglen t))) in *.
  change (take (Z.to_nat SIZEOF_INT) (int_bytes (msglen t)))
    with (int_bytes (msglen t)) in Hs1.
  destruct (stream_write c1 ([] ++ int_bytes (msglen t))
              (cs_qlength c1 - SIZEOF_INT) t Hwf1 Hs1)
    as (Hwf2 & Hs2 & (Hp2 & Hd2 & Hn2 & Hst2 & HL2) & Hrp2).
  { unfold SIZEOF_INT in *. lia. }
  { simpl. unfold SIZEOF_INT in *. lia. }
  { unfold msglen in *. lia. }
  eexists. split; [reflexivity|].
  split; [|simpl; repeat split; congruence].
  split; [exact Hwf2|]. cbv zeta. simpl cs_qlength. simpl cs_ntuples.
  rewrite HL2, HL1. split; [exact Hlong|]. split; [exact Hok|].
  split; [reflexivity|]. rewrite HL1 in Hs2. exact Hs2.
Qed.

(** A later call of [sq_push_long_tuple], the consumer having asked for
    the bytes from [off] on. *)
Lemma push_next cstate t off :
  ring_inv cstate (LongWait t off) ->
  exists c,
    sq_push_long_tuple cstate t
    = (negb (msglen t - off >? cs_qlength cstate - SIZEOF_INT), c)
    /\ ring_inv c (if msglen t - off >? cs_qlength cstate - SIZEOF_INT
                   then LongMid t off else LongLast t off [])
    /\ cs_status c = cs_status cstate
    /\ cs_qlength c = cs_qlength cstate
    /\ cs_pid c = cs_pid cstate /\ cs_node c = cs_node cstate.
Proof.
  intros [Hwf (Hlong0 & Hoff & Hok & Hn & Hpos & Hmem)].
  pose proof Hwf as (HL & _). unfold row_ok in Hok.
  unfold sq_push_long_tuple. rewrite Hn. change (LONG_TUPLE =? 0) with false.
  cbv iota. rewrite Hmem.
  rewrite bytes_int_int_bytes by (unfold INT_MAX, QLENGTH_MAX in *; lia).
  pose proof (stream_inv_empty cstate Hwf Hpos) as Hs.
  destruct (stream_write cstate [] SIZEOF_INT (int_bytes (msglen t - off))
              Hwf Hs)
    as (Hwf1 & Hs1 & (Hp1 & Hd1 & Hn1 & Hst1 & HL1) & Hrp1);
    try (unfold SIZEOF_INT in *; simpl; lia).
  set (c1 := QUEUE_WRITE cstate SIZEOF_INT (int_bytes (msglen t - off))) in *.
  change (take (Z.to_nat SIZEOF_INT) (int_bytes (msglen t - off)))
    with (int_bytes (msglen t - off)) in Hs1.
  rewrite HL1.
  destruct (Z.gtb_spec (msglen t - off) (cs_qlength cstate - SIZEOF_INT))
    as [Hgt|Hle].
  - destruct (stream_write c1 ([] ++ int_bytes (msglen t - off))
                (cs_qlength cstate - SIZEOF_INT) (drop (Z.to_nat off) t)
                Hwf1 Hs1)
      as (Hwf2 & Hs2 & (Hp2 & Hd2 & Hn2 & Hst2 & HL2) & Hrp2).
    { unfold SIZEOF_INT in *. lia. }
    { simpl. rewrite HL1. unfold SIZEOF_INT in *. lia. }
    { rewrite length_drop. unfold msglen in *. lia. }
    eexists. split; [reflexivity|].
    split; [|simpl; repeat split; congruence].
    split; [exact Hwf2|]. cbv zeta. simpl cs_qlength. simpl cs_ntuples.
    rewrite HL2, HL1. split; [lia|]. split; [lia|]. split; [exact Hok|].
    split; [reflexivity|]. exact Hs2.
  - destruct (stream_write c1 ([] ++ int_bytes (msglen t - off))
                (msglen t - off) (drop (Z.to_nat off) t) Hwf1 Hs1)
      as (Hwf2 & Hs2 & (Hp2 & Hd2 & Hn2 & Hst2 & HL2) & Hrp2).
    { lia. }
    { simpl. rewrite HL1. unfold SIZEOF_INT in *. lia. }
    { rewrite length_drop. unfold msglen in *. lia. }
    eexists. split; [reflexivity|].
    split; [|simpl; repeat split; congruence].
    split; [exact Hwf2|]. cbv zeta. simpl cs_qlength. simpl cs_ntuples.
    rewrite HL2, HL1. split; [lia|]. split; [lia|]. split; [exact Hok|].
    split; [reflexivity|].
    assert (Ht : take (Z.to_nat (msglen t - off)) (drop (Z.to_nat off) t)
                 = drop (Z.to_nat off) t).
    { apply take_ge. rewrite length_drop. unfold msglen. lia. }
    rewrite Ht in Hs2. simpl concat. rewrite app_nil_r. exact Hs2.
Qed.

(** ** Reading rows *)

Lemma memcpy_from_to m pos buf :
  memcpy_from (memcpy_to m pos buf) pos (length buf) = buf.
Proof.
  rewrite memcpy_from_fmap. apply list_eq. intros i.
  rewrite list_lookup_fmap.
  destruct (Nat.lt_ge_cases i (length buf)) as [Hi|Hi].
  - rewrite lookup_seq_lt by exact Hi. simpl. rewrite memcpy_to_get.
    destruct (Z.leb_spec pos (pos + Z.of_nat i)); [|lia].
    destruct (Z.ltb_spec (pos + Z.of_nat i) (pos + Z.of_nat (length buf)));
      [|lia].
    simpl. replace (Z.to_nat (pos + Z.of_nat i - pos)) with i by lia.
    destruct (buf !! i) eqn:E.
    + rewrite (nth_lookup_Some _ _ _ _ E). reflexivity.
    + apply lookup_ge_None in E. lia.
  - rewrite lookup_seq_ge by exact Hi. simpl.
    symmetry. apply lookup_ge_None. exact Hi.
Qed.

Section ReadSteps.

Context {Env : Type}.
Variable wait : Env -> ConsState -> Env * ConsState.

(** Reading a row that was queued whole. *)
Lemma read_row_normal fuel idx env cstate t rq :
  ring_inv cstate (Normal (t :: rq)) ->
  exists c,
    read_row wait fuel idx env cstate
    = (ReadTuple t, env, c, read_unlock_trace idx)
    /\ ring_inv c (Normal rq)
    /\ cs_status c = cs_status cstate /\ cs_qlength c = cs_qlength cstate
    /\ cs_pid c = cs_pid cstate /\ cs_node c = cs_node cstate.
Proof.
  intros [Hwf [Hn Hs]]. pose proof Hwf as (HL & _).
  change (concat (record <$> t :: rq))
    with (record t ++ concat (record <$> rq)) in Hs.
  assert (Hlen : SIZEOF_INT + msglen t <= cs_qlength cstate).
  { destruct Hs as (Hs & _).
    rewrite length_app, Nat2Z.inj_add, record_length in Hs. lia. }
  assert (Hm : 0 <= msglen t) by (unfold msglen; lia).
  unfold record in Hs. rewrite <- app_assoc in Hs.
  destruct (stream_read cstate _ _ Hwf Hs) as (Hr1 & Hwf1 & Hs1).
  rewrite int_bytes_length in Hr1, Hwf1, Hs1.
  set (c1 := set_qreadpos _ cstate) in *.
  destruct (stream_read c1 _ _ Hwf1 Hs1) as (Hr2 & Hwf2 & Hs2).
  fold (msglen t) in Hr2, Hwf2, Hs2.
  set (c2 := set_qreadpos _ c1) in *.
  unfold read_row. change SIZEOF_INT with (Z.of_nat 4) at 1. rewrite Hr1.
  rewrite bytes_int_int_bytes by (unfold INT_MAX, QLENGTH_MAX, SIZEOF_INT in *; lia).
  destruct (Z.gtb_spec (msglen t) (cs_qlength c1 - SIZEOF_INT)) as [Hgt|_];
    [simpl in Hgt; lia|].
  rewrite Hr2. unfold read_deliver.
  eexists. split; [reflexivity|].
  split; [|simpl; auto].
  split; [exact Hwf2|]. cbv zeta. split.
  - simpl. rewrite Hn. rewrite length_cons. lia.
  - exact Hs2.
Qed.

(** Reading the first part of a long row: the consumer asks for more. *)
Lemma read_row_long_first fuel idx env cstate t :
  ring_inv cstate (LongFirst t) ->
  exists c,
    read_row wait fuel idx env cstate
    = read_deliver idx
        (pull_wait wait fuel idx (msglen t) env c
           (cs_qlength cstate - SIZEOF_INT)
           (take (Z.to_nat (cs_qlength cstate - SIZEOF_INT)) t))
    /\ ring_inv c (LongWait t (cs_qlength cstate - SIZEOF_INT))
    /\ cs_status c = cs_status cstate /\ cs_qlength c = cs_qlength cstate
    /\ cs_pid c = cs_pid cstate /\ cs_node c = cs_node cstate.
Proof.
  intros [Hwf (Hlong & Hok & Hn & Hs)]. pose proof Hwf as (HL & _).
  unfold row_ok in Hok.
  destruct (stream_read cstate _ _ Hwf Hs) as (Hr1 & Hwf1 & Hs1).
  rewrite int_bytes_length in Hr1, Hwf1, Hs1.
  set (c1 := set_qreadpos _ cstate) in *.
  rewrite <- (app_nil_r (take _ t)) in Hs1.
  destruct (stream_read c1 _ _ Hwf1 Hs1) as (Hr2 & Hwf2 & Hs2).
  assert (Hlt : Z.of_nat (length (take (Z.to_nat (cs_qlength cstate - SIZEOF_INT)) t))
                = cs_qlength cstate - SIZEOF_INT)
    by (rewrite length_take; unfold msglen, SIZEOF_INT in *; lia).
  rewrite Hlt in Hr2, Hwf2, Hs2.
  set (c2 := set_qreadpos _ c1) in *.
  unfold read_row. change SIZEOF_INT with (Z.of_nat 4) at 1. rewrite Hr1.
  rewrite bytes_int_int_bytes by (unfold INT_MAX, QLENGTH_MAX, msglen in *; lia).
  change (cs_qlength c1) with (cs_qlength cstate).
  destruct (Z.gtb_spec (msglen t) (cs_qlength cstate - SIZEOF_INT)) as [_|Hle];
    [|lia].
  unfold sq_pull_long_tuple, pull_chunk.
  change (cs_qlength c1) with (cs_qlength cstate).
  destruct (Z.gtb_spec (msglen t) (cs_qlength cstate - SIZEOF_INT)) as [_|Hle];
    [|lia].
  rewrite Hr2. simpl app. rewrite Z.add_0_l.
  destruct (Z.eqb_spec (cs_qlength cstate - SIZEOF_INT) (msglen t)) as [E|_];
    [lia|].
  eexists. split; [reflexivity|].
  split; [|simpl; auto].
  split.
  { unfold pull_request_more. exact Hwf2. }
  cbv zeta. change (cs_qlength (pull_request_more _ _)) with (cs_qlength cstate).
  split; [unfold SIZEOF_INT in *; lia|].
  split; [unfold SIZEOF_INT in *; lia|]. split; [exact Hok|].
  split; [reflexivity|]. split.
  - destruct Hs2 as (_ & Hw2 & _). simpl in Hw2. simpl.
    rewrite Hw2. destruct Hwf2 as (_ & Hrp2 & _). simpl in Hrp2.
    assert (Hz : forall L x, 0 <= x < L -> wrap L (x + Z.of_nat 0) = x)
      by (intros; wrap_lia).
    apply Hz. exact Hrp2.
  - apply (memcpy_from_to _ 0 (int_bytes (cs_qlength cstate - SIZEOF_INT))).
Qed.

End ReadSteps.

Section PullSteps.

Context {Env : Type}.
Variable wait : Env -> ConsState -> Env * ConsState.

(** The producer has not served the consumer yet: it sleeps again. *)
Lemma pull_wait_idle fuel idx datalen env cstate env1 c1 offset msg t off :
  wait env cstate = (env1, c1) ->
  ring_inv c1 (LongWait t off) ->
  pull_wait wait (S fuel) idx datalen env cstate offset msg
  = let '(r, e, c, ev) :=
      pull_wait wait fuel idx datalen env1 c1 offset msg in
    (r, e, c, pull_wait_trace idx ++ ev).
Proof.
  intros Hw [_ (_ & _ & _ & Hn & _)]. cbn [pull_wait]. rewrite Hw, Hn.
  change (LONG_TUPLE =? LONG_TUPLE) with true. cbv iota. reflexivity.
Qed.

(** A middle part has arrived: read it and ask for more. *)
Lemma pull_wait_mid fuel idx env cstate env1 c1 msg t off :
  wait env cstate = (env1, c1) ->
  ring_inv c1 (LongMid t off) ->
  exists c,
    pull_wait wait (S fuel) idx (msglen t) env cstate off msg
    = (let '(r, e, c', ev) :=
         pull_wait wait fuel idx (msglen t) env1 c
           (off + (cs_qlength c1 - SIZEOF_INT))
           (msg ++ take (Z.to_nat (cs_qlength c1 - SIZEOF_INT))
                     (drop (Z.to_nat off) t)) in
       (r, e, c', pull_wait_trace idx ++ ev))
    /\ ring_inv c (LongWait t (off + (cs_qlength c1 - SIZEOF_INT)))
    /\ cs_status c = cs_status c1 /\ cs_qlength c = cs_qlength c1
    /\ cs_pid c = cs_pid c1 /\ cs_node c = cs_node c1.
Proof.
  intros Hw [Hwf (Hoff & Hlong & Hok & Hn & Hs)]. pose proof Hwf as (HL & _).
  unfold row_ok in Hok.
  destruct (stream_read c1 _ _ Hwf Hs) as (Hr1 & Hwf1 & Hs1).
  rewrite int_bytes_length in Hr1, Hwf1, Hs1.
  set (c2 := set_qreadpos _ c1) in *.
  rewrite <- (app_nil_r (take _ (drop _ t))) in Hs1.
  destruct (stream_read c2 _ _ Hwf1 Hs1) as (Hr2 & Hwf2 & Hs2).
  assert (Hlt : Z.of_nat (length (take (Z.to_nat (cs_qlength c1 - SIZEOF_INT))
                                    (drop (Z.to_nat off) t)))
                = cs_qlength c1 - SIZEOF_INT)
    by (rewrite length_take, length_drop; unfold msglen, SIZEOF_INT in *; lia).
  rewrite Hlt in Hr2, Hwf2, Hs2.
  set (c3 := set_qreadpos _ c2) in *.
  cbn [pull_wait]. rewrite Hw, Hn.
  change (1 =? LONG_TUPLE) with false. cbv iota.
  change SIZEOF_INT with (Z.of_nat 4) at 1. rewrite Hr1.
  rewrite bytes_int_int_bytes by (unfold INT_MAX, QLENGTH_MAX, msglen in *; lia).
  unfold pull_chunk. change (cs_qlength c2) with (cs_qlength c1).
  destruct (Z.gtb_spec (msglen t - off) (cs_qlength c1 - SIZEOF_INT)) as [_|Hle];
    [|lia].
  rewrite Hr2.
  destruct (Z.eqb_spec (off + (cs_qlength c1 - SIZEOF_INT)) (msglen t)) as [E|_];
    [lia|].
  eexists. split; [reflexivity|].
  split; [|simpl; auto].
  split; [exact Hwf2|].
  cbv zeta. change (cs_qlength (pull_request_more _ _)) with (cs_qlength c1).
  split; [unfold SIZEOF_INT in *; lia|].
  split; [unfold SIZEOF_INT in *; lia|]. split; [exact Hok|].
  split; [reflexivity|]. split.
  - destruct Hs2 as (_ & Hw2 & _). simpl in Hw2. simpl.
    rewrite Hw2. destruct Hwf2 as (_ & Hrp2 & _). simpl in Hrp2.
    assert (Hz : forall L x, 0 <= x < L -> wrap L (x + Z.of_nat 0) = x)
      by (intros; wrap_lia).
    apply Hz. exact Hrp2.
  - apply (memcpy_from_to _ 0
             (int_bytes (off + (cs_qlength c1 - SIZEOF_INT)))).
Qed.

(** The last part has arrived: the row is complete. *)
Lemma pull_wait_last fuel idx env cstate env1 c1 msg t off rq :
  wait env cstate = (env1, c1) ->
  ring_inv c1 (LongLast t off rq) ->
  exists c,
    pull_wait wait (S fuel) idx (msglen t) env cstate off msg
    = (Some (msg ++ drop (Z.to_nat off) t), env1, c, pull_wait_trace idx)
    /\ ring_inv (set_ntuples (cs_ntuples c - 1) c) (Normal rq)
    /\ cs_status c = cs_status c1 /\ cs_qlength c = cs_qlength c1
    /\ cs_pid c = cs_pid c1 /\ cs_node c = cs_node c1.
Proof.
  intros Hw [Hwf (Hoff & Hshort & Hok & Hn & Hs)]. pose proof Hwf as (HL & _).
  unfold row_ok in Hok.
  destruct (stream_read c1 _ _ Hwf Hs) as (Hr1 & Hwf1 & Hs1).
  rewrite int_bytes_length in Hr1, Hwf1, Hs1.
  set (c2 := set_qreadpos _ c1) in *.
  destruct (stream_read c2 _ _ Hwf1 Hs1) as (Hr2 & Hwf2 & Hs2).
  assert (Hlt : Z.of_nat (length (drop (Z.to_nat off) t)) = msglen t - off)
    by (rewrite length_drop; unfold msglen in *; lia).
  rewrite Hlt in Hr2, Hwf2, Hs2.
  set (c3 := set_qreadpos _ c2) in *.
  cbn [pull_wait]. rewrite Hw, Hn.
  destruct (Z.eqb_spec (1 + Z.of_nat (length rq)) LONG_TUPLE) as [E|_];
    [unfold LONG_TUPLE in E; lia|].
  change SIZEOF_INT with (Z.of_nat 4) at 1. rewrite Hr1.
  rewrite bytes_int_int_bytes by (unfold INT_MAX, QLENGTH_MAX, msglen in *; lia).
  unfold pull_chunk. change (cs_qlength c2) with (cs_qlength c1).
  destruct (Z.gtb_spec (msglen t - off) (cs_qlength c1 - SIZEOF_INT)) as [Hgt|_];
    [lia|].
  rewrite Hr2.
  destruct (Z.eqb_spec (off + (msglen t - off)) (msglen t)) as [_|E]; [|lia].
  eexists. split; [reflexivity|].
  split; [|simpl; auto].
  split; [exact Hwf2|]. cbv zeta. split.
  - simpl. rewrite Hn. lia.
  - exact Hs2.
Qed.

End PullSteps.

(** ** The store *)

Lemma producer_moves_refl mode : producer_moves mode mode.
Proof.
  destruct mode as [rq|t|t off|t off|t off rq]; try constructor.
  - rewrite <- (app_nil_r rq) at 2. constructor.
  - rewrite <- (app_nil_r rq) at 2. constructor.
Qed.

Lemma producer_moves_trans m1 m2 m3 :
  producer_moves m1 m2 -> producer_moves m2 m3 -> producer_moves m1 m3.
Proof.
  intros H12 H23. inversion H12; subst; inversion H23; subst;
    try constructor; try (rewrite <- app_assoc; constructor).
  - destruct rq; [|discriminate]. destruct more; [|discriminate]. constructor.
Qed.

Lemma producer_moves_push mode t :
  accepts_rows mode = true -> producer_moves mode (mode_push mode t).
Proof.
  destruct mode; try discriminate; intros _; simpl; constructor.
Qed.

Lemma tuplestore_ateof_pending ts :
  ts_active ts = 1%nat ->
  tuplestore_ateof ts = bool_decide (pending ts = []).
Proof.
  destruct ts as [tuples p0 p1 a]. simpl. intros ->.
  unfold tuplestore_ateof, pending. simpl.
  apply bool_decide_ext.
  split; intros H.
  - apply drop_ge. exact H.
  - destruct (Nat.le_gt_cases (length tuples) p1) as [|Hlt];
      [assumption|].
    apply (f_equal length) in H. rewrite length_drop in H. simpl in H. lia.
Qed.

Lemma tuplestore_get_pending ts t rest :
  ts_active ts = 1%nat -> pending ts = t :: rest ->
  exists ts2,
    tuplestore_gettupleslot (tuplestore_copy_read_pointer ts 1 0)
    = Some (t, ts2)
    /\ ts_active ts2 = 1%nat
    /\ pending ts2 = rest
    /\ (ts_ptr1 ts2 <= length (ts_tuples ts2))%nat
    /\ ts_tuples ts2 = ts_tuples ts
    /\ pending (dump_give_back ts2) = t :: rest
    /\ (ts_ptr1 (dump_give_back ts2)
        <= length (ts_tuples (dump_give_back ts2)))%nat.
Proof.
  destruct ts as [tuples p0 p1 a]. simpl. intros -> Hp.
  unfold pending in Hp. simpl in Hp.
  assert (Hl : tuples !! p1 = Some t).
  { rewrite <- (Nat.add_0_r p1), <- lookup_drop, Hp. reflexivity. }
  assert (Hlt : (p1 < length tuples)%nat)
    by (apply lookup_lt_is_Some; eauto).
  unfold tuplestore_gettupleslot, tuplestore_copy_read_pointer.
  simpl. rewrite Hl.
  eexists. split; [reflexivity|]. simpl. split; [reflexivity|].
  split.
  { unfold pending. simpl.
    rewrite <- (Nat.add_1_r p1), <- drop_drop, Hp. reflexivity. }
  split; [lia|]. split; [reflexivity|].
  unfold dump_give_back, tuplestore_trim, tuplestore_copy_read_pointer, pending.
  simpl. rewrite Nat.min_id, Nat.sub_diag. simpl.
  split; [exact Hp|lia].
Qed.

Lemma dump_finish_pending ts :
  pending (dump_finish ts) = pending ts
  /\ ((ts_ptr1 ts <= length (ts_tuples ts))%nat ->
      (ts_ptr1 (dump_finish ts) <= length (ts_tuples (dump_finish ts)))%nat).
Proof.
  unfold dump_finish, tuplestore_trim, pending. simpl. split.
  - rewrite drop_drop. f_equal. lia.
  - rewrite length_drop. lia.
Qed.

Lemma put_pending ts row :
  (ts_ptr1 ts <= length (ts_tuples ts))%nat ->
  pending (tuplestore_puttupleslot ts row) = pending ts ++ [row]
  /\ (ts_ptr1 (tuplestore_puttupleslot ts row)
      <= length (ts_tuples (tuplestore_puttupleslot ts row)))%nat.
Proof.
  intros H. unfold pending, tuplestore_puttupleslot. simpl. split.
  - rewrite drop_app_le by exact H. reflexivity.
  - rewrite length_app. simpl. lia.
Qed.

(** ** SharedQueueDump *)

Lemma in_flight_push mode t rest :
  accepts_rows mode = true ->
  in_flight (mode_push mode t) rest = in_flight mode (t :: rest).
Proof.
  destruct mode; try discriminate; intros _; simpl;
    rewrite <- ?app_assoc; reflexivity.
Qed.

Lemma accepts_rows_free cstate mode t rest :
  ring_inv cstate mode -> long_head mode (t :: rest) ->
  SIZEOF_INT + msglen t <= QUEUE_FREE_SPACE cstate ->
  accepts_rows mode = true.
Proof.
  intros Hring Hhead Hfit. rewrite (ring_free_space _ _ Hring) in Hfit.
  destruct Hring as [_ Hm].
  destruct mode as [rq|t0|t0 off|t0 off|t0 off rq]; try reflexivity;
    cbv zeta in Hm; cbn [used_bytes] in Hfit;
    unfold msglen, SIZEOF_INT in *; try lia.
  destruct Hhead as [rest' Hh]. inversion Hh; subst.
  destruct Hm as (Hlong & _). lia.
Qed.

Lemma dump_loop_done n idx cstate ts :
  ts_active ts = 1%nat -> pending ts = [] ->
  dump_loop n idx cstate ts = (true, cstate, dump_finish ts, []).
Proof.
  intros Ha Hp. destruct n; cbn [dump_loop];
    rewrite (tuplestore_ateof_pending ts Ha), bool_decide_eq_true_2
      by exact Hp; reflexivity.
Qed.

Lemma dump_loop_spec n idx : forall cstate ts mode,
  flight_inv cstate (Some ts) mode -> ts_active ts = 1%nat ->
  (length (pending ts) <= n)%nat ->
  exists r c ts' ev mode',
    dump_loop n idx cstate ts = (r, c, ts', ev)
    /\ flight_inv c (Some ts') mode' /\ producer_moves mode mode'
    /\ in_flight mode' (pending ts') = in_flight mode (pending ts)
    /\ (r = true -> pending ts' = [])
    /\ cs_status c = cs_status cstate /\ cs_qlength c = cs_qlength cstate.
Proof.
  induction n as [|n IH];
    intros cstate ts mode (Hring & Hok & Hhead & Hrows) Ha Hlen;
    simpl in Hok, Hhead, Hrows;
    destruct (pending ts) as [|t rest] eqn:Hp.
  1,3: destruct (dump_finish_pending ts) as [Hf1 Hf2]; rewrite Hp in Hf1;
    exists true, cstate, (dump_finish ts), [], mode;
    (split; [apply dump_loop_done; assumption|]);
    (split; [split; [exact Hring|]; simpl; rewrite Hf1; auto|]);
    (split; [apply producer_moves_refl|]); rewrite Hf1; auto.
  - simpl in Hlen. lia.
  - destruct (tuplestore_get_pending ts t rest Ha Hp)
      as (ts2 & Hget & Ha2 & Hp2 & Hok2 & _ & Hgb & Hokgb).
    apply Forall_cons in Hrows as [Hrt Hrrest].
    cbn [dump_loop]. rewrite (tuplestore_ateof_pending ts Ha),
      bool_decide_eq_false_2 by (rewrite Hp; discriminate).
    rewrite Hget.
    assert (Hstop : forall c mode' (ev : list Event),
      ring_inv c mode' -> long_head mode' (t :: rest) ->
      producer_moves mode mode' ->
      in_flight mode' (t :: rest) = in_flight mode (t :: rest) ->
      cs_status c = cs_status cstate -> cs_qlength c = cs_qlength cstate ->
      exists r c' ts' ev' mode'',
        (false, c, dump_give_back ts2, ev) = (r, c', ts', ev')
        /\ flight_inv c' (Some ts') mode'' /\ producer_moves mode mode''
        /\ in_flight mode'' (pending ts') = in_flight mode (t :: rest)
        /\ (r = true -> pending ts' = [])
        /\ cs_status c' = cs_status cstate
        /\ cs_qlength c' = cs_qlength cstate).
    { intros c mode' ev Hr' Hh' Hpm Hfl Hst HL.
      exists false, c, (dump_give_back ts2), ev, mode'.
      split; [reflexivity|]. split.
      { split; [exact Hr'|]. simpl. rewrite Hgb. auto. }
      rewrite Hgb. split; [exact Hpm|]. split; [exact Hfl|].
      split; [discriminate|]. auto. }
    assert (Hgo : forall c mode' (ev : list Event),
      ring_inv c mode' -> long_head mode' rest ->
      producer_moves mode mode' ->
      in_flight mode' rest = in_flight mode (t :: rest) ->
      cs_status c = cs_status cstate -> cs_qlength c = cs_qlength cstate ->
      exists r c' ts' ev' mode'',
        (let '(r, c0, ts0, ev0) := dump_loop n idx c ts2 in
         (r, c0, ts0, ev ++ ev0)) = (r, c', ts', ev')
        /\ flight_inv c' (Some ts') mode'' /\ producer_moves mode mode''
        /\ in_flight mode'' (pending ts') = in_flight mode (t :: rest)
        /\ (r = true -> pending ts' = [])
        /\ cs_status c' = cs_status cstate
        /\ cs_qlength c' = cs_qlength cstate).
    { intros c mode' ev Hr' Hh' Hpm Hfl Hst HL.
      destruct (IH c ts2 mode') as (r & c' & ts' & ev' & mode'' & Hd & Hfi
                                     & Hpm' & Hfl' & Hr & Hst' & HL').
      { split; [exact Hr'|]. simpl. rewrite Hp2. auto. }
      { exact Ha2. }
      { rewrite Hp2. simpl in Hlen. lia. }
      rewrite Hd. exists r, c', ts', (ev ++ ev'), mode''.
      split; [reflexivity|]. split; [exact Hfi|].
      split; [exact (producer_moves_trans _ _ _ Hpm Hpm')|].
      rewrite Hfl', Hp2. split; [exact Hfl|]. split; [exact Hr|].
      split; congruence. }
    destruct (Z.ltb_spec (QUEUE_FREE_SPACE cstate) (SIZEOF_INT + msglen t))
      as [Hfull|Hfit].
    + destruct (Z.leb_spec (cs_ntuples cstate) 0) as [Hle|Hgt].
      * pose proof (ring_free_space _ _ Hring) as Hfree.
        pose proof Hring as [Hwf Hm].
        destruct mode as [rq|t0|t0 off|t0 off|t0 off rq]; cbv zeta in Hm.
        -- destruct Hm as [Hn Hs]. destruct rq as [|r0 rq];
             [|rewrite Hn in Hle; simpl in Hle; lia].
           cbn [used_bytes] in Hfree. simpl in Hfree.
           destruct (push_first cstate t Hring ltac:(lia) Hrt)
             as (c & Hpush & Hrc & Hst & HL & _).
           rewrite Hpush. cbv beta iota zeta.
           apply (Hstop c (LongFirst t)); auto; [simpl; eauto|constructor].
        -- destruct Hm as (_ & _ & Hn & _). lia.
        -- destruct Hhead as [rest' Hh]. inversion Hh; subst t0 rest'.
           destruct (push_next cstate t off Hring)
             as (c & Hpush & Hrc & Hst & HL & _).
           rewrite Hpush.
           destruct (msglen t - off >? cs_qlength cstate - SIZEOF_INT);
             cbn [negb]; cbv beta iota zeta.
           ++ apply (Hstop c (LongMid t off)); auto;
                [simpl; eauto|constructor].
           ++ apply (Hgo c (LongLast t off [])); auto;
                [simpl; auto|apply (pm_wait_last t off [])].
        -- destruct Hm as (_ & _ & _ & Hn & _). lia.
        -- destruct Hm as (_ & _ & _ & Hn & _). lia.
      * apply (Hstop cstate mode); auto. apply producer_moves_refl.
    + pose proof (accepts_rows_free _ _ _ _ Hring Hhead Hfit) as Hacc.
      destruct (enqueue_mode cstate mode t Hring Hacc Hfit)
        as (Hrc & Hst & HL & _).
      cbv zeta. apply (Hgo _ (mode_push mode t)); auto.
      * destruct mode; try discriminate; exact I.
      * apply producer_moves_push; exact Hacc.
      * apply in_flight_push; exact Hacc.
Qed.

Lemma SharedQueueDump_spec idx cstate ts mode :
  flight_inv cstate (Some ts) mode -> cs_status cstate = CONSUMER_ACTIVE ->
  exists r c ts' ev mode',
    SharedQueueDump idx cstate ts = (r, c, ts', ev)
    /\ flight_inv c (Some ts') mode' /\ producer_moves mode mode'
    /\ in_flight mode' (pending ts') = in_flight mode (pending ts)
    /\ (r = true -> pending ts' = [])
    /\ cs_status c = cs_status cstate /\ cs_qlength c = cs_qlength cstate.
Proof.
  intros Hfl Hst. unfold SharedQueueDump.
  rewrite bool_decide_eq_false_2 by (rewrite Hst; intros H; apply H; reflexivity).
  apply (dump_loop_spec _ idx cstate (tuplestore_select_read_pointer ts 1) mode).
  - exact Hfl.
  - reflexivity.
  - unfold pending. simpl. rewrite length_drop. lia.
Qed.

(** ** The calls of the producer *)

Lemma long_head_nil mode : long_head mode [] -> accepts_rows mode = true.
Proof.
  destruct mode; simpl; try reflexivity; intros [rest H]; discriminate.
Qed.

Lemma long_head_app mode p q : long_head mode p -> long_head mode (p ++ q).
Proof.
  destruct mode; simpl; auto; intros [rest ->]; eexists; reflexivity.
Qed.

Lemma in_flight_app mode p q : in_flight mode (p ++ q) = in_flight mode p ++ q.
Proof. destruct mode; simpl; rewrite ?app_assoc; reflexivity. Qed.

Lemma accepts_long_head mode p : accepts_rows mode = true -> long_head mode p.
Proof. destruct mode; simpl; try discriminate; auto. Qed.

Lemma write_active_spec idx cstate row store mode :
  flight_inv cstate store mode -> cs_status cstate = CONSUMER_ACTIVE ->
  row_ok row ->
  exists c store' ev mode',
    SharedQueueWrite idx cstate row store = (c, store', ev)
    /\ flight_inv c store' mode' /\ producer_moves mode mode'
    /\ in_flight mode' (pending_store store')
       = in_flight mode (pending_store store) ++ [row]
    /\ cs_status c = CONSUMER_ACTIVE /\ cs_qlength c = cs_qlength cstate.
Proof.
  intros Hfl Hst Hrow.
  (* the row is appended to the store *)
  assert (Hput : forall c ts mode' (ev : list Event),
    flight_inv c (Some ts) mode' -> producer_moves mode mode' ->
    in_flight mode' (pending ts) = in_flight mode (pending_store store) ->
    cs_status c = cs_status cstate -> cs_qlength c = cs_qlength cstate ->
    exists c' store' ev' mode'',
      (c, Some (tuplestore_puttupleslot ts row), ev) = (c', store', ev')
      /\ flight_inv c' store' mode'' /\ producer_moves mode mode''
      /\ in_flight mode'' (pending_store store')
         = in_flight mode (pending_store store) ++ [row]
      /\ cs_status c' = CONSUMER_ACTIVE /\ cs_qlength c' = cs_qlength cstate).
  { intros c ts mode' ev (Hr & Hok & Hh & Hrows) Hpm Hin Hs HL.
    simpl in Hok, Hh, Hrows.
    destruct (put_pending ts row Hok) as [Hp1 Hp2].
    exists c, (Some (tuplestore_puttupleslot ts row)), ev, mode'.
    split; [reflexivity|]. split.
    { split; [exact Hr|]. simpl. rewrite Hp1. split; [exact Hp2|].
      split; [apply long_head_app; exact Hh|].
      apply Forall_app. split; [exact Hrows|]. constructor; [exact Hrow|constructor]. }
    split; [exact Hpm|]. simpl. rewrite Hp1, in_flight_app, Hin.
    split; [reflexivity|]. split; congruence. }
  (* the row is queued, or goes to a store that holds nothing to move *)
  assert (Hdirect : forall c (store' : option Tuplestorestate) mode'
                      (ev0 ev1 : list Event),
    ring_inv c mode' -> store_ok store' -> pending_store store' = [] ->
    pending_store (Some (tuplestore_puttupleslot
                           (match store' with
                            | Some ts => ts
                            | None => tuplestore_begin_datarow
                            end) row)) = [row] ->
    store_ok (Some (tuplestore_puttupleslot
                      (match store' with
                       | Some ts => ts
                       | None => tuplestore_begin_datarow
                       end) row)) ->
    accepts_rows mode' = true -> producer_moves mode mode' ->
    in_flight mode' [] = in_flight mode (pending_store store) ->
    cs_status c = cs_status cstate -> cs_qlength c = cs_qlength cstate ->
    exists c' store'' ev' mode'',
      (if QUEUE_FREE_SPACE c <? SIZEOF_INT + msglen row then
         (c, Some (tuplestore_puttupleslot
                     (match store' with
                      | Some ts => ts
                      | None => tuplestore_begin_datarow
                      end) row), ev0 ++ ev1 ++ [LWLockRelease (cs_lwlock idx)])
       else if bool_decide (cs_status c = CONSUMER_ACTIVE) then
         (set_ntuples (cs_ntuples c + 1)
            (QUEUE_WRITE (QUEUE_WRITE c SIZEOF_INT (int_bytes (msglen row)))
               (msglen row) row),
          store',
          ev0 ++ ev1 ++ (if cs_ntuples c =? 0
                         then [SetLatch (cs_latch idx)] else [])
          ++ [LWLockRelease (cs_lwlock idx)])
       else (c, store', ev0 ++ ev1 ++ [LWLockRelease (cs_lwlock idx)]))
      = (c', store'', ev')
      /\ flight_inv c' store'' mode'' /\ producer_moves mode mode''
      /\ in_flight mode'' (pending_store store'')
         = in_flight mode (pending_store store) ++ [row]
      /\ cs_status c' = CONSUMER_ACTIVE /\ cs_qlength c' = cs_qlength cstate).
  { intros c store' mode' ev0 ev1 Hr Hok Hp Hp' Hok' Hacc Hpm Hin Hs HL.
    destruct (Z.ltb_spec (QUEUE_FREE_SPACE c) (SIZEOF_INT + msglen row))
      as [Hfull|Hfit].
    - eexists _, _, _, mode'. split; [reflexivity|]. split.
      { split; [exact Hr|]. split; [exact Hok'|]. rewrite Hp'.
        split; [apply accepts_long_head; exact Hacc|].
        constructor; [exact Hrow|constructor]. }
      split; [exact Hpm|]. rewrite Hp'.
      rewrite <- (app_nil_l [row]), in_flight_app, Hin.
      split; [reflexivity|]. split; congruence.
    - rewrite bool_decide_eq_true_2 by congruence.
      destruct (enqueue_mode c mode' row Hr Hacc Hfit)
        as (Hrc & Hst' & HL' & _).
      eexists _, _, _, (mode_push mode' row). split; [reflexivity|]. split.
      { split; [exact Hrc|]. split; [exact Hok|]. rewrite Hp.
        split; [|constructor].
        apply accepts_long_head. destruct mode'; try discriminate; reflexivity. }
      split.
      { apply (producer_moves_trans _ _ _ Hpm).
        apply producer_moves_push; exact Hacc. }
      rewrite Hp, (in_flight_push _ _ _ Hacc).
      rewrite <- (app_nil_l [row]), in_flight_app, Hin.
      split; [reflexivity|]. split; congruence. }
  unfold SharedQueueWrite. destruct store as [ts|].
  - destruct (QUEUE_FREE_SPACE cstate >? cs_qlength cstate `quot` 2).
    + destruct (SharedQueueDump_spec idx cstate ts mode Hfl Hst)
        as (r & c & ts' & ev & mode' & Hd & Hfl' & Hpm & Hin & Hr & Hs & HL).
      rewrite Hd. destruct r.
      * specialize (Hr eq_refl). destruct Hfl' as (Hr' & Hok' & Hh' & Hrows').
        simpl in Hok', Hh', Hrows'. rewrite Hr in Hh', Hin.
        destruct (put_pending ts' row Hok') as [Hp1 Hp2]. rewrite Hr in Hp1.
        apply (Hdirect c (Some ts') mode'); auto.
        apply long_head_nil; exact Hh'.
      * apply (Hput c ts' mode'); auto.
    + apply (Hput cstate ts mode); auto. apply producer_moves_refl.
  - destruct Hfl as (Hr & Hok & Hh & Hrows). simpl in Hh.
    apply (Hdirect cstate None mode); auto.
    + simpl. lia.
    + apply long_head_nil; exact Hh.
    + apply producer_moves_refl.
Qed.

Lemma ring_inv_set_status s cstate mode :
  ring_inv cstate mode -> ring_inv (set_status s cstate) mode.
Proof. intros H. exact H. Qed.

Lemma finish_active_spec idx cstate store mode :
  flight_inv cstate store mode -> cs_status cstate = CONSUMER_ACTIVE ->
  exists c store' counted ev mode',
    finish_consumer idx cstate store = (c, store', counted, ev)
    /\ producer_moves mode mode' /\ cs_qlength c = cs_qlength cstate
    /\ ((cs_status c = CONSUMER_ACTIVE /\ flight_inv c store' mode'
         /\ in_flight mode' (pending_store store')
            = in_flight mode (pending_store store))
        \/ (cs_status c = CONSUMER_EOF /\ ring_inv c mode'
            /\ accepts_rows mode' = true
            /\ in_flight mode' [] = in_flight mode (pending_store store))).
Proof.
  intros Hfl Hst. unfold finish_consumer. destruct store as [ts|].
  - rewrite bool_decide_eq_false_2
      by (rewrite Hst; intros H; apply H; reflexivity).
    destruct (QUEUE_FREE_SPACE cstate >? cs_qlength cstate `quot` 2).
    + destruct (SharedQueueDump_spec idx cstate ts mode Hfl Hst)
        as (r & c & ts' & ev & mode' & Hd & Hfl' & Hpm & Hin & Hr & Hs & HL).
      rewrite Hd. destruct r.
      * specialize (Hr eq_refl). destruct Hfl' as (Hr' & Hok' & Hh' & _).
        simpl in Hh'. rewrite Hr in Hh', Hin.
        eexists _, _, _, _, mode'. split; [reflexivity|].
        split; [exact Hpm|]. split; [exact HL|]. right.
        split; [reflexivity|]. split; [exact Hr'|].
        split; [apply long_head_nil; exact Hh'|exact Hin].
      * eexists _, _, _, _, mode'. split; [reflexivity|].
        split; [exact Hpm|]. split; [exact HL|]. left.
        split; [congruence|]. split; [exact Hfl'|exact Hin].
    + eexists _, _, _, _, mode. split; [reflexivity|].
      split; [apply producer_moves_refl|]. split; [reflexivity|]. left. auto.
  - rewrite bool_decide_eq_true_2 by exact Hst.
    destruct Hfl as (Hr & _ & Hh & _). simpl in Hh.
    eexists _, _, _, _, mode. split; [reflexivity|].
    split; [apply producer_moves_refl|]. split; [reflexivity|]. right.
    split; [reflexivity|]. split; [exact Hr|].
    split; [apply long_head_nil; exact Hh|reflexivity].
Qed.

Lemma write_inactive_cstate idx cstate row store :
  cs_status cstate <> CONSUMER_ACTIVE ->
  (SharedQueueWrite idx cstate row store).1.1 = cstate.
Proof.
  intros Hs. unfold SharedQueueWrite, SharedQueueDump.
  destruct store as [ts|].
  - destruct (QUEUE_FREE_SPACE cstate >? cs_qlength cstate `quot` 2).
    + rewrite bool_decide_eq_true_2 by done.
      destruct (QUEUE_FREE_SPACE cstate <? SIZEOF_INT + msglen row);
        [reflexivity|].
      rewrite bool_decide_eq_false_2 by done. reflexivity.
    + reflexivity.
  - destruct (QUEUE_FREE_SPACE cstate <? SIZEOF_INT + msglen row);
      [reflexivity|].
    rewrite bool_decide_eq_false_2 by done. reflexivity.
Qed.

Lemma finish_inactive_cstate idx cstate store :
  cs_status cstate <> CONSUMER_ACTIVE ->
  (finish_consumer idx cstate store).1.1.1 = cstate.
Proof.
  intros Hs. unfold finish_consumer. destruct store as [ts|].
  - rewrite bool_decide_eq_true_2 by done. reflexivity.
  - rewrite bool_decide_eq_false_2 by done. reflexivity.
Qed.

(** Every call of the producer keeps the account of the rows. *)
Lemma produce_spec idx call p cstate read mode :
  sys_inv cstate p read mode -> call_rows_ok call ->
  exists mode',
    sys_inv (produce idx call p cstate).2 (produce idx call p cstate).1
      read mode'
    /\ producer_moves mode mode'
    /\ cs_qlength (produce idx call p cstate).2 = cs_qlength cstate.
Proof.
  unfold sys_inv. intros Hinv Hcall.
  destruct (decide (cs_status cstate = CONSUMER_ACTIVE)) as [Hst|Hst].
  - rewrite bool_decide_eq_true_2 in Hinv by exact Hst.
    destruct Hinv as [Hfl Hw]. destruct call as [row|]; simpl in Hcall.
    + destruct (write_active_spec idx cstate row (p_store p) mode Hfl Hst Hcall)
        as (c & store' & ev & mode' & Heq & Hfl' & Hpm & Hin & Hst' & HL).
      exists mode'. unfold produce. rewrite Heq. cbn [fst snd p_store p_written].
      rewrite bool_decide_eq_true_2 by exact Hst'.
      rewrite bool_decide_eq_true_2 by exact Hst.
      split; [|split; [exact Hpm|exact HL]].
      split; [exact Hfl'|]. rewrite Hin, Hw, app_assoc. reflexivity.
    + destruct (finish_active_spec idx cstate (p_store p) mode Hfl Hst)
        as (c & store' & counted & ev & mode' & Heq & Hpm & HL & Hcase).
      exists mode'. unfold produce. rewrite Heq. cbn [fst snd p_store p_written].
      split; [|split; [exact Hpm|exact HL]].
      destruct Hcase as [(Hst' & Hfl' & Hin)|(Hst' & Hr' & Hacc & Hin)].
      * rewrite bool_decide_eq_true_2 by exact Hst'.
        split; [exact Hfl'|]. rewrite Hin. exact Hw.
      * rewrite bool_decide_eq_false_2 by (rewrite Hst'; discriminate).
        split; [exact Hr'|]. split; [exact Hacc|]. rewrite Hin. exact Hw.
  - rewrite bool_decide_eq_false_2 in Hinv by exact Hst.
    exists mode. split; [|split; [apply producer_moves_refl|]].
    + destruct call as [row|]; unfold produce.
      * pose proof (write_inactive_cstate idx cstate row (p_store p) Hst) as Hc.
        destruct (SharedQueueWrite idx cstate row (p_store p)) as [[c s] ev].
        simpl in Hc. subst c. cbn [fst snd p_store p_written].
        rewrite !bool_decide_eq_false_2 by exact Hst. exact Hinv.
      * pose proof (finish_inactive_cstate idx cstate (p_store p) Hst) as Hc.
        destruct (finish_consumer idx cstate (p_store p)) as [[[c s] b] ev].
        simpl in Hc. subst c. cbn [fst snd p_store p_written].
        rewrite !bool_decide_eq_false_2 by exact Hst. exact Hinv.
    + destruct call as [row|]; unfold produce.
      * pose proof (write_inactive_cstate idx cstate row (p_store p) Hst) as Hc.
        destruct (SharedQueueWrite idx cstate row (p_store p)) as [[c s] ev].
        simpl in Hc. subst c. reflexivity.
      * pose proof (finish_inactive_cstate idx cstate (p_store p) Hst) as Hc.
        destruct (finish_consumer idx cstate (p_store p)) as [[[c s] b] ev].
        simpl in Hc. subst c. reflexivity.
Qed.

Lemma produce_all_spec idx calls : forall p cstate read mode,
  sys_inv cstate p read mode -> Forall call_rows_ok calls ->
  exists mode',
    sys_inv (produce_all idx calls p cstate).2
      (produce_all idx calls p cstate).1 read mode'
    /\ producer_moves mode mode'
    /\ cs_qlength (produce_all idx calls p cstate).2 = cs_qlength cstate.
Proof.
  induction calls as [|call calls IH]; intros p cstate read mode Hinv Hok.
  - exists mode. split; [exact Hinv|]. split; [apply producer_moves_refl|].
    reflexivity.
  - apply Forall_cons in Hok as [Hc Hok].
    destruct (produce_spec idx call p cstate read mode Hinv Hc)
      as (mode1 & Hinv1 & Hpm1 & HL1).
    cbn [produce_all].
    destruct (produce idx call p cstate) as [p1 c1]. simpl in Hinv1, HL1.
    destruct (IH p1 c1 read mode1 Hinv1 Hok) as (mode2 & Hinv2 & Hpm2 & HL2).
    exists mode2. split; [exact Hinv2|].
    split; [exact (producer_moves_trans _ _ _ Hpm1 Hpm2)|]. congruence.
Qed.

Lemma producer_turn_spec idx env cstate read mode :
  sys_inv cstate env.1 read mode -> Forall (Forall call_rows_ok) env.2 ->
  exists mode',
    sys_inv (producer_turn idx env cstate).2
      (producer_turn idx env cstate).1.1 read mode'
    /\ Forall (Forall call_rows_ok) (producer_turn idx env cstate).1.2
    /\ producer_moves mode mode'
    /\ cs_qlength (producer_turn idx env cstate).2 = cs_qlength cstate.
Proof.
  intros Hinv Hok. unfold producer_turn. destruct env as [p schedule].
  simpl in *. destruct schedule as [|calls schedule].
  - exists mode. simpl. split; [exact Hinv|]. split; [constructor|].
    split; [apply producer_moves_refl|reflexivity].
  - apply Forall_cons in Hok as [Hc Hok].
    destruct (produce_all_spec idx calls p cstate read mode Hinv Hc)
      as (mode' & Hinv' & Hpm & HL).
    destruct (produce_all idx calls p cstate) as [p1 c1]. simpl in *.
    exists mode'. auto.
Qed.

(** ** The reads of the consumer *)

Lemma sys_inv_ring cstate p read mode :
  sys_inv cstate p read mode -> ring_inv cstate mode.
Proof.
  unfold sys_inv. destruct (bool_decide (cs_status cstate = CONSUMER_ACTIVE)).
  - intros [[H _] _]. exact H.
  - intros [H _]. exact H.
Qed.

(** A step of the consumer moves rows from the queue to the rows read. *)
Lemma sys_inv_consume cstate c p read read' mode mode' :
  sys_inv cstate p read mode ->
  ring_inv c mode' -> cs_status c = cs_status cstate ->
  (forall q, read ++ in_flight mode q = read' ++ in_flight mode' q) ->
  (forall q, long_head mode q -> long_head mode' q) ->
  (accepts_rows mode = true -> accepts_rows mode' = true) ->
  sys_inv c p read' mode'.
Proof.
  unfold sys_inv. intros Hinv Hr Hst Hin Hh Hacc. rewrite Hst.
  destruct (bool_decide (cs_status cstate = CONSUMER_ACTIVE)).
  - destruct Hinv as [(_ & Hok & Hhead & Hrows) Hw].
    split; [split; [exact Hr|]; auto|]. rewrite Hw. apply Hin.
  - destruct Hinv as (_ & Ha & Hw). split; [exact Hr|].
    split; [auto|]. rewrite Hw. apply Hin.
Qed.

Lemma pull_post_trace read t ev0
  (x : option (list byte) * ReadEnv * ConsState * list Event) :
  pull_post read t x ->
  pull_post read t (let '(r, e, c, ev) := x in (r, e, c, ev0 ++ ev)).
Proof. destruct x as [[[r e] c] ev]. intros H. exact H. Qed.

Lemma read_post_trace read ev0
  (x : ReadResult * ReadEnv * ConsState * list Event) :
  read_post read x ->
  read_post read (let '(r, e, c, ev) := x in (r, e, c, ev0 ++ ev)).
Proof. destruct x as [[[r e] c] ev]. intros H. exact H. Qed.

Lemma read_deliver_post idx read t
  (x : option (list byte) * ReadEnv * ConsState * list Event) :
  pull_post read t x -> read_post read (read_deliver idx x).
Proof.
  destruct x as [[[r e] c] ev]. unfold pull_post, read_post, read_deliver.
  simpl. intros [Hs H]. destruct r as [msg|]; simpl.
  - destruct H as [-> [rq H]]. split; [exact Hs|].
    exists (Normal rq). split; [exact I|exact H].
  - split; [exact Hs|exact H].
Qed.

Lemma pull_wait_spec idx fuel : forall env cstate read t off,
  sys_inv cstate env.1 read (LongWait t off) ->
  Forall (Forall call_rows_ok) env.2 ->
  pull_post read t
    (pull_wait (producer_turn idx) fuel idx (msglen t) env cstate off
       (take (Z.to_nat off) t)).
Proof.
  induction fuel as [|fuel IH]; intros env cstate read t off Hinv Hok.
  - split; [exact Hok|]. simpl. eauto.
  - destruct (producer_turn_spec idx env cstate read _ Hinv Hok)
      as (mode' & Hinv1 & Hok1 & Hpm & _).
    destruct (producer_turn idx env cstate) as [env1 c1] eqn:Hw.
    simpl in Hinv1, Hok1. unfold ReadEnv in *.
    pose proof (sys_inv_ring _ _ _ _ Hinv1) as Hr1.
    inversion Hpm; subst.
    + rewrite (pull_wait_idle _ fuel idx (msglen t) env cstate env1 c1 off _
                 t off Hw Hr1).
      apply pull_post_trace. apply IH; assumption.
    + destruct (pull_wait_mid _ fuel idx env cstate env1 c1
                  (take (Z.to_nat off) t) t off Hw Hr1)
        as (c & Heq & Hrc & Hst & _).
      rewrite Heq. apply pull_post_trace.
      pose proof Hr1 as [(HL & _) (Hoff & Hlong & _)]. cbv zeta in Hlong.
      rewrite take_take_drop, <- Z2Nat.inj_add
        by (unfold SIZEOF_INT in *; lia).
      apply IH; [|exact Hok1].
      apply (sys_inv_consume c1 c env1.1 read read (LongMid t off)); auto.
    + destruct (pull_wait_last _ fuel idx env cstate env1 c1
                  (take (Z.to_nat off) t) t off rq Hw Hr1)
        as (c & Heq & Hrc & Hst & _).
      rewrite Heq, take_drop. split; [exact Hok1|]. simpl.
      split; [reflexivity|]. exists rq.
      apply (sys_inv_consume c1 _ env1.1 read (read ++ [t])
               (LongLast t off rq)); auto.
      intros q. simpl. rewrite <- app_assoc. reflexivity.
Qed.

Lemma read_row_post idx fuel env cstate read mode :
  sys_inv cstate env.1 read mode -> idle mode ->
  Forall (Forall call_rows_ok) env.2 -> 0 < cs_ntuples cstate ->
  read_post read (read_row (producer_turn idx) fuel idx env cstate).
Proof.
  intros Hinv Hidle Hok Hn. pose proof (sys_inv_ring _ _ _ _ Hinv) as Hr.
  destruct mode as [rq|t|t off|t off|t off rq]; try contradiction.
  - destruct rq as [|t rq].
    { destruct Hr as [_ [Hn0 _]]. simpl in Hn0. lia. }
    destruct (read_row_normal (producer_turn idx) fuel idx env cstate t rq Hr)
      as (c & Heq & Hrc & Hst & _).
    rewrite Heq. split; [exact Hok|]. simpl.
    exists (Normal rq). split; [exact I|].
    apply (sys_inv_consume cstate c env.1 read (read ++ [t])
             (Normal (t :: rq))); auto.
    intros q. simpl. rewrite <- app_assoc. reflexivity.
  - destruct (read_row_long_first (producer_turn idx) fuel idx env cstate t Hr)
      as (c & Heq & Hrc & Hst & _).
    rewrite Heq. apply (read_deliver_post idx read t).
    apply pull_wait_spec; [|exact Hok].
    apply (sys_inv_consume cstate c env.1 read read (LongFirst t)); auto.
Qed.

Lemma read_loop_post idx canwait fuel : forall env cstate read mode,
  sys_inv cstate env.1 read mode -> idle mode ->
  Forall (Forall call_rows_ok) env.2 ->
  read_post read (read_loop (producer_turn idx) fuel idx canwait env cstate).
Proof.
  induction fuel as [|fuel IH]; intros env cstate read mode Hinv Hidle Hok.
  all: assert (Hcase : cs_ntuples cstate <= 0 -> mode = Normal []).
  1,3: intros Hle; pose proof (sys_inv_ring _ _ _ _ Hinv) as [_ Hm];
       destruct mode as [rq|t|t off|t off|t off rq]; try contradiction;
       cbv zeta in Hm;
       [destruct Hm as [Hn _]; destruct rq; [reflexivity|simpl in Hn; lia]
       |destruct Hm as (_ & _ & Hn & _); lia].
  all: assert (Heof : cs_status cstate = CONSUMER_EOF -> mode = Normal [] ->
                 read_post read
                   (ReadEOF, env, set_status CONSUMER_DONE cstate,
                    eof_trace idx)).
  1,3: intros Hst ->; split; [exact Hok|]; simpl;
       split; [discriminate|];
       unfold sys_inv in *; rewrite Hst in Hinv; simpl in *; exact Hinv.
  all: cbn [read_loop];
       destruct (Z.leb_spec (cs_ntuples cstate) 0) as [Hle|Hgt];
       [|apply (read_row_post idx _ env cstate read mode); auto];
       specialize (Hcase Hle).
  all: destruct (cs_status cstate) eqn:Hst;
       try (apply Heof; auto);
       try (split; [exact Hok|]; simpl; exists mode; split; assumption);
       destruct canwait;
       try (split; [exact Hok|]; simpl; exists mode; split; assumption);
       try (split; [exact Hok|]; simpl; exists mode; assumption).
  all: destruct (producer_turn_spec idx env cstate read _ Hinv Hok)
         as (mode' & Hinv1 & Hok1 & Hpm & _);
       destruct (producer_turn idx env cstate) as [env1 c1];
       simpl in Hinv1, Hok1;
       apply read_post_trace; apply (IH env1 c1 read mode'); auto;
       subst mode; inversion Hpm; exact I.
Qed.

Lemma SharedQueueRead_post idx canwait fuel env cstate read mode :
  sys_inv cstate env.1 read mode -> idle mode ->
  Forall (Forall call_rows_ok) env.2 ->
  read_post read
    (SharedQueueRead (producer_turn idx) fuel idx canwait env cstate).
Proof.
  intros Hinv Hidle Hok. unfold SharedQueueRead.
  apply read_post_trace. eapply read_loop_post; eassumption.
Qed.

(** ** Runs *)

Lemma produce_inactive idx call p cstate :
  cs_status cstate <> CONSUMER_ACTIVE ->
  (produce idx call p cstate).2 = cstate
  /\ p_written (produce idx call p cstate).1 = p_written p.
Proof.
  intros Hst. destruct call as [row|]; unfold produce.
  - pose proof (write_inactive_cstate idx cstate row (p_store p) Hst) as Hc.
    destruct (SharedQueueWrite idx cstate row (p_store p)) as [[c s] ev].
    simpl in Hc. subst c. simpl.
    rewrite bool_decide_eq_false_2 by exact Hst. auto.
  - pose proof (finish_inactive_cstate idx cstate (p_store p) Hst) as Hc.
    destruct (finish_consumer idx cstate (p_store p)) as [[[c s] b] ev].
    simpl in Hc. subst c. simpl. auto.
Qed.

Lemma produce_all_inactive idx calls : forall p cstate,
  cs_status cstate <> CONSUMER_ACTIVE ->
  (produce_all idx calls p cstate).2 = cstate
  /\ p_written (produce_all idx calls p cstate).1 = p_written p.
Proof.
  induction calls as [|call calls IH]; intros p cstate Hst; [auto|].
  cbn [produce_all].
  destruct (produce_inactive idx call p cstate Hst) as [Hc Hw].
  destruct (produce idx call p cstate) as [p1 c1]. simpl in Hc, Hw. subst c1.
  destruct (IH p1 cstate Hst) as [Hc' Hw']. split; congruence.
Qed.

Lemma producer_turn_inactive idx env cstate :
  cs_status cstate <> CONSUMER_ACTIVE ->
  (producer_turn idx env cstate).2 = cstate
  /\ p_written (producer_turn idx env cstate).1.1 = p_written env.1.
Proof.
  intros Hst. unfold producer_turn. destruct env as [p [|calls schedule]];
    simpl; [auto|].
  destruct (produce_all_inactive idx calls p cstate Hst) as [Hc Hw].
  destruct (produce_all idx calls p cstate) as [p1 c1]. simpl in *. auto.
Qed.

(** A read of a drained queue whose consumer is not active returns no
    row. *)
Lemma read_loop_inactive idx canwait fuel : forall env cstate,
  cs_status cstate <> CONSUMER_ACTIVE -> cs_ntuples cstate <= 0 ->
  let out := read_loop (producer_turn idx) fuel idx canwait env cstate in
  (forall datarow, out.1.1.1 <> ReadTuple datarow)
  /\ p_written out.1.1.2.1 = p_written env.1
  /\ cs_status out.1.2 <> CONSUMER_ACTIVE /\ cs_ntuples out.1.2 <= 0.
Proof.
  induction fuel as [|fuel IH]; intros env cstate Hst Hn; cbv zeta;
    cbn [read_loop]; destruct (Z.leb_spec (cs_ntuples cstate) 0); try lia;
    destruct (cs_status cstate) eqn:Hs; try (contradiction Hst; reflexivity);
    try (simpl; rewrite ?Hs; repeat split; (discriminate || lia));
    destruct canwait;
    try (simpl; rewrite ?Hs; repeat split; (discriminate || lia)).
  destruct (producer_turn_inactive idx env cstate) as [Hc Hw];
    [rewrite Hs; discriminate|].
  destruct (producer_turn idx env cstate) as [env1 c1]. simpl in Hc, Hw.
  subst c1. rewrite <- Hs in Hst.
  specialize (IH env1 cstate Hst Hn). cbv zeta in IH.
  destruct (read_loop (producer_turn idx) fuel idx true env1 cstate)
    as [[[r e] c] ev]. simpl in *.
  destruct IH as (H1 & H2 & H3 & H4). repeat split; auto. congruence.
Qed.

Lemma read_loop_inactive_ring idx canwait fuel : forall env cstate mode,
  cs_status cstate <> CONSUMER_ACTIVE -> cs_ntuples cstate <= 0 ->
  ring_inv cstate mode ->
  ring_inv
    (read_loop (producer_turn idx) fuel idx canwait env cstate).1.2 mode.
Proof.
  induction fuel as [|fuel IH]; intros env cstate mode Hst Hn Hm;
    cbn [read_loop]; destruct (Z.leb_spec (cs_ntuples cstate) 0); try lia;
    destruct (cs_status cstate) eqn:Hs; try (contradiction Hst; reflexivity);
    try exact Hm; destruct canwait; try exact Hm.
  destruct (producer_turn_inactive idx env cstate) as [Hc Hw];
    [rewrite Hs; discriminate|].
  destruct (producer_turn idx env cstate) as [env1 c1]. simpl in Hc, Hw.
  subst c1. rewrite <- Hs in Hst.
  specialize (IH env1 cstate mode Hst Hn Hm).
  destruct (read_loop (producer_turn idx) fuel idx true env1 cstate)
    as [[[r e] c] ev]. exact IH.
Qed.

Lemma step_inv idx s call :
  run_inv s -> calls_ok call -> run_inv (step idx s call).
Proof.
  intros Hinv Hok. unfold step.
  destruct (sys_blocked s) eqn:Hb; [exact Hinv|].
  unfold run_inv in *. destruct (sys_eof s) eqn:He.
  - destruct Hinv as (Hw & Hst & Hring).
    assert (Hn : cs_ntuples (sys_cstate s) <= 0)
      by (destruct Hring as [_ [Hn _]]; rewrite Hn; simpl; lia).
    destruct call as [pc|canwait fuel sched].
    + destruct (produce_inactive idx pc (sys_producer s) (sys_cstate s) Hst)
        as [Hc Hw'].
      destruct (produce idx pc (sys_producer s) (sys_cstate s)) as [p1 c1].
      simpl in *. subst c1. rewrite ?He. split; [congruence|]. auto.
    + unfold SharedQueueRead.
      pose proof (read_loop_inactive idx canwait fuel
                    (sys_producer s, sched) (sys_cstate s) Hst Hn) as H.
      pose proof (read_loop_inactive_ring idx canwait fuel
                    (sys_producer s, sched) (sys_cstate s) (Normal [])
                    Hst Hn Hring) as Hring'.
      cbv zeta in H.
      destruct (read_loop (producer_turn idx) fuel idx canwait
                  (sys_producer s, sched) (sys_cstate s)) as [[[r e] c] ev].
      simpl in H, Hring'. destruct H as (Hr & Hw' & Hst' & Hn').
      destruct r as [row| | | |]; simpl; rewrite ?He;
        try (split; [congruence|]; auto).
      contradiction (Hr row). reflexivity.
  - destruct Hinv as (mode & Hsys & Hidle). specialize (Hidle Hb).
    destruct call as [pc|canwait fuel sched]; simpl in Hok.
    + destruct (produce_spec idx pc (sys_producer s) (sys_cstate s)
                  (sys_read s) mode Hsys Hok) as (mode' & Hsys' & Hpm & _).
      destruct (produce idx pc (sys_producer s) (sys_cstate s)) as [p1 c1].
      simpl in *. rewrite ?He. exists mode'. split; [exact Hsys'|].
      intros _. destruct mode; try contradiction; inversion Hpm; exact I.
    + pose proof (SharedQueueRead_post idx canwait fuel
                    (sys_producer s, sched) (sys_cstate s) (sys_read s) mode
                    Hsys Hidle Hok) as Hpost.
      destruct (SharedQueueRead (producer_turn idx) fuel idx canwait
                  (sys_producer s, sched) (sys_cstate s)) as [[[r e] c] ev].
      destruct Hpost as [_ Hpost]. simpl in Hpost.
      destruct r as [row| | | |]; simpl; rewrite ?He.
      * destruct Hpost as (mode' & Hi & Hs'). exists mode'. auto.
      * destruct Hpost as (mode' & Hi & Hs'). exists mode'. auto.
      * destruct Hpost as (Hst & Hs').
        pose proof (sys_inv_ring _ _ _ _ Hs') as Hring.
        unfold sys_inv in Hs'.
        rewrite bool_decide_eq_false_2 in Hs' by exact Hst.
        destruct Hs' as (_ & _ & Hw). simpl in Hw.
        rewrite app_nil_r in Hw. split; [exact Hw|]. split; assumption.
      * destruct Hpost as (mode' & Hi & Hs'). exists mode'. auto.
      * destruct Hpost as (mode' & Hs'). exists mode'.
        split; [exact Hs'|discriminate].
Qed.

Lemma run_inv_run idx calls : forall s,
  run_inv s -> Forall calls_ok calls -> run_inv (run idx calls s).
Proof.
  induction calls as [|call calls IH]; intros s Hinv Hok; [exact Hinv|].
  apply Forall_cons in Hok as [Hc Hok]. unfold run. cbn [foldl].
  apply IH; [|exact Hok]. apply step_inv; assumption.
Qed.

Lemma run_inv_start cstate : fresh_slot cstate -> run_inv (start cstate).
Proof.
  intros (Hwf & Hst & Hn & Hpos). unfold run_inv, start. simpl.
  exists (Normal []). split; [|intros _; exact I].
  unfold sys_inv. rewrite bool_decide_eq_true_2 by exact Hst. simpl.
  split; [|reflexivity]. split; [|simpl; auto].
  split; [exact Hwf|]. cbv zeta. split; [exact Hn|].
  apply stream_inv_empty; [exact Hwf|]. symmetry. exact Hpos.
Qed.

Lemma run_inv_prefix s :
  run_inv s ->
  exists rest, p_written (sys_producer s) = sys_read s ++ rest
               /\ (sys_eof s = true -> rest = []).
Proof.
  unfold run_inv. destruct (sys_eof s).
  - intros (Hw & _). exists []. rewrite app_nil_r. auto.
  - intros (mode & Hsys & _). unfold sys_inv in Hsys.
    destruct (bool_decide _).
    + destruct Hsys as [_ Hw]. eexists. split; [exact Hw|discriminate].
    + destruct Hsys as (_ & _ & Hw). eexists. split; [exact Hw|discriminate].
Qed.

(** The sample run returns the three rows in the order written and then
    the end of the data. *)
Example sample_run_reads :
  let s := run 0 sample_run (start (sample_consumer CONSUMER_ACTIVE)) in
  sys_read s = [counting_row 3; counting_row 40; counting_row 5]
  /\ p_written (sys_producer s) = sys_read s
  /\ sys_eof s = true /\ sys_blocked s = false.
Proof. vm_compute. repeat split; reflexivity. Qed.

(** ** A long row on its way *)

(** The first pass of the loop of [SharedQueueDump] when the row at the
    head of the store does not fit and no whole row is queued. *)
Lemma dump_loop_long n idx cstate ts t rest :
  ts_active ts = 1%nat -> pending ts = t :: rest ->
  QUEUE_FREE_SPACE cstate < SIZEOF_INT + msglen t ->
  cs_ntuples cstate <= 0 ->
  exists ts2,
    pending ts2 = rest /\ ts_active ts2 = 1%nat
    /\ store_ok (Some ts2)
    /\ pending (dump_give_back ts2) = t :: rest
    /\ store_ok (Some (dump_give_back ts2))
    /\ dump_loop (S n) idx cstate ts
       = (let '(done, c) := sq_push_long_tuple cstate t in
          if done then
            let '(r, c, ts', ev') := dump_loop n idx c ts2 in
            (r, c, ts', [SetLatch (cs_latch idx)] ++ ev')
          else (false, c, dump_give_back ts2, [SetLatch (cs_latch idx)])).
Proof.
  intros Ha Hp Hfull Hn.
  destruct (tuplestore_get_pending ts t rest Ha Hp)
    as (ts2 & Hget & Ha2 & Hp2 & Hok2 & _ & Hgb & Hokgb).
  exists ts2. repeat (split; [assumption|]).
  cbn [dump_loop]. rewrite (tuplestore_ateof_pending ts Ha),
    bool_decide_eq_false_2 by (rewrite Hp; discriminate).
  rewrite Hget.
  destruct (Z.ltb_spec (QUEUE_FREE_SPACE cstate) (SIZEOF_INT + msglen t));
    [|lia].
  destruct (Z.leb_spec (cs_ntuples cstate) 0); [|lia].
  reflexivity.
Qed.

Lemma finish_dumps idx cstate ts mode :
  ring_inv cstate mode -> used_bytes (cs_qlength cstate) mode = 0 ->
  cs_status cstate = CONSUMER_ACTIVE ->
  finish_consumer idx cstate (Some ts)
  = (let '(dumped, c, ts', ev) :=
       dump_loop (length (ts_tuples ts)) idx cstate
         (tuplestore_select_read_pointer ts 1) in
     let '(c, store, counted, ev) :=
       if dumped then
         (set_status CONSUMER_EOF c, None, false,
          ev ++ [SetLatch (cs_latch idx)])
       else (c, Some ts', true, ev ++ [SetLatch (cs_latch idx)]) in
     (c, store, counted,
      [LWLockAcquire (cs_lwlock idx) LW_EXCLUSIVE] ++ ev
      ++ [LWLockRelease (cs_lwlock idx)])).
Proof.
  intros Hr Hused Hst. unfold finish_consumer, SharedQueueDump.
  rewrite !bool_decide_eq_false_2
    by (rewrite Hst; intros H; apply H; reflexivity).
  rewrite (ring_free_space _ _ Hr), Hused.
  destruct Hr as [(HL & _) _].
  destruct (Z.gtb_spec (cs_qlength cstate - 0) (cs_qlength cstate `quot` 2))
    as [_|Hle].
  - simpl.
    destruct (dump_loop (length (ts_tuples ts)) idx cstate
                (tuplestore_select_read_pointer ts 1)) as [[[d c] ts'] ev].
    destruct d; reflexivity.
  - exfalso. unfold SIZEOF_INT in HL. revert Hle.
    Z.quot_rem_to_equations. lia.
Qed.

Lemma pending_fuel ts t rest :
  pending ts = t :: rest ->
  exists n, length (ts_tuples ts) = S n /\ (length rest <= n)%nat.
Proof.
  unfold pending. intros Hp. apply (f_equal length) in Hp.
  rewrite length_drop in Hp. simpl in Hp.
  exists (Nat.pred (length (ts_tuples ts))). lia.
Qed.

(** [SharedQueueFinish] queues the first part of a long row. *)
Lemma finish_first idx cstate ts t rest :
  flight_inv cstate (Some ts) (Normal []) ->
  cs_status cstate = CONSUMER_ACTIVE -> pending ts = t :: rest ->
  cs_qlength cstate - SIZEOF_INT < msglen t ->
  exists c ts1 counted ev,
    finish_consumer idx cstate (Some ts) = (c, Some ts1, counted, ev)
    /\ flight_inv c (Some ts1) (LongFirst t)
    /\ cs_status c = CONSUMER_ACTIVE /\ pending ts1 = t :: rest
    /\ cs_qlength c = cs_qlength cstate.
Proof.
  intros (Hr & Hok & _ & Hrows) Hst Hp Hlong. simpl in Hrows.
  rewrite Hp in Hrows. apply Forall_cons in Hrows as [Hrt Hrrest].
  rewrite (finish_dumps idx cstate ts (Normal []) Hr eq_refl Hst).
  destruct (pending_fuel ts t rest Hp) as (n & -> & _).
  pose proof (ring_free_space _ _ Hr) as Hfree. simpl in Hfree.
  pose proof Hr as [_ [Hn _]]. simpl in Hn.
  destruct (dump_loop_long n idx cstate (tuplestore_select_read_pointer ts 1)
              t rest eq_refl Hp ltac:(lia) ltac:(lia))
    as (ts2 & _ & _ & _ & Hgb & Hokgb & Heq).
  rewrite Heq.
  destruct (push_first cstate t Hr Hlong Hrt)
    as (c & Hpush & Hrc & Hst' & HL & _).
  rewrite Hpush. eexists _, _, _, _. split; [reflexivity|].
  split.
  { split; [exact Hrc|]. split; [exact Hokgb|]. simpl. rewrite Hgb.
    split; [eauto|]. constructor; assumption. }
  split; [congruence|]. split; [exact Hgb|exact HL].
Qed.

(** [SharedQueueFinish] queues the next part of a long row the consumer is
    waiting for. *)
Lemma finish_next idx cstate ts t rest off :
  flight_inv cstate (Some ts) (LongWait t off) ->
  cs_status cstate = CONSUMER_ACTIVE -> pending ts = t :: rest ->
  exists c store counted ev,
    finish_consumer idx cstate (Some ts) = (c, store, counted, ev)
    /\ cs_qlength c = cs_qlength cstate
    /\ ((cs_qlength cstate - SIZEOF_INT < msglen t - off
         /\ cs_status c = CONSUMER_ACTIVE
         /\ exists ts1, store = Some ts1
                        /\ flight_inv c (Some ts1) (LongMid t off)
                        /\ pending ts1 = t :: rest)
        \/ exists rq, ring_inv c (LongLast t off rq)).
Proof.
  intros (Hr & Hok & _ & Hrows) Hst Hp. simpl in Hrows.
  rewrite Hp in Hrows. pose proof Hrows as Hrows0.
  apply Forall_cons in Hrows as [Hrt Hrrest].
  rewrite (finish_dumps idx cstate ts (LongWait t off) Hr eq_refl Hst).
  destruct (pending_fuel ts t rest Hp) as (n & -> & Hn).
  pose proof (ring_free_space _ _ Hr) as Hfree. simpl in Hfree.
  pose proof Hr as [_ (Hlong & _ & _ & Hnt & _)]. cbv zeta in Hlong.
  destruct (dump_loop_long n idx cstate (tuplestore_select_read_pointer ts 1)
              t rest eq_refl Hp ltac:(lia)
              ltac:(rewrite Hnt; unfold LONG_TUPLE; lia))
    as (ts2 & Hp2 & Ha2 & Hok2 & Hgb & Hokgb & Heq).
  rewrite Heq.
  destruct (push_next cstate t off Hr) as (c & Hpush & Hrc & Hst' & HL & _).
  rewrite Hpush.
  destruct (Z.gtb_spec (msglen t - off) (cs_qlength cstate - SIZEOF_INT))
    as [Hgt|Hle]; cbn [negb].
  - eexists _, _, _, _. split; [reflexivity|]. split; [exact HL|]. left.
    split; [exact Hgt|]. split; [congruence|].
    eexists. split; [reflexivity|]. split; [|exact Hgb].
    split; [exact Hrc|]. split; [exact Hokgb|]. simpl. rewrite Hgb.
    split; [eauto|exact Hrows0].
  - destruct (dump_loop_spec n idx c ts2 (LongLast t off []))
      as (r & c' & ts' & ev & mode' & Hd & (Hrc' & _) & Hpm & _ & _ & _ & HL').
    { split; [exact Hrc|]. split; [exact Hok2|]. simpl. rewrite Hp2.
      split; [exact I|exact Hrrest]. }
    { exact Ha2. }
    { rewrite Hp2. exact Hn. }
    rewrite Hd. inversion Hpm; subst.
    destruct r; eexists _, _, _, _; (split; [reflexivity|]);
      (split; [simpl; congruence|]); right; eexists; exact Hrc'.
Qed.

Lemma producer_turn_finish idx p schedule cstate :
  producer_turn idx (p, [PFinish] :: schedule) cstate
  = (let '(c, store, _, _) := finish_consumer idx cstate (p_store p) in
     ((mkProducer store (p_written p), schedule), c)).
Proof.
  unfold producer_turn. simpl.
  destruct (finish_consumer idx cstate (p_store p)) as [[[c s] b] ev].
  reflexivity.
Qed.

(** With the producer running [SharedQueueFinish] at every wake-up the
    consumer gets one more part of the long row per sleep. *)
Lemma pull_wait_progress idx : forall fuel cstate ts t rest off written,
  flight_inv cstate (Some ts) (LongWait t off) ->
  cs_status cstate = CONSUMER_ACTIVE -> pending ts = t :: rest ->
  msglen t - off <= Z.of_nat fuel * (cs_qlength cstate - SIZEOF_INT) ->
  exists env c ev,
    pull_wait (producer_turn idx) fuel idx (msglen t)
      (mkProducer (Some ts) written, replicate fuel [PFinish]) cstate off
      (take (Z.to_nat off) t)
    = (Some t, env, c, ev).
Proof.
  induction fuel as [|fuel IH];
    intros cstate ts t rest off written Hfl Hst Hp Hfuel.
  - destruct Hfl as ([_ (_ & Hoff & _)] & _). simpl in Hfuel. lia.
  - destruct (finish_next idx cstate ts t rest off Hfl Hst Hp)
      as (c1 & store1 & counted & ev1 & Hfin & HL1 & Hcase).
    assert (Hw : producer_turn idx
                   (mkProducer (Some ts) written,
                    replicate (S fuel) [PFinish]) cstate
                 = ((mkProducer store1 written, replicate fuel [PFinish]),
                    c1)).
    { cbn [replicate]. rewrite producer_turn_finish. simpl p_store.
      rewrite Hfin. reflexivity. }
    destruct Hcase as [(Hlong & Hst1 & ts1 & -> & Hfl1 & Hp1)|[rq Hlast]].
    + pose proof Hfl1 as (Hr1 & Hok1 & Hh1 & Hrows1).
      destruct (pull_wait_mid _ fuel idx _ cstate _ c1
                  (take (Z.to_nat off) t) t off Hw Hr1)
        as (c & Heq & Hrc & Hstc & HLc & _).
      unfold ReadEnv in *. rewrite Heq.
      pose proof Hr1 as [(HL & _) (Hoff & _)].
      rewrite take_take_drop, <- Z2Nat.inj_add
        by (unfold SIZEOF_INT in *; lia).
      destruct (IH c ts1 t rest (off + (cs_qlength c1 - SIZEOF_INT)) written)
        as (env' & c' & ev' & Hres).
      { split; [exact Hrc|]. split; [exact Hok1|]. split; assumption. }
      { congruence. }
      { exact Hp1. }
      { rewrite HLc, HL1. lia. }
      rewrite Hres. eexists _, _, _. reflexivity.
    + destruct (pull_wait_last _ fuel idx _ cstate _ c1
                  (take (Z.to_nat off) t) t off rq Hw Hlast)
        as (c & Heq & _).
      unfold ReadEnv in *. rewrite Heq, take_drop.
      eexists _, _, _. reflexivity.
Qed.

Lemma fresh_ring cstate : fresh_slot cstate -> ring_inv cstate (Normal []).
Proof.
  intros (Hwf & Hst & Hn & Hpos). split; [exact Hwf|]. cbv zeta.
  split; [exact Hn|]. apply stream_inv_empty; [exact Hwf|].
  symmetry. exact Hpos.
Qed.

Section RoundTrip.

Context {Env : Type}.
Variable wait : Env -> ConsState -> Env * ConsState.

Lemma read_loop_queued fuel idx canwait env cstate :
  0 < cs_ntuples cstate ->
  read_loop wait fuel idx canwait env cstate
  = read_row wait fuel idx env cstate.
Proof.
  intros Hn. destruct fuel; cbn [read_loop];
    destruct (Z.leb_spec (cs_ntuples cstate) 0); (lia || reflexivity).
Qed.

End RoundTrip.

(** C1. A row written with [SharedQueueWrite] to a consumer whose queue is
    empty comes back from [SharedQueueRead] byte for byte, whatever its
    length up to [INT_MAX]: a row that fits is queued and read at once; a
    row longer than the queue goes through the store, and the read that
    waits for it returns it once the producer, running
    [SharedQueueFinish] at each wake-up, has pushed its parts, one part of
    [cs_qlength - 4] bytes per sleep. *)
Theorem write_then_read_returns_the_row
  (consumerIdx : Z) (cstate : ConsState) (datarow : RemoteDataRow)
  (fuel : nat) :
  fresh_slot cstate -> row_ok datarow ->
  msglen datarow <= Z.of_nat fuel * (cs_qlength cstate - SIZEOF_INT) ->
  exists env c ev,
    SharedQueueRead (producer_turn consumerIdx) fuel consumerIdx true
      (mkProducer (SharedQueueWrite consumerIdx cstate datarow None).1.2
         [datarow],
       replicate fuel [PFinish])
      (SharedQueueWrite consumerIdx cstate datarow None).1.1
    = (ReadTuple datarow, env, c, ev).
Proof.
  intros Hfresh Hrow Hfuel. pose proof (fresh_ring _ Hfresh) as Hr.
  destruct Hfresh as (Hwf & Hst & Hn & Hpos).
  pose proof (ring_free_space _ _ Hr) as Hfree. simpl in Hfree.
  unfold SharedQueueWrite, SharedQueueRead.
  destruct (Z.ltb_spec (QUEUE_FREE_SPACE cstate) (SIZEOF_INT + msglen datarow))
    as [Hlong|Hfit].
  - (* longer than the queue *)
    cbn [fst snd].
    set (ts := tuplestore_puttupleslot tuplestore_begin_datarow datarow).
    assert (Hfl : flight_inv cstate (Some ts) (Normal [])).
    { split; [exact Hr|]. split; [simpl; lia|]. split; [exact I|].
      constructor; [exact Hrow|constructor]. }
    destruct fuel as [|fuel].
    { pose proof Hwf as (HL & _). unfold SIZEOF_INT in *. simpl in Hfuel. lia. }
    destruct (finish_first consumerIdx cstate ts datarow [] Hfl Hst eq_refl
                ltac:(lia))
      as (c1 & ts1 & counted & ev1 & Hfin & Hfl1 & Hst1 & Hp1 & HL1).
    cbn [read_loop replicate].
    destruct (Z.leb_spec (cs_ntuples cstate) 0); [|lia]. rewrite Hst.
    rewrite producer_turn_finish. simpl p_store. simpl p_written.
    rewrite Hfin.
    pose proof Hfl1 as (Hr1 & Hok1 & Hh1 & Hrows1).
    rewrite read_loop_queued
      by (destruct Hr1 as [_ (_ & _ & Hn1 & _)]; rewrite Hn1; lia).
    destruct (read_row_long_first (producer_turn consumerIdx) fuel consumerIdx
                (mkProducer (Some ts1) [datarow], replicate fuel [PFinish])
                c1 datarow Hr1)
      as (c2 & Heq & Hr2 & Hst2 & HL2 & _).
    unfold ReadEnv in *. rewrite Heq.
    destruct (pull_wait_progress consumerIdx fuel c2 ts1 datarow []
                (cs_qlength c1 - SIZEOF_INT) [datarow])
      as (env' & c' & ev' & Hres).
    { split; [exact Hr2|]. split; [exact Hok1|]. split; assumption. }
    { congruence. }
    { exact Hp1. }
    { rewrite HL2, HL1. lia. }
    unfold ReadEnv in *. rewrite Hres. simpl. eexists _, _, _. reflexivity.
  - (* queued whole *)
    rewrite bool_decide_eq_true_2 by exact Hst. cbn [fst snd].
    destruct (enqueue_mode cstate (Normal []) datarow Hr eq_refl Hfit)
      as (Hr1 & _).
    simpl mode_push in Hr1.
    rewrite read_loop_queued
      by (destruct Hr1 as [_ [Hn1 _]]; rewrite Hn1; simpl; lia).
    destruct (read_row_normal (producer_turn consumerIdx) fuel consumerIdx
                (mkProducer None [datarow], replicate fuel [PFinish])
                _ datarow [] Hr1)
      as (c2 & Heq & _).
    unfold ReadEnv in *. rewrite Heq. eexists _, _, _. reflexivity.
Qed.

Lemma write_then_read_returns_the_row_witness :
  exists env c ev,
    SharedQueueRead (producer_turn 0) 4 0 true
      (mkProducer
         (SharedQueueWrite 0 (sample_consumer CONSUMER_ACTIVE)
            (counting_row 40) None).1.2
         [counting_row 40],
       replicate 4 [PFinish])
      (SharedQueueWrite 0 (sample_consumer CONSUMER_ACTIVE)
         (counting_row 40) None).1.1
    = (ReadTuple (counting_row 40), env, c, ev).
Proof.
  apply (write_then_read_returns_the_row 0 (sample_consumer CONSUMER_ACTIVE)
           (counting_row 40) 4).
  - unfold fresh_slot, slot_wf, SIZEOF_INT, INT_MAX, QLENGTH_MAX. simpl.
    repeat split; lia.
  - unfold row_ok, INT_MAX, QLENGTH_MAX. vm_compute. discriminate.
  - vm_compute. discriminate.
Defined.

(** ** The state of the queue along a run *)

Lemma run_ring idx cstate calls :
  fresh_slot cstate -> Forall calls_ok calls ->
  exists mode, ring_inv (sys_cstate (run idx calls (start cstate))) mode.
Proof.
  intros Hfresh Hok.
  pose proof (run_inv_run idx calls (start cstate)
                (run_inv_start _ Hfresh) Hok) as Hinv.
  unfold run_inv in Hinv.
  destruct (sys_eof (run idx calls (start cstate))).
  - destruct Hinv as (_ & _ & Hr). eauto.
  - destruct Hinv as (mode & Hsys & _). exists mode.
    exact (sys_inv_ring _ _ _ _ Hsys).
Qed.

Lemma free_space_positions cstate :
  0 <= cs_qreadpos cstate < cs_qlength cstate ->
  0 <= cs_qwritepos cstate < cs_qlength cstate ->
  QUEUE_FREE_SPACE cstate
  = if 0 <? cs_ntuples cstate
    then (cs_qreadpos cstate - cs_qwritepos cstate) `mod` cs_qlength cstate
    else cs_qlength cstate.
Proof.
  intros Hrp Hwp. unfold QUEUE_FREE_SPACE.
  destruct (Z.gtb_spec (cs_ntuples cstate) 0);
    destruct (Z.ltb_spec 0 (cs_ntuples cstate)); try lia.
  destruct (Z.geb_spec (cs_qreadpos cstate) (cs_qwritepos cstate)).
  - symmetry. apply Z.mod_small. lia.
  - rewrite <- (Z_mod_plus_full _ 1). symmetry.
    replace (cs_qreadpos cstate - cs_qwritepos cstate + 1 * cs_qlength cstate)
      with (cs_qlength cstate + cs_qreadpos cstate - cs_qwritepos cstate)
      by lia.
    apply Z.mod_small. lia.
Qed.

(** C3 as stated fails while the consumer waits for the next part of a
    long row: [cs_ntuples] is [LONG_TUPLE], not 0, the two positions are
    equal, so [(read_pos - write_pos) mod ring_length] is 0, and
    [QUEUE_FREE_SPACE] is the length of the queue. *)
Lemma free_space_with_long_tuple_marker :
  let c := sys_cstate (run 0 long_run
                         (start (sample_consumer CONSUMER_ACTIVE))) in
  cs_ntuples c = LONG_TUPLE /\ cs_ntuples c <> 0
  /\ (cs_qreadpos c - cs_qwritepos c) `mod` cs_qlength c = 0
  /\ QUEUE_FREE_SPACE c = 16.
Proof. vm_compute. repeat split. discriminate. Qed.

(** C3, amended. [QUEUE_FREE_SPACE] is the length of the queue when
    [cs_ntuples <= 0], that is for 0 and for the marker [LONG_TUPLE], and
    [(read_pos - write_pos) mod ring_length] when [cs_ntuples > 0]; in
    every state of the queue between two calls (see [run_ring]) it is the
    length of the queue less the bytes in use, lengths included, which are
    none while the marker is set. *)
Theorem free_space_formula (cstate : ConsState) (mode : RingMode) :
  ring_inv cstate mode ->
  QUEUE_FREE_SPACE cstate
  = (if 0 <? cs_ntuples cstate
     then (cs_qreadpos cstate - cs_qwritepos cstate) `mod` cs_qlength cstate
     else cs_qlength cstate)
  /\ QUEUE_FREE_SPACE cstate
     = cs_qlength cstate - used_bytes (cs_qlength cstate) mode.
Proof.
  intros Hr. split.
  - destruct Hr as [(_ & Hrp & Hwp) _]. apply free_space_positions; assumption.
  - apply ring_free_space. exact Hr.
Qed.

Lemma free_space_formula_witness :
  QUEUE_FREE_SPACE (sample_written 5)
  = (if 0 <? cs_ntuples (sample_written 5)
     then (cs_qreadpos (sample_written 5) - cs_qwritepos (sample_written 5))
          `mod` cs_qlength (sample_written 5)
     else cs_qlength (sample_written 5))
  /\ QUEUE_FREE_SPACE (sample_written 5)
     = cs_qlength (sample_written 5)
       - used_bytes (cs_qlength (sample_written 5)) (Normal [counting_row 5]).
Proof.
  apply (free_space_formula (sample_written 5) (Normal [counting_row 5])).
  split.
  - unfold slot_wf, SIZEOF_INT, INT_MAX, QLENGTH_MAX. vm_compute.
    repeat split; discriminate.
  - cbv zeta. split; [reflexivity|]. unfold stream_inv.
    split; [vm_compute; discriminate|]. split; vm_compute; reflexivity.
Defined.

(** ** Empty queues and equal positions *)

Lemma ring_positions cstate mode :
  ring_inv cstate mode -> positions_agree cstate.
Proof.
  intros [Hwf Hm]. split.
  - intros Hle. destruct mode as [rq|t|t off|t off|t off rq]; cbv zeta in Hm.
    + destruct Hm as [Hn (_ & Hw & _)]. destruct rq as [|r rq];
        [|rewrite Hn in Hle; simpl in Hle; lia].
      simpl in Hw. destruct Hwf as (_ & Hrp & _). rewrite Hw. wrap_lia.
    + destruct Hm as (_ & _ & Hn & _). lia.
    + destruct Hm as (_ & _ & _ & _ & Hpos & _). symmetry. exact Hpos.
    + destruct Hm as (_ & _ & _ & Hn & _). lia.
    + destruct Hm as (_ & _ & _ & Hn & _). lia.
  - intros Hgt. destruct Hwf as (_ & Hrp & Hwp). unfold QUEUE_FREE_SPACE.
    destruct (Z.gtb_spec (cs_ntuples cstate) 0); [|lia].
    destruct (Z.geb_spec (cs_qreadpos cstate) (cs_qwritepos cstate)); lia.
Qed.

Lemma discard_positions cstate : positions_agree (discard_tuples cstate).
Proof. split; simpl; [reflexivity|lia]. Qed.

Lemma reset_positions i cstate :
  positions_agree cstate ->
  positions_agree (reset_producer_body i cstate).1
  /\ positions_agree (reset_consumer i cstate).1
  /\ positions_agree (reset_not_connected_body i cstate).1.
Proof.
  intros H. split; [|split].
  - unfold reset_producer_body. destruct (bool_decide _); simpl;
      [apply discard_positions|exact H].
  - unfold reset_consumer. destruct (bool_decide _); simpl; exact H.
  - unfold reset_not_connected_body. destruct (bool_decide _); simpl;
      [apply discard_positions|exact H].
Qed.

(** C4 as stated fails when a write fills the queue exactly: one row is
    queued and the two positions are equal. *)
Lemma full_queue_has_equal_positions :
  cs_ntuples (sample_written 12) = 1
  /\ cs_ntuples (sample_written 12) <> LONG_TUPLE
  /\ cs_qreadpos (sample_written 12) = cs_qwritepos (sample_written 12)
  /\ QUEUE_FREE_SPACE (sample_written 12) = 0.
Proof. vm_compute. repeat split. discriminate. Qed.

(** C4, amended. After every call of a run of [SharedQueueWrite],
    [SharedQueueFinish] (hence [SharedQueueDump] and [sq_push_long_tuple])
    and [SharedQueueRead] (hence [sq_pull_long_tuple], also when it is left
    asleep), and after a reset of the consumer that follows:
    [cs_ntuples <= 0], that is 0 or the marker [LONG_TUPLE], implies that
    the read and write positions are equal; with [cs_ntuples > 0] they are
    equal exactly when the queue is full ([QUEUE_FREE_SPACE] is 0). *)
Theorem positions_agree_along_runs
  (consumerIdx : Z) (cstate : ConsState) (calls : list Call) (i : Z) :
  fresh_slot cstate -> Forall calls_ok calls ->
  let c := sys_cstate (run consumerIdx calls (start cstate)) in
  positions_agree c
  /\ positions_agree (reset_producer_body i c).1
  /\ positions_agree (reset_consumer i c).1
  /\ positions_agree (reset_not_connected_body i c).1.
Proof.
  intros Hfresh Hok. cbv zeta.
  destruct (run_ring consumerIdx cstate calls Hfresh Hok) as [mode Hr].
  pose proof (ring_positions _ _ Hr) as Hp.
  split; [exact Hp|]. apply reset_positions. exact Hp.
Qed.

Lemma positions_agree_along_runs_witness :
  let c := sys_cstate (run 0 long_run
                         (start (sample_consumer CONSUMER_ACTIVE))) in
  positions_agree c
  /\ positions_agree (reset_producer_body 0 c).1
  /\ positions_agree (reset_consumer 0 c).1
  /\ positions_agree (reset_not_connected_body 0 c).1.
Proof.
  apply (positions_agree_along_runs 0 (sample_consumer CONSUMER_ACTIVE)
           long_run 0).
  - unfold fresh_slot, slot_wf, SIZEOF_INT, INT_MAX, QLENGTH_MAX. simpl.
    repeat split; lia.
  - repeat constructor; unfold row_ok, INT_MAX, QLENGTH_MAX; vm_compute; discriminate.
Defined.


(** * Further properties of the code *)

(** ** The queue macros *)

Lemma wrap_mod L x : 0 < L -> 0 <= x < 2 * L -> wrap L x = x mod L.
Proof.
  intros HL Hx. unfold wrap. destruct (Z.ltb_spec x L).
  - symmetry. apply Z.mod_small. lia.
  - rewrite <- (Z_mod_plus_full x (-1) L). symmetry.
    replace (x + -1 * L) with (x - L) by lia. apply Z.mod_small. lia.
Qed.

(** X1. [QUEUE_WRITE] of at most a queue length of bytes writes inside the
    queue only: no byte before its start or past its end changes.  The
    write position moves on by [len] modulo the queue length and stays a
    position of the queue; nothing else of the consumer state changes. *)
Theorem queue_write_stays_in_queue
  (cstate : ConsState) (len : Z) (buf : list byte) :
  0 <= cs_qwritepos cstate < cs_qlength cstate ->
  0 <= len <= cs_qlength cstate ->
  let c := QUEUE_WRITE cstate len buf in
  (forall a, a < 0 \/ cs_qlength cstate <= a -> cs_q c a = cs_q cstate a)
  /\ cs_qwritepos c = (cs_qwritepos cstate + len) mod cs_qlength cstate
  /\ 0 <= cs_qwritepos c < cs_qlength cstate
  /\ cs_qreadpos c = cs_qreadpos cstate /\ cs_ntuples c = cs_ntuples cstate
  /\ cs_status c = cs_status cstate /\ cs_qlength c = cs_qlength cstate.
Proof.
  intros Hwp Hlen. cbv zeta.
  destruct (QUEUE_WRITE_fields cstate len buf Hwp Hlen)
    as (Hw & Hr & HL & Hn & Hs & _).
  split.
  - intros a Ha. unfold QUEUE_WRITE.
    destruct (Z.leb_spec (cs_qwritepos cstate + len) (cs_qlength cstate));
      simpl; rewrite !memcpy_to_get.
    + pose proof (length_take_le buf (Z.to_nat len)).
      assert (Hl : (length (take (Z.to_nat len) buf) <= Z.to_nat len)%nat)
        by (rewrite length_take; lia).
      destruct (Z.leb_spec (cs_qwritepos cstate) a);
        destruct (Z.ltb_spec a (cs_qwritepos cstate
                                + Z.of_nat (length (take (Z.to_nat len) buf))));
        simpl; try reflexivity; lia.
    + assert (Hl1 : (length (take (Z.to_nat (len - (cs_qlength cstate
                                                      - cs_qwritepos cstate)))
                               (drop (Z.to_nat (cs_qlength cstate
                                                - cs_qwritepos cstate)) buf))
                     <= Z.to_nat (len - (cs_qlength cstate
                                         - cs_qwritepos cstate)))%nat)
        by (rewrite length_take; lia).
      assert (Hl2 : (length (take (Z.to_nat (cs_qlength cstate
                                             - cs_qwritepos cstate)) buf)
                     <= Z.to_nat (cs_qlength cstate - cs_qwritepos cstate))%nat)
        by (rewrite length_take; lia).
      repeat match goal with
             | |- context [?x <=? ?y] => destruct (Z.leb_spec x y)
             | |- context [?x <? ?y] => destruct (Z.ltb_spec x y)
             end; simpl; try reflexivity; lia.
  - rewrite Hw, wrap_mod by lia.
    split; [reflexivity|]. split; [apply Z.mod_pos_bound; lia|]. auto.
Qed.

Lemma queue_write_stays_in_queue_witness :
  let c := QUEUE_WRITE (sample_written 5) 12 (counting_row 12) in
  (forall a, a < 0 \/ cs_qlength (sample_written 5) <= a ->
             cs_q c a = cs_q (sample_written 5) a)
  /\ cs_qwritepos c
     = (cs_qwritepos (sample_written 5) + 12) mod cs_qlength (sample_written 5)
  /\ 0 <= cs_qwritepos c < cs_qlength (sample_written 5)
  /\ cs_qreadpos c = cs_qreadpos (sample_written 5)
  /\ cs_ntuples c = cs_ntuples (sample_written 5)
  /\ cs_status c = cs_status (sample_written 5)
  /\ cs_qlength c = cs_qlength (sample_written 5).
Proof.
  apply (queue_write_stays_in_queue (sample_written 5) 12 (counting_row 12));
    vm_compute; split; first [discriminate|reflexivity].
Defined.

(** X2. The queue is a first-in first-out buffer of bytes, also across its
    end: when [used] unread bytes lie between the read and the write
    position and [buf] fits behind them, a [QUEUE_WRITE] of [buf] leaves
    the unread bytes as they were, and after they are read a [QUEUE_READ]
    of as many bytes as [buf] has returns [buf] and brings the read
    position to the write position. *)
Theorem queue_bytes_come_out_in_order
  (cstate : ConsState) (used : Z) (buf : list byte) :
  slot_wf cstate ->
  0 <= used -> used + Z.of_nat (length buf) <= cs_qlength cstate ->
  cs_qwritepos cstate
  = (cs_qreadpos cstate + used) mod cs_qlength cstate ->
  let c1 := QUEUE_WRITE cstate (Z.of_nat (length buf)) buf in
  let r1 := QUEUE_READ c1 used in
  let r2 := QUEUE_READ r1.2 (Z.of_nat (length buf)) in
  r1.1 = (QUEUE_READ cstate used).1
  /\ r2.1 = buf
  /\ cs_qreadpos r2.2 = cs_qwritepos r2.2
  /\ cs_qwritepos r2.2
     = (cs_qwritepos cstate + Z.of_nat (length buf)) mod cs_qlength cstate.
Proof.
  intros Hwf Hu Hfit Hwp. cbv zeta.
  pose proof Hwf as (HL & Hrp & Hw). unfold SIZEOF_INT in HL.
  set (s := cyc_load (cs_q cstate) (cs_qlength cstate) (cs_qreadpos cstate)
              (Z.to_nat used)).
  assert (Hlen : Z.of_nat (length s) = used)
    by (unfold s; rewrite cyc_load_length; lia).
  assert (Hs : stream_inv cstate s).
  { split; [lia|]. split.
    - rewrite Hlen, wrap_mod by lia. exact Hwp.
    - unfold s. rewrite cyc_load_length. reflexivity. }
  assert (Hold : (QUEUE_READ cstate used).1 = s)
    by (rewrite QUEUE_READ_spec by lia; reflexivity).
  destruct (stream_write cstate s (Z.of_nat (length buf)) buf Hwf Hs)
    as (Hwf1 & Hs1 & (_ & _ & _ & _ & HL1) & Hr1); try lia.
  rewrite Nat2Z.id, firstn_all in Hs1.
  set (c1 := QUEUE_WRITE cstate (Z.of_nat (length buf)) buf) in *.
  destruct (stream_read c1 s buf Hwf1 Hs1) as (Hread1 & Hwf2 & Hs2).
  rewrite Hlen in Hread1, Hwf2, Hs2. rewrite Hread1. cbn [fst snd].
  set (c2 := set_qreadpos _ c1) in *.
  rewrite <- (app_nil_r buf) in Hs2.
  destruct (stream_read c2 buf [] Hwf2 Hs2) as (Hread2 & Hwf3 & Hs3).
  rewrite Hread2. cbn [fst snd].
  split; [symmetry; exact Hold|]. split; [reflexivity|].
  destruct Hs3 as (_ & Hw3 & _). simpl in Hw3.
  destruct Hwf3 as (_ & Hrp3 & _).
  split.
  - simpl. rewrite Hw3. simpl in Hrp3. destruct Hwf1 as (_ & Hrp1 & _).
    wrap_lia.
  - simpl.
    destruct (QUEUE_WRITE_fields cstate (Z.of_nat (length buf)) buf Hw)
      as (Hwq & _); [lia|].
    fold c1 in Hwq. rewrite Hwq. apply wrap_mod; lia.
Qed.

Lemma queue_bytes_come_out_in_order_witness :
  let c1 := QUEUE_WRITE (sample_written 5) 7 (counting_row 7) in
  let r1 := QUEUE_READ c1 9 in
  let r2 := QUEUE_READ r1.2 7 in
  r1.1 = (QUEUE_READ (sample_written 5) 9).1
  /\ r2.1 = counting_row 7
  /\ cs_qreadpos r2.2 = cs_qwritepos r2.2
  /\ cs_qwritepos r2.2
     = (cs_qwritepos (sample_written 5) + 7)
       mod cs_qlength (sample_written 5).
Proof.
  apply (queue_bytes_come_out_in_order (sample_written 5) 9 (counting_row 7)).
  - unfold slot_wf. vm_compute. repeat split; first [discriminate|reflexivity].
  - lia.
  - vm_compute. discriminate.
  - vm_compute. reflexivity.
Defined.

(** ** The lock discipline *)

Lemma lock_check_spec ev : forall held held',
  lock_check held ev = Some held'
  <-> trace_all lock_step_ok held ev = true /\ held_after held ev = held'.
Proof.
  induction ev as [|e ev IH]; intros held held'; simpl.
  - split; [intros [= ->]; auto|intros [_ ->]; reflexivity].
  - destruct (lock_step_ok e held); simpl.
    + apply IH.
    + split; [discriminate|intros [H _]; discriminate].
Qed.

Lemma lock_check_disciplined ev :
  lock_check [] ev = Some [] -> lock_disciplined ev.
Proof. intros H. apply lock_check_spec. exact H. Qed.

Lemma lock_check_app ev1 : forall held ev2,
  lock_check held (ev1 ++ ev2)
  = match lock_check held ev1 with
    | Some h => lock_check h ev2
    | None => None
    end.
Proof.
  induction ev1 as [|e ev1 IH]; intros held ev2; simpl; [reflexivity|].
  destruct (lock_step_ok e held); [apply IH|reflexivity].
Qed.

Lemma lock_check_latches ev : forall held,
  Forall latch_call ev -> lock_check held ev = Some held.
Proof.
  induction ev as [|e ev IH]; intros held Hall; [reflexivity|].
  apply Forall_cons in Hall as [He Hall]. simpl.
  destruct e; try contradiction; simpl; apply IH; exact Hall.
Qed.

(** A passage under the lock of a consumer, entered with locks of lower
    rank. *)
Lemma lock_check_cs held i m mid :
  forallb (fun h => lock_rank h <? 2) held = true ->
  Forall latch_call mid ->
  lock_check held ([LWLockAcquire (cs_lwlock i) m] ++ mid
                   ++ [LWLockRelease (cs_lwlock i)])
  = Some held.
Proof.
  intros Hlow Hmid. simpl. rewrite Hlow. rewrite lock_check_app.
  rewrite (lock_check_latches mid) by exact Hmid. simpl.
  rewrite bool_decide_eq_true_2 by apply list_elem_of_here.
  rewrite decide_True by reflexivity. reflexivity.
Qed.

Lemma lock_check_for_consumers f held :
  (forall i c, lock_check held (f i c).2 = Some held) ->
  forall l i, lock_check held (for_consumers f i l).2 = Some held.
Proof.
  intros Hf. induction l as [|c l IH]; intros i; simpl; [reflexivity|].
  specialize (Hf i c). destruct (f i c) as [c' ev].
  specialize (IH (i + 1)). destruct (for_consumers f (i + 1) l) as [l' ev'].
  simpl in *. rewrite lock_check_app, Hf. exact IH.
Qed.

Lemma dump_loop_latches n idx : forall cstate ts,
  Forall latch_call (dump_loop n idx cstate ts).2.
Proof.
  induction n as [|n IH]; intros cstate ts; cbn [dump_loop].
  - destruct (tuplestore_ateof ts); constructor.
  - destruct (tuplestore_ateof ts); [constructor|].
    destruct (tuplestore_gettupleslot _) as [[t ts2]|]; [|constructor].
    destruct (QUEUE_FREE_SPACE cstate <? SIZEOF_INT + msglen t).
    + destruct (cs_ntuples cstate <=? 0); [|constructor].
      destruct (sq_push_long_tuple cstate t) as [[] c].
      * specialize (IH c ts2).
        destruct (dump_loop n idx c ts2) as [[[r c'] ts'] ev]. simpl in *.
        constructor; [exact I|exact IH].
      * repeat constructor.
    + cbv zeta.
      match goal with
      | |- context [dump_loop n idx ?c ts2] =>
        specialize (IH c ts2);
          destruct (dump_loop n idx c ts2) as [[[r c'] ts'] ev]
      end.
      simpl in *. apply Forall_app. split; [|exact IH].
      destruct (cs_ntuples cstate =? 0); repeat constructor.
Qed.

Lemma SharedQueueDump_latches idx cstate ts :
  Forall latch_call (SharedQueueDump idx cstate ts).2.
Proof.
  unfold SharedQueueDump. destruct (bool_decide _); [constructor|].
  apply dump_loop_latches.
Qed.

Ltac lock_steps :=
  repeat first
    [ rewrite lock_check_app
    | rewrite lock_check_latches by (repeat constructor)
    | progress simpl ].

Lemma lock_check_cs2 held i m mid1 mid2 :
  forallb (fun h => lock_rank h <? 2) held = true ->
  Forall latch_call mid1 -> Forall latch_call mid2 ->
  lock_check held ([LWLockAcquire (cs_lwlock i) m] ++ mid1 ++ mid2
                   ++ [LWLockRelease (cs_lwlock i)])
  = Some held.
Proof.
  intros Hlow H1 H2. rewrite (app_assoc mid1).
  apply lock_check_cs; [exact Hlow|]. apply Forall_app. auto.
Qed.

(** A passage under a lock entered with locks of lower rank, the trace in
    between being in order and balanced. *)
Lemma lock_check_under l m held mid :
  forallb (fun h => lock_rank h <? lock_rank l) held = true ->
  lock_check (l :: held) mid = Some (l :: held) ->
  lock_check held ([LWLockAcquire l m] ++ mid ++ [LWLockRelease l])
  = Some held.
Proof.
  intros Hlow Hmid. simpl. rewrite Hlow, lock_check_app, Hmid. simpl.
  rewrite bool_decide_eq_true_2 by apply list_elem_of_here.
  rewrite decide_True by reflexivity. reflexivity.
Qed.

Lemma write_lock_check held idx cstate row store :
  forallb (fun h => lock_rank h <? 2) held = true ->
  lock_check held (SharedQueueWrite idx cstate row store).2 = Some held.
Proof.
  intros Hlow. unfold SharedQueueWrite.
  assert (Hmid : forall c (st : option Tuplestorestate) ev1,
    Forall latch_call ev1 ->
    lock_check held
      (if QUEUE_FREE_SPACE c <? SIZEOF_INT + msglen row then
         (c, Some (tuplestore_puttupleslot
                     (match st with
                      | Some ts => ts
                      | None => tuplestore_begin_datarow
                      end) row),
          [LWLockAcquire (cs_lwlock idx) LW_EXCLUSIVE] ++ ev1
          ++ [LWLockRelease (cs_lwlock idx)])
       else if bool_decide (cs_status c = CONSUMER_ACTIVE) then
         (set_ntuples (cs_ntuples c + 1)
            (QUEUE_WRITE (QUEUE_WRITE c SIZEOF_INT (int_bytes (msglen row)))
               (msglen row) row),
          st,
          [LWLockAcquire (cs_lwlock idx) LW_EXCLUSIVE] ++ ev1
          ++ (if cs_ntuples c =? 0 then [SetLatch (cs_latch idx)] else [])
          ++ [LWLockRelease (cs_lwlock idx)])
       else (c, st, [LWLockAcquire (cs_lwlock idx) LW_EXCLUSIVE] ++ ev1
                    ++ [LWLockRelease (cs_lwlock idx)])).2
    = Some held).
  { intros c st ev1 Hev1.
    destruct (QUEUE_FREE_SPACE c <? SIZEOF_INT + msglen row);
      [apply lock_check_cs; assumption|].
    destruct (bool_decide (cs_status c = CONSUMER_ACTIVE));
      [|apply lock_check_cs; assumption].
    apply lock_check_cs2; [assumption..|].
    destruct (cs_ntuples c =? 0); repeat constructor. }
  destruct store as [ts|].
  - destruct (QUEUE_FREE_SPACE cstate >? cs_qlength cstate `quot` 2).
    + pose proof (SharedQueueDump_latches idx cstate ts) as Hd.
      destruct (SharedQueueDump idx cstate ts) as [[[d c] ts'] ev].
      simpl in Hd. destruct d.
      * apply (Hmid c (Some ts') ev Hd).
      * apply lock_check_cs; assumption.
    + apply (lock_check_cs held idx LW_EXCLUSIVE []); [assumption|constructor].
  - apply (Hmid cstate None []). constructor.
Qed.

Lemma finish_consumer_lock_check held i cstate store :
  forallb (fun h => lock_rank h <? 2) held = true ->
  lock_check held (finish_consumer i cstate store).2 = Some held.
Proof.
  intros Hlow. unfold finish_consumer. destruct store as [ts|].
  - destruct (bool_decide (cs_status cstate ≠ CONSUMER_ACTIVE)).
    { apply (lock_check_cs held i LW_EXCLUSIVE []); [assumption|constructor]. }
    destruct (QUEUE_FREE_SPACE cstate >? cs_qlength cstate `quot` 2).
    + pose proof (SharedQueueDump_latches i cstate ts) as Hd.
      destruct (SharedQueueDump i cstate ts) as [[[d c] ts'] ev].
      simpl in Hd.
      destruct d; apply lock_check_cs; try assumption;
        (apply Forall_app; split; [exact Hd|repeat constructor]).
    + apply (lock_check_cs held i LW_EXCLUSIVE []); [assumption|constructor].
  - destruct (bool_decide (cs_status cstate = CONSUMER_ACTIVE)).
    + apply (lock_check_cs held i LW_EXCLUSIVE [_]);
        [assumption|repeat constructor].
    + apply (lock_check_cs held i LW_EXCLUSIVE []); [assumption|constructor].
Qed.

Lemma finish_loop_lock_check held l : forall i stores,
  forallb (fun h => lock_rank h <? 2) held = true ->
  lock_check held (finish_loop i l stores).2 = Some held.
Proof.
  induction l as [|c l IH]; intros i stores Hlow; simpl; [reflexivity|].
  pose proof (finish_consumer_lock_check held i c (mjoin (head stores)) Hlow)
    as Hc.
  destruct (finish_consumer i c (mjoin (head stores))) as [[[c' ts] b] ev].
  specialize (IH (i + 1) (tail stores) Hlow).
  destruct (finish_loop (i + 1) l (tail stores)) as [[[l' tss] n] ev'].
  simpl in *. rewrite lock_check_app, Hc. exact IH.
Qed.

Lemma canpause_loop_lock_check held l : forall i result usedspace ncons,
  forallb (fun h => lock_rank h <? 2) held = true ->
  lock_check held (canpause_loop l i result usedspace ncons).2 = Some held.
Proof.
  induction l as [|c l IH]; intros i result usedspace ncons Hlow;
    cbn [canpause_loop]; [reflexivity|].
  destruct result; [|reflexivity].
  assert (Hcs : lock_check held [LWLockAcquire (cs_lwlock i) LW_SHARED;
                                 LWLockRelease (cs_lwlock i)] = Some held)
    by (apply (lock_check_cs held i LW_SHARED []); [assumption|constructor]).
  destruct (bool_decide (cs_status c = CONSUMER_ACTIVE)).
  - match goal with
    | |- context [canpause_loop l (i + 1) ?r ?u ?n] =>
      specialize (IH (i + 1) r u n Hlow);
        destruct (canpause_loop l (i + 1) r u n) as [rr ev]
    end.
    simpl in IH. cbn [snd]. rewrite lock_check_app.
    rewrite Hcs. exact IH.
  - specialize (IH (i + 1) true usedspace ncons Hlow).
    destruct (canpause_loop l (i + 1) true usedspace ncons) as [rr ev].
    simpl in IH. cbn [snd]. rewrite lock_check_app.
    rewrite Hcs. exact IH.
Qed.

Lemma reset_producer_body_lock_check held i cstate :
  forallb (fun h => lock_rank h <? 2) held = true ->
  lock_check held (reset_producer_body i cstate).2 = Some held.
Proof.
  intros Hlow. unfold reset_producer_body. cbn [snd].
  apply lock_check_cs; [assumption|].
  destruct (bool_decide _); repeat constructor.
Qed.

Lemma reset_consumer_lock_check held i cstate :
  forallb (fun h => lock_rank h <? 2) held = true ->
  lock_check held (reset_consumer i cstate).2 = Some held.
Proof.
  intros Hlow. unfold reset_consumer. destruct (bool_decide _); cbn [snd].
  - apply (lock_check_cs2 held i LW_EXCLUSIVE _ [_]); [assumption| |].
    + destruct (cs_pid cstate >? 0); repeat constructor.
    + repeat constructor.
  - apply (lock_check_cs held i LW_EXCLUSIVE []); [assumption|constructor].
Qed.

Lemma reset_not_connected_body_lock_check held i cstate :
  forallb (fun h => lock_rank h <? 2) held = true ->
  lock_check held (reset_not_connected_body i cstate).2 = Some held.
Proof.
  intros Hlow. unfold reset_not_connected_body.
  destruct (bool_decide _); cbn [snd].
  - apply (lock_check_cs held i LW_EXCLUSIVE [_]);
      [assumption|repeat constructor].
  - apply (lock_check_cs held i LW_EXCLUSIVE []); [assumption|constructor].
Qed.

Lemma reset_not_connected_lock_check held squeue :
  forallb (fun h => lock_rank h <? 1) held = true ->
  lock_check held (SharedQueueResetNotConnected squeue).2 = Some held.
Proof.
  intros Hlow. unfold SharedQueueResetNotConnected.
  pose proof (lock_check_for_consumers reset_not_connected_body
                (sqs_producer_lwlock :: held)) as H.
  assert (Hlow2 : forallb (fun h => lock_rank h <? 2)
                    (sqs_producer_lwlock :: held) = true).
  { simpl. rewrite forallb_forall in *. intros h Hh.
    specialize (Hlow h Hh). apply Z.ltb_lt in Hlow. apply Z.ltb_lt. lia. }
  specialize (H (fun i c => reset_not_connected_body_lock_check _ i c Hlow2)
                (sq_consumers squeue) 0).
  destruct (for_consumers reset_not_connected_body 0 (sq_consumers squeue))
    as [l ev]. cbn [snd] in *.
  apply lock_check_under; assumption.
Qed.

Lemma reset_lock_check squeue consumerIdx :
  lock_check [] (SharedQueueReset squeue consumerIdx).2 = Some [].
Proof.
  unfold SharedQueueReset. destruct (sq_sync squeue); [|reflexivity].
  destruct (consumerIdx =? -1).
  - pose proof (lock_check_for_consumers reset_producer_body
                  [sqs_producer_lwlock]
                  (fun i c => reset_producer_body_lock_check
                                [sqs_producer_lwlock] i c eq_refl)
                  (sq_consumers squeue) 0) as H.
    destruct (for_consumers reset_producer_body 0 (sq_consumers squeue))
      as [l ev]. cbn [snd] in *.
    apply lock_check_under; [reflexivity|exact H].
  - destruct (sq_consumers squeue !! Z.to_nat consumerIdx) as [c|].
    + pose proof (reset_consumer_lock_check [sqs_producer_lwlock]
                    consumerIdx c eq_refl) as H.
      destruct (reset_consumer consumerIdx c) as [c' ev]. cbn [snd] in *.
      apply lock_check_under; [reflexivity|exact H].
    + reflexivity.
Qed.

(** X3. The calls of the producer on the data path, [SharedQueueWrite],
    [SharedQueueFinish] (with [SharedQueueDump]), [SharedQueueCanPause],
    [SharedQueueReset] and [SharedQueueResetNotConnected], keep the lock
    discipline: a consumer lock is only taken above the producer lock,
    never two consumer locks at once, every lock released is held, and
    the call returns with no lock held. *)
Theorem producer_calls_keep_lock_discipline
  (squeue : SQueueHeader) (consumerIdx : Z) (cstate : ConsState)
  (datarow : RemoteDataRow) (store : option Tuplestorestate)
  (stores : list (option Tuplestorestate)) :
  lock_disciplined (SharedQueueWrite consumerIdx cstate datarow store).2
  /\ lock_disciplined (SharedQueueFinish squeue stores).2
  /\ lock_disciplined (SharedQueueCanPause squeue).2
  /\ lock_disciplined (SharedQueueReset squeue consumerIdx).2
  /\ lock_disciplined (SharedQueueResetNotConnected squeue).2.
Proof.
  split; [|split; [|split; [|split]]]; apply lock_check_disciplined.
  - apply write_lock_check. reflexivity.
  - unfold SharedQueueFinish.
    pose proof (finish_loop_lock_check [] (sq_consumers squeue) 0 stores
                  eq_refl) as H.
    destruct (finish_loop 0 (sq_consumers squeue) stores) as [[[l t] n] ev].
    exact H.
  - unfold SharedQueueCanPause.
    pose proof (canpause_loop_lock_check [] (sq_consumers squeue) 0 true 0 0
                  eq_refl) as H.
    destruct (canpause_loop (sq_consumers squeue) 0 true 0 0)
      as [[[r u] n] ev]. cbn [snd] in H.
    destruct (n =? 0); [exact H|]. destruct r; exact H.
  - apply reset_lock_check.
  - apply reset_not_connected_lock_check. reflexivity.
Qed.

Ltac lock_compute :=
  cbn [lock_check lock_step_ok held_step remove_lock forallb lock_rank
       read_locks app];
  repeat first
    [ rewrite decide_True by reflexivity
    | rewrite decide_False by discriminate
    | rewrite bool_decide_eq_true_2 by (repeat constructor)
    | progress cbn [lock_check lock_step_ok held_step remove_lock forallb
                    lock_rank andb Z.ltb Z.compare] ].

Lemma pull_wait_trace_lock_check idx :
  lock_check (read_locks idx) (pull_wait_trace idx) = Some (read_locks idx).
Proof. unfold pull_wait_trace. lock_compute. reflexivity. Qed.

Lemma read_wait_trace_lock_check idx :
  lock_check (read_locks idx) (read_wait_trace idx) = Some (read_locks idx).
Proof. unfold read_wait_trace. lock_compute. reflexivity. Qed.

Lemma read_unlock_lock_check idx :
  lock_check (read_locks idx) (read_unlock_trace idx) = Some [].
Proof. unfold read_unlock_trace. lock_compute. reflexivity. Qed.

Section ReadLocks.

Context {Env : Type}.
Variable wait : Env -> ConsState -> Env * ConsState.

Lemma pull_wait_lock_check idx datalen fuel : forall env cstate offset msg,
  lock_check (read_locks idx)
    (pull_wait wait fuel idx datalen env cstate offset msg).2
  = Some (read_locks idx).
Proof.
  induction fuel as [|fuel IH]; intros env cstate offset msg;
    cbn [pull_wait]; [reflexivity|].
  destruct (wait env cstate) as [env1 c1].
  destruct (cs_ntuples c1 =? LONG_TUPLE).
  - specialize (IH env1 c1 offset msg).
    destruct (pull_wait wait fuel idx datalen env1 c1 offset msg)
      as [[[r e] c] ev]. cbn [snd] in *.
    rewrite lock_check_app.
    change (lock_check (read_locks idx)
              ([SetLatch sqs_producer_latch; ResetLatch (cs_latch idx);
                LWLockRelease (cs_lwlock idx);
                LWLockRelease sqs_producer_lwlock;
                WaitLatch (cs_latch idx) (-1)]
               ++ [LWLockAcquire sqs_producer_lwlock LW_SHARED;
                   LWLockAcquire (cs_lwlock idx) LW_EXCLUSIVE]))
      with (lock_check (read_locks idx) (pull_wait_trace idx)).
    rewrite pull_wait_trace_lock_check. exact IH.
  - destruct (QUEUE_READ c1 SIZEOF_INT) as [buf c2].
    destruct (pull_chunk c2 (bytes_int buf) offset msg) as [[c3 off3] msg3].
    destruct (off3 =? datalen).
    + apply pull_wait_trace_lock_check.
    + specialize (IH env1 (pull_request_more c3 off3) off3 msg3).
      destruct (pull_wait wait fuel idx datalen env1
                  (pull_request_more c3 off3) off3 msg3)
        as [[[r e] c] ev]. cbn [snd] in *.
      rewrite lock_check_app.
      change (lock_check (read_locks idx)
                ([SetLatch sqs_producer_latch; ResetLatch (cs_latch idx);
                  LWLockRelease (cs_lwlock idx);
                  LWLockRelease sqs_producer_lwlock;
                  WaitLatch (cs_latch idx) (-1)]
                 ++ [LWLockAcquire sqs_producer_lwlock LW_SHARED;
                     LWLockAcquire (cs_lwlock idx) LW_EXCLUSIVE]))
        with (lock_check (read_locks idx) (pull_wait_trace idx)).
      rewrite pull_wait_trace_lock_check. exact IH.
Qed.

Lemma read_deliver_lock_check idx
  (x : option (list byte) * Env * ConsState * list Event) :
  lock_check (read_locks idx) x.2 = Some (read_locks idx) ->
  lock_check (read_locks idx) (read_deliver idx x).2
  = Some (match (read_deliver idx x).1.1.1 with
          | ReadBlocked => read_locks idx
          | _ => []
          end).
Proof.
  destruct x as [[[r e] c] ev]. unfold read_deliver. cbn [snd fst].
  intros H. destruct r as [msg|]; cbn [snd fst]; [|exact H].
  rewrite lock_check_app, H. apply read_unlock_lock_check.
Qed.

Lemma read_row_lock_check idx fuel env cstate :
  lock_check (read_locks idx) (read_row wait fuel idx env cstate).2
  = Some (match (read_row wait fuel idx env cstate).1.1.1 with
          | ReadBlocked => read_locks idx
          | _ => []
          end).
Proof.
  unfold read_row. destruct (QUEUE_READ cstate SIZEOF_INT) as [buf c1].
  apply read_deliver_lock_check.
  destruct (bytes_int buf >? cs_qlength c1 - SIZEOF_INT).
  - unfold sq_pull_long_tuple.
    destruct (pull_chunk c1 (bytes_int buf) 0 []) as [[c2 off] msg].
    destruct (off =? bytes_int buf); [reflexivity|].
    apply pull_wait_lock_check.
  - destruct (QUEUE_READ c1 (bytes_int buf)) as [msg c2]. reflexivity.
Qed.

Lemma read_loop_lock_check idx canwait fuel : forall env cstate,
  lock_check (read_locks idx) (read_loop wait fuel idx canwait env cstate).2
  = Some (match (read_loop wait fuel idx canwait env cstate).1.1.1 with
          | ReadBlocked => read_locks idx
          | _ => []
          end).
Proof.
  induction fuel as [|fuel IH]; intros env cstate; cbn [read_loop];
    (destruct (cs_ntuples cstate <=? 0); [|apply read_row_lock_check]);
    destruct (cs_status cstate); cbn [snd fst];
    try (lock_compute; reflexivity);
    destruct canwait; cbn [snd fst]; try (lock_compute; reflexivity).
  all: destruct (wait env cstate) as [env1 c1];
    specialize (IH env1 c1);
    destruct (read_loop wait fuel idx true env1 c1) as [[[r e] c] ev];
    cbn [snd fst] in *; rewrite lock_check_app;
    change (lock_check (read_locks idx)
              ([ResetLatch (cs_latch idx); LWLockRelease (cs_lwlock idx);
                SetLatch sqs_producer_latch;
                LWLockRelease sqs_producer_lwlock;
                WaitLatch (cs_latch idx) (-1)]
               ++ [LWLockAcquire sqs_producer_lwlock LW_SHARED;
                   LWLockAcquire (cs_lwlock idx) LW_EXCLUSIVE]))
      with (lock_check (read_locks idx) (read_wait_trace idx));
    rewrite read_wait_trace_lock_check; exact IH.
Qed.

(** X4. [SharedQueueRead] takes the producer lock before the consumer
    lock, releases only locks it holds and, in its own loop as in
    [sq_pull_long_tuple], sleeps on the latch only after releasing both.
    When it returns, with a row, with nothing, at the end of the data or
    with the producer error, no lock is held. *)
Theorem read_keeps_lock_discipline
  (fuel : nat) (consumerIdx : Z) (canwait : bool) (env : Env)
  (cstate : ConsState) :
  trace_all lock_step_ok []
    (SharedQueueRead wait fuel consumerIdx canwait env cstate).2 = true
  /\ ((SharedQueueRead wait fuel consumerIdx canwait env cstate).1.1.1
      = ReadBlocked
      \/ held_after []
           (SharedQueueRead wait fuel consumerIdx canwait env cstate).2 = []).
Proof.
  unfold SharedQueueRead.
  pose proof (read_loop_lock_check consumerIdx canwait fuel env cstate) as H.
  destruct (read_loop wait fuel consumerIdx canwait env cstate)
    as [[[r e] c] ev]. cbn [snd fst] in *.
  assert (Hc : lock_check []
                 ([LWLockAcquire sqs_producer_lwlock LW_SHARED;
                   LWLockAcquire (cs_lwlock consumerIdx) LW_EXCLUSIVE] ++ ev)
               = Some (match r with
                       | ReadBlocked => read_locks consumerIdx
                       | _ => []
                       end))
    by (rewrite lock_check_app; exact H).
  apply lock_check_spec in Hc as [Ht Hh]. split; [exact Ht|].
  destruct r; auto.
Qed.

End ReadLocks.

(** *** The registry calls *)

Section RegistryLocks.

Variable NUM_SQUEUES : nat.
Variable SQUEUE_SIZE sizeof_SQueueHeader sizeof_ConsState : Z.
Variable MyProcPid me : Z.
Variable SQ_CONS_SELF SQ_CONS_NONE : Z.
Variable sleep : Shmem -> Shmem.
Variable wait_producer : Shmem -> Shmem * bool.
Variable unlocked : Shmem -> Shmem.

Lemma acquire_old_squeue_lock_check sq :
  lock_check [SQueuesLock] (acquire_old_squeue me sq).2 = Some [SQueuesLock].
Proof.
  unfold acquire_old_squeue.
  destruct (find_consumer_node me 0 (sq_consumers sq)) as [[i c]|];
    [|reflexivity].
  apply (lock_check_cs [SQueuesLock] i LW_EXCLUSIVE []);
    [reflexivity|constructor].
Qed.

Lemma acquire_loop_lock_check sqname ncons n : forall trycount shm,
  lock_check []
    (acquire_loop NUM_SQUEUES SQUEUE_SIZE sizeof_SQueueHeader
       sizeof_ConsState me sleep n trycount sqname ncons shm).2
  = Some (match (acquire_loop NUM_SQUEUES SQUEUE_SIZE sizeof_SQueueHeader
                   sizeof_ConsState me sleep n trycount sqname ncons
                   shm).1.1 with
          | AcquireOutOfQueues => [SQueuesLock]
          | _ => []
          end).
Proof.
  assert (Hold : forall sq,
    lock_check [SQueuesLock]
      (if sq_pid sq =? 0 then (false, []) else acquire_old_squeue me sq).2
    = Some [SQueuesLock]).
  { intros sq. destruct (sq_pid sq =? 0); [reflexivity|].
    apply acquire_old_squeue_lock_check. }
  induction n as [|n IH]; intros trycount shm; cbn [acquire_loop];
    (destruct (SharedQueues shm !! sqname) as [sq|];
     [|destruct (bool_decide _); cbn [fst snd]; lock_compute; reflexivity]);
    specialize (Hold sq);
    destruct (if sq_pid sq =? 0 then (false, [])
              else acquire_old_squeue me sq) as [old ev1];
    cbn [snd] in Hold;
    (destruct old;
     [|cbn [fst snd]; lock_compute; rewrite lock_check_app, Hold;
       lock_compute; reflexivity]).
  - destruct (trycount + 1 >=? 10); cbn [fst snd]; lock_compute;
      rewrite lock_check_app, Hold; lock_compute; reflexivity.
  - destruct (trycount + 1 >=? 10).
    + cbn [fst snd]; lock_compute;
        rewrite lock_check_app, Hold; lock_compute; reflexivity.
    + specialize (IH (trycount + 1) (sleep shm)).
      destruct (acquire_loop NUM_SQUEUES SQUEUE_SIZE sizeof_SQueueHeader
                  sizeof_ConsState me sleep n (trycount + 1) sqname ncons
                  (sleep shm)) as [[r s] ev'].
      cbn [fst snd] in *. rewrite lock_check_app.
      lock_compute. rewrite lock_check_app, Hold. lock_compute. exact IH.
Qed.

Lemma bind_consumer_loop_lock_check consNodes nodeid :
  forall l myindex,
  lock_check [sqs_producer_lwlock]
    (bind_consumer_loop MyProcPid me consNodes nodeid l myindex).2
  = Some (match (bind_consumer_loop MyProcPid me consNodes nodeid l
                   myindex).1.1 with
          | inl _ => []
          | inr _ => [sqs_producer_lwlock]
          end).
Proof.
  induction consNodes as [|n consNodes IH]; intros l myindex;
    cbn [bind_consumer_loop]; [reflexivity|].
  destruct (n =? nodeid); [apply IH|].
  destruct (find_consumer_node n 0 l) as [[i c]|]; [|apply IH].
  destruct (n =? me); [|apply IH].
  destruct (bool_decide _); cbn [fst snd].
  - lock_compute. reflexivity.
  - specialize (IH (<[Z.to_nat i := set_pid MyProcPid c]> l) i).
    destruct (bind_consumer_loop MyProcPid me consNodes nodeid
                (<[Z.to_nat i := set_pid MyProcPid c]> l) i)
      as [[r l'] ev]. cbn [fst snd] in *.
    lock_compute. exact IH.
Qed.

Lemma release_slots_lock_check sq :
  lock_check [sqs_producer_lwlock; SQueuesLock] (release_slots me sq).2
  = Some [SQueuesLock].
Proof.
  unfold release_slots. destruct (sq_nodeid sq =? -1);
    [lock_compute; reflexivity|].
  destruct (negb (sq_nodeid sq =? me)); [|lock_compute; reflexivity].
  destruct (find_consumer_node me 0 (sq_consumers sq)) as [[i c]|].
  - unfold release_consumer. destruct (cs_pid c =? 0);
      [cbn [snd]; lock_compute; reflexivity|].
    destruct (bool_decide _); [|cbn [snd]; lock_compute; reflexivity].
    destruct (cs_pid (set_status CONSUMER_DONE c) >? 0);
      cbn [snd]; lock_compute; reflexivity.
  - pose proof (lock_check_for_consumers release_unbound_body
                  [sqs_producer_lwlock; SQueuesLock]) as H.
    specialize (H ltac:(intros i c; unfold release_unbound_body;
                          destruct (cs_node c =? -1); cbn [snd];
                          [lock_compute; reflexivity|reflexivity])
                  (sq_consumers sq) 0).
    destruct (for_consumers release_unbound_body 0 (sq_consumers sq))
      as [l ev]. cbn [snd] in *.
    rewrite lock_check_app, H. lock_compute. reflexivity.
Qed.

Lemma drop_reference_lock_check held sq shm :
  lock_check held (drop_reference sq shm).2 = Some held.
Proof.
  unfold drop_reference. destruct (_ =? 0); reflexivity.
Qed.

Lemma unbind_scan_lock_check failed l : forall i,
  lock_check [sqs_producer_lwlock] (unbind_scan failed i l).2
  = Some [sqs_producer_lwlock].
Proof.
  induction l as [|c l IH]; intros i; cbn [unbind_scan]; [reflexivity|].
  specialize (IH (i + 1)).
  destruct (unbind_scan failed (i + 1) l) as [[l' n] ev']. cbn [snd] in IH.
  destruct (bool_decide (cs_status c = CONSUMER_ACTIVE) && failed);
    [cbn [snd]; lock_compute; exact IH|].
  destruct (bool_decide (cs_status c ≠ CONSUMER_DONE) && negb failed);
    cbn [snd]; lock_compute; exact IH.
Qed.

Lemma unbind_recheck_lock_check l : forall i,
  lock_check [sqs_producer_lwlock; SQueuesLock] (unbind_recheck i l).2
  = Some [sqs_producer_lwlock; SQueuesLock].
Proof.
  induction l as [|c l IH]; intros i; cbn [unbind_recheck]; [reflexivity|].
  specialize (IH (i + 1)).
  destruct (unbind_recheck (i + 1) l) as [n ev']. cbn [snd] in *.
  lock_compute. exact IH.
Qed.

Lemma unbind_loop_lock_check sqname failed fuel : forall shm,
  exists held,
    lock_check []
      (unbind_loop wait_producer unlocked fuel sqname failed shm).2
    = Some held
    /\ ((unbind_loop wait_producer unlocked fuel sqname failed shm).1.1
        <> UnBindNoEntry -> held = []).
Proof.
  induction fuel as [|fuel IH]; intros shm; cbn [unbind_loop].
  - exists []. auto.
  - destruct (SharedQueues shm !! sqname) as [sq|];
      [|exists []; split; [reflexivity|intros H; contradiction H; reflexivity]].
    pose proof (unbind_scan_lock_check failed (sq_consumers sq) 0) as Hscan.
    destruct (unbind_scan failed 0 (sq_consumers sq)) as [[l c_count] ev1].
    cbn [snd] in Hscan.
    assert (Hpass : lock_check []
                      ([LWLockAcquire sqs_producer_lwlock LW_EXCLUSIVE] ++ ev1
                       ++ [LWLockRelease sqs_producer_lwlock]) = Some [])
      by (apply lock_check_under; [reflexivity|exact Hscan]).
    destruct (c_count =? 0).
    + destruct (SharedQueues
                  (unlocked (set_queue (set_sq_consumers l sq) shm))
                !! sqname) as [sq'|].
      * pose proof (unbind_recheck_lock_check (sq_consumers sq') 0) as Hre.
        destruct (unbind_recheck 0 (sq_consumers sq')) as [running ev2].
        cbn [snd] in Hre. destruct (running =? 0).
        -- pose proof (drop_reference_lock_check
                         [sqs_producer_lwlock; SQueuesLock] sq'
                         (unlocked (set_queue (set_sq_consumers l sq) shm)))
             as Hd.
           destruct (drop_reference sq' _) as [shm3 ev3]. cbn [snd] in Hd.
           exists []. split; [|auto]. cbn [fst snd].
           do 2 rewrite lock_check_app. rewrite Hpass. lock_compute.
           rewrite lock_check_app, Hre. lock_compute.
           rewrite lock_check_app, Hd. lock_compute. reflexivity.
        -- destruct (IH (unlocked (set_queue (set_sq_consumers l sq) shm)))
             as (held & Hc & Hh).
           destruct (unbind_loop wait_producer unlocked fuel sqname failed
                       (unlocked (set_queue (set_sq_consumers l sq) shm)))
             as [[r s] ev']. cbn [fst snd] in *.
           exists held. split; [|exact Hh].
           do 2 rewrite lock_check_app. rewrite Hpass. lock_compute.
           rewrite lock_check_app, Hre. lock_compute. exact Hc.
      * exists [sqs_producer_lwlock; SQueuesLock]. cbn [fst snd].
        split; [|intros H; contradiction H; reflexivity].
        rewrite lock_check_app, Hpass. lock_compute. reflexivity.
    + destruct (wait_producer (set_queue (set_sq_consumers l sq) shm))
        as [shm2 timeout].
      assert (Hreset : forall (x : Shmem * list Event),
        x = (if timeout then
               match SharedQueues shm2 !! sqname with
               | Some squeue =>
                 let '(squeue, ev) := SharedQueueResetNotConnected squeue in
                 (set_queue squeue shm2, ev)
               | None => (shm2, [])
               end
             else (shm2, [])) ->
        lock_check [] x.2 = Some []).
      { intros x ->. destruct timeout; [|reflexivity].
        destruct (SharedQueues shm2 !! sqname) as [sq2|]; [|reflexivity].
        pose proof (reset_not_connected_lock_check [] sq2 eq_refl) as H.
        destruct (SharedQueueResetNotConnected sq2) as [sq3 ev].
        exact H. }
      specialize (Hreset _ eq_refl).
      destruct (if timeout then _ else _) as [shm3 ev2]. cbn [snd] in Hreset.
      destruct (IH shm3) as (held & Hc & Hh).
      destruct (unbind_loop wait_producer unlocked fuel sqname failed shm3)
        as [[r s] ev']. cbn [fst snd] in *.
      exists held. split; [|exact Hh].
      do 2 rewrite lock_check_app. rewrite Hpass. lock_compute.
      rewrite lock_check_app, Hreset. exact Hc.
Qed.

End RegistryLocks.

Lemma bind_lock_check MyProcPid me SQ_CONS_SELF SQ_CONS_NONE sqname
  consNodes distNodes shm :
  lock_check []
    (SharedQueueBind MyProcPid me SQ_CONS_SELF SQ_CONS_NONE sqname consNodes
       distNodes shm).2
  = Some (match (SharedQueueBind MyProcPid me SQ_CONS_SELF SQ_CONS_NONE
                   sqname consNodes distNodes shm).1.1 with
          | BindNotFound => [SQueuesLock]
          | _ => []
          end).
Proof.
  unfold SharedQueueBind.
  destruct (SharedQueues shm !! sqname) as [sq|]; [|reflexivity].
  destruct (sq_pid sq =? 0).
  - destruct (bind_producer_loop me SQ_CONS_SELF SQ_CONS_NONE distNodes
                consNodes _) as [consMap l].
    cbn [fst snd]. lock_compute. reflexivity.
  - pose proof (bind_consumer_loop_lock_check MyProcPid me consNodes
                  (sq_nodeid sq) (sq_consumers sq) (-1)) as H.
    destruct (bind_consumer_loop MyProcPid me consNodes (sq_nodeid sq)
                (sq_consumers sq) (-1)) as [[r l] ev].
    cbn [fst snd] in H. destruct r as [status|myindex]; cbn [fst snd].
    + lock_compute. exact H.
    + lock_compute. rewrite lock_check_app, H. lock_compute. reflexivity.
Qed.

Lemma release_lock_check me sqname shm :
  lock_check [] (SharedQueueRelease me sqname shm).2 = Some [].
Proof.
  unfold SharedQueueRelease.
  destruct (SharedQueues shm !! sqname) as [sq|]; [|reflexivity].
  pose proof (release_slots_lock_check me sq) as Hs.
  destruct (release_slots me sq) as [sq' ev1].
  pose proof (drop_reference_lock_check [SQueuesLock] sq' shm) as Hd.
  destruct (drop_reference sq' shm) as [shm' ev2]. cbn [snd] in *.
  lock_compute. rewrite lock_check_app, Hs, lock_check_app, Hd.
  lock_compute. reflexivity.
Qed.

Lemma disconnect_lock_check me sqname shm :
  lock_check [] (SharedQueueDisconnectConsumer me sqname shm).2 = Some [].
Proof.
  unfold SharedQueueDisconnectConsumer. destruct shm as [shm|]; [|reflexivity].
  destruct (SharedQueues shm !! sqname) as [sq|]; [|reflexivity].
  destruct (sq_pid sq =? 0); [reflexivity|].
  pose proof (lock_check_for_consumers (disconnect_body me)
                [sqs_producer_lwlock]) as H.
  specialize (H ltac:(intros i c; unfold disconnect_body; cbn [snd];
                        lock_compute; reflexivity) (sq_consumers sq) 0).
  destruct (for_consumers (disconnect_body me) 0 (sq_consumers sq))
    as [l ev]. cbn [snd] in *.
  lock_compute. rewrite lock_check_app, H. lock_compute. reflexivity.
Qed.

(** X5. The calls on the registry keep the lock discipline:
    [SQueuesLock] is taken first, the producer lock of the queue above it
    and a consumer lock above both, a lock released is held, and the sleeps
    of [SharedQueueAcquire] and [SharedQueueUnBind] are made with no lock
    held.  [SharedQueueRelease] and [SharedQueueDisconnectConsumer]
    always return with no lock held; so do [SharedQueueAcquire],
    [SharedQueueBind] and a completed [SharedQueueUnBind], with two
    exceptions: the errors "out of shared queue" and "Shared queue not
    found" are raised while [SQueuesLock] is still held.
    [SharedQueueAcquire] is called for at least one consumer and with a
    header that fits into the entry. *)
Theorem registry_calls_keep_lock_discipline
  (NUM_SQUEUES : nat) (SQUEUE_SIZE sizeof_SQueueHeader sizeof_ConsState : Z)
  (MyProcPid me SQ_CONS_SELF SQ_CONS_NONE : Z)
  (sleep : Shmem -> Shmem) (wait_producer : Shmem -> Shmem * bool)
  (unlocked : Shmem -> Shmem) (fuel : nat) (failed : bool)
  (sqname : string) (ncons : Z) (consNodes distNodes : list Z)
  (shm : Shmem) :
  (0 < ncons ->
   SQUEUE_HDR_SIZE sizeof_SQueueHeader sizeof_ConsState ncons <= SQUEUE_SIZE ->
   let out := SharedQueueAcquire NUM_SQUEUES SQUEUE_SIZE sizeof_SQueueHeader
                sizeof_ConsState me sleep sqname ncons shm in
   trace_all lock_step_ok [] out.2 = true
   /\ held_after [] out.2
      = match out.1.1 with
        | AcquireOutOfQueues => [SQueuesLock]
        | _ => []
        end)
  /\ (let out := SharedQueueBind MyProcPid me SQ_CONS_SELF SQ_CONS_NONE
                   sqname consNodes distNodes shm in
      trace_all lock_step_ok [] out.2 = true
      /\ held_after [] out.2
         = match out.1.1 with
           | BindNotFound => [SQueuesLock]
           | _ => []
           end)
  /\ lock_disciplined (SharedQueueRelease me sqname shm).2
  /\ lock_disciplined (SharedQueueDisconnectConsumer me sqname (Some shm)).2
  /\ (let out := SharedQueueUnBind wait_producer unlocked fuel sqname failed
                   shm in
      trace_all lock_step_ok [] out.2 = true
      /\ (out.1.1 = UnBindDone -> held_after [] out.2 = [])).
Proof.
  cbv zeta. split; [|split; [|split; [|split]]].
  - intros _ _. apply lock_check_spec. unfold SharedQueueAcquire.
    apply acquire_loop_lock_check.
  - apply lock_check_spec. apply bind_lock_check.
  - apply lock_check_disciplined. apply release_lock_check.
  - apply lock_check_disciplined. apply disconnect_lock_check.
  - unfold SharedQueueUnBind.
    destruct (unbind_loop_lock_check wait_producer unlocked sqname failed
                fuel shm) as (held & Hc & Hh).
    apply lock_check_spec in Hc as [Ht Ha]. split; [exact Ht|].
    intros Hr. rewrite Ha. apply Hh. rewrite Hr. discriminate.
Qed.

Lemma registry_calls_keep_lock_discipline_witness :
  let out := SharedQueueAcquire 64 65536 64 48 1 (fun s => s) "q" 2
               sample_empty in
  trace_all lock_step_ok [] out.2 = true
  /\ held_after [] out.2
     = match out.1.1 with
       | AcquireOutOfQueues => [SQueuesLock]
       | _ => []
       end.
Proof.
  apply (proj1 (registry_calls_keep_lock_discipline 64 65536 64 48 100 1
                  (-1) (-2) (fun s => s) (fun s => (s, true)) (fun s => s)
                  3 false "q" 2 [1; 7] [1; 7] sample_empty)).
  - lia.
  - unfold SQUEUE_HDR_SIZE. lia.
Defined.

(** ** Resets *)

Lemma for_consumers_lookup f l : forall i (k : nat),
  (for_consumers f i l).1 !! k
  = (fun c => (f (i + Z.of_nat k) c).1) <$> l !! k.
Proof.
  induction l as [|c l IH]; intros i k; simpl; [reflexivity|].
  destruct (f i c) as [c' ev] eqn:Hf.
  specialize (IH (i + 1)). destruct (for_consumers f (i + 1) l) as [l' ev'].
  simpl in *. destruct k as [|k]; simpl.
  - rewrite Z.add_0_r, Hf. reflexivity.
  - rewrite IH. replace (i + 1 + Z.of_nat k) with (i + Z.of_nat (S k)) by lia.
    reflexivity.
Qed.

Lemma for_consumers_length f l : forall i,
  length (for_consumers f i l).1 = length l.
Proof.
  induction l as [|c l IH]; intros i; simpl; [reflexivity|].
  destruct (f i c) as [c' ev].
  specialize (IH (i + 1)). destruct (for_consumers f (i + 1) l) as [l' ev'].
  simpl in *. rewrite IH. reflexivity.
Qed.

(** X6. After [SharedQueueReset] of the producer ([consumerIdx = -1]) no
    consumer is active: a consumer that was at the end of its data or
    done is left as it was, every other consumer is in error with its
    queue emptied ([cs_ntuples = 0], both positions 0); the number of
    consumers, their nodes, pids and queue lengths and the rest of the
    header do not change. *)
Theorem producer_reset_leaves_no_active_consumer (squeue : SQueueHeader) :
  sq_sync squeue <> None ->
  let sq' := (SharedQueueReset squeue (-1)).1 in
  length (sq_consumers sq') = length (sq_consumers squeue)
  /\ (forall (k : nat) c, sq_consumers squeue !! k = Some c ->
        exists c', sq_consumers sq' !! k = Some c'
          /\ cs_status c' <> CONSUMER_ACTIVE
          /\ (cs_status c = CONSUMER_EOF \/ cs_status c = CONSUMER_DONE ->
              c' = c)
          /\ (cs_status c <> CONSUMER_EOF -> cs_status c <> CONSUMER_DONE ->
              cs_status c' = CONSUMER_ERROR /\ cs_ntuples c' = 0
              /\ cs_qreadpos c' = 0 /\ cs_qwritepos c' = 0)
          /\ cs_pid c' = cs_pid c /\ cs_node c' = cs_node c
          /\ cs_qlength c' = cs_qlength c)
  /\ sq_key sq' = sq_key squeue /\ sq_pid sq' = sq_pid squeue
  /\ sq_nodeid sq' = sq_nodeid squeue /\ sq_refcnt sq' = sq_refcnt squeue
  /\ sq_sync sq' = sq_sync squeue.
Proof.
  intros Hsync. cbv zeta. unfold SharedQueueReset.
  destruct (sq_sync squeue) as [idx|] eqn:Hs; [|contradiction].
  change (-1 =? -1) with true. cbv iota.
  pose proof (for_consumers_length reset_producer_body (sq_consumers squeue) 0)
    as Hlen.
  pose proof (for_consumers_lookup reset_producer_body (sq_consumers squeue) 0)
    as Hlook.
  destruct (for_consumers reset_producer_body 0 (sq_consumers squeue))
    as [l ev]. cbn [fst snd] in *.
  split; [exact Hlen|]. split; [|simpl; auto].
  intros k c Hk. simpl. rewrite Hlook, Hk. simpl. eexists. split; [reflexivity|].
  unfold reset_producer_body. cbn [fst]. case_bool_decide as Hd.
  - destruct Hd as [Hd1 Hd2]. simpl.
    split; [discriminate|]. split; [intros [H|H]; contradiction|].
    split; [auto|]. auto.
  - assert (Hst : cs_status c = CONSUMER_EOF \/ cs_status c = CONSUMER_DONE).
    { destruct (cs_status c); auto; exfalso; apply Hd; split; discriminate. }
    split; [destruct Hst as [-> | ->]; discriminate|].
    split; [auto|]. split; [|auto].
    intros H1 H2. destruct Hst; contradiction.
Qed.

Lemma producer_reset_leaves_no_active_consumer_witness :
  let sq' := (SharedQueueReset (sample_queue 100 CONSUMER_ACTIVE) (-1)).1 in
  length (sq_consumers sq')
  = length (sq_consumers (sample_queue 100 CONSUMER_ACTIVE))
  /\ (forall (k : nat) c,
        sq_consumers (sample_queue 100 CONSUMER_ACTIVE) !! k = Some c ->
        exists c', sq_consumers sq' !! k = Some c'
          /\ cs_status c' <> CONSUMER_ACTIVE
          /\ (cs_status c = CONSUMER_EOF \/ cs_status c = CONSUMER_DONE ->
              c' = c)
          /\ (cs_status c <> CONSUMER_EOF -> cs_status c <> CONSUMER_DONE ->
              cs_status c' = CONSUMER_ERROR /\ cs_ntuples c' = 0
              /\ cs_qreadpos c' = 0 /\ cs_qwritepos c' = 0)
          /\ cs_pid c' = cs_pid c /\ cs_node c' = cs_node c
          /\ cs_qlength c' = cs_qlength c)
  /\ sq_key sq' = sq_key (sample_queue 100 CONSUMER_ACTIVE)
  /\ sq_pid sq' = sq_pid (sample_queue 100 CONSUMER_ACTIVE)
  /\ sq_nodeid sq' = sq_nodeid (sample_queue 100 CONSUMER_ACTIVE)
  /\ sq_refcnt sq' = sq_refcnt (sample_queue 100 CONSUMER_ACTIVE)
  /\ sq_sync sq' = sq_sync (sample_queue 100 CONSUMER_ACTIVE).
Proof.
  apply (producer_reset_leaves_no_active_consumer
           (sample_queue 100 CONSUMER_ACTIVE)).
  simpl. discriminate.
Defined.

(** X7. After [SharedQueueReset] of the producer, [SharedQueueRead] on a
    consumer that had not reached the end of its data fails with the
    producer error at once, whatever was queued for it: it does not sleep,
    even when the caller can wait, returns no row and leaves the consumer
    state as the reset made it. *)
Theorem read_after_producer_reset_fails
  {Env : Type} (wait : Env -> ConsState -> Env * ConsState)
  (squeue : SQueueHeader) (k : nat) (c : ConsState) :
  sq_sync squeue <> None ->
  sq_consumers squeue !! k = Some c ->
  cs_status c <> CONSUMER_EOF -> cs_status c <> CONSUMER_DONE ->
  exists c',
    sq_consumers (SharedQueueReset squeue (-1)).1 !! k = Some c'
    /\ forall fuel canwait env,
         SharedQueueRead wait fuel (Z.of_nat k) canwait env c'
         = (ReadError, env, c',
            [LWLockAcquire sqs_producer_lwlock LW_SHARED;
             LWLockAcquire (cs_lwlock (Z.of_nat k)) LW_EXCLUSIVE;
             LWLockRelease (cs_lwlock (Z.of_nat k));
             LWLockRelease sqs_producer_lwlock]).
Proof.
  intros Hsync Hk H1 H2. unfold SharedQueueReset.
  destruct (sq_sync squeue) as [idx|] eqn:Hs; [|contradiction].
  change (-1 =? -1) with true. cbv iota.
  pose proof (for_consumers_lookup reset_producer_body (sq_consumers squeue) 0
                k) as Hlook.
  destruct (for_consumers reset_producer_body 0 (sq_consumers squeue))
    as [l ev]. cbn [fst snd] in *.
  rewrite Hk in Hlook. simpl in Hlook.
  unfold reset_producer_body in Hlook. cbn [fst] in Hlook.
  rewrite bool_decide_eq_true_2 in Hlook by auto.
  eexists. split; [exact Hlook|].
  intros fuel canwait env. unfold SharedQueueRead.
  destruct fuel; reflexivity.
Qed.

Lemma read_after_producer_reset_fails_witness :
  exists c',
    sq_consumers (SharedQueueReset
                    (set_sq_consumers [sample_written 5]
                       (sample_queue 100 CONSUMER_ACTIVE)) (-1)).1
      !! 0%nat = Some c'
    /\ forall fuel canwait env,
         SharedQueueRead (fun (e : unit) c => (e, c)) fuel (Z.of_nat 0)
           canwait env c'
         = (ReadError, env, c',
            [LWLockAcquire sqs_producer_lwlock LW_SHARED;
             LWLockAcquire (cs_lwlock (Z.of_nat 0)) LW_EXCLUSIVE;
             LWLockRelease (cs_lwlock (Z.of_nat 0));
             LWLockRelease sqs_producer_lwlock]).
Proof.
  apply (read_after_producer_reset_fails (fun (e : unit) c => (e, c))
           (set_sq_consumers [sample_written 5]
              (sample_queue 100 CONSUMER_ACTIVE)) 0 (sample_written 5)).
  - simpl. discriminate.
  - reflexivity.
  - vm_compute. discriminate.
  - vm_compute. discriminate.
Defined.

Lemma set_status_same c : set_status (cs_status c) c = c.
Proof. destruct c. reflexivity. Qed.

(** X8. [SharedQueueReset] of a consumer changes nothing but the status
    of that consumer, which becomes done: the rows queued for it stay in
    the queue, [cs_ntuples] and both positions are kept, the other
    consumers are not touched.  A second reset of the same consumer
    changes nothing. *)
Theorem consumer_reset_only_marks_done
  (squeue : SQueueHeader) (consumerIdx : Z) (c : ConsState) :
  sq_sync squeue <> None -> 0 <= consumerIdx ->
  sq_consumers squeue !! Z.to_nat consumerIdx = Some c ->
  let sq' := (SharedQueueReset squeue consumerIdx).1 in
  sq' = set_sq_consumers
          (<[Z.to_nat consumerIdx := set_status CONSUMER_DONE c]>
             (sq_consumers squeue)) squeue
  /\ (SharedQueueReset sq' consumerIdx).1 = sq'.
Proof.
  intros Hsync Hidx Hc. cbv zeta.
  assert (Hfirst : (SharedQueueReset squeue consumerIdx).1
                   = set_sq_consumers
                       (<[Z.to_nat consumerIdx := set_status CONSUMER_DONE c]>
                          (sq_consumers squeue)) squeue).
  { unfold SharedQueueReset.
    destruct (sq_sync squeue) as [idx|] eqn:Hs; [|contradiction].
    destruct (Z.eqb_spec consumerIdx (-1)); [lia|]. rewrite Hc.
    unfold reset_consumer. case_bool_decide as Hd; cbn [fst].
    - reflexivity.
    - rewrite <- Hd, set_status_same. reflexivity. }
  split; [exact Hfirst|]. rewrite Hfirst.
  unfold SharedQueueReset. cbn [sq_sync set_sq_consumers sq_consumers].
  destruct (sq_sync squeue) as [idx|] eqn:Hs; [|contradiction].
  destruct (Z.eqb_spec consumerIdx (-1)); [lia|].
  rewrite list_lookup_insert_eq by (apply lookup_lt_is_Some; eauto).
  unfold reset_consumer. rewrite bool_decide_eq_false_2
    by (simpl; intros H; apply H; reflexivity).
  cbn [fst]. rewrite list_insert_insert_eq. reflexivity.
Qed.

Lemma consumer_reset_only_marks_done_witness :
  let sq := set_sq_consumers [sample_written 5]
              (sample_queue 100 CONSUMER_ACTIVE) in
  let sq' := (SharedQueueReset sq 0).1 in
  sq' = set_sq_consumers
          (<[Z.to_nat 0 := set_status CONSUMER_DONE (sample_written 5)]>
             (sq_consumers sq)) sq
  /\ (SharedQueueReset sq' 0).1 = sq'.
Proof.
  apply (consumer_reset_only_marks_done
           (set_sq_consumers [sample_written 5]
              (sample_queue 100 CONSUMER_ACTIVE)) 0 (sample_written 5)).
  - simpl. discriminate.
  - lia.
  - reflexivity.
Defined.

(** ** SharedQueueUnBind *)

Lemma latch_waits_app ev1 ev2 :
  latch_waits (ev1 ++ ev2) = latch_waits ev1 ++ latch_waits ev2.
Proof. apply omap_app. Qed.

Lemma unbind_scan_waits failed l : forall i,
  latch_waits (unbind_scan failed i l).2 = [].
Proof.
  induction l as [|c l IH]; intros i; cbn [unbind_scan]; [reflexivity|].
  specialize (IH (i + 1)).
  destruct (unbind_scan failed (i + 1) l) as [[l' n] ev']. cbn [snd] in IH.
  destruct (bool_decide (cs_status c = CONSUMER_ACTIVE) && failed);
    [cbn [snd]; simpl; exact IH|].
  destruct (bool_decide (cs_status c ≠ CONSUMER_DONE) && negb failed);
    cbn [snd]; simpl; exact IH.
Qed.

Lemma unbind_recheck_waits l : forall i,
  latch_waits (unbind_recheck i l).2 = [].
Proof.
  induction l as [|c l IH]; intros i; cbn [unbind_recheck]; [reflexivity|].
  specialize (IH (i + 1)).
  destruct (unbind_recheck (i + 1) l) as [n ev']. cbn [snd] in *.
  simpl. exact IH.
Qed.

Lemma drop_reference_waits sq shm : latch_waits (drop_reference sq shm).2 = [].
Proof. unfold drop_reference. destruct (_ =? 0); reflexivity. Qed.

Lemma unbind_scan_failed l : forall i,
  (unbind_scan true i l).1 = (mark_failed <$> l, 0).
Proof.
  induction l as [|c l IH]; intros i; cbn [unbind_scan]; [reflexivity|].
  specialize (IH (i + 1)).
  destruct (unbind_scan true (i + 1) l) as [[l' n] ev']. cbn [fst] in IH.
  inversion IH; subst. unfold mark_failed. rewrite fmap_cons.
  rewrite andb_true_r, andb_false_r.
  destruct (bool_decide (cs_status c = CONSUMER_ACTIVE)); reflexivity.
Qed.

Lemma unbind_scan_not_failed l : forall i,
  (unbind_scan false i l).1.1 = l
  /\ 0 <= (unbind_scan false i l).1.2
  /\ ((unbind_scan false i l).1.2 = 0 <-> Forall consumer_done l).
Proof.
  induction l as [|c l IH]; intros i; cbn [unbind_scan].
  - simpl. split; [reflexivity|]. split; [lia|]. split; auto.
  - destruct (IH (i + 1)) as (Hl & Hn & Hz).
    destruct (unbind_scan false (i + 1) l) as [[l' n] ev']. cbn [fst snd] in *.
    subst l'. rewrite andb_false_r, andb_true_r.
    case_bool_decide as Hd; cbn [fst snd].
    + split; [reflexivity|]. split; [lia|]. split; [lia|].
      intros H. apply Forall_cons in H as [H _]. contradiction.
    + split; [reflexivity|]. split; [lia|].
      rewrite Forall_cons, Hz. unfold consumer_done at 1. tauto.
Qed.

Lemma unbind_recheck_count l : forall i,
  0 <= (unbind_recheck i l).1
  /\ ((unbind_recheck i l).1 = 0
      <-> Forall (fun c => cs_status c = CONSUMER_ACTIVE -> cs_pid c = 0) l).
Proof.
  induction l as [|c l IH]; intros i; cbn [unbind_recheck].
  - simpl. split; [lia|]. split; auto.
  - destruct (IH (i + 1)) as (Hn & Hz).
    destruct (unbind_recheck (i + 1) l) as [n ev']. cbn [fst snd] in *.
    rewrite Forall_cons, <- Hz.
    case_bool_decide as Hd; destruct (Z.eqb_spec (cs_pid c) 0) as [Hp|Hp];
      simpl.
    + split; [lia|]. split; [intros H; split; [auto|lia]|intros [_ H]; lia].
    + split; [lia|]. split; [lia|]. intros [H _]. specialize (H Hd).
      contradiction.
    + split; [lia|].
      split; [intros H; split; [intros; contradiction|lia]|intros [_ H]; lia].
    + split; [lia|].
      split; [intros H; split; [intros; contradiction|lia]|intros [_ H]; lia].
Qed.

Lemma mark_failed_not_active l :
  Forall (fun c => cs_status c = CONSUMER_ACTIVE -> cs_pid c = 0)
    (mark_failed <$> l).
Proof.
  apply Forall_fmap, Forall_forall. intros c _. unfold mark_failed. simpl.
  case_bool_decide as Hd; simpl; [discriminate|]. intros H. contradiction.
Qed.

Section UnBindPasses.

Variable wait_producer : Shmem -> Shmem * bool.
Variable unlocked : Shmem -> Shmem.
Variable sqname : string.

Hypothesis unlocked_keeps : forall s,
  SharedQueues (unlocked s) !! sqname = SharedQueues s !! sqname.

Lemma lookup_set_consumers l sq shm :
  sq_key sq = sqname ->
  SharedQueues (set_queue (set_sq_consumers l sq) shm) !! sqname
  = Some (set_sq_consumers l sq).
Proof.
  intros Hk. unfold set_queue. cbn [SharedQueues sq_key set_sq_consumers].
  rewrite Hk. apply lookup_insert_eq.
Qed.

(** The last pass: the scan finds nobody to wait for and the recheck
    nobody running. *)
Lemma unbind_last_pass fuel failed shm sq l ev1 :
  SharedQueues shm !! sqname = Some sq -> sq_key sq = sqname ->
  unbind_scan failed 0 (sq_consumers sq) = (l, 0, ev1) ->
  Forall (fun c => cs_status c = CONSUMER_ACTIVE -> cs_pid c = 0) l ->
  exists ev,
    unbind_loop wait_producer unlocked (S fuel) sqname failed shm
    = (UnBindDone,
       (drop_reference (set_sq_consumers l sq)
          (unlocked (set_queue (set_sq_consumers l sq) shm))).1, ev)
    /\ latch_waits ev = [].
Proof.
  intros Hl Hk Hscan Hrun. cbn [unbind_loop]. rewrite Hl, Hscan.
  change (0 =? 0) with true. cbv iota.
  rewrite unlocked_keeps, (lookup_set_consumers _ _ _ Hk).
  cbn [sq_consumers set_sq_consumers].
  destruct (unbind_recheck_count l 0) as [_ Hz].
  pose proof (unbind_recheck_waits l 0) as Hw2.
  destruct (unbind_recheck 0 l) as [running ev2]. cbn [fst snd] in *.
  rewrite (proj2 Hz Hrun). change (0 =? 0) with true. cbv iota.
  pose proof (drop_reference_waits (set_sq_consumers l sq)
                (unlocked (set_queue (set_sq_consumers l sq) shm))) as Hw3.
  destruct (drop_reference (set_sq_consumers l sq) _) as [shm' ev3].
  cbn [fst snd] in *.
  eexists. split; [reflexivity|].
  pose proof (unbind_scan_waits failed (sq_consumers sq) 0) as Hw1.
  rewrite Hscan in Hw1. cbn [snd] in Hw1.
  rewrite !latch_waits_app, Hw1, Hw2, Hw3. reflexivity.
Qed.

End UnBindPasses.

Lemma entry_consumers_dropped sqname l sq shm :
  sq_key sq = sqname ->
  entry_consumers sqname (drop_reference (set_sq_consumers l sq) shm).1
  = if sq_refcnt sq =? 1 then None else Some l.
Proof.
  intros Hk. unfold entry_consumers. rewrite drop_reference_eq.
  cbn [sq_refcnt set_sq_refcnt set_sq_consumers sq_key].
  destruct (Z.eqb_spec (sq_refcnt sq - 1) 0);
    destruct (Z.eqb_spec (sq_refcnt sq) 1); try lia; cbn [fst SharedQueues].
  - rewrite Hk, lookup_delete_eq. reflexivity.
  - unfold set_queue.
    cbn [SharedQueues sq_key set_sq_refcnt set_sq_consumers].
    rewrite Hk, lookup_insert_eq. reflexivity.
Qed.

(** X9. [SharedQueueUnBind] of a failed producer does not wait for the
    consumers: in one pass, without sleeping on its latch, it marks every
    active consumer as in error, leaves the others as they are and drops
    its reference. *)
Theorem failed_unbind_completes_at_once
  (wait_producer : Shmem -> Shmem * bool) (unlocked : Shmem -> Shmem)
  (fuel : nat) (sqname : string) (shm : Shmem) (sq : SQueueHeader) :
  (forall s, SharedQueues (unlocked s) !! sqname = SharedQueues s !! sqname) ->
  SharedQueues shm !! sqname = Some sq -> sq_key sq = sqname ->
  exists shm' ev,
    SharedQueueUnBind wait_producer unlocked (S fuel) sqname true shm
    = (UnBindDone, shm', ev)
    /\ latch_waits ev = []
    /\ entry_consumers sqname shm'
       = if sq_refcnt sq =? 1 then None
         else Some (mark_failed <$> sq_consumers sq).
Proof.
  intros Hu Hl Hk. unfold SharedQueueUnBind.
  pose proof (unbind_scan_failed (sq_consumers sq) 0) as Hscan.
  destruct (unbind_scan true 0 (sq_consumers sq)) as [[l n] ev1] eqn:E.
  cbn [fst] in Hscan. inversion Hscan; subst l n.
  destruct (unbind_last_pass wait_producer unlocked sqname Hu fuel true shm sq
              _ ev1 Hl Hk E (mark_failed_not_active _)) as (ev & Heq & Hw).
  eexists _, ev. split; [exact Heq|]. split; [exact Hw|].
  apply entry_consumers_dropped. exact Hk.
Qed.

Lemma failed_unbind_completes_at_once_witness :
  exists shm' ev,
    SharedQueueUnBind (fun s => (s, true)) (fun s => s) 1 "q" true
      (sample_shmem 100 CONSUMER_ACTIVE)
    = (UnBindDone, shm', ev)
    /\ latch_waits ev = []
    /\ entry_consumers "q" shm'
       = if sq_refcnt (sample_queue 100 CONSUMER_ACTIVE) =? 1 then None
         else Some (mark_failed
                      <$> sq_consumers (sample_queue 100 CONSUMER_ACTIVE)).
Proof.
  apply (failed_unbind_completes_at_once (fun s => (s, true)) (fun s => s) 0
           "q" (sample_shmem 100 CONSUMER_ACTIVE)
           (sample_queue 100 CONSUMER_ACTIVE)).
  - reflexivity.
  - reflexivity.
  - reflexivity.
Defined.

Lemma for_consumers_map (g : ConsState -> ConsState) f :
  (forall i c, (f i c).1 = g c) ->
  forall l i, (for_consumers f i l).1 = g <$> l.
Proof.
  intros Hf. induction l as [|c l IH]; intros i; simpl; [reflexivity|].
  specialize (Hf i c). destruct (f i c) as [c' ev].
  specialize (IH (i + 1)). destruct (for_consumers f (i + 1) l) as [l' ev'].
  simpl in *. rewrite Hf, IH. reflexivity.
Qed.

Lemma reset_not_connected_consumers squeue :
  (SharedQueueResetNotConnected squeue).1
  = set_sq_consumers (drop_unconnected <$> sq_consumers squeue) squeue.
Proof.
  unfold SharedQueueResetNotConnected.
  pose proof (for_consumers_map drop_unconnected reset_not_connected_body) as H.
  specialize (H ltac:(intros i c; unfold reset_not_connected_body,
                        drop_unconnected; destruct (bool_decide _);
                        reflexivity) (sq_consumers squeue) 0).
  destruct (for_consumers reset_not_connected_body 0 (sq_consumers squeue))
    as [l ev]. cbn [fst] in *. rewrite H. reflexivity.
Qed.

Lemma drop_unconnected_connected c :
  connected c -> drop_unconnected c = c.
Proof.
  unfold connected, drop_unconnected. intros H.
  rewrite bool_decide_eq_false_2 by tauto. reflexivity.
Qed.

Lemma drop_unconnected_done c :
  connected (drop_unconnected c) \/ consumer_done (drop_unconnected c).
Proof.
  unfold connected, consumer_done, drop_unconnected.
  case_bool_decide as Hd; simpl; [auto|].
  destruct (decide (cs_pid c = 0)) as [Hp|Hp]; [|auto].
  right. destruct (decide (cs_status c = CONSUMER_DONE)); [assumption|].
  exfalso. apply Hd. auto.
Qed.

Lemma drop_unconnected_pid c : cs_pid (drop_unconnected c) = cs_pid c.
Proof. unfold drop_unconnected. destruct (bool_decide _); reflexivity. Qed.

Lemma drop_unconnected_twice c :
  drop_unconnected (drop_unconnected c) = drop_unconnected c.
Proof.
  unfold drop_unconnected.
  destruct (bool_decide (cs_pid c = 0 ∧ cs_status c ≠ CONSUMER_DONE)) eqn:E.
  - rewrite bool_decide_eq_false_2; [reflexivity|].
    simpl. intros [_ H]. apply H. reflexivity.
  - rewrite E. reflexivity.
Qed.

(** X10. After [SharedQueueResetNotConnected] every consumer no session
    has bound to is done; those it had to mark have their queue emptied.
    The consumers a session is bound to and those already done are left
    as they were, as is the rest of the header, and a second call changes
    nothing. *)
Theorem reset_not_connected_drops_the_unbound (squeue : SQueueHeader) :
  let sq' := (SharedQueueResetNotConnected squeue).1 in
  sq' = set_sq_consumers (drop_unconnected <$> sq_consumers squeue) squeue
  /\ Forall (fun c => connected c \/ consumer_done c) (sq_consumers sq')
  /\ Forall2 (fun c c' =>
                (connected c \/ consumer_done c -> c' = c)
                /\ (~ connected c -> ~ consumer_done c ->
                    consumer_done c' /\ cs_ntuples c' = 0
                    /\ cs_qreadpos c' = 0 /\ cs_qwritepos c' = 0
                    /\ cs_pid c' = 0 /\ cs_node c' = cs_node c))
       (sq_consumers squeue) (sq_consumers sq')
  /\ (SharedQueueResetNotConnected sq').1 = sq'.
Proof.
  cbv zeta. rewrite reset_not_connected_consumers.
  split; [reflexivity|]. cbn [sq_consumers set_sq_consumers]. split.
  { apply Forall_fmap, Forall_forall. intros c _.
    apply drop_unconnected_done. }
  split.
  { apply Forall2_fmap_r, Forall_Forall2_diag, Forall_forall. intros c _.
    unfold connected, consumer_done, compose.
    destruct (decide (cs_pid c = 0 ∧ cs_status c ≠ CONSUMER_DONE)) as [Hd|Hd].
    - assert (E : drop_unconnected c
                  = discard_tuples (set_status CONSUMER_DONE c))
        by (unfold drop_unconnected; rewrite bool_decide_eq_true_2 by exact Hd;
            reflexivity).
      rewrite E. destruct Hd as [Hp Hs].
      split; [intros [H|H]; contradiction|].
      intros _ _. simpl. repeat split; auto.
    - assert (E : drop_unconnected c = c)
        by (unfold drop_unconnected; rewrite bool_decide_eq_false_2 by exact Hd;
            reflexivity).
      rewrite E. split; [reflexivity|]. intros H1 H2. exfalso. apply Hd.
      split; [|exact H2]. destruct (decide (cs_pid c = 0)); [assumption|].
      contradiction. }
  rewrite reset_not_connected_consumers.
  cbn [sq_consumers set_sq_consumers]. unfold set_sq_consumers. simpl.
  f_equal. rewrite <- list_fmap_compose. apply list_fmap_ext.
  intros i c _. apply drop_unconnected_twice.
Qed.

Section UnBindWaits.

Variable wait_producer : Shmem -> Shmem * bool.
Variable unlocked : Shmem -> Shmem.
Variable sqname : string.

Hypothesis wait_keeps : forall s,
  SharedQueues (wait_producer s).1 !! sqname = SharedQueues s !! sqname.

Lemma unbind_scan_keeps l ev1 c_count sq :
  unbind_scan false 0 (sq_consumers sq) = (l, c_count, ev1) ->
  l = sq_consumers sq
  /\ 0 <= c_count /\ (c_count = 0 <-> Forall consumer_done (sq_consumers sq)).
Proof.
  intros E. pose proof (unbind_scan_not_failed (sq_consumers sq) 0) as H.
  rewrite E in H. cbn [fst snd] in H. destruct H as (-> & H). auto.
Qed.

(** The entry after the wait of a pass that found consumers to wait
    for. *)
Lemma unbind_wait_entry sq shm :
  sq_key sq = sqname ->
  let s2 := wait_producer
              (set_queue (set_sq_consumers (sq_consumers sq) sq) shm) in
  let s3 := if s2.2 then
              match SharedQueues s2.1 !! sqname with
              | Some squeue =>
                let '(squeue, ev) := SharedQueueResetNotConnected squeue in
                (set_queue squeue s2.1, ev)
              | None => (s2.1, [])
              end
            else (s2.1, []) in
  exists sq3,
    SharedQueues s3.1 !! sqname = Some sq3 /\ sq_key sq3 = sqname
    /\ sq_refcnt sq3 = sq_refcnt sq
    /\ sq_consumers sq3
       = (if s2.2 then drop_unconnected <$> sq_consumers sq
          else sq_consumers sq)
    /\ length (latch_waits s3.2) = 0%nat.
Proof.
  intros Hk. cbv zeta.
  pose proof (wait_keeps
                (set_queue (set_sq_consumers (sq_consumers sq) sq) shm)) as Hw.
  rewrite (lookup_set_consumers sqname _ _ _ Hk) in Hw.
  destruct (wait_producer _) as [shm2 timeout]. cbn [fst snd] in *.
  destruct timeout.
  - rewrite Hw.
    pose proof (reset_not_connected_consumers
                  (set_sq_consumers (sq_consumers sq) sq)) as Hr.
    assert (Hwt : latch_waits
                    (SharedQueueResetNotConnected
                       (set_sq_consumers (sq_consumers sq) sq)).2 = []).
    { unfold SharedQueueResetNotConnected.
      assert (Hf : forall l i,
                latch_waits (for_consumers reset_not_connected_body i l).2
                = []).
      { induction l as [|c l IH]; intros i; simpl; [reflexivity|].
        unfold reset_not_connected_body at 1.
        destruct (bool_decide _);
          specialize (IH (i + 1));
          destruct (for_consumers reset_not_connected_body (i + 1) l)
            as [l' ev']; simpl in *; exact IH. }
      specialize (Hf (sq_consumers (set_sq_consumers (sq_consumers sq) sq)) 0).
      destruct (for_consumers reset_not_connected_body 0 _) as [l ev].
      cbn [snd] in *. simpl. rewrite latch_waits_app, Hf. reflexivity. }
    destruct (SharedQueueResetNotConnected
                (set_sq_consumers (sq_consumers sq) sq)) as [sq3 ev].
    cbn [fst snd] in *. subst sq3.
    eexists. split.
    { unfold set_queue. cbn [SharedQueues sq_key set_sq_consumers].
      rewrite Hk. apply lookup_insert_eq. }
    cbn [sq_key sq_refcnt sq_consumers set_sq_consumers].
    rewrite Hwt. auto.
  - eexists. split; [exact Hw|]. simpl. auto.
Qed.

(** A producer that has not failed leaves [SharedQueueUnBind] only when
    every consumer a session is bound to is done. *)
Lemma unbind_done_consumers fuel : forall shm sq shm' ev,
  SharedQueues shm !! sqname = Some sq -> sq_key sq = sqname ->
  unbind_loop wait_producer unlocked fuel sqname false shm
  = (UnBindDone, shm', ev) ->
  Forall (fun c => connected c -> consumer_done c) (sq_consumers sq).
Proof.
  induction fuel as [|fuel IH]; intros shm sq shm' ev Hl Hk H;
    cbn [unbind_loop] in H; [discriminate|].
  rewrite Hl in H.
  destruct (unbind_scan false 0 (sq_consumers sq)) as [[l c_count] ev1] eqn:E.
  destruct (unbind_scan_keeps _ _ _ _ E) as (-> & Hn & Hz).
  destruct (Z.eqb_spec c_count 0) as [Hc|Hc].
  - apply Hz in Hc. eapply Forall_impl; [exact Hc|]. auto.
  - destruct (unbind_wait_entry sq shm Hk)
      as (sq3 & Hl3 & Hk3 & _ & Hc3 & _).
    cbv zeta in Hl3, Hc3.
    destruct (wait_producer _) as [shm2 timeout]. cbn [fst snd] in *.
    destruct (if timeout then _ else _) as [shm3 ev2]. cbn [fst] in Hl3.
    destruct (unbind_loop wait_producer unlocked fuel sqname false shm3)
      as [[r s] ev'] eqn:Hrec.
    inversion H; subst r s.
    specialize (IH shm3 sq3 shm' ev' Hl3 Hk3 Hrec). rewrite Hc3 in IH.
    destruct timeout; [|exact IH].
    apply Forall_fmap in IH. eapply Forall_impl; [exact IH|].
    intros c Hd Hcon. simpl in Hd.
    rewrite (drop_unconnected_connected c Hcon) in Hd. auto.
Qed.

End UnBindWaits.

(** X11. A producer that has not failed leaves [SharedQueueUnBind] only
    when every consumer a session is bound to is done: as long as another
    process leaves the entry alone, it keeps waiting for a bound consumer
    in any other status, time-outs or not. *)
Theorem unbind_waits_for_bound_consumers
  (wait_producer : Shmem -> Shmem * bool) (unlocked : Shmem -> Shmem)
  (fuel : nat) (sqname : string) (shm shm' : Shmem) (sq : SQueueHeader)
  (ev : list Event) :
  (forall s,
     SharedQueues (wait_producer s).1 !! sqname = SharedQueues s !! sqname) ->
  SharedQueues shm !! sqname = Some sq -> sq_key sq = sqname ->
  SharedQueueUnBind wait_producer unlocked fuel sqname false shm
  = (UnBindDone, shm', ev) ->
  Forall (fun c => connected c -> consumer_done c) (sq_consumers sq).
Proof.
  intros Hw Hl Hk H.
  exact (unbind_done_consumers wait_producer unlocked sqname Hw fuel shm sq
           shm' ev Hl Hk H).
Qed.

Lemma unbind_waits_for_bound_consumers_witness :
  Forall (fun c => connected c -> consumer_done c)
    (sq_consumers (sample_queue 100 CONSUMER_DONE)).
Proof.
  apply (unbind_waits_for_bound_consumers (fun s => (s, true)) (fun s => s) 1
           "q" (sample_shmem 100 CONSUMER_DONE)
           (SharedQueueUnBind (fun s => (s, true)) (fun s => s) 1 "q" false
              (sample_shmem 100 CONSUMER_DONE)).1.2
           (sample_queue 100 CONSUMER_DONE)
           (SharedQueueUnBind (fun s => (s, true)) (fun s => s) 1 "q" false
              (sample_shmem 100 CONSUMER_DONE)).2).
  - intros s. reflexivity.
  - reflexivity.
  - reflexivity.
  - vm_compute. reflexivity.
Defined.

Lemma drop_unconnected_all_done l :
  Forall consumer_done l -> drop_unconnected <$> l = l.
Proof.
  induction 1 as [|c l Hc _ IH]; [reflexivity|].
  rewrite fmap_cons, IH. f_equal.
  unfold drop_unconnected, consumer_done in *.
  rewrite bool_decide_eq_false_2; [reflexivity|]. tauto.
Qed.

Lemma drop_unconnected_makes_done l :
  Forall (fun c => connected c -> consumer_done c) l ->
  Forall consumer_done (drop_unconnected <$> l).
Proof.
  intros H. apply Forall_fmap. eapply Forall_impl; [exact H|].
  intros c Hc. simpl. unfold drop_unconnected, connected, consumer_done in *.
  case_bool_decide as Hd; [reflexivity|].
  destruct (decide (cs_pid c = 0)) as [Hp|Hp]; [|auto].
  destruct (decide (cs_status c = CONSUMER_DONE)) as [Hs|Hs]; [exact Hs|].
  exfalso. apply Hd. split; assumption.
Qed.

Lemma unbind_loop_step wait_producer unlocked fuel sqname failed shm :
  unbind_loop wait_producer unlocked (S fuel) sqname failed shm
  = match SharedQueues shm !! sqname with
    | None => (UnBindNoEntry, shm, [])
    | Some squeue =>
      let '(l, c_count, ev1) := unbind_scan failed 0 (sq_consumers squeue) in
      let shm := set_queue (set_sq_consumers l squeue) shm in
      let ev := [LWLockAcquire sqs_producer_lwlock LW_EXCLUSIVE] ++ ev1
                ++ [LWLockRelease sqs_producer_lwlock] in
      if c_count =? 0 then
        let shm := unlocked shm in
        let ev := ev ++ [LWLockAcquire SQueuesLock LW_EXCLUSIVE;
                         LWLockAcquire sqs_producer_lwlock LW_EXCLUSIVE] in
        match SharedQueues shm !! sqname with
        | None => (UnBindNoEntry, shm, ev)
        | Some squeue =>
          let '(consumer_running, ev2) :=
            unbind_recheck 0 (sq_consumers squeue) in
          if consumer_running =? 0 then
            let '(shm, ev3) := drop_reference squeue shm in
            (UnBindDone, shm,
             ev ++ ev2 ++ [DisownLatch sqs_producer_latch] ++ ev3
                ++ [LWLockRelease sqs_producer_lwlock;
                    LWLockRelease SQueuesLock])
          else
            let '(r, shm, ev') :=
              unbind_loop wait_producer unlocked fuel sqname failed shm in
            (r, shm, ev ++ ev2 ++ [LWLockRelease sqs_producer_lwlock;
                                   LWLockRelease SQueuesLock] ++ ev')
        end
      else
        let '(shm, timeout) := wait_producer shm in
        let ev := ev ++ [WaitLatch sqs_producer_latch 10000] in
        let '(shm, ev2) :=
          if timeout then
            match SharedQueues shm !! sqname with
            | Some squeue =>
              let '(squeue, ev) := SharedQueueResetNotConnected squeue in
              (set_queue squeue shm, ev)
            | None => (shm, [])
            end
          else (shm, []) in
        let '(r, shm, ev') :=
          unbind_loop wait_producer unlocked fuel sqname failed shm in
        (r, shm, ev ++ ev2 ++ ev')
    end.
Proof. reflexivity. Qed.

Lemma done_not_running l :
  Forall consumer_done l ->
  Forall (fun c => cs_status c = CONSUMER_ACTIVE -> cs_pid c = 0) l.
Proof.
  intros H. eapply Forall_impl; [exact H|].
  unfold consumer_done. intros c Hc Ha. congruence.
Qed.

(** X12. When every consumer a session is bound to is done and the wait on
    the producer latch times out, [SharedQueueUnBind] ends within two
    passes: it sleeps at most once (not at all when every consumer is
    done), marks the consumers nobody is bound to as done with their rows
    discarded, and drops its reference. *)
Theorem unbind_ends_after_one_timeout
  (wait_producer : Shmem -> Shmem * bool) (unlocked : Shmem -> Shmem)
  (fuel : nat) (sqname : string) (shm : Shmem) (sq : SQueueHeader) :
  (forall s, SharedQueues (unlocked s) !! sqname = SharedQueues s !! sqname) ->
  (forall s,
     SharedQueues (wait_producer s).1 !! sqname = SharedQueues s !! sqname) ->
  (forall s, (wait_producer s).2 = true) ->
  SharedQueues shm !! sqname = Some sq -> sq_key sq = sqname ->
  Forall (fun c => connected c -> consumer_done c) (sq_consumers sq) ->
  exists shm' ev,
    SharedQueueUnBind wait_producer unlocked (S (S fuel)) sqname false shm
    = (UnBindDone, shm', ev)
    /\ latch_waits ev
       = (if bool_decide (Forall consumer_done (sq_consumers sq)) then []
          else [(sqs_producer_latch, 10000)])
    /\ entry_consumers sqname shm'
       = if sq_refcnt sq =? 1 then None
         else Some (drop_unconnected <$> sq_consumers sq).
Proof.
  intros Hu Hw Ht Hl Hk Hcon. unfold SharedQueueUnBind.
  destruct (unbind_scan false 0 (sq_consumers sq)) as [[l c_count] ev1] eqn:E.
  destruct (unbind_scan_keeps _ _ _ _ E) as (-> & Hn & Hz).
  destruct (Z.eqb_spec c_count 0) as [Hc|Hc].
  - subst c_count. pose proof (proj1 Hz eq_refl) as Hall.
    destruct (unbind_last_pass wait_producer unlocked sqname Hu (S fuel) false
                shm sq _ ev1 Hl Hk E (done_not_running _ Hall))
      as (ev & Heq & Hwt).
    eexists _, ev. split; [exact Heq|].
    rewrite bool_decide_eq_true_2 by exact Hall. split; [exact Hwt|].
    rewrite (entry_consumers_dropped sqname _ sq _ Hk).
    rewrite (drop_unconnected_all_done _ Hall). reflexivity.
  - assert (Hnot : ~ Forall consumer_done (sq_consumers sq)) by tauto.
    rewrite bool_decide_eq_false_2 by exact Hnot.
    rewrite unbind_loop_step, Hl, E.
    destruct (c_count =? 0) eqn:Hcz; [apply Z.eqb_eq in Hcz; lia|].
    cbv zeta.
    destruct (unbind_wait_entry wait_producer sqname Hw sq shm Hk)
      as (sq3 & Hl3 & Hk3 & Hr3 & Hc3 & Hw3).
    cbv zeta in Hl3, Hc3, Hw3.
    pose proof (Ht (set_queue (set_sq_consumers (sq_consumers sq) sq) shm))
      as Htimeout.
    pose proof (unbind_scan_waits false (sq_consumers sq) 0) as Hw1.
    rewrite E in Hw1. cbn [snd] in Hw1.
    destruct (wait_producer _) as [shm2 timeout]. cbn [fst snd] in *.
    subst timeout.
    destruct (match SharedQueues shm2 !! sqname with
              | Some squeue => _ | None => _ end) as [shm3 ev2].
    cbn [fst snd] in *.
    pose proof (drop_unconnected_makes_done _ Hcon) as Hdone.
    rewrite <- Hc3 in Hdone.
    destruct (unbind_scan false 0 (sq_consumers sq3))
      as [[l3 c3] ev3] eqn:E3.
    destruct (unbind_scan_keeps _ _ _ _ E3) as (-> & _ & Hz3).
    pose proof (proj2 Hz3 Hdone) as ->.
    destruct (unbind_last_pass wait_producer unlocked sqname Hu fuel false
                shm3 sq3 _ ev3 Hl3 Hk3 E3 (done_not_running _ Hdone))
      as (ev & Heq & Hwt).
    rewrite Heq. eexists _, _. split; [reflexivity|]. split.
    + rewrite !latch_waits_app, Hw1, Hwt.
      destruct (latch_waits ev2); [reflexivity|discriminate].
    + rewrite (entry_consumers_dropped sqname _ sq3 _ Hk3), Hr3, Hc3.
      reflexivity.
Qed.

Lemma unbind_ends_after_one_timeout_witness :
  exists shm' ev,
    SharedQueueUnBind (fun s => (s, true)) (fun s => s) 2 "q" false
      (sample_shmem 0 CONSUMER_ACTIVE)
    = (UnBindDone, shm', ev)
    /\ latch_waits ev
       = (if bool_decide (Forall consumer_done
                            (sq_consumers (sample_queue 0 CONSUMER_ACTIVE)))
          then [] else [(sqs_producer_latch, 10000)])
    /\ entry_consumers "q" shm'
       = if sq_refcnt (sample_queue 0 CONSUMER_ACTIVE) =? 1 then None
         else Some (drop_unconnected
                      <$> sq_consumers (sample_queue 0 CONSUMER_ACTIVE)).
Proof.
  apply (unbind_ends_after_one_timeout (fun s => (s, true)) (fun s => s) 0
           "q" (sample_shmem 0 CONSUMER_ACTIVE)
           (sample_queue 0 CONSUMER_ACTIVE)).
  - reflexivity.
  - reflexivity.
  - reflexivity.
  - reflexivity.
  - reflexivity.
  - repeat constructor. unfold connected. simpl. intros H. congruence.
Defined.

Lemma QUEUE_WRITE_status cstate len buf :
  cs_status (QUEUE_WRITE cstate len buf) = cs_status cstate.
Proof. unfold QUEUE_WRITE. destruct (_ <=? _); reflexivity. Qed.

Lemma sq_push_long_tuple_status cstate datarow :
  cs_status (sq_push_long_tuple cstate datarow).2 = cs_status cstate.
Proof.
  unfold sq_push_long_tuple.
  destruct (cs_ntuples cstate =? 0); [|destruct (_ >? _)]; cbn [snd];
    unfold set_ntuples; cbn [cs_status]; rewrite !QUEUE_WRITE_status;
    reflexivity.
Qed.

Lemma dump_loop_status n idx : forall cstate ts,
  cs_status (dump_loop n idx cstate ts).1.1.2 = cs_status cstate.
Proof.
  induction n as [|n IH]; intros cstate ts; cbn [dump_loop];
    destruct (tuplestore_ateof ts); try reflexivity.
  destruct (tuplestore_gettupleslot _) as [[datarow ts2]|]; [|reflexivity].
  destruct (_ <? _).
  - destruct (cs_ntuples cstate <=? 0); [|reflexivity].
    pose proof (sq_push_long_tuple_status cstate datarow) as Hp.
    destruct (sq_push_long_tuple cstate datarow) as [done c2].
    cbn [snd] in Hp. destruct done; [|exact Hp].
    specialize (IH c2 ts2).
    destruct (dump_loop n idx c2 ts2) as [[[r c3] ts3] ev3].
    cbn [fst snd] in *. congruence.
  - match goal with
    | |- context [dump_loop n idx ?c ts2] =>
      specialize (IH c ts2); destruct (dump_loop n idx c ts2)
        as [[[r c3] ts3] ev3]
    end.
    cbn [fst snd] in *. rewrite IH. unfold set_ntuples. cbn [cs_status].
    rewrite !QUEUE_WRITE_status. reflexivity.
Qed.

Lemma SharedQueueDump_status idx cstate ts :
  cs_status (SharedQueueDump idx cstate ts).1.1.2 = cs_status cstate.
Proof.
  unfold SharedQueueDump. destruct (bool_decide _); [reflexivity|].
  apply dump_loop_status.
Qed.

Ltac finish_cases :=
  repeat split; intros; try discriminate; try congruence;
  try (match goal with H : is_Some None |- _ =>
         destruct H; discriminate end);
  eauto.

Lemma finish_consumer_spec i cstate store :
  let r := finish_consumer i cstate store in
  (r.1.2 = true <-> is_Some r.1.1.2)
  /\ active_iff_store r.1.1.1 r.1.1.2
  /\ finish_status cstate r.1.1.1.
Proof.
  cbv zeta. unfold finish_consumer, active_iff_store, finish_status.
  destruct store as [ts|].
  - case_bool_decide as Hs.
    + cbn [fst snd]. finish_cases.
    + destruct (_ >? _).
      * pose proof (SharedQueueDump_status i cstate ts) as Hd.
        destruct (SharedQueueDump i cstate ts) as [[[dumped c2] ts2] ev].
        cbn [fst snd] in Hd.
        destruct dumped; cbn [fst snd set_status cs_status]; finish_cases.
      * cbn [fst snd]. finish_cases.
  - case_bool_decide as Hs; cbn [fst snd set_status cs_status]; finish_cases.
Qed.

Lemma finish_loop_spec l : forall i stores,
  length stores = length l ->
  let r := finish_loop i l stores in
  0 <= r.1.2 /\ r.1.2 = stores_left r.1.1.2
  /\ Forall2 active_iff_store r.1.1.1 r.1.1.2
  /\ Forall2 finish_status l r.1.1.1.
Proof.
  induction l as [|c l IH]; intros i stores Hlen; cbv zeta;
    cbn [finish_loop].
  - destruct stores; [|discriminate]. cbn [fst snd]. unfold stores_left.
    simpl. repeat split; try lia; constructor.
  - destruct stores as [|ts stores]; [discriminate|]. simpl in Hlen.
    cbn [head tail mjoin option_join].
    pose proof (finish_consumer_spec i c ts) as (Hc & Ha & Hs).
    destruct (finish_consumer i c ts) as [[[c' ts'] counted] ev].
    specialize (IH (i + 1) stores ltac:(lia)). cbv zeta in IH.
    destruct (finish_loop (i + 1) l stores) as [[[l' tss] n] ev'].
    cbn [fst snd] in *. destruct IH as (Hn & Hcount & Hact & Hst).
    split; [destruct counted; lia|]. split.
    + unfold stores_left in *. cbn [omap list_omap].
      destruct ts' as [t|]; destruct counted; simpl.
      * lia.
      * assert (false = true) by (apply Hc; eauto). discriminate.
      * destruct (proj1 Hc eq_refl); discriminate.
      * lia.
    + split; constructor; assumption.
Qed.

Lemma stores_left_zero stores :
  stores_left stores = 0 <-> Forall (fun s => s = None) stores.
Proof.
  unfold stores_left. induction stores as [|[t|] stores IH]; simpl.
  - split; [constructor|reflexivity].
  - split; [lia|]. intros H. apply Forall_cons in H as [H _]. discriminate.
  - rewrite IH. split; [intros H; constructor; auto|].
    intros H. apply Forall_cons in H as [_ H]. exact H.
Qed.

Lemma finish_loop_idle l : forall i stores,
  Forall2 active_iff_store l stores -> Forall (fun s => s = None) stores ->
  (finish_loop i l stores).1 = (l, stores, 0).
Proof.
  induction l as [|c l IH]; intros i stores Hact Hnone;
    inversion Hact as [|c0 s0 l0 stores0 Hc Hrest]; subst;
    cbn [finish_loop]; [reflexivity|].
  apply Forall_cons in Hnone as [-> Hnone].
  cbn [head tail mjoin option_join]. unfold finish_consumer.
  rewrite bool_decide_eq_false_2.
  2:{ intros Ha. apply Hc in Ha. destruct Ha; discriminate. }
  specialize (IH (i + 1) stores0 Hrest Hnone).
  destruct (finish_loop (i + 1) l stores0) as [[[l' tss] n] ev'].
  cbn [fst] in *. inversion IH; subst. reflexivity.
Qed.

(** X13. [SharedQueueFinish] returns the number of local stores the
    producer still holds.  Afterwards a consumer is active exactly when its
    store is left, so the result is 0 exactly when no consumer is active
    any more; the only change of status made is from active to EOF.  Once
    the result is 0 a further call changes nothing. *)
Theorem finish_returns_the_stores_left (squeue : SQueueHeader)
  (stores : list (option Tuplestorestate)) :
  length stores = length (sq_consumers squeue) ->
  let r := SharedQueueFinish squeue stores in
  let nstores := r.1.1.1 in
  let squeue' := r.1.1.2 in
  let stores' := r.1.2 in
  0 <= nstores
  /\ nstores = stores_left stores'
  /\ Forall2 active_iff_store (sq_consumers squeue') stores'
  /\ Forall2 finish_status (sq_consumers squeue) (sq_consumers squeue')
  /\ (nstores = 0 <->
      Forall (fun c => cs_status c <> CONSUMER_ACTIVE) (sq_consumers squeue'))
  /\ (nstores = 0 ->
      (SharedQueueFinish squeue' stores').1 = (0, squeue', stores')).
Proof.
  intros Hlen. cbv zeta. unfold SharedQueueFinish.
  pose proof (finish_loop_spec (sq_consumers squeue) 0 stores Hlen) as H.
  cbv zeta in H.
  destruct (finish_loop 0 (sq_consumers squeue) stores)
    as [[[l tss] n] ev] eqn:E.
  cbn [fst snd] in *. destruct H as (Hn & Hcount & Hact & Hst).
  cbn [sq_consumers set_sq_consumers].
  assert (Hzero : n = 0 <-> Forall (fun s => s = None) tss).
  { rewrite Hcount. apply stores_left_zero. }
  split; [exact Hn|]. split; [exact Hcount|]. split; [exact Hact|].
  split; [exact Hst|]. split.
  - rewrite Hzero. clear -Hact. induction Hact as [|c s l tss Hc _ IH].
    + split; constructor.
    + rewrite !Forall_cons, IH. unfold active_iff_store in Hc.
      split; intros [H1 H2]; (split; [|exact H2]).
      * subst s. intros Ha. apply Hc in Ha. destruct Ha; discriminate.
      * destruct s as [t|]; [|reflexivity]. exfalso. apply H1, Hc. eauto.
  - intros Hz. apply Hzero in Hz.
    pose proof (finish_loop_idle l 0 tss Hact Hz) as Hi.
    destruct (finish_loop 0 l tss) as [[[l2 tss2] n2] ev2].
    cbn [fst] in *. inversion Hi; subst. cbn [fst]. reflexivity.
Qed.

Lemma finish_returns_the_stores_left_witness :
  let r := SharedQueueFinish (sample_queue 100 CONSUMER_ACTIVE)
             [Some tuplestore_begin_datarow] in
  let nstores := r.1.1.1 in
  let squeue' := r.1.1.2 in
  let stores' := r.1.2 in
  0 <= nstores
  /\ nstores = stores_left stores'
  /\ Forall2 active_iff_store (sq_consumers squeue') stores'
  /\ Forall2 finish_status
       (sq_consumers (sample_queue 100 CONSUMER_ACTIVE))
       (sq_consumers squeue')
  /\ (nstores = 0 <->
      Forall (fun c => cs_status c <> CONSUMER_ACTIVE) (sq_consumers squeue'))
  /\ (nstores = 0 ->
      (SharedQueueFinish squeue' stores').1 = (0, squeue', stores')).
Proof.
  apply (finish_returns_the_stores_left (sample_queue 100 CONSUMER_ACTIVE)
           [Some tuplestore_begin_datarow]).
  reflexivity.
Defined.

(** X14. A row that is queued is read whatever the status of the consumer:
    [SharedQueueRead] looks at the status only when the queue is empty, so
    the rows written before the producer failed or reached the end are
    still delivered, oldest first, without sleeping and whatever
    [canwait]; the other rows stay queued. *)
Theorem queued_row_is_read_whatever_the_status {Env : Type}
  (wait : Env -> ConsState -> Env * ConsState) (fuel : nat)
  (consumerIdx : Z) (canwait : bool) (env : Env) (cstate : ConsState)
  (t : RemoteDataRow) (rq : list RemoteDataRow) :
  ring_inv cstate (Normal (t :: rq)) ->
  exists c,
    SharedQueueRead wait fuel consumerIdx canwait env cstate
    = (ReadTuple t, env, c,
       [ LWLockAcquire sqs_producer_lwlock LW_SHARED;
         LWLockAcquire (cs_lwlock consumerIdx) LW_EXCLUSIVE;
         LWLockRelease (cs_lwlock consumerIdx);
         LWLockRelease sqs_producer_lwlock ])
    /\ ring_inv c (Normal rq)
    /\ cs_ntuples c = cs_ntuples cstate - 1
    /\ cs_status c = cs_status cstate.
Proof.
  intros Hr.
  destruct (read_row_normal wait fuel consumerIdx env cstate t rq Hr)
    as (c & Heq & Hrc & Hst & _).
  exists c. unfold SharedQueueRead.
  assert (Hn : (cs_ntuples cstate <=? 0) = false).
  { destruct Hr as [_ [Hn _]]. simpl in Hn. apply Z.leb_gt. lia. }
  assert (Hloop : read_loop wait fuel consumerIdx canwait env cstate
                  = read_row wait fuel consumerIdx env cstate).
  { destruct fuel; cbn [read_loop]; rewrite Hn; reflexivity. }
  rewrite Hloop, Heq. split; [reflexivity|]. split; [exact Hrc|].
  split; [|exact Hst].
  destruct Hr as [_ [Hn1 _]]. destruct Hrc as [_ [Hn2 _]].
  rewrite Hn1, Hn2. simpl length. lia.
Qed.

Lemma queued_row_is_read_whatever_the_status_witness :
  exists c,
    SharedQueueRead (fun (e : unit) c => (e, c)) 0 0 false tt
      (set_status CONSUMER_ERROR (sample_written 5))
    = (ReadTuple (counting_row 5), tt, c,
       [ LWLockAcquire sqs_producer_lwlock LW_SHARED;
         LWLockAcquire (cs_lwlock 0) LW_EXCLUSIVE;
         LWLockRelease (cs_lwlock 0);
         LWLockRelease sqs_producer_lwlock ])
    /\ ring_inv c (Normal [])
    /\ cs_ntuples c
       = cs_ntuples (set_status CONSUMER_ERROR (sample_written 5)) - 1
    /\ cs_status c
       = cs_status (set_status CONSUMER_ERROR (sample_written 5)).
Proof.
  apply (queued_row_is_read_whatever_the_status (fun (e : unit) c => (e, c))
           0 0 false tt (set_status CONSUMER_ERROR (sample_written 5))
           (counting_row 5) []).
  split.
  - unfold slot_wf, SIZEOF_INT, INT_MAX, QLENGTH_MAX. vm_compute.
    repeat split; discriminate.
  - cbv zeta. split; [reflexivity|]. unfold stream_inv.
    split; [vm_compute; discriminate|]. split; vm_compute; reflexivity.
Defined.

Lemma QUEUE_READ_qlength cstate len :
  cs_qlength (QUEUE_READ cstate len).2 = cs_qlength cstate.
Proof. unfold QUEUE_READ. destruct (_ <=? _); reflexivity. Qed.

Section ReadNoWait.

Context {Env : Type}.
Variable wait : Env -> ConsState -> Env * ConsState.

Lemma pull_wait_first_sleep fuel idx datalen env cstate offset msg :
  exists rest,
    latch_waits (pull_wait wait (S fuel) idx datalen env cstate offset msg).2
    = (cs_latch idx, -1) :: rest.
Proof.
  cbn [pull_wait]. destruct (wait env cstate) as [env1 c1].
  destruct (cs_ntuples c1 =? LONG_TUPLE).
  - destruct (pull_wait wait fuel idx datalen env1 c1 offset msg)
      as [[[r e] c] ev]. cbn [snd]. eexists. reflexivity.
  - destruct (QUEUE_READ c1 SIZEOF_INT) as [buf c2].
    destruct (pull_chunk c2 (bytes_int buf) offset msg) as [[c3 off3] msg3].
    destruct (off3 =? datalen).
    + cbn [snd]. eexists. reflexivity.
    + destruct (pull_wait wait fuel idx datalen env1 _ off3 msg3)
        as [[[r e] c] ev]. cbn [snd]. eexists. reflexivity.
Qed.

Lemma read_deliver_waits idx
  (x : option (list byte) * Env * ConsState * list Event) :
  latch_waits (read_deliver idx x).2 = latch_waits x.2.
Proof.
  destruct x as [[[[msg|] e] c] ev]; cbn [read_deliver snd];
    [|reflexivity].
  rewrite latch_waits_app. simpl. apply app_nil_r.
Qed.

Lemma read_loop_no_wait fuel idx env cstate :
  read_loop wait fuel idx false env cstate
  = if cs_ntuples cstate <=? 0 then
      match cs_status cstate with
      | CONSUMER_EOF =>
        (ReadEOF, env, set_status CONSUMER_DONE cstate, eof_trace idx)
      | CONSUMER_ERROR => (ReadError, env, cstate, read_unlock_trace idx)
      | _ => (ReadEmpty, env, cstate,
              read_unlock_trace idx ++ [ExecClearTuple])
      end
    else read_row wait fuel idx env cstate.
Proof. destruct fuel; reflexivity. Qed.

End ReadNoWait.

(** X15. With [canwait] false [SharedQueueRead] does not sleep on an empty
    queue, nor for a row that fits the queue, but it does for a row longer
    than the queue: once the first part is read it waits on the consumer
    latch for the producer to push the next one.  The queue is as the
    calls of the producer leave it: whole rows queued, or the first part
    of a long row. *)
Theorem read_without_waiting_sleeps_for_a_long_row {Env : Type}
  (wait : Env -> ConsState -> Env * ConsState) (fuel : nat)
  (consumerIdx : Z) (env : Env) (cstate : ConsState) :
  (forall rq, ring_inv cstate (Normal rq) ->
     let r := SharedQueueRead wait fuel consumerIdx false env cstate in
     r.1.1.1 <> ReadBlocked /\ latch_waits r.2 = [] /\ r.1.1.2 = env)
  /\ (forall t, ring_inv cstate (LongFirst t) ->
        (SharedQueueRead wait 0 consumerIdx false env cstate).1.1.1
        = ReadBlocked
        /\ exists rest,
             latch_waits
               (SharedQueueRead wait (S fuel) consumerIdx false env cstate).2
             = (cs_latch consumerIdx, -1) :: rest).
Proof.
  unfold SharedQueueRead. split.
  - intros rq Hinv. cbv zeta. rewrite read_loop_no_wait.
    destruct rq as [|t rq].
    + destruct Hinv as (_ & Hn & _). simpl in Hn. rewrite Hn.
      change (0 <=? 0) with true. cbv iota.
      destruct (cs_status cstate); cbn [fst snd];
        (split; [discriminate|]); split; reflexivity.
    + pose proof Hinv as (_ & Hn & _).
      destruct (Z.leb_spec (cs_ntuples cstate) 0) as [H|_];
        [rewrite Hn in H; simpl in H; lia|].
      destruct (read_row_normal wait fuel consumerIdx env cstate t rq Hinv)
        as (c & -> & _).
      cbn [fst snd]. split; [discriminate|]. split; reflexivity.
  - intros t Hinv.
    assert (Hrow : forall f,
              exists c,
                read_loop wait f consumerIdx false env cstate
                = read_deliver consumerIdx
                    (pull_wait wait f consumerIdx (msglen t) env c
                       (cs_qlength cstate - SIZEOF_INT)
                       (take (Z.to_nat (cs_qlength cstate - SIZEOF_INT)) t))).
    { intros f. rewrite read_loop_no_wait.
      pose proof Hinv as (_ & _ & _ & Hn & _).
      rewrite Hn. change (1 <=? 0) with false. cbv iota.
      destruct (read_row_long_first wait f consumerIdx env cstate t Hinv)
        as (c & -> & _).
      exists c. reflexivity. }
    split.
    + destruct (Hrow 0%nat) as (c & ->). reflexivity.
    + destruct (Hrow (S fuel)) as (c & ->).
      match goal with
      | |- context [pull_wait wait (S fuel) ?i ?d ?e ?c ?o ?m] =>
        destruct (pull_wait_first_sleep wait fuel i d e c o m) as [rest Hw];
          pose proof (read_deliver_waits consumerIdx
                        (pull_wait wait (S fuel) i d e c o m)) as Hd;
          destruct (read_deliver consumerIdx
                      (pull_wait wait (S fuel) i d e c o m))
            as [[[r e'] c'] ev]
      end.
      cbn [snd] in *. exists rest. rewrite <- Hw, <- Hd. reflexivity.
Qed.

Lemma read_without_waiting_sleeps_for_a_long_row_witness :
  (SharedQueueRead (fun (e : unit) c => (e, c)) 0 0 false tt
     sample_long_first).1.1.1 = ReadBlocked
  /\ exists rest,
       latch_waits
         (SharedQueueRead (fun (e : unit) c => (e, c)) 1 0 false tt
            sample_long_first).2
       = (cs_latch 0, -1) :: rest.
Proof.
  apply (proj2 (read_without_waiting_sleeps_for_a_long_row
                  (fun (e : unit) c => (e, c)) 0 0 tt sample_long_first)
           (counting_row 40)).
  split.
  - unfold slot_wf, SIZEOF_INT, INT_MAX, QLENGTH_MAX. vm_compute.
    repeat split; discriminate.
  - cbv zeta. split; [vm_compute; reflexivity|].
    split; [unfold row_ok, INT_MAX; vm_compute; discriminate|].
    split; [reflexivity|]. unfold stream_inv.
    split; [vm_compute; discriminate|]. split; vm_compute; reflexivity.
Defined.

(** ** The sync blocks of the entries *)

Lemma first_free_sync_Some syncs : forall i idx,
  first_free_sync i syncs = Some idx ->
  (i <= idx)%nat /\ syncs !! (idx - i)%nat = Some None.
Proof.
  induction syncs as [|[k|] syncs IH]; intros i idx H; simpl in H.
  - discriminate.
  - apply IH in H as [Hle Hl]. split; [lia|].
    replace (idx - i)%nat with (S (idx - S i)) by lia. exact Hl.
  - inversion H; subst. split; [lia|]. rewrite Nat.sub_diag. reflexivity.
Qed.

Lemma first_free_sync_None syncs : forall i,
  first_free_sync i syncs = None -> exists K, syncs = Some <$> K.
Proof.
  induction syncs as [|[k|] syncs IH]; intros i H; simpl in H.
  - exists []. reflexivity.
  - apply IH in H as [K ->]. exists (k :: K). reflexivity.
  - discriminate.
Qed.

(** As long as the hash table holds fewer than [NUM_SQUEUES] entries a
    sync block is free. *)
Lemma free_sync_block NUM shm :
  registry_inv NUM shm -> (size (SharedQueues shm) < NUM)%nat ->
  exists idx, first_free_sync 0 (SQueueSyncs shm) = Some idx
              /\ SQueueSyncs shm !! idx = Some None.
Proof.
  intros (Hlen & Hfwd & Hback) Hsize.
  destruct (first_free_sync 0 (SQueueSyncs shm)) as [idx|] eqn:E.
  - exists idx. split; [reflexivity|].
    apply first_free_sync_Some in E as [_ E].
    rewrite Nat.sub_0_r in E. exact E.
  - exfalso. apply first_free_sync_None in E as [K HK].
    assert (Hlook : forall i k, K !! i = Some k ->
              exists sq, SharedQueues shm !! k = Some sq
                         /\ sq_sync sq = Some i).
    { intros i k Hi. apply Hback. rewrite HK, list_lookup_fmap, Hi.
      reflexivity. }
    assert (Hnd : NoDup K).
    { apply NoDup_alt. intros i j k Hi Hj.
      destruct (Hlook i k Hi) as (sq & Hs & Hsi).
      destruct (Hlook j k Hj) as (sq' & Hs' & Hsj). congruence. }
    assert (Hsub : (list_to_set K : gset string) ⊆ dom (SharedQueues shm)).
    { intros k Hk. apply elem_of_list_to_set in Hk.
      apply list_elem_of_lookup in Hk as [i Hi].
      destruct (Hlook i k Hi) as (sq & Hs & _).
      apply elem_of_dom. eauto. }
    apply subseteq_size in Hsub.
    rewrite size_list_to_set in Hsub by exact Hnd.
    rewrite size_dom in Hsub.
    rewrite HK, length_fmap in Hlen. lia.
Qed.

(** An entry replaced by one with the same key and sync block. *)
Lemma registry_inv_set_queue NUM shm sq sq' :
  registry_inv NUM shm ->
  SharedQueues shm !! sq_key sq' = Some sq -> sq_sync sq' = sq_sync sq ->
  registry_inv NUM (set_queue sq' shm).
Proof.
  intros (Hlen & Hfwd & Hback) Hl Hs. unfold set_queue.
  split; [exact Hlen|]. cbn [SharedQueues SQueueSyncs]. split.
  - intros k q Hq. destruct (decide (k = sq_key sq')) as [->|Hne].
    + rewrite lookup_insert_eq in Hq. inversion Hq; subst q.
      split; [reflexivity|]. rewrite Hs.
      destruct (Hfwd _ _ Hl) as (_ & H). exact H.
    + rewrite lookup_insert_ne in Hq by congruence. exact (Hfwd _ _ Hq).
  - intros idx k Hk. destruct (Hback idx k Hk) as (q & Hq & Hqs).
    destruct (decide (k = sq_key sq')) as [->|Hne].
    + exists sq'. rewrite lookup_insert_eq. split; [reflexivity|]. congruence.
    + exists q. rewrite lookup_insert_ne by congruence. auto.
Qed.

Lemma registry_inv_drop_reference NUM shm sq sq' :
  registry_inv NUM shm ->
  SharedQueues shm !! sq_key sq' = Some sq -> sq_sync sq' = sq_sync sq ->
  registry_inv NUM (drop_reference sq' shm).1.
Proof.
  intros Hinv Hl Hs. rewrite !drop_reference_eq.
  cbn [sq_refcnt set_sq_refcnt].
  destruct (sq_refcnt sq' - 1 =? 0); cbn [fst].
  2:{ apply (registry_inv_set_queue NUM shm sq); [exact Hinv|exact Hl|].
      exact Hs. }
  destruct Hinv as (Hlen & Hfwd & Hback).
  destruct (Hfwd _ _ Hl) as (_ & idx & Hidx & Hsync).
  cbn [sq_key sq_sync set_sq_refcnt]. rewrite Hs, Hidx.
  cbn [clear_sync_queue].
  split; [cbn [SQueueSyncs]; rewrite length_insert; exact Hlen|].
  cbn [SharedQueues SQueueSyncs]. split.
  - intros k q Hq. apply lookup_delete_Some in Hq as [Hne Hq].
    destruct (Hfwd _ _ Hq) as (Hk & i & Hi & Hsi). split; [exact Hk|].
    exists i. split; [exact Hi|].
    rewrite list_lookup_insert_ne; [exact Hsi|]. congruence.
  - intros i k Hk. destruct (decide (i = idx)) as [->|Hne].
    + rewrite list_lookup_insert_eq in Hk; [discriminate|].
      apply lookup_lt_Some in Hsync. exact Hsync.
    + rewrite list_lookup_insert_ne in Hk by congruence.
      destruct (Hback i k Hk) as (q & Hq & Hqs). exists q.
      split; [|exact Hqs]. apply lookup_delete_Some. split; [|exact Hq].
      intros <-. congruence.
Qed.

Lemma registry_inv_new_entry NUM shm sqname sq idx :
  registry_inv NUM shm ->
  SharedQueues shm !! sqname = None ->
  SQueueSyncs shm !! idx = Some None ->
  sq_key sq = sqname -> sq_sync sq = Some idx ->
  registry_inv NUM
    (mkShmem (<[sqname := sq]> (SharedQueues shm))
       (<[idx := Some sqname]> (SQueueSyncs shm))).
Proof.
  intros (Hlen & Hfwd & Hback) Hnew Hfree Hk Hs.
  pose proof (lookup_lt_Some _ _ _ Hfree) as Hlt.
  split; [cbn [SQueueSyncs]; rewrite length_insert; exact Hlen|].
  cbn [SharedQueues SQueueSyncs]. split.
  - intros k q Hq. destruct (decide (k = sqname)) as [->|Hne].
    + rewrite lookup_insert_eq in Hq. inversion Hq; subst q.
      split; [exact Hk|]. exists idx. split; [exact Hs|].
      apply list_lookup_insert_eq. exact Hlt.
    + rewrite lookup_insert_ne in Hq by congruence.
      destruct (Hfwd _ _ Hq) as (Hkq & i & Hi & Hsi). split; [exact Hkq|].
      exists i. split; [exact Hi|].
      rewrite list_lookup_insert_ne; [exact Hsi|]. congruence.
  - intros i k Hi. destruct (decide (i = idx)) as [->|Hne].
    + rewrite list_lookup_insert_eq in Hi by exact Hlt.
      inversion Hi; subst k. exists sq. rewrite lookup_insert_eq. auto.
    + rewrite list_lookup_insert_ne in Hi by congruence.
      destruct (Hback i k Hi) as (q & Hq & Hqs). exists q.
      split; [|exact Hqs]. rewrite lookup_insert_ne; [exact Hq|]. congruence.
Qed.

(** An entry replaced, under its key, by one with the same sync block. *)
Lemma registry_inv_insert NUM shm sqname sq sq' :
  registry_inv NUM shm ->
  SharedQueues shm !! sqname = Some sq ->
  sq_key sq' = sq_key sq -> sq_sync sq' = sq_sync sq ->
  registry_inv NUM (mkShmem (<[sqname := sq']> (SharedQueues shm))
                      (SQueueSyncs shm))
  /\ set_queue sq' shm
     = mkShmem (<[sqname := sq']> (SharedQueues shm)) (SQueueSyncs shm).
Proof.
  intros Hinv Hl Hk Hs.
  assert (Hkey : sq_key sq' = sqname).
  { destruct Hinv as (_ & Hfwd & _). destruct (Hfwd _ _ Hl) as [H _].
    congruence. }
  assert (Heq : set_queue sq' shm
                = mkShmem (<[sqname := sq']> (SharedQueues shm))
                    (SQueueSyncs shm)).
  { unfold set_queue. rewrite Hkey. reflexivity. }
  split; [|exact Heq]. rewrite <- Heq.
  apply (registry_inv_set_queue NUM shm sq); [exact Hinv| |exact Hs].
  rewrite Hkey. exact Hl.
Qed.

Section RegistryInvariant.

Variable NUM_SQUEUES : nat.
Variable SQUEUE_SIZE sizeof_SQueueHeader sizeof_ConsState : Z.
Variable MyProcPid PGXC_PARENT_NODE_ID SQ_CONS_SELF SQ_CONS_NONE : Z.
Variable sleep : Shmem -> Shmem.
Variable wait_producer : Shmem -> Shmem * bool.
Variable unlocked : Shmem -> Shmem.

Hypothesis sleep_keeps : forall s,
  registry_inv NUM_SQUEUES s -> registry_inv NUM_SQUEUES (sleep s).
Hypothesis wait_keeps : forall s,
  registry_inv NUM_SQUEUES s -> registry_inv NUM_SQUEUES (wait_producer s).1.
Hypothesis unlocked_keeps : forall s,
  registry_inv NUM_SQUEUES s -> registry_inv NUM_SQUEUES (unlocked s).

Lemma acquire_loop_registry sqname ncons n : forall trycount shm,
  registry_inv NUM_SQUEUES shm ->
  let r := acquire_loop NUM_SQUEUES SQUEUE_SIZE sizeof_SQueueHeader
             sizeof_ConsState PGXC_PARENT_NODE_ID sleep n trycount sqname
             ncons shm in
  registry_inv NUM_SQUEUES r.1.2
  /\ (r.1.1 = AcquireOk ->
      exists sq idx, SharedQueues r.1.2 !! sqname = Some sq
                     /\ sq_sync sq = Some idx
                     /\ SQueueSyncs r.1.2 !! idx = Some (Some sqname)).
Proof.
  assert (Hok : forall s, registry_inv NUM_SQUEUES s ->
            is_Some (SharedQueues s !! sqname) ->
            exists sq idx, SharedQueues s !! sqname = Some sq
                           /\ sq_sync sq = Some idx
                           /\ SQueueSyncs s !! idx = Some (Some sqname)).
  { intros s (_ & Hfwd & _) [sq Hsq].
    destruct (Hfwd _ _ Hsq) as (_ & idx & Hi & Hs). eauto. }
  assert (Hnone : forall shm, registry_inv NUM_SQUEUES shm ->
            SharedQueues shm !! sqname = None ->
            let r := if bool_decide (NUM_SQUEUES ≤ size (SharedQueues shm))%nat
                     then (AcquireOutOfQueues, shm,
                           [LWLockAcquire SQueuesLock LW_EXCLUSIVE])
                     else
                       let sq := format_queue SQUEUE_SIZE sizeof_SQueueHeader
                                   sizeof_ConsState sqname ncons
                                   (SQueueSyncs shm) in
                       (AcquireOk,
                        mkShmem (<[sqname := sq]> (SharedQueues shm))
                          (match sq_sync sq with
                           | Some idx => <[idx := Some sqname]> (SQueueSyncs shm)
                           | None => SQueueSyncs shm
                           end),
                        [LWLockAcquire SQueuesLock LW_EXCLUSIVE]
                        ++ [LWLockRelease SQueuesLock]) in
            registry_inv NUM_SQUEUES r.1.2
            /\ (r.1.1 = AcquireOk ->
                exists sq idx, SharedQueues r.1.2 !! sqname = Some sq
                               /\ sq_sync sq = Some idx
                               /\ SQueueSyncs r.1.2 !! idx
                                  = Some (Some sqname))).
  { intros shm Hinv Hl. cbv zeta. case_bool_decide as Hfull.
    { cbn [fst snd]. split; [exact Hinv|discriminate]. }
    destruct (free_sync_block NUM_SQUEUES shm Hinv ltac:(lia))
      as (idx & Hfree & Hidx).
    change (sq_sync (format_queue SQUEUE_SIZE sizeof_SQueueHeader
                       sizeof_ConsState sqname ncons (SQueueSyncs shm)))
      with (first_free_sync 0 (SQueueSyncs shm)).
    rewrite Hfree. cbn [fst snd].
    assert (Hnew : registry_inv NUM_SQUEUES
              (mkShmem (<[sqname := format_queue SQUEUE_SIZE
                                      sizeof_SQueueHeader sizeof_ConsState
                                      sqname ncons (SQueueSyncs shm)]>
                          (SharedQueues shm))
                 (<[idx := Some sqname]> (SQueueSyncs shm)))).
    { apply registry_inv_new_entry; try assumption; reflexivity. }
    split; [exact Hnew|]. intros _. apply (Hok _ Hnew).
    cbn [SharedQueues]. rewrite lookup_insert_eq. eauto. }
  assert (Hfresh : forall shm sq (ev : list Event),
            registry_inv NUM_SQUEUES shm ->
            SharedQueues shm !! sqname = Some sq ->
            let r := (AcquireOk,
                      mkShmem (<[sqname := set_sq_refcnt (sq_refcnt sq + 1) sq]>
                                 (SharedQueues shm)) (SQueueSyncs shm), ev) in
            registry_inv NUM_SQUEUES r.1.2
            /\ (r.1.1 = AcquireOk ->
                exists sq idx, SharedQueues r.1.2 !! sqname = Some sq
                               /\ sq_sync sq = Some idx
                               /\ SQueueSyncs r.1.2 !! idx
                                  = Some (Some sqname))).
  { intros shm sq ev Hinv Hl. cbv zeta. cbn [fst snd].
    destruct (registry_inv_insert NUM_SQUEUES shm sqname sq
                (set_sq_refcnt (sq_refcnt sq + 1) sq) Hinv Hl
                eq_refl eq_refl) as [Hins _].
    split; [exact Hins|]. intros _. apply (Hok _ Hins).
    cbn [SharedQueues]. rewrite lookup_insert_eq. eauto. }
  induction n as [|n IH]; intros trycount shm Hinv; cbv zeta;
    cbn [acquire_loop].
  all: destruct (SharedQueues shm !! sqname) as [sq|] eqn:Hl;
    [|exact (Hnone shm Hinv Hl)].
  all: destruct (if sq_pid sq =? 0 then _ else _) as [old ev1];
    destruct old; [|exact (Hfresh shm sq _ Hinv Hl)].
  - destruct (trycount + 1 >=? 10); cbn [fst snd];
      (split; [apply sleep_keeps; exact Hinv|discriminate]).
  - destruct (trycount + 1 >=? 10).
    + cbn [fst snd]. split; [apply sleep_keeps; exact Hinv|discriminate].
    + specialize (IH (trycount + 1) (sleep shm) (sleep_keeps _ Hinv)).
      cbv zeta in IH.
      destruct (acquire_loop _ _ _ _ _ _ n (trycount + 1) sqname ncons
                  (sleep shm)) as [[r s] ev'].
      cbn [fst snd] in *. exact IH.
Qed.

Lemma registry_inv_update shm sqname sq sq' :
  registry_inv NUM_SQUEUES shm ->
  SharedQueues shm !! sqname = Some sq ->
  sq_key sq' = sq_key sq -> sq_sync sq' = sq_sync sq ->
  registry_inv NUM_SQUEUES (set_queue sq' shm).
Proof.
  intros Hinv Hl Hk Hs.
  destruct (registry_inv_insert NUM_SQUEUES shm sqname sq sq' Hinv Hl Hk Hs)
    as [H ->].
  exact H.
Qed.

Lemma registry_inv_drop shm sqname sq sq' :
  registry_inv NUM_SQUEUES shm ->
  SharedQueues shm !! sqname = Some sq ->
  sq_key sq' = sq_key sq -> sq_sync sq' = sq_sync sq ->
  registry_inv NUM_SQUEUES (drop_reference sq' shm).1.
Proof.
  intros Hinv Hl Hk Hs.
  apply (registry_inv_drop_reference NUM_SQUEUES shm sq); [exact Hinv| |exact Hs].
  destruct Hinv as (_ & Hfwd & _). destruct (Hfwd _ _ Hl) as [H _].
  rewrite Hk, H. exact Hl.
Qed.

Lemma bind_registry sqname consNodes distNodes shm :
  registry_inv NUM_SQUEUES shm ->
  registry_inv NUM_SQUEUES
    (SharedQueueBind MyProcPid PGXC_PARENT_NODE_ID SQ_CONS_SELF SQ_CONS_NONE
       sqname consNodes distNodes shm).1.2.
Proof.
  intros Hinv. unfold SharedQueueBind.
  destruct (SharedQueues shm !! sqname) as [sq|] eqn:Hl; [|exact Hinv].
  destruct (sq_pid sq =? 0).
  - destruct (bind_producer_loop _ _ _ _ _ _) as [consMap l]. cbn [fst snd].
    apply (registry_inv_update shm sqname sq); auto.
  - destruct (bind_consumer_loop _ _ _ _ _ _) as [[r l] ev].
    destruct r; cbn [fst snd];
      apply (registry_inv_update shm sqname sq); auto.
Qed.

Lemma release_slots_key_sync sq :
  sq_key (release_slots PGXC_PARENT_NODE_ID sq).1 = sq_key sq
  /\ sq_sync (release_slots PGXC_PARENT_NODE_ID sq).1 = sq_sync sq.
Proof.
  unfold release_slots. destruct (sq_nodeid sq =? -1); [auto|].
  destruct (negb _); [|auto].
  destruct (find_consumer_node _ _ _) as [[i c]|].
  - destruct (release_consumer i c). cbn [fst]. auto.
  - destruct (for_consumers _ _ _). cbn [fst]. auto.
Qed.

Lemma release_registry sqname shm :
  registry_inv NUM_SQUEUES shm ->
  registry_inv NUM_SQUEUES
    (SharedQueueRelease PGXC_PARENT_NODE_ID sqname shm).1.
Proof.
  intros Hinv. unfold SharedQueueRelease.
  destruct (SharedQueues shm !! sqname) as [sq|] eqn:Hl; [|exact Hinv].
  destruct (release_slots_key_sync sq) as [Hk Hs].
  destruct (release_slots PGXC_PARENT_NODE_ID sq) as [sq' ev1].
  cbn [fst] in Hk, Hs.
  pose proof (registry_inv_drop shm sqname sq sq' Hinv Hl Hk Hs) as H.
  destruct (drop_reference sq' shm) as [shm' ev2]. exact H.
Qed.

Lemma disconnect_registry sqname shm :
  registry_inv NUM_SQUEUES shm ->
  exists shm',
    (SharedQueueDisconnectConsumer PGXC_PARENT_NODE_ID sqname (Some shm)).1
    = Some shm'
    /\ registry_inv NUM_SQUEUES shm'.
Proof.
  intros Hinv. unfold SharedQueueDisconnectConsumer.
  destruct (SharedQueues shm !! sqname) as [sq|] eqn:Hl; [|eauto].
  destruct (sq_pid sq =? 0); [eauto|].
  destruct (for_consumers _ _ _) as [l ev]. cbn [fst].
  eexists. split; [reflexivity|].
  apply (registry_inv_update shm sqname sq); auto.
Qed.

Lemma unbind_registry sqname failed fuel : forall shm,
  registry_inv NUM_SQUEUES shm ->
  registry_inv NUM_SQUEUES
    (unbind_loop wait_producer unlocked fuel sqname failed shm).1.2.
Proof.
  induction fuel as [|fuel IH]; intros shm Hinv; [exact Hinv|].
  rewrite unbind_loop_step.
  destruct (SharedQueues shm !! sqname) as [sq|] eqn:Hl; [|exact Hinv].
  destruct (unbind_scan failed 0 (sq_consumers sq)) as [[l c_count] ev1].
  assert (H1 : registry_inv NUM_SQUEUES
                 (set_queue (set_sq_consumers l sq) shm))
    by (apply (registry_inv_update shm sqname sq); auto).
  cbv zeta. destruct (c_count =? 0).
  - pose proof (unlocked_keeps _ H1) as H2.
    destruct (SharedQueues (unlocked _) !! sqname) as [sq2|] eqn:Hl2;
      [|exact H2].
    destruct (unbind_recheck 0 (sq_consumers sq2)) as [running ev2].
    destruct (running =? 0).
    + pose proof (registry_inv_drop _ sqname sq2 sq2 H2 Hl2 eq_refl eq_refl)
        as H3.
      destruct (drop_reference sq2 _) as [shm3 ev3]. exact H3.
    + specialize (IH _ H2).
      destruct (unbind_loop wait_producer unlocked fuel sqname failed _)
        as [[r s] ev']. exact IH.
  - pose proof (wait_keeps _ H1) as H2.
    destruct (wait_producer _) as [shm2 timeout]. cbn [fst] in H2.
    assert (H3 : registry_inv NUM_SQUEUES
              (if timeout then
                 match SharedQueues shm2 !! sqname with
                 | Some squeue =>
                   let '(squeue, ev) := SharedQueueResetNotConnected squeue in
                   (set_queue squeue shm2, ev)
                 | None => (shm2, [])
                 end
               else (shm2, [])).1).
    { destruct timeout; [|exact H2].
      destruct (SharedQueues shm2 !! sqname) as [sq2|] eqn:Hl2; [|exact H2].
      pose proof (reset_not_connected_consumers sq2) as Hr.
      destruct (SharedQueueResetNotConnected sq2) as [sq3 ev3].
      cbn [fst] in *. subst sq3.
      apply (registry_inv_update shm2 sqname sq2); auto. }
    destruct (if timeout then _ else _) as [shm3 ev2]. cbn [fst] in H3.
    specialize (IH _ H3).
    destruct (unbind_loop wait_producer unlocked fuel sqname failed shm3)
      as [[r s] ev']. exact IH.
Qed.

End RegistryInvariant.

(** X16. The calls that change the hash table keep the association
    between its entries and the sync blocks: every entry points to a sync
    block of the pool that points back to it, and every block in use
    belongs to an entry.  With it the search of [SharedQueueAcquire] for a
    free sync block always succeeds: an entry it returns with has its
    sync block, the one that names it.  [SharedQueueAcquire] is called
    for at least one consumer and with a header that fits into the
    entry. *)
Theorem registry_calls_keep_the_sync_blocks
  (NUM_SQUEUES : nat) (SQUEUE_SIZE sizeof_SQueueHeader sizeof_ConsState : Z)
  (MyProcPid me SQ_CONS_SELF SQ_CONS_NONE : Z)
  (sleep : Shmem -> Shmem) (wait_producer : Shmem -> Shmem * bool)
  (unlocked : Shmem -> Shmem) (fuel : nat) (sqname : string) (ncons : Z)
  (consNodes distNodes : list Z) (failed : bool) (shm : Shmem) :
  (forall s, registry_inv NUM_SQUEUES s -> registry_inv NUM_SQUEUES (sleep s)) ->
  (forall s, registry_inv NUM_SQUEUES s ->
             registry_inv NUM_SQUEUES (wait_producer s).1) ->
  (forall s, registry_inv NUM_SQUEUES s ->
             registry_inv NUM_SQUEUES (unlocked s)) ->
  registry_inv NUM_SQUEUES shm ->
  (0 < ncons ->
   SQUEUE_HDR_SIZE sizeof_SQueueHeader sizeof_ConsState ncons <= SQUEUE_SIZE ->
   let acquired := SharedQueueAcquire NUM_SQUEUES SQUEUE_SIZE
                     sizeof_SQueueHeader sizeof_ConsState me sleep sqname
                     ncons shm in
   registry_inv NUM_SQUEUES acquired.1.2
   /\ (acquired.1.1 = AcquireOk ->
       exists sq idx, SharedQueues acquired.1.2 !! sqname = Some sq
                      /\ sq_sync sq = Some idx
                      /\ SQueueSyncs acquired.1.2 !! idx = Some (Some sqname)))
  /\ registry_inv NUM_SQUEUES
       (SharedQueueBind MyProcPid me SQ_CONS_SELF SQ_CONS_NONE sqname
          consNodes distNodes shm).1.2
  /\ registry_inv NUM_SQUEUES (SharedQueueRelease me sqname shm).1
  /\ (exists shm',
        (SharedQueueDisconnectConsumer me sqname (Some shm)).1 = Some shm'
        /\ registry_inv NUM_SQUEUES shm')
  /\ registry_inv NUM_SQUEUES
       (SharedQueueUnBind wait_producer unlocked fuel sqname failed shm).1.2.
Proof.
  intros Hsleep Hwait Hunl Hinv. cbv zeta.
  split.
  { intros _ _.
    exact (acquire_loop_registry NUM_SQUEUES SQUEUE_SIZE sizeof_SQueueHeader
             sizeof_ConsState me sleep Hsleep sqname ncons 10 0 shm Hinv). }
  split; [apply bind_registry; exact Hinv|].
  split; [apply release_registry; exact Hinv|].
  split; [apply disconnect_registry; exact Hinv|].
  apply unbind_registry; assumption.
Qed.

Lemma sample_registry_inv pid status :
  registry_inv 2 (sample_shmem pid status).
Proof.
  split; [reflexivity|]. split.
  - intros k sq H. unfold sample_shmem in H. cbn [SharedQueues] in H.
    apply lookup_singleton_Some in H as [<- <-].
    split; [reflexivity|]. exists 0%nat. split; reflexivity.
  - intros idx k H. destruct idx as [|[|idx]]; simpl in H; try discriminate.
    inversion H; subst k. exists (sample_queue pid status).
    split; [apply lookup_singleton_eq|reflexivity].
Qed.

Lemma registry_calls_keep_the_sync_blocks_witness :
  (let acquired := SharedQueueAcquire 2 1024 64 64 7 (fun s => s) "q" 2
                     (sample_shmem 100 CONSUMER_ACTIVE) in
   registry_inv 2 acquired.1.2
   /\ (acquired.1.1 = AcquireOk ->
       exists sq idx, SharedQueues acquired.1.2 !! "q" = Some sq
                      /\ sq_sync sq = Some idx
                      /\ SQueueSyncs acquired.1.2 !! idx = Some (Some "q")))
  /\ registry_inv 2
       (SharedQueueBind 200 7 (-2) (-1) "q" [7] [7; 8]
          (sample_shmem 100 CONSUMER_ACTIVE)).1.2
  /\ registry_inv 2
       (SharedQueueRelease 7 "q" (sample_shmem 100 CONSUMER_ACTIVE)).1
  /\ (exists shm',
        (SharedQueueDisconnectConsumer 7 "q"
           (Some (sample_shmem 100 CONSUMER_ACTIVE))).1 = Some shm'
        /\ registry_inv 2 shm')
  /\ registry_inv 2
       (SharedQueueUnBind (fun s => (s, true)) (fun s => s) 3 "q" false
          (sample_shmem 100 CONSUMER_ACTIVE)).1.2.
Proof.
  destruct (registry_calls_keep_the_sync_blocks 2 1024 64 64 200 7 (-2) (-1)
              (fun s => s) (fun s => (s, true)) (fun s => s) 3 "q" 2 [7]
              [7; 8] false (sample_shmem 100 CONSUMER_ACTIVE))
    as [Hacquire Hothers].
  - intros s H. exact H.
  - intros s H. exact H.
  - intros s H. exact H.
  - apply sample_registry_inv.
  - split; [|exact Hothers].
    apply Hacquire; [lia|unfold SQUEUE_HDR_SIZE; lia].
Defined.

(** ** SharedQueuesInit *)

Lemma init_consumer_sync_spec n : forall l,
  init_consumer_sync n l = (seqZ l (Z.of_nat n), l + Z.of_nat n).
Proof.
  induction n as [|n IH]; intros l; cbn [init_consumer_sync].
  - simpl. rewrite Z.add_0_r. reflexivity.
  - rewrite IH. rewrite (seqZ_cons l (Z.of_nat (S n))) by lia.
    f_equal; [f_equal; f_equal; lia|lia].
Qed.

Lemma init_sync_blocks_spec MaxDataNodes n : forall l,
  1 <= MaxDataNodes ->
  let r := init_sync_blocks MaxDataNodes n l in
  locks_in_use r.1 = seqZ l (Z.of_nat n * MaxDataNodes)
  /\ r.2 = l + Z.of_nat n * MaxDataNodes
  /\ length r.1 = n
  /\ (forall i b, r.1 !! i = Some b ->
        sqs_producer_lwlock_idx b = l + Z.of_nat i * MaxDataNodes
        /\ sqs_consumer_lwlock_idx b
           = seqZ (l + Z.of_nat i * MaxDataNodes + 1) (MaxDataNodes - 1)).
Proof.
  intros l HM. revert l. cbv zeta.
  induction n as [|n IH]; intros l; cbn [init_sync_blocks].
  - cbn [fst snd]. unfold locks_in_use. simpl.
    repeat split; try lia; discriminate.
  - rewrite init_consumer_sync_spec, Z2Nat.id by lia.
    specialize (IH (l + 1 + (MaxDataNodes - 1))).
    destruct (init_sync_blocks MaxDataNodes n (l + 1 + (MaxDataNodes - 1)))
      as [blocks l'].
    cbn [fst snd] in *. destruct IH as (Hu & Hl & Hlen & Hb).
    split; [|split; [|split]].
    + unfold locks_in_use in *. rewrite fmap_cons. cbn [concat].
      rewrite Hu. cbn [sqs_producer_lwlock_idx sqs_consumer_lwlock_idx].
      replace (Z.of_nat (S n) * MaxDataNodes)
        with (1 + ((MaxDataNodes - 1) + Z.of_nat n * MaxDataNodes)) by lia.
      rewrite (seqZ_app l 1) by lia.
      rewrite (seqZ_app (l + 1) (MaxDataNodes - 1)) by lia.
      reflexivity.
    + lia.
    + simpl. lia.
    + intros [|i] b H; simpl in H.
      * inversion H; subst b.
        cbn [sqs_producer_lwlock_idx sqs_consumer_lwlock_idx].
        split; [lia|]. f_equal. lia.
      * destruct (Hb i b H) as [Hp Hc]. rewrite Hp, Hc.
        split; [lia|]. f_equal. lia.
Qed.

Lemma init_registry_inv NUM_SQUEUES MaxDataNodes :
  registry_inv NUM_SQUEUES (SharedQueuesInit NUM_SQUEUES MaxDataNodes).1.1.
Proof.
  unfold SharedQueuesInit. cbn [fst].
  split; [cbn [SQueueSyncs]; apply length_replicate|].
  cbn [SharedQueues SQueueSyncs]. split.
  - intros k sq H. rewrite lookup_empty in H. discriminate.
  - intros idx k H. apply lookup_replicate in H as [H _]. discriminate.
Qed.

(** X17. [SharedQueuesInit] hands out the locks of [SQueueLocks] in order,
    each to one user: with [MaxDataNodes >= 1] the [nlocks] locks are all
    used and none twice, sync block [i] getting lock [i * MaxDataNodes]
    for the producer and the [MaxDataNodes - 1] that follow for its
    consumers, so no index reaches [nlocks].  It leaves the hash table
    empty and all [NUM_SQUEUES] sync blocks free. *)
Theorem init_assigns_each_lock_once (NUM_SQUEUES : nat) (MaxDataNodes : Z) :
  1 <= MaxDataNodes ->
  let r := SharedQueuesInit NUM_SQUEUES MaxDataNodes in
  let shm := r.1.1 in
  let blocks := r.1.2 in
  let nlocks := r.2 in
  locks_in_use blocks = seqZ 0 nlocks
  /\ NoDup (locks_in_use blocks)
  /\ Forall (fun l => 0 <= l < nlocks) (locks_in_use blocks)
  /\ length blocks = NUM_SQUEUES
  /\ (forall i b, blocks !! i = Some b ->
        sqs_producer_lwlock_idx b = Z.of_nat i * MaxDataNodes
        /\ sqs_consumer_lwlock_idx b
           = seqZ (Z.of_nat i * MaxDataNodes + 1) (MaxDataNodes - 1))
  /\ registry_inv NUM_SQUEUES shm
  /\ SharedQueues shm = ∅
  /\ first_free_sync 0 (SQueueSyncs shm)
     = if NUM_SQUEUES is O then None else Some 0%nat.
Proof.
  intros HM. cbv zeta. unfold SharedQueuesInit. cbn [fst snd].
  destruct (init_sync_blocks_spec MaxDataNodes NUM_SQUEUES 0 HM)
    as (Hu & _ & Hlen & Hb).
  cbv zeta in Hu, Hlen, Hb. rewrite Hu.
  split; [reflexivity|]. split; [apply NoDup_seqZ|]. split.
  { apply Forall_forall. intros x Hx. apply elem_of_seqZ in Hx. lia. }
  split; [exact Hlen|]. split; [exact Hb|].
  split; [exact (init_registry_inv NUM_SQUEUES MaxDataNodes)|].
  split; [reflexivity|]. destruct NUM_SQUEUES; reflexivity.
Qed.

Lemma init_assigns_each_lock_once_witness :
  let r := SharedQueuesInit 3 4 in
  let shm := r.1.1 in
  let blocks := r.1.2 in
  let nlocks := r.2 in
  locks_in_use blocks = seqZ 0 nlocks
  /\ NoDup (locks_in_use blocks)
  /\ Forall (fun l => 0 <= l < nlocks) (locks_in_use blocks)
  /\ length blocks = 3%nat
  /\ (forall i b, blocks !! i = Some b ->
        sqs_producer_lwlock_idx b = Z.of_nat i * 4
        /\ sqs_consumer_lwlock_idx b = seqZ (Z.of_nat i * 4 + 1) (4 - 1))
  /\ registry_inv 3 shm
  /\ SharedQueues shm = ∅
  /\ first_free_sync 0 (SQueueSyncs shm) = Some 0%nat.
Proof.
  apply (init_assigns_each_lock_once 3 4). lia.
Defined.

(** ** SharedQueueBind: the consumer map and the consumer's index *)

Lemma find_consumer_node_spec nodeid l : forall i k c,
  find_consumer_node nodeid i l = Some (k, c) ->
  exists idx : nat,
    k = i + Z.of_nat idx /\ l !! idx = Some c /\ cs_node c = nodeid.
Proof.
  induction l as [|c0 l IH]; intros i k c H; simpl in H; [discriminate|].
  destruct (Z.eqb_spec (cs_node c0) nodeid) as [He|Hne].
  - inversion H; subst. exists 0%nat. split; [lia|]. auto.
  - apply IH in H as (idx & -> & Hl & Hn). exists (S idx).
    split; [lia|]. auto.
Qed.

(** The first slot of a node, in a queue where no node has two slots. *)
Lemma find_consumer_node_lookup nodeid l : forall i (idx : nat) c,
  l !! idx = Some c -> cs_node c = nodeid ->
  (forall (idx' : nat) c', (idx' < idx)%nat -> l !! idx' = Some c' ->
                           cs_node c' <> nodeid) ->
  find_consumer_node nodeid i l = Some (i + Z.of_nat idx, c).
Proof.
  induction l as [|c0 l IH]; intros i idx c Hl Hn Hfirst; [discriminate|].
  simpl. destruct idx as [|idx]; simpl in Hl.
  - inversion Hl; subst c0. rewrite Hn, Z.eqb_refl. do 2 f_equal. lia.
  - destruct (Z.eqb_spec (cs_node c0) nodeid) as [He|Hne].
    + exfalso. apply (Hfirst 0%nat c0); [lia|reflexivity|exact He].
    + rewrite (IH (i + 1) idx c Hl Hn).
      * do 2 f_equal. lia.
      * intros idx' c' Hlt Hl'. apply (Hfirst (S idx') c'); [lia|exact Hl'].
Qed.

Lemma find_consumer_node_nodes nodeid (idx : nat) l c :
  NoDup (cs_node <$> l) -> l !! idx = Some c -> cs_node c = nodeid ->
  find_consumer_node nodeid 0 l = Some (Z.of_nat idx, c).
Proof.
  intros Hnd Hl Hn.
  rewrite (find_consumer_node_lookup nodeid l 0 idx c Hl Hn); [reflexivity|].
  intros idx' c' Hlt Hl' Hn'.
  pose proof (proj1 (NoDup_alt (cs_node <$> l)) Hnd) as Halt.
  assert (idx' = idx); [|lia].
  apply (Halt idx' idx nodeid); rewrite list_lookup_fmap.
  - rewrite Hl'. simpl. congruence.
  - rewrite Hl. simpl. congruence.
Qed.

Lemma free_nodes free :
  Forall (fun c => cs_node c = -1) free ->
  cs_node <$> free = replicate (length free) (-1).
Proof.
  induction 1 as [|c l Hc _ IH]; [reflexivity|].
  rewrite fmap_cons, Hc, IH. reflexivity.
Qed.

Section BindMap.

Variable PGXC_PARENT_NODE_ID SQ_CONS_SELF SQ_CONS_NONE : Z.

Lemma bind_assign_free nodeid pre : forall j c post,
  Forall (fun c => cs_node c <> nodeid /\ cs_node c <> -1) pre ->
  cs_node c = -1 -> nodeid <> -1 ->
  bind_assign SQ_CONS_NONE nodeid j (pre ++ c :: post)
  = (Some (j + Z.of_nat (length pre)), pre ++ set_node nodeid c :: post).
Proof.
  induction pre as [|c0 pre IH]; intros j c post Hpre Hc Hn; simpl.
  - rewrite Hc.
    destruct (Z.eqb_spec (-1) nodeid) as [He|_]; [congruence|].
    simpl. do 2 f_equal. lia.
  - apply Forall_cons in Hpre as [[H1 H2] Hpre].
    destruct (Z.eqb_spec (cs_node c0) nodeid) as [He|_]; [congruence|].
    destruct (Z.eqb_spec (cs_node c0) (-1)) as [He|_]; [congruence|].
    rewrite (IH (j + 1) c post Hpre Hc Hn). do 2 f_equal. lia.
Qed.

Lemma bind_producer_loop_spec consNodes distNodes : forall pre free,
  NoDup distNodes ->
  Forall (fun n => n <> -1 /\ n ∉ cs_node <$> pre) distNodes ->
  Forall (fun c => cs_node c <> -1) pre ->
  Forall (fun c => cs_node c = -1) free ->
  (length (queued_nodes PGXC_PARENT_NODE_ID consNodes distNodes)
   <= length free)%nat ->
  let r := bind_producer_loop PGXC_PARENT_NODE_ID SQ_CONS_SELF SQ_CONS_NONE
             distNodes consNodes (pre ++ free) in
  length r.1 = length distNodes
  /\ set_node 0 <$> r.2 = set_node 0 <$> (pre ++ free)
  /\ cs_node <$> r.2
     = (cs_node <$> pre)
       ++ queued_nodes PGXC_PARENT_NODE_ID consNodes distNodes
       ++ replicate
            (length free
             - length (queued_nodes PGXC_PARENT_NODE_ID consNodes distNodes))
            (-1)
  /\ (forall (i : nat) n, distNodes !! i = Some n ->
        (n = PGXC_PARENT_NODE_ID -> r.1 !! i = Some SQ_CONS_SELF)
        /\ (n <> PGXC_PARENT_NODE_ID -> n ∉ consNodes ->
            r.1 !! i = Some SQ_CONS_NONE)
        /\ (n <> PGXC_PARENT_NODE_ID -> n ∈ consNodes ->
            exists j : nat, r.1 !! i = Some (Z.of_nat j)
                            /\ (cs_node <$> r.2) !! j = Some n)).
Proof.
  cbv zeta.
  induction distNodes as [|n distNodes IH];
    intros pre free Hnd Hdist Hpre Hfree Hlen.
  - cbn [bind_producer_loop fst snd]. unfold queued_nodes. simpl.
    rewrite Nat.sub_0_r. split; [reflexivity|]. split; [reflexivity|].
    split.
    + rewrite fmap_app. f_equal. apply free_nodes. exact Hfree.
    + intros i n H. discriminate.
  - apply NoDup_cons in Hnd as [Hnotin Hnd].
    apply Forall_cons in Hdist as [[Hn1 Hnpre] Hdist].
    cbn [bind_producer_loop]. unfold queued_nodes in *.
    rewrite filter_cons in *.
    destruct (Z.eqb_spec n PGXC_PARENT_NODE_ID) as [Hself|Hself].
    + (* the producer's own node *)
      rewrite decide_False in * by tauto.
      specialize (IH pre free Hnd Hdist Hpre Hfree Hlen).
      destruct (bind_producer_loop _ _ _ distNodes consNodes (pre ++ free))
        as [consMap l'].
      cbn [fst snd] in *. destruct IH as (Hl & Hsame & Hnodes & Hmap).
      split; [simpl; lia|]. split; [exact Hsame|]. split; [exact Hnodes|].
      intros [|i] n' Hi; simpl in Hi.
      * inversion Hi; subst n'. repeat split; try tauto.
      * exact (Hmap i n' Hi).
    + case_bool_decide as Hmem.
      * (* a node that reads from the queue *)
        rewrite decide_True in * by tauto. cbn [length] in Hlen.
        destruct free as [|c free]; [simpl in Hlen; lia|].
        apply Forall_cons in Hfree as [Hc Hfree].
        rewrite (bind_assign_free n pre 0 c free).
        2:{ apply Forall_forall. intros c0 Hc0. split.
            - intros He. apply Hnpre. apply list_elem_of_fmap.
              exists c0. auto.
            - rewrite Forall_forall in Hpre. auto. }
        2: exact Hc. 2: exact Hn1.
        specialize (IH (pre ++ [set_node n c]) free Hnd).
        rewrite <- app_assoc in IH. cbn [app] in IH.
        assert (Hdist' : Forall (fun n0 => n0 <> -1
                  /\ n0 ∉ cs_node <$> pre ++ [set_node n c]) distNodes).
        { rewrite Forall_forall in Hdist. apply Forall_forall.
          intros n0 Hn0. destruct (Hdist n0 Hn0) as [H1 H2].
          split; [exact H1|]. rewrite fmap_app. intros Hin.
          apply elem_of_app in Hin as [Hin|Hin]; [tauto|].
          simpl in Hin. apply list_elem_of_singleton in Hin. congruence. }
        assert (Hpre' : Forall (fun c0 => cs_node c0 <> -1)
                          (pre ++ [set_node n c])).
        { apply Forall_app. split; [exact Hpre|].
          constructor; [exact Hn1|constructor]. }
        specialize (IH Hdist' Hpre' Hfree ltac:(simpl in Hlen; lia)).
        destruct (bind_producer_loop _ _ _ distNodes consNodes
                    (pre ++ set_node n c :: free)) as [consMap l'].
        cbn [fst snd] in *. destruct IH as (Hl & Hsame & Hnodes & Hmap).
        split; [simpl; lia|]. split.
        { rewrite Hsame, !fmap_app, !fmap_cons. reflexivity. }
        split.
        { rewrite Hnodes, fmap_app, <- app_assoc. reflexivity. }
        intros [|i] n' Hi; simpl in Hi.
        -- inversion Hi; subst n'. split; [tauto|]. split; [tauto|].
           intros _ _. exists (length pre).
           split; [simpl; f_equal; lia|]. rewrite Hnodes, fmap_app.
           rewrite <- app_assoc.
           rewrite lookup_app_r by (rewrite length_fmap; lia).
           rewrite length_fmap, Nat.sub_diag. reflexivity.
        -- exact (Hmap i n' Hi).
      * (* a node that never connects *)
        rewrite decide_False in * by tauto.
        specialize (IH pre free Hnd Hdist Hpre Hfree Hlen).
        destruct (bind_producer_loop _ _ _ distNodes consNodes (pre ++ free))
          as [consMap l'].
        cbn [fst snd] in *. destruct IH as (Hl & Hsame & Hnodes & Hmap).
        split; [simpl; lia|]. split; [exact Hsame|]. split; [exact Hnodes|].
        intros [|i] n' Hi; simpl in Hi.
        -- inversion Hi; subst n'. repeat split; try tauto.
        -- exact (Hmap i n' Hi).
Qed.

End BindMap.

Lemma find_consumer_node_first nodeid l : forall i k c,
  find_consumer_node nodeid i l = Some (k, c) ->
  exists idx : nat,
    k = i + Z.of_nat idx /\ l !! idx = Some c /\ cs_node c = nodeid
    /\ forall (idx' : nat) c', (idx' < idx)%nat -> l !! idx' = Some c' ->
                               cs_node c' <> nodeid.
Proof.
  induction l as [|c0 l IH]; intros i k c H; simpl in H; [discriminate|].
  destruct (Z.eqb_spec (cs_node c0) nodeid) as [He|Hne].
  - inversion H; subst. exists 0%nat. split; [lia|]. split; [reflexivity|].
    split; [reflexivity|]. intros idx' c' Hlt. lia.
  - apply IH in H as (idx & -> & Hl & Hn & Hfirst). exists (S idx).
    split; [lia|]. split; [exact Hl|]. split; [exact Hn|].
    intros [|idx'] c' Hlt Hl'; simpl in Hl'.
    + inversion Hl'; subst c'. exact Hne.
    + apply (Hfirst idx' c'); [lia|exact Hl'].
Qed.

(** The slot of a node stays its slot when only its other fields change. *)
Lemma find_consumer_node_insert nodeid l (j : nat) c c' :
  find_consumer_node nodeid 0 l = Some (Z.of_nat j, c) ->
  cs_node c' = nodeid ->
  find_consumer_node nodeid 0 (<[j := c']> l) = Some (Z.of_nat j, c').
Proof.
  intros Hf Hn.
  apply find_consumer_node_first in Hf as (idx & Hk & Hl & _ & Hfirst).
  assert (idx = j) by lia. subst idx.
  rewrite (find_consumer_node_lookup nodeid (<[j := c']> l) 0 j c');
    [reflexivity| |exact Hn|].
  - apply list_lookup_insert_eq. apply lookup_lt_Some in Hl. exact Hl.
  - intros idx' c0 Hlt Hl'. rewrite list_lookup_insert_ne in Hl' by lia.
    exact (Hfirst idx' c0 Hlt Hl').
Qed.

Section BindConsumer.

Variable MyProcPid PGXC_PARENT_NODE_ID : Z.

(** A consumer session whose node has a slot that the producer has not
    closed: it takes the slot, whatever else [consNodes] lists. *)
Lemma bind_consumer_loop_spec sq_nodeid (j : nat) consNodes :
  forall l c myindex,
    find_consumer_node PGXC_PARENT_NODE_ID 0 l = Some (Z.of_nat j, c) ->
    cs_status c <> CONSUMER_ERROR -> cs_status c <> CONSUMER_DONE ->
    exists ev,
      bind_consumer_loop MyProcPid PGXC_PARENT_NODE_ID consNodes sq_nodeid l
        myindex
      = (inr (if bool_decide (PGXC_PARENT_NODE_ID ∈ consNodes
                              /\ PGXC_PARENT_NODE_ID <> sq_nodeid)
              then Z.of_nat j else myindex),
         if bool_decide (PGXC_PARENT_NODE_ID ∈ consNodes
                         /\ PGXC_PARENT_NODE_ID <> sq_nodeid)
         then <[j := set_pid MyProcPid c]> l else l, ev).
Proof.
  induction consNodes as [|nodeid consNodes IH];
    intros l c myindex Hf Herr Hdone; cbn [bind_consumer_loop].
  - rewrite bool_decide_eq_false_2; [eauto|].
    intros [H _]. apply elem_of_nil in H. exact H.
  - assert (Hskip : PGXC_PARENT_NODE_ID <> nodeid
                    \/ PGXC_PARENT_NODE_ID = sq_nodeid ->
              bool_decide (PGXC_PARENT_NODE_ID ∈ nodeid :: consNodes
                           /\ PGXC_PARENT_NODE_ID <> sq_nodeid)
              = bool_decide (PGXC_PARENT_NODE_ID ∈ consNodes
                             /\ PGXC_PARENT_NODE_ID <> sq_nodeid)).
    { intros H. apply bool_decide_ext. rewrite elem_of_cons. tauto. }
    destruct (Z.eqb_spec nodeid sq_nodeid) as [Hp|Hp].
    { rewrite Hskip.
      - apply IH; assumption.
      - destruct (decide (PGXC_PARENT_NODE_ID = nodeid)); [right|left];
          congruence. }
    destruct (Z.eqb_spec nodeid PGXC_PARENT_NODE_ID) as [Hme|Hme].
    + subst nodeid. rewrite Hf.
      rewrite bool_decide_eq_false_2 by tauto.
      rewrite Nat2Z.id.
      destruct (IH (<[j := set_pid MyProcPid c]> l) (set_pid MyProcPid c)
                  (Z.of_nat j)) as [ev Hev].
      { apply (find_consumer_node_insert _ l j c); [exact Hf|].
        apply find_consumer_node_first in Hf as (_ & _ & _ & Hn & _).
        exact Hn. }
      { exact Herr. } { exact Hdone. }
      rewrite Hev. eexists.
      rewrite (bool_decide_eq_true_2
                 (PGXC_PARENT_NODE_ID ∈ PGXC_PARENT_NODE_ID :: consNodes
                  /\ PGXC_PARENT_NODE_ID <> sq_nodeid))
        by (split; [apply elem_of_cons; auto|congruence]).
      destruct (bool_decide _); [|reflexivity].
      rewrite list_insert_insert_eq. reflexivity.
    + rewrite Hskip by (left; congruence).
      destruct (find_consumer_node nodeid 0 l) as [[i cstate]|];
        apply IH; assumption.
Qed.

End BindConsumer.

Lemma queued_slot_first (q : list Z) (k j : nat) (me : Z) l :
  cs_node <$> l = q ++ replicate k (-1) -> NoDup q -> me <> -1 ->
  (cs_node <$> l) !! j = Some me ->
  exists c, l !! j = Some c
            /\ find_consumer_node me 0 l = Some (Z.of_nat j, c).
Proof.
  intros Hnodes Hnd Hme Hj.
  pose proof Hj as Hj'. rewrite list_lookup_fmap in Hj'.
  destruct (l !! j) as [c|] eqn:Hl; [|discriminate].
  simpl in Hj'. assert (Hn : cs_node c = me) by congruence.
  exists c. split; [reflexivity|].
  assert (Hjq : q !! j = Some me).
  { rewrite Hnodes in Hj. apply lookup_app_Some in Hj as [Hj|[_ Hj]];
      [exact Hj|].
    apply lookup_replicate in Hj as [Hj _]. congruence. }
  rewrite (find_consumer_node_lookup me l 0 j c Hl Hn); [reflexivity|].
  intros idx' c' Hlt Hl' Hn'.
  assert (Hq' : q !! idx' = Some me).
  { assert (H : (cs_node <$> l) !! idx' = Some me)
      by (rewrite list_lookup_fmap, Hl'; simpl; congruence).
    rewrite Hnodes in H. apply lookup_app_Some in H as [H|[_ H]];
      [exact H|].
    apply lookup_replicate in H as [H _]. congruence. }
  pose proof (proj1 (NoDup_alt q) Hnd idx' j me Hq' Hjq). lia.
Qed.

(** X18. The index a producer stores in the consumer map for a node is
    the index a session of that node gets when it binds as a consumer.
    The producer, binding first to a queue whose slots are unused, gives
    the consumer nodes of [distNodes] the slots 0, 1, ... in the order of
    [distNodes] and stores the slot of each in the map at the position of
    the node; its own node is mapped to [SQ_CONS_SELF] and the nodes
    outside [consNodes] to [SQ_CONS_NONE].  The session that binds next
    from a mapped node gets that slot as [myindex] and has its pid stored
    in it. *)
Theorem consumer_binds_to_the_slot_in_the_map
  (producer_pid producer_node consumer_pid consumer_node : Z)
  (SQ_CONS_SELF SQ_CONS_NONE : Z) (sqname : string)
  (consNodes distNodes : list Z) (shm : Shmem) (sq : SQueueHeader)
  (i : nat) :
  SharedQueues shm !! sqname = Some sq -> sq_key sq = sqname ->
  sq_pid sq = 0 -> producer_pid <> 0 ->
  Forall (fun c => cs_node c = -1 /\ cs_status c <> CONSUMER_ERROR
                   /\ cs_status c <> CONSUMER_DONE) (sq_consumers sq) ->
  NoDup distNodes -> Forall (fun n => n <> -1) distNodes ->
  (length (queued_nodes producer_node consNodes distNodes)
   <= length (sq_consumers sq))%nat ->
  distNodes !! i = Some consumer_node ->
  consumer_node <> producer_node -> consumer_node ∈ consNodes ->
  exists consMap shm1 ev1 l1 (j : nat) shm2 ev2 l2 c,
    SharedQueueBind producer_pid producer_node SQ_CONS_SELF SQ_CONS_NONE
      sqname consNodes distNodes shm
    = (BindOk (-1) consMap, shm1, ev1)
    /\ length consMap = length distNodes
    /\ entry_consumers sqname shm1 = Some l1
    /\ cs_node <$> l1
       = queued_nodes producer_node consNodes distNodes
         ++ replicate (length (sq_consumers sq)
                       - length (queued_nodes producer_node consNodes
                                   distNodes)) (-1)
    /\ (forall (i' : nat) n, distNodes !! i' = Some n ->
          (n = producer_node -> consMap !! i' = Some SQ_CONS_SELF)
          /\ (n <> producer_node -> n ∉ consNodes ->
              consMap !! i' = Some SQ_CONS_NONE)
          /\ (n <> producer_node -> n ∈ consNodes ->
              exists j' : nat, consMap !! i' = Some (Z.of_nat j')
                               /\ (cs_node <$> l1) !! j' = Some n))
    /\ consMap !! i = Some (Z.of_nat j)
    /\ SharedQueueBind consumer_pid consumer_node SQ_CONS_SELF SQ_CONS_NONE
         sqname consNodes distNodes shm1
       = (BindOk (Z.of_nat j) [], shm2, ev2)
    /\ entry_consumers sqname shm2 = Some l2
    /\ l2 !! j = Some c
    /\ cs_pid c = consumer_pid /\ cs_node c = consumer_node.
Proof.
  intros Hl Hk Hpid HP Hslots Hnd Hdist Hlen Hi Hne Hmem.
  pose proof (bind_producer_loop_spec producer_node SQ_CONS_SELF SQ_CONS_NONE
                consNodes distNodes [] (sq_consumers sq) Hnd) as Hspec.
  cbv zeta in Hspec. cbn [app fmap list_fmap] in Hspec.
  specialize (Hspec ltac:(eapply Forall_impl; [exact Hdist|];
                          intros n Hn; split; [exact Hn|apply not_elem_of_nil])
                    ltac:(constructor)
                    ltac:(eapply Forall_impl; [exact Hslots|];
                          intros c Hc; exact (proj1 Hc))
                    Hlen).
  unfold SharedQueueBind at 1. rewrite Hl, Hpid. change (0 =? 0) with true.
  cbv iota. cbn [sq_consumers set_sq_producer].
  destruct (bind_producer_loop producer_node SQ_CONS_SELF SQ_CONS_NONE
              distNodes consNodes (sq_consumers sq)) as [consMap l1].
  cbn [fst snd] in Hspec. destruct Hspec as (Hlmap & Hsame & Hnodes & Hmap).
  destruct (Hmap i consumer_node Hi) as (_ & _ & Hj).
  destruct (Hj Hne Hmem) as (j & Hmapi & Hnodej).
  assert (Hqnd : NoDup (queued_nodes producer_node consNodes distNodes))
    by (apply NoDup_filter; exact Hnd).
  assert (Hme1 : consumer_node <> -1).
  { rewrite Forall_forall in Hdist. apply Hdist.
    apply list_elem_of_lookup. eauto. }
  destruct (queued_slot_first _ _ j consumer_node l1 Hnodes Hqnd Hme1 Hnodej)
    as (c & Hlj & Hfind).
  (* the status of the slot is the one it had *)
  assert (Hst : cs_status c <> CONSUMER_ERROR /\ cs_status c <> CONSUMER_DONE).
  { assert (H : (set_node 0 <$> sq_consumers sq) !! j
                = Some (set_node 0 c))
      by (rewrite <- Hsame, list_lookup_fmap, Hlj; reflexivity).
    rewrite list_lookup_fmap in H.
    destruct (sq_consumers sq !! j) as [c0|] eqn:Hc0; [|discriminate].
    simpl in H. rewrite Forall_forall in Hslots.
    destruct (Hslots c0 (list_elem_of_lookup_2 _ _ _ Hc0)) as (_ & He & Hd).
    assert (cs_status c = cs_status c0).
    { change (cs_status (set_node 0 c) = cs_status (set_node 0 c0)).
      congruence. }
    split; congruence. }
  set (sq1 := set_sq_refcnt _ _).
  assert (Hl1 : SharedQueues (set_queue sq1 shm) !! sqname = Some sq1).
  { unfold set_queue. cbn [SharedQueues]. subst sq1.
    cbn [sq_key set_sq_refcnt set_sq_consumers set_sq_producer].
    rewrite Hk. apply lookup_insert_eq. }
  destruct (bind_consumer_loop_spec consumer_pid consumer_node producer_node
              j consNodes l1 c (-1) Hfind (proj1 Hst) (proj2 Hst))
    as [ev Hev].
  rewrite bool_decide_eq_true_2 in Hev by (split; assumption).
  eexists consMap, _, _, l1, j, _, _, _, (set_pid consumer_pid c).
  split; [reflexivity|]. split; [exact Hlmap|]. split.
  { unfold entry_consumers. rewrite Hl1. reflexivity. }
  split; [exact Hnodes|]. split; [exact Hmap|]. split; [exact Hmapi|].
  unfold SharedQueueBind. rewrite Hl1.
  assert (Hp1 : (sq_pid sq1 =? 0) = false)
    by (subst sq1; cbn; apply Z.eqb_neq; exact HP).
  rewrite Hp1.
  change (sq_nodeid sq1) with producer_node.
  change (sq_consumers sq1) with l1. rewrite Hev.
  split; [reflexivity|]. split.
  { unfold entry_consumers, set_queue.
    cbn [SharedQueues sq_key set_sq_consumers].
    change (sq_key sq1) with (sq_key sq). rewrite Hk, lookup_insert_eq.
    reflexivity. }
  split.
  { apply list_lookup_insert_eq. apply lookup_lt_Some in Hlj. exact Hlj. }
  split; [reflexivity|].
  apply find_consumer_node_first in Hfind as (_ & _ & _ & Hn & _). exact Hn.
Qed.

Lemma consumer_binds_to_the_slot_in_the_map_witness :
  exists consMap shm1 ev1 l1 (j : nat) shm2 ev2 l2 c,
    SharedQueueBind 100 1 (-1) (-2) "q" [1; 2; 3] [1; 2; 3; 4]
      sample_acquired
    = (BindOk (-1) consMap, shm1, ev1)
    /\ length consMap = length [1; 2; 3; 4]
    /\ entry_consumers "q" shm1 = Some l1
    /\ cs_node <$> l1
       = queued_nodes 1 [1; 2; 3] [1; 2; 3; 4]
         ++ replicate (length (replicate 2 (format_consumer 16))
                       - length (queued_nodes 1 [1; 2; 3] [1; 2; 3; 4]))
              (-1)
    /\ (forall (i' : nat) n, [1; 2; 3; 4] !! i' = Some n ->
          (n = 1 -> consMap !! i' = Some (-1))
          /\ (n <> 1 -> n ∉ [1; 2; 3] -> consMap !! i' = Some (-2))
          /\ (n <> 1 -> n ∈ [1; 2; 3] ->
              exists j' : nat, consMap !! i' = Some (Z.of_nat j')
                               /\ (cs_node <$> l1) !! j' = Some n))
    /\ consMap !! 1%nat = Some (Z.of_nat j)
    /\ SharedQueueBind 200 2 (-1) (-2) "q" [1; 2; 3] [1; 2; 3; 4] shm1
       = (BindOk (Z.of_nat j) [], shm2, ev2)
    /\ entry_consumers "q" shm2 = Some l2
    /\ l2 !! j = Some c
    /\ cs_pid c = 200 /\ cs_node c = 2.
Proof.
  apply (consumer_binds_to_the_slot_in_the_map 100 1 200 2 (-1) (-2) "q"
           [1; 2; 3] [1; 2; 3; 4] sample_acquired
           (mkSQueueHeader "q" 0 (-1) (Some 0%nat) 1
              (replicate 2 (format_consumer 16))) 1).
  - reflexivity.
  - reflexivity.
  - reflexivity.
  - discriminate.
  - repeat constructor; discriminate.
  - apply (bool_decide_unpack _). vm_compute. exact I.
  - repeat constructor; discriminate.
  - vm_compute. lia.
  - reflexivity.
  - discriminate.
  - apply (bool_decide_unpack _). vm_compute. exact I.
Defined.

(** ** The life cycle of a queue *)

Lemma with_entry_lookup sq idx shm :
  SharedQueues (with_entry sq idx shm) !! sq_key sq = Some sq.
Proof. unfold with_entry. cbn [SharedQueues]. apply lookup_insert_eq. Qed.

Lemma with_entry_set_queue sq sq' idx shm :
  sq_key sq' = sq_key sq ->
  set_queue sq' (with_entry sq idx shm) = with_entry sq' idx shm.
Proof.
  intros Hk. unfold set_queue, with_entry. cbn [SharedQueues SQueueSyncs].
  rewrite Hk, insert_insert_eq. reflexivity.
Qed.

Lemma with_entry_drop sq idx shm :
  SharedQueues shm !! sq_key sq = None ->
  SQueueSyncs shm !! idx = Some None ->
  sq_sync sq = Some idx ->
  (drop_reference sq (with_entry sq idx shm)).1
  = if sq_refcnt sq =? 1
    then shm
    else with_entry (set_sq_refcnt (sq_refcnt sq - 1) sq) idx shm.
Proof.
  intros Hnone Hfree Hs. rewrite !drop_reference_eq.
  cbn [sq_refcnt set_sq_refcnt].
  destruct (Z.eqb_spec (sq_refcnt sq - 1) 0);
    destruct (Z.eqb_spec (sq_refcnt sq) 1); try lia; cbn [fst].
  - cbn [sq_key sq_sync set_sq_refcnt]. rewrite Hs. unfold with_entry.
    cbn [SharedQueues SQueueSyncs clear_sync_queue].
    rewrite delete_insert_id by exact Hnone.
    rewrite list_insert_insert_eq, list_insert_id by exact Hfree.
    destruct shm. reflexivity.
  - apply with_entry_set_queue. reflexivity.
Qed.

Section LifeCycle.

Variable NUM_SQUEUES : nat.
Variable SQUEUE_SIZE sizeof_SQueueHeader sizeof_ConsState : Z.
Variable SQ_CONS_SELF SQ_CONS_NONE : Z.
Variable producer_pid producer_node consumer_pid consumer_node : Z.
Variable sleep : Shmem -> Shmem.
Variable sqname : string.
Variable shm : Shmem.
Variable idx : nat.

Hypothesis Hnone : SharedQueues shm !! sqname = None.
Hypothesis Hroom : (size (SharedQueues shm) < NUM_SQUEUES)%nat.
Hypothesis Hfree : first_free_sync 0 (SQueueSyncs shm) = Some idx.
Hypothesis Hpid : producer_pid <> 0.
Hypothesis Hnodes : producer_node <> consumer_node.
Hypothesis Hp1 : producer_node <> -1.
Hypothesis Hc1 : consumer_node <> -1.

Local Notation "'lq'" := (life_queue sqname idx).
Local Notation "'qsz'" :=
  (life_qsize SQUEUE_SIZE sizeof_SQueueHeader sizeof_ConsState).
Local Notation "'slot'" := (life_slot consumer_pid consumer_node qsz).

Lemma life_acquire_first me :
  exists ev,
    SharedQueueAcquire NUM_SQUEUES SQUEUE_SIZE sizeof_SQueueHeader
      sizeof_ConsState me sleep sqname 1 shm
    = (AcquireOk,
       with_entry (lq 0 (-1) 1 [format_consumer qsz]) idx shm,
       ev).
Proof.
  unfold SharedQueueAcquire. cbn [acquire_loop]. rewrite Hnone.
  rewrite bool_decide_eq_false_2 by lia.
  unfold format_queue. cbn [sq_sync]. rewrite Hfree.
  eexists. reflexivity.
Qed.

Lemma life_acquire_second me :
  exists ev,
    SharedQueueAcquire NUM_SQUEUES SQUEUE_SIZE sizeof_SQueueHeader
      sizeof_ConsState me sleep sqname 1
      (with_entry (lq 0 (-1) 1 [format_consumer qsz]) idx shm)
    = (AcquireOk,
       with_entry (lq 0 (-1) 2 [format_consumer qsz]) idx shm,
       ev).
Proof.
  unfold SharedQueueAcquire. cbn [acquire_loop].
  rewrite (with_entry_lookup (lq 0 (-1) 1 _)).
  cbn [sq_pid life_queue]. change (0 =? 0) with true. cbv iota.
  eexists. f_equal. f_equal. unfold with_entry.
  cbn [SharedQueues SQueueSyncs sq_key life_queue].
  rewrite insert_insert_eq. reflexivity.
Qed.

Lemma life_bind_producer :
  exists ev,
    SharedQueueBind producer_pid producer_node SQ_CONS_SELF SQ_CONS_NONE
      sqname [producer_node; consumer_node] [producer_node; consumer_node]
      (with_entry (lq 0 (-1) 2 [format_consumer qsz]) idx shm)
    = (BindOk (-1) [SQ_CONS_SELF; 0],
       with_entry (lq producer_pid producer_node 3
                     [set_node consumer_node (format_consumer qsz)])
         idx shm, ev).
Proof.
  unfold SharedQueueBind.
  rewrite (with_entry_lookup (lq 0 (-1) 2 _)).
  cbn [sq_pid life_queue]. change (0 =? 0) with true. cbv iota.
  unfold life_queue at 1 2.
  cbn [bind_producer_loop sq_consumers set_sq_producer].
  rewrite Z.eqb_refl.
  destruct (Z.eqb_spec consumer_node producer_node) as [H|_]; [congruence|].
  rewrite bool_decide_eq_true_2 by (apply elem_of_cons; right;
                                    apply elem_of_cons; left; reflexivity).
  cbn [bind_assign format_consumer cs_node].
  destruct (Z.eqb_spec (-1) consumer_node) as [H|_]; [congruence|].
  change (-1 =? -1) with true. cbv iota.
  eexists. f_equal. f_equal.
  apply with_entry_set_queue. reflexivity.
Qed.

Lemma life_bind_consumer :
  exists ev,
    SharedQueueBind consumer_pid consumer_node SQ_CONS_SELF SQ_CONS_NONE
      sqname [producer_node; consumer_node] [producer_node; consumer_node]
      (with_entry (lq producer_pid producer_node 3
                     [set_node consumer_node (format_consumer qsz)])
         idx shm)
    = (BindOk 0 [],
       with_entry (lq producer_pid producer_node 3 [slot])
         idx shm, ev).
Proof.
  unfold SharedQueueBind.
  rewrite (with_entry_lookup (lq producer_pid producer_node 3 _)).
  cbn [sq_pid life_queue].
  destruct (Z.eqb_spec producer_pid 0) as [H|_]; [congruence|].
  unfold life_queue at 1 2 3.
  cbn [bind_consumer_loop sq_consumers sq_nodeid].
  rewrite Z.eqb_refl.
  destruct (Z.eqb_spec consumer_node producer_node) as [H|_]; [congruence|].
  cbn [find_consumer_node set_node format_consumer cs_node].
  rewrite Z.eqb_refl. cbn [cs_status].
  rewrite bool_decide_eq_false_2 by (intros [H|H]; discriminate).
  eexists. f_equal. f_equal.
  apply with_entry_set_queue. reflexivity.
Qed.

Lemma life_release_consumer c :
  cs_node c = consumer_node -> cs_status c = CONSUMER_DONE ->
  exists ev,
    SharedQueueRelease consumer_node sqname
      (with_entry (lq producer_pid producer_node 3 [c]) idx shm)
    = (with_entry (lq producer_pid producer_node 2 [c]) idx shm, ev).
Proof.
  intros Hn Hs. unfold SharedQueueRelease.
  rewrite (with_entry_lookup (lq producer_pid producer_node 3 _)).
  unfold release_slots. cbn [sq_nodeid life_queue].
  destruct (Z.eqb_spec producer_node (-1)) as [H|_]; [congruence|].
  destruct (Z.eqb_spec producer_node consumer_node) as [H|_]; [congruence|].
  change (sq_consumers (lq producer_pid producer_node 3 [c]))
    with [c].
  cbn [negb find_consumer_node]. rewrite Hn, Z.eqb_refl.
  assert (Hrel : (release_consumer 0 c).1 = c).
  { unfold release_consumer. destruct (cs_pid c =? 0); [reflexivity|].
    rewrite bool_decide_eq_false_2 by (rewrite Hs; intros H; apply H;
                                       reflexivity).
    reflexivity. }
  destruct (release_consumer 0 c) as [c' ev1]. cbn [fst] in Hrel. subst c'.
  change (<[Z.to_nat 0 := c]> [c]) with [c].
  change (set_sq_consumers [c] (lq producer_pid producer_node 3 [c]))
    with (lq producer_pid producer_node 3 [c]).
  pose proof (with_entry_set_queue
                (lq producer_pid producer_node 3 [c])
                (lq producer_pid producer_node 2 [c]) idx shm eq_refl)
    as Hset.
  rewrite !drop_reference_eq. cbn [sq_refcnt set_sq_refcnt].
  change (3 - 1 =? 0) with false. cbv iota.
  eexists. f_equal. exact Hset.
Qed.

Lemma life_unbind wait_producer fuel c :
  cs_status c = CONSUMER_DONE ->
  exists ev,
    SharedQueueUnBind wait_producer (fun s => s) (S fuel) sqname false
      (with_entry (lq producer_pid producer_node 2 [c]) idx shm)
    = (UnBindDone,
       with_entry (lq producer_pid producer_node 1 [c]) idx shm, ev)
    /\ latch_waits ev = [].
Proof.
  intros Hs. unfold SharedQueueUnBind.
  assert (Hscan : exists ev1,
            unbind_scan false 0
              (sq_consumers (lq producer_pid producer_node 2 [c]))
            = ([c], 0, ev1)).
  { cbn [sq_consumers life_queue unbind_scan]. rewrite Hs.
    rewrite bool_decide_eq_false_2 by discriminate.
    rewrite bool_decide_eq_false_2 by (intros H; apply H; reflexivity).
    eexists. reflexivity. }
  destruct Hscan as [ev1 Hscan].
  destruct (unbind_last_pass wait_producer (fun s => s) sqname
              ltac:(reflexivity) fuel false
              (with_entry (lq producer_pid producer_node 2 [c]) idx
                 shm)
              (lq producer_pid producer_node 2 [c]) [c] ev1
              (with_entry_lookup (lq producer_pid producer_node 2 [c])
                 idx shm) eq_refl Hscan)
    as (ev & Heq & Hw).
  { constructor; [|constructor]. rewrite Hs. discriminate. }
  exists ev. split; [|exact Hw]. rewrite Heq. f_equal. f_equal.
  rewrite (with_entry_set_queue (lq producer_pid producer_node 2 [c])).
  2: reflexivity.
  rewrite !drop_reference_eq. cbn [sq_refcnt set_sq_refcnt set_sq_consumers
                              life_queue].
  change (2 - 1 =? 0) with false. cbv iota. cbn [fst].
  apply with_entry_set_queue. reflexivity.
Qed.

Lemma life_release_producer l :
  exists ev,
    SharedQueueRelease producer_node sqname
      (with_entry (lq producer_pid producer_node 1 l) idx shm)
    = (shm, ev).
Proof.
  unfold SharedQueueRelease.
  rewrite (with_entry_lookup (lq producer_pid producer_node 1 _)).
  unfold release_slots. cbn [sq_nodeid life_queue].
  destruct (Z.eqb_spec producer_node (-1)) as [H|_]; [congruence|].
  rewrite Z.eqb_refl. cbn [negb].
  pose proof (with_entry_drop (lq producer_pid producer_node 1 l) idx
                shm Hnone) as Hdrop.
  apply first_free_sync_Some in Hfree as [_ Hidx].
  rewrite Nat.sub_0_r in Hidx. specialize (Hdrop Hidx eq_refl).
  change (sq_refcnt (lq producer_pid producer_node 1 l) =? 1)
    with true in Hdrop. cbv iota in Hdrop.
  destruct (drop_reference _ _) as [s ev]. cbn [fst] in Hdrop. subst s.
  eexists. reflexivity.
Qed.

End LifeCycle.

Lemma life_slot_fresh pid node qsize :
  SIZEOF_INT < qsize <= QLENGTH_MAX -> fresh_slot (life_slot pid node qsize).
Proof.
  intros H. unfold fresh_slot, slot_wf, life_slot. cbn.
  unfold SIZEOF_INT in *. repeat split; lia.
Qed.

Lemma with_consumers_entry sqname idx pid nodeid refcnt l l' shm :
  with_consumers sqname l'
    (with_entry (life_queue sqname idx pid nodeid refcnt l) idx shm)
  = with_entry (life_queue sqname idx pid nodeid refcnt l') idx shm.
Proof.
  unfold with_consumers.
  rewrite (with_entry_lookup (life_queue sqname idx pid nodeid refcnt l)).
  apply with_entry_set_queue. reflexivity.
Qed.

(** A row that fits is queued at once when no store is kept. *)
Lemma write_fitting_row idx cstate datarow :
  fresh_slot cstate ->
  SIZEOF_INT + msglen datarow <= cs_qlength cstate ->
  exists c ev,
    SharedQueueWrite idx cstate datarow None = (c, None, ev)
    /\ ring_inv c (Normal [datarow])
    /\ cs_status c = CONSUMER_ACTIVE /\ cs_node c = cs_node cstate.
Proof.
  intros Hfresh Hfit. pose proof (fresh_ring _ Hfresh) as Hr.
  destruct Hfresh as (Hwf & Hst & Hn & Hpos).
  assert (Hfree : QUEUE_FREE_SPACE cstate = cs_qlength cstate).
  { unfold QUEUE_FREE_SPACE. rewrite Hn. reflexivity. }
  destruct (enqueue_mode cstate (Normal []) datarow Hr eq_refl
              ltac:(rewrite Hfree; exact Hfit)) as (Hr' & Hs' & _ & _ & Hn').
  unfold SharedQueueWrite. cbv zeta. rewrite Hfree.
  destruct (Z.ltb_spec (cs_qlength cstate) (SIZEOF_INT + msglen datarow))
    as [H|_]; [lia|].
  rewrite bool_decide_eq_true_2 by exact Hst.
  eexists _, _. split; [reflexivity|].
  split; [exact Hr'|]. split; [congruence|exact Hn'].
Qed.

Lemma read_queued_row {Env : Type} (wait : Env -> ConsState -> Env * ConsState)
  fuel idx canwait env cstate t rq :
  ring_inv cstate (Normal (t :: rq)) ->
  exists c ev,
    SharedQueueRead wait fuel idx canwait env cstate
    = (ReadTuple t, env, c, ev)
    /\ ring_inv c (Normal rq)
    /\ cs_status c = cs_status cstate /\ cs_node c = cs_node cstate.
Proof.
  intros Hr.
  destruct (read_row_normal wait fuel idx env cstate t rq Hr)
    as (c & Heq & Hrc & Hst & _ & _ & Hnode).
  unfold SharedQueueRead.
  assert (Hn : (cs_ntuples cstate <=? 0) = false).
  { destruct Hr as [_ [Hn _]]. simpl in Hn. apply Z.leb_gt. lia. }
  assert (Hloop : read_loop wait fuel idx canwait env cstate
                  = read_row wait fuel idx env cstate).
  { destruct fuel; cbn [read_loop]; rewrite Hn; reflexivity. }
  rewrite Hloop, Heq. eexists _, _. split; [reflexivity|]. auto.
Qed.

Lemma read_at_eof {Env : Type} (wait : Env -> ConsState -> Env * ConsState)
  fuel idx canwait env cstate :
  cs_ntuples cstate = 0 -> cs_status cstate = CONSUMER_EOF ->
  exists ev,
    SharedQueueRead wait fuel idx canwait env cstate
    = (ReadEOF, env, set_status CONSUMER_DONE cstate, ev).
Proof.
  intros Hn Hs. unfold SharedQueueRead.
  assert (Hloop : read_loop wait fuel idx canwait env cstate
                  = (ReadEOF, env, set_status CONSUMER_DONE cstate,
                     eof_trace idx)).
  { destruct fuel; cbn [read_loop]; rewrite Hn, Hs; reflexivity. }
  rewrite Hloop. eexists. reflexivity.
Qed.

(** X19. The life cycle of a queue with one consumer leaves the shared
    memory as it found it.  Both sessions acquire the queue, the producer
    binds and maps the consumer's node to slot 0, the consumer binds to
    that slot; a row that fits is written and read back, the producer
    finishes and the consumer reads the end; the consumer releases the
    queue, the producer unbinds without sleeping and releases it.  After
    the last call the entry is gone from the hash table and its sync block
    is free again. *)
Theorem queue_life_cycle_restores_shared_memory {Env : Type}
  (NUM_SQUEUES : nat) (SQUEUE_SIZE sizeof_SQueueHeader sizeof_ConsState : Z)
  (SQ_CONS_SELF SQ_CONS_NONE : Z)
  (producer_pid producer_node consumer_pid consumer_node : Z)
  (sleep : Shmem -> Shmem) (wait_producer : Shmem -> Shmem * bool)
  (wait : Env -> ConsState -> Env * ConsState) (fuel : nat) (canwait : bool)
  (env : Env) (sqname : string) (datarow : RemoteDataRow) (shm : Shmem) :
  registry_inv NUM_SQUEUES shm ->
  SharedQueues shm !! sqname = None ->
  (size (SharedQueues shm) < NUM_SQUEUES)%nat ->
  producer_pid <> 0 -> producer_node <> consumer_node ->
  producer_node <> -1 -> consumer_node <> -1 ->
  SIZEOF_INT < life_qsize SQUEUE_SIZE sizeof_SQueueHeader sizeof_ConsState
  <= QLENGTH_MAX ->
  SIZEOF_INT + msglen datarow
  <= life_qsize SQUEUE_SIZE sizeof_SQueueHeader sizeof_ConsState ->
  exists s1 s2 s3 s4 c4 c5 c6 sq6 sq7 c7 c8 s9 s10
         ev1 ev2 ev3 ev4 ev5 ev6 ev7 ev8 ev9 ev10 ev11,
    SharedQueueAcquire NUM_SQUEUES SQUEUE_SIZE sizeof_SQueueHeader
      sizeof_ConsState producer_node sleep sqname 1 shm
    = (AcquireOk, s1, ev1)
    /\ SharedQueueAcquire NUM_SQUEUES SQUEUE_SIZE sizeof_SQueueHeader
         sizeof_ConsState consumer_node sleep sqname 1 s1
       = (AcquireOk, s2, ev2)
    /\ SharedQueueBind producer_pid producer_node SQ_CONS_SELF SQ_CONS_NONE
         sqname [producer_node; consumer_node]
         [producer_node; consumer_node] s2
       = (BindOk (-1) [SQ_CONS_SELF; 0], s3, ev3)
    /\ SharedQueueBind consumer_pid consumer_node SQ_CONS_SELF SQ_CONS_NONE
         sqname [producer_node; consumer_node]
         [producer_node; consumer_node] s3
       = (BindOk 0 [], s4, ev4)
    /\ entry_consumers sqname s4 = Some [c4]
    /\ SharedQueueWrite 0 c4 datarow None = (c5, None, ev5)
    /\ SharedQueueRead wait fuel 0 canwait env c5
       = (ReadTuple datarow, env, c6, ev6)
    /\ SharedQueues (with_consumers sqname [c6] s4) !! sqname = Some sq6
    /\ SharedQueueFinish sq6 [None] = (0, sq7, [None], ev7)
    /\ sq_consumers sq7 = [c7]
    /\ SharedQueueRead wait fuel 0 canwait env c7 = (ReadEOF, env, c8, ev8)
    /\ SharedQueueRelease consumer_node sqname
         (with_consumers sqname [c8] s4)
       = (s9, ev9)
    /\ SharedQueueUnBind wait_producer (fun s => s) 1 sqname false s9
       = (UnBindDone, s10, ev10)
    /\ latch_waits ev10 = []
    /\ SharedQueueRelease producer_node sqname s10 = (shm, ev11).
Proof.
  intros Hinv Hnone Hroom Hpid Hnodes Hp1 Hc1 Hqsize Hfit.
  destruct (free_sync_block NUM_SQUEUES shm Hinv Hroom) as (idx & Hfree & _).
  set (qsize := life_qsize SQUEUE_SIZE sizeof_SQueueHeader sizeof_ConsState)
    in *.
  destruct (life_acquire_first NUM_SQUEUES SQUEUE_SIZE sizeof_SQueueHeader
              sizeof_ConsState sleep sqname shm idx Hnone Hroom Hfree
              producer_node) as [ev1 H1].
  destruct (life_acquire_second NUM_SQUEUES SQUEUE_SIZE sizeof_SQueueHeader
              sizeof_ConsState sleep sqname shm idx consumer_node)
    as [ev2 H2].
  destruct (life_bind_producer SQUEUE_SIZE sizeof_SQueueHeader
              sizeof_ConsState SQ_CONS_SELF SQ_CONS_NONE producer_pid
              producer_node consumer_node sqname shm idx Hnodes Hc1)
    as [ev3 H3].
  destruct (life_bind_consumer SQUEUE_SIZE sizeof_SQueueHeader
              sizeof_ConsState SQ_CONS_SELF SQ_CONS_NONE producer_pid
              producer_node consumer_pid consumer_node sqname shm idx Hpid
              Hnodes) as [ev4 H4].
  fold qsize in H1, H2, H3, H4.
  set (c4 := life_slot consumer_pid consumer_node qsize) in *.
  pose proof (life_slot_fresh consumer_pid consumer_node qsize Hqsize)
    as Hfresh. fold c4 in Hfresh.
  destruct (write_fitting_row 0 c4 datarow Hfresh Hfit)
    as (c5 & ev5 & H5 & Hr5 & Hs5 & Hn5).
  destruct (read_queued_row wait fuel 0 canwait env c5 datarow [] Hr5)
    as (c6 & ev6 & H6 & Hr6 & Hs6 & Hn6).
  assert (Hnt6 : cs_ntuples c6 = 0) by (destruct Hr6 as [_ [H _]]; exact H).
  assert (Hst6 : cs_status c6 = CONSUMER_ACTIVE) by congruence.
  set (c7 := set_status CONSUMER_EOF c6).
  destruct (read_at_eof wait fuel 0 canwait env c7 Hnt6 eq_refl)
    as [ev8 H8].
  set (c8 := set_status CONSUMER_DONE c7) in *.
  assert (Hn8 : cs_node c8 = consumer_node).
  { change (cs_node c6 = consumer_node). rewrite Hn6, Hn5. reflexivity. }
  destruct (life_release_consumer producer_pid producer_node consumer_node
              sqname shm idx Hnodes Hp1 c8 Hn8 eq_refl) as [ev9 H9].
  destruct (life_unbind producer_pid producer_node sqname shm idx
              wait_producer 0 c8 eq_refl) as (ev10 & H10 & Hw10).
  destruct (life_release_producer producer_pid producer_node sqname shm idx
              Hnone Hfree Hp1 [c8]) as [ev11 H11].
  eexists _, _, _, _, c4, c5, c6, _, _, c7, c8, _, _.
  eexists ev1, ev2, ev3, ev4, ev5, ev6, _, ev8, ev9, ev10, ev11.
  split; [exact H1|]. split; [exact H2|]. split; [exact H3|].
  split; [exact H4|]. split.
  { unfold entry_consumers.
    rewrite (with_entry_lookup
               (life_queue sqname idx producer_pid producer_node 3 [c4])).
    reflexivity. }
  split; [exact H5|]. split; [exact H6|].
  rewrite !with_consumers_entry. split.
  { exact (with_entry_lookup
             (life_queue sqname idx producer_pid producer_node 3 [c6]) idx
             shm). }
  split.
  { unfold SharedQueueFinish.
    cbn [sq_consumers life_queue finish_loop head tail mjoin option_join].
    unfold finish_consumer. rewrite bool_decide_eq_true_2 by exact Hst6.
    reflexivity. }
  split; [reflexivity|]. split; [exact H8|]. split; [exact H9|].
  split; [exact H10|]. split; [exact Hw10|exact H11].
Qed.

Lemma queue_life_cycle_restores_shared_memory_witness :
  exists s1 s2 s3 s4 c4 c5 c6 sq6 sq7 c7 c8 s9 s10
         ev1 ev2 ev3 ev4 ev5 ev6 ev7 ev8 ev9 ev10 ev11,
    SharedQueueAcquire 2 100 40 44 1 (fun s => s) "q" 1
      (SharedQueuesInit 2 4).1.1
    = (AcquireOk, s1, ev1)
    /\ SharedQueueAcquire 2 100 40 44 2 (fun s => s) "q" 1 s1
       = (AcquireOk, s2, ev2)
    /\ SharedQueueBind 100 1 (-1) (-2) "q" [1; 2] [1; 2] s2
       = (BindOk (-1) [-1; 0], s3, ev3)
    /\ SharedQueueBind 200 2 (-1) (-2) "q" [1; 2] [1; 2] s3
       = (BindOk 0 [], s4, ev4)
    /\ entry_consumers "q" s4 = Some [c4]
    /\ SharedQueueWrite 0 c4 (counting_row 5) None = (c5, None, ev5)
    /\ SharedQueueRead (fun (e : unit) c => (e, c)) 0 0 false tt c5
       = (ReadTuple (counting_row 5), tt, c6, ev6)
    /\ SharedQueues (with_consumers "q" [c6] s4) !! "q" = Some sq6
    /\ SharedQueueFinish sq6 [None] = (0, sq7, [None], ev7)
    /\ sq_consumers sq7 = [c7]
    /\ SharedQueueRead (fun (e : unit) c => (e, c)) 0 0 false tt c7
       = (ReadEOF, tt, c8, ev8)
    /\ SharedQueueRelease 2 "q" (with_consumers "q" [c8] s4) = (s9, ev9)
    /\ SharedQueueUnBind (fun s => (s, true)) (fun s => s) 1 "q" false s9
       = (UnBindDone, s10, ev10)
    /\ latch_waits ev10 = []
    /\ SharedQueueRelease 1 "q" s10 = ((SharedQueuesInit 2 4).1.1, ev11).
Proof.
  apply (queue_life_cycle_restores_shared_memory 2 100 40 44 (-1) (-2)
           100 1 200 2 (fun s => s) (fun s => (s, true))
           (fun (e : unit) c => (e, c)) 0 false tt "q" (counting_row 5)
           (SharedQueuesInit 2 4).1.1).
  - apply init_registry_inv.
  - reflexivity.
  - vm_compute. lia.
  - discriminate.
  - discriminate.
  - discriminate.
  - discriminate.
  - vm_compute. split; [reflexivity|discriminate].
  - vm_compute. discriminate.
Defined.

Section BindFailed.

Variable MyProcPid PGXC_PARENT_NODE_ID : Z.

(** A consumer session whose slot the producer has closed: the first
    mention of its node in [consNodes] ends the loop. *)
Lemma bind_consumer_loop_failed sq_nodeid (j : nat) c l consNodes :
  find_consumer_node PGXC_PARENT_NODE_ID 0 l = Some (Z.of_nat j, c) ->
  cs_status c = CONSUMER_ERROR \/ cs_status c = CONSUMER_DONE ->
  PGXC_PARENT_NODE_ID ∈ consNodes -> PGXC_PARENT_NODE_ID <> sq_nodeid ->
  forall myindex,
    bind_consumer_loop MyProcPid PGXC_PARENT_NODE_ID consNodes sq_nodeid l
      myindex
    = (inl (cs_status c), <[j := set_status CONSUMER_DONE c]> l,
       [LWLockAcquire (cs_lwlock (Z.of_nat j)) LW_EXCLUSIVE;
        SetLatch sqs_producer_latch;
        LWLockRelease (cs_lwlock (Z.of_nat j));
        LWLockRelease sqs_producer_lwlock]).
Proof.
  intros Hf Hst Hin Hne.
  induction consNodes as [|nodeid consNodes IH]; intros myindex.
  { apply elem_of_nil in Hin. contradiction. }
  cbn [bind_consumer_loop].
  destruct (Z.eqb_spec nodeid PGXC_PARENT_NODE_ID) as [Hme|Hme].
  - subst nodeid.
    destruct (Z.eqb_spec PGXC_PARENT_NODE_ID sq_nodeid) as [H|_];
      [congruence|].
    rewrite Hf. rewrite bool_decide_eq_true_2 by exact Hst.
    rewrite Nat2Z.id. reflexivity.
  - apply elem_of_cons in Hin as [Hin|Hin]; [congruence|].
    destruct (nodeid =? sq_nodeid); [apply IH; exact Hin|].
    destruct (find_consumer_node nodeid 0 l) as [[i cstate]|];
      apply IH; exact Hin.
Qed.

End BindFailed.

(** X20. A session that binds as a consumer after the producer has closed
    its slot, with an error or as done, gets the producer error with the
    status found.  Before raising it the call marks the slot done and sets
    the producer latch, so that the producer can unbind, and releases the
    locks it holds; no other slot is touched. *)
Theorem bind_after_producer_failure_reports_it
  (MyProcPid me SQ_CONS_SELF SQ_CONS_NONE : Z) (sqname : string)
  (consNodes distNodes : list Z) (shm : Shmem) (sq : SQueueHeader)
  (j : nat) (c : ConsState) :
  SharedQueues shm !! sqname = Some sq -> sq_key sq = sqname ->
  sq_pid sq <> 0 -> me <> sq_nodeid sq -> me ∈ consNodes ->
  find_consumer_node me 0 (sq_consumers sq) = Some (Z.of_nat j, c) ->
  cs_status c = CONSUMER_ERROR \/ cs_status c = CONSUMER_DONE ->
  exists shm' ev,
    SharedQueueBind MyProcPid me SQ_CONS_SELF SQ_CONS_NONE sqname consNodes
      distNodes shm
    = (BindProducerFailed (cs_status c), shm', ev)
    /\ entry_consumers sqname shm'
       = Some (<[j := set_status CONSUMER_DONE c]> (sq_consumers sq))
    /\ SetLatch sqs_producer_latch ∈ ev
    /\ lock_disciplined ev.
Proof.
  intros Hl Hk Hpid Hne Hin Hf Hst. unfold SharedQueueBind. rewrite Hl.
  destruct (Z.eqb_spec (sq_pid sq) 0) as [H|_]; [congruence|].
  rewrite (bind_consumer_loop_failed MyProcPid me (sq_nodeid sq) j c
             (sq_consumers sq) consNodes Hf Hst Hin Hne).
  eexists _, _. split; [reflexivity|]. split.
  { unfold entry_consumers, set_queue.
    cbn [SharedQueues sq_key set_sq_consumers].
    rewrite Hk, lookup_insert_eq. reflexivity. }
  split.
  { apply elem_of_app. right. apply elem_of_cons. right.
    apply elem_of_cons. left. reflexivity. }
  apply lock_check_disciplined. lock_compute. reflexivity.
Qed.

Lemma bind_after_producer_failure_reports_it_witness :
  exists shm' ev,
    SharedQueueBind 200 7 (-1) (-2) "q" [7] [7]
      (sample_shmem 100 CONSUMER_ERROR)
    = (BindProducerFailed (cs_status (sample_consumer CONSUMER_ERROR)),
       shm', ev)
    /\ entry_consumers "q" shm'
       = Some (<[0%nat := set_status CONSUMER_DONE
                            (sample_consumer CONSUMER_ERROR)]>
                 (sq_consumers (sample_queue 100 CONSUMER_ERROR)))
    /\ SetLatch sqs_producer_latch ∈ ev
    /\ lock_disciplined ev.
Proof.
  apply (bind_after_producer_failure_reports_it 200 7 (-1) (-2) "q" [7] [7]
           (sample_shmem 100 CONSUMER_ERROR)
           (sample_queue 100 CONSUMER_ERROR) 0
           (sample_consumer CONSUMER_ERROR)).
  - reflexivity.
  - reflexivity.
  - discriminate.
  - discriminate.
  - apply elem_of_cons. left. reflexivity.
  - reflexivity.
  - left. reflexivity.
Defined.

(** ** Closing a consumer lets the producer unbind *)

Section Closing.

Variable wait_producer : Shmem -> Shmem * bool.
Variable unlocked : Shmem -> Shmem.
Variable sqname : string.

Hypothesis unlocked_keeps : forall s,
  SharedQueues (unlocked s) !! sqname = SharedQueues s !! sqname.

(** With every consumer done the producer unbinds in one pass, without
    sleeping. *)
Lemma unbind_all_done fuel shm sq :
  SharedQueues shm !! sqname = Some sq -> sq_key sq = sqname ->
  Forall consumer_done (sq_consumers sq) ->
  exists shm' ev,
    SharedQueueUnBind wait_producer unlocked (S fuel) sqname false shm
    = (UnBindDone, shm', ev)
    /\ latch_waits ev = []
    /\ entry_consumers sqname shm'
       = if sq_refcnt sq =? 1 then None else Some (sq_consumers sq).
Proof.
  intros Hl Hk Hdone. unfold SharedQueueUnBind.
  destruct (unbind_scan false 0 (sq_consumers sq)) as [[l c_count] ev1] eqn:E.
  pose proof (unbind_scan_not_failed (sq_consumers sq) 0) as Hscan.
  rewrite E in Hscan. cbn [fst snd] in Hscan.
  destruct Hscan as (-> & _ & Hz). pose proof (proj2 Hz Hdone) as ->.
  destruct (unbind_last_pass wait_producer unlocked sqname unlocked_keeps
              fuel false shm sq _ ev1 Hl Hk E (done_not_running _ Hdone))
    as (ev & Heq & Hw).
  eexists _, ev. split; [exact Heq|]. split; [exact Hw|].
  apply entry_consumers_dropped. exact Hk.
Qed.

End Closing.

Lemma disconnect_consumers me sqname shm sq :
  SharedQueues shm !! sqname = Some sq -> sq_key sq = sqname ->
  sq_pid sq <> 0 ->
  exists shm',
    (SharedQueueDisconnectConsumer me sqname (Some shm)).1 = Some shm'
    /\ SharedQueues shm' !! sqname
       = Some (set_sq_consumers (disconnect_slot me <$> sq_consumers sq) sq).
Proof.
  intros Hl Hk Hpid. unfold SharedQueueDisconnectConsumer. rewrite Hl.
  destruct (Z.eqb_spec (sq_pid sq) 0) as [H|_]; [congruence|].
  pose proof (for_consumers_map (disconnect_slot me) (disconnect_body me)
                ltac:(intros i c; reflexivity) (sq_consumers sq) 0) as Hmap.
  destruct (for_consumers (disconnect_body me) 0 (sq_consumers sq))
    as [l ev]. cbn [fst] in *. subst l.
  eexists. split; [reflexivity|].
  unfold set_queue. cbn [SharedQueues sq_key set_sq_consumers].
  rewrite Hk. apply lookup_insert_eq.
Qed.

Lemma release_bound_consumer me sqname shm sq (j : nat) c :
  SharedQueues shm !! sqname = Some sq -> sq_key sq = sqname ->
  sq_nodeid sq <> -1 -> sq_nodeid sq <> me -> sq_refcnt sq <> 1 ->
  find_consumer_node me 0 (sq_consumers sq) = Some (Z.of_nat j, c) ->
  cs_pid c <> 0 ->
  exists c',
    SharedQueues (SharedQueueRelease me sqname shm).1 !! sqname
    = Some (set_sq_refcnt (sq_refcnt sq - 1)
              (set_sq_consumers (<[j := c']> (sq_consumers sq)) sq))
    /\ consumer_done c' /\ cs_node c' = cs_node c
    /\ (0 < cs_pid c -> cs_status c <> CONSUMER_DONE -> cs_pid c' = 0).
Proof.
  intros Hl Hk Hn1 Hn2 Href Hf Hpid. unfold SharedQueueRelease.
  rewrite Hl. unfold release_slots.
  destruct (Z.eqb_spec (sq_nodeid sq) (-1)) as [H|_]; [congruence|].
  destruct (Z.eqb_spec (sq_nodeid sq) me) as [H|_]; [congruence|].
  cbn [negb]. rewrite Hf.
  assert (Hrel : consumer_done (release_consumer (Z.of_nat j) c).1
                 /\ cs_node (release_consumer (Z.of_nat j) c).1 = cs_node c
                 /\ (0 < cs_pid c -> cs_status c <> CONSUMER_DONE ->
                     cs_pid (release_consumer (Z.of_nat j) c).1 = 0)).
  { unfold release_consumer, consumer_done.
    destruct (Z.eqb_spec (cs_pid c) 0) as [H|_]; [congruence|].
    case_bool_decide as Hs.
    - cbn [set_status cs_pid].
      destruct (Z.gtb_spec (cs_pid c) 0); cbn [fst];
        (split; [reflexivity|]); (split; [reflexivity|]); intros; try lia.
      reflexivity.
    - cbn [fst]. split; [exact Hs|]. split; [reflexivity|].
      intros _ H. contradiction. }
  destruct (release_consumer (Z.of_nat j) c) as [c' ev1]. cbn [fst] in Hrel.
  rewrite Nat2Z.id. exists c'. split; [|exact Hrel].
  rewrite !drop_reference_eq. cbn [sq_refcnt set_sq_refcnt set_sq_consumers].
  destruct (Z.eqb_spec (sq_refcnt sq - 1) 0) as [H|_]; [lia|].
  cbn [fst]. unfold set_queue.
  cbn [SharedQueues sq_key set_sq_refcnt set_sq_consumers].
  rewrite Hk. apply lookup_insert_eq.
Qed.

(** X21. Closing the consumers lets the producer unbind.  After
    [SharedQueueDisconnectConsumer] from a node all slots of that node are
    done and emptied, after [SharedQueueRelease] by a session bound to a
    slot that slot is done, and no other slot changes; if the other
    consumers were done already, [SharedQueueUnBind] then completes in
    one pass without sleeping on the producer latch. *)
Theorem closing_the_consumers_lets_the_producer_unbind
  (wait_producer : Shmem -> Shmem * bool) (unlocked : Shmem -> Shmem)
  (fuel : nat) (me : Z) (sqname : string) (shm : Shmem) (sq : SQueueHeader) :
  (forall s, SharedQueues (unlocked s) !! sqname = SharedQueues s !! sqname) ->
  SharedQueues shm !! sqname = Some sq -> sq_key sq = sqname ->
  sq_pid sq <> 0 -> sq_nodeid sq <> -1 -> sq_nodeid sq <> me ->
  sq_refcnt sq <> 1 ->
  (Forall (fun c => cs_node c = me \/ consumer_done c) (sq_consumers sq) ->
   exists shm1 shm2 ev,
     (SharedQueueDisconnectConsumer me sqname (Some shm)).1 = Some shm1
     /\ entry_consumers sqname shm1
        = Some (disconnect_slot me <$> sq_consumers sq)
     /\ SharedQueueUnBind wait_producer unlocked (S fuel) sqname false shm1
        = (UnBindDone, shm2, ev)
     /\ latch_waits ev = [])
  /\ (forall (j : nat) c,
        find_consumer_node me 0 (sq_consumers sq) = Some (Z.of_nat j, c) ->
        cs_pid c <> 0 ->
        (forall (k : nat) c0, k <> j -> sq_consumers sq !! k = Some c0 ->
                              consumer_done c0) ->
        exists c' shm2 ev,
          entry_consumers sqname (SharedQueueRelease me sqname shm).1
          = Some (<[j := c']> (sq_consumers sq))
          /\ consumer_done c'
          /\ SharedQueueUnBind wait_producer unlocked (S fuel) sqname false
               (SharedQueueRelease me sqname shm).1
             = (UnBindDone, shm2, ev)
          /\ latch_waits ev = []).
Proof.
  intros Hu Hl Hk Hpid Hn1 Hn2 Href. split.
  - intros Hall.
    destruct (disconnect_consumers me sqname shm sq Hl Hk Hpid)
      as (shm1 & Hd & Hl1).
    assert (Hdone : Forall consumer_done (disconnect_slot me <$> sq_consumers sq)).
    { apply Forall_fmap. eapply Forall_impl; [exact Hall|].
      intros c Hc. simpl. unfold disconnect_slot, consumer_done in *.
      destruct (Z.eqb_spec (cs_node c) me) as [_|Hne]; [reflexivity|].
      destruct Hc; [contradiction|assumption]. }
    destruct (unbind_all_done wait_producer unlocked sqname Hu fuel shm1 _
                Hl1 Hk Hdone) as (shm2 & ev & Hun & Hw & _).
    exists shm1, shm2, ev. split; [exact Hd|]. split.
    { unfold entry_consumers. rewrite Hl1. reflexivity. }
    split; [exact Hun|exact Hw].
  - intros j c Hf Hp Hothers.
    destruct (release_bound_consumer me sqname shm sq j c Hl Hk Hn1 Hn2 Href
                Hf Hp) as (c' & Hl1 & Hc' & _).
    assert (Hdone : Forall consumer_done (<[j := c']> (sq_consumers sq))).
    { apply Forall_lookup. intros k c0 Hk0.
      destruct (decide (k = j)) as [->|Hne].
      - apply find_consumer_node_first in Hf as (idx & Hi & Hlj & _).
        assert (idx = j) by lia. subst idx.
        rewrite list_lookup_insert_eq in Hk0
          by (apply lookup_lt_Some in Hlj; exact Hlj).
        congruence.
      - rewrite list_lookup_insert_ne in Hk0 by congruence.
        exact (Hothers k c0 Hne Hk0). }
    destruct (unbind_all_done wait_producer unlocked sqname Hu fuel _ _
                Hl1 Hk Hdone) as (shm2 & ev & Hun & Hw & _).
    exists c', shm2, ev. split.
    { unfold entry_consumers. rewrite Hl1. reflexivity. }
    split; [exact Hc'|]. split; [exact Hun|exact Hw].
Qed.

Lemma closing_the_consumers_lets_the_producer_unbind_witness :
  (exists shm1 shm2 ev,
     (SharedQueueDisconnectConsumer 7 "q" (Some sample_bound)).1 = Some shm1
     /\ entry_consumers "q" shm1
        = Some (disconnect_slot 7 <$> sq_consumers sample_bound_queue)
     /\ SharedQueueUnBind (fun s => (s, true)) (fun s => s) 1 "q" false shm1
        = (UnBindDone, shm2, ev)
     /\ latch_waits ev = [])
  /\ (exists c' shm2 ev,
        entry_consumers "q" (SharedQueueRelease 7 "q" sample_bound).1
        = Some (<[0%nat := c']> (sq_consumers sample_bound_queue))
        /\ consumer_done c'
        /\ SharedQueueUnBind (fun s => (s, true)) (fun s => s) 1 "q" false
             (SharedQueueRelease 7 "q" sample_bound).1
           = (UnBindDone, shm2, ev)
        /\ latch_waits ev = []).
Proof.
  destruct (closing_the_consumers_lets_the_producer_unbind
              (fun s => (s, true)) (fun s => s) 0 7 "q" sample_bound
              sample_bound_queue) as [Hd Hr].
  - reflexivity.
  - reflexivity.
  - reflexivity.
  - discriminate.
  - discriminate.
  - discriminate.
  - discriminate.
  - split.
    + apply Hd. repeat constructor.
    + apply (Hr 0%nat (set_pid 200 (sample_consumer CONSUMER_ACTIVE))).
      * reflexivity.
      * discriminate.
      * intros [|k] c0 Hk Hl; [congruence|discriminate].
Defined.

(** ** Writing rows and reading them back *)

(** *** What the calls leave of a consumer state *)

Lemma QUEUE_WRITE_qlength cstate len buf :
  cs_qlength (QUEUE_WRITE cstate len buf) = cs_qlength cstate.
Proof. unfold QUEUE_WRITE. destruct (_ <=? _); reflexivity. Qed.

Lemma QUEUE_READ_status cstate len :
  cs_status (QUEUE_READ cstate len).2 = cs_status cstate.
Proof. unfold QUEUE_READ. destruct (_ <=? _); reflexivity. Qed.

Lemma sq_push_long_tuple_qlength cstate datarow :
  cs_qlength (sq_push_long_tuple cstate datarow).2 = cs_qlength cstate.
Proof.
  unfold sq_push_long_tuple.
  destruct (cs_ntuples cstate =? 0); [|destruct (_ >? _)]; cbn [snd];
    unfold set_ntuples; cbn [cs_qlength]; rewrite !QUEUE_WRITE_qlength;
    reflexivity.
Qed.

Lemma dump_loop_qlength n idx : forall cstate ts,
  cs_qlength (dump_loop n idx cstate ts).1.1.2 = cs_qlength cstate.
Proof.
  induction n as [|n IH]; intros cstate ts; cbn [dump_loop];
    destruct (tuplestore_ateof ts); try reflexivity.
  destruct (tuplestore_gettupleslot _) as [[datarow ts2]|]; [|reflexivity].
  destruct (_ <? _).
  - destruct (cs_ntuples cstate <=? 0); [|reflexivity].
    pose proof (sq_push_long_tuple_qlength cstate datarow) as Hp.
    destruct (sq_push_long_tuple cstate datarow) as [done c2].
    cbn [snd] in Hp. destruct done; [|exact Hp].
    specialize (IH c2 ts2).
    destruct (dump_loop n idx c2 ts2) as [[[r c3] ts3] ev3].
    cbn [fst snd] in *. congruence.
  - match goal with
    | |- context [dump_loop n idx ?c ts2] =>
      specialize (IH c ts2); destruct (dump_loop n idx c ts2)
        as [[[r c3] ts3] ev3]
    end.
    cbn [fst snd] in *. rewrite IH. unfold set_ntuples. cbn [cs_qlength].
    rewrite !QUEUE_WRITE_qlength. reflexivity.
Qed.

Lemma SharedQueueDump_qlength idx cstate ts :
  cs_qlength (SharedQueueDump idx cstate ts).1.1.2 = cs_qlength cstate.
Proof.
  unfold SharedQueueDump. destruct (bool_decide _); [reflexivity|].
  apply dump_loop_qlength.
Qed.

Lemma finish_consumer_qlength i cstate store :
  cs_qlength (finish_consumer i cstate store).1.1.1 = cs_qlength cstate.
Proof.
  unfold finish_consumer. destruct store as [ts|].
  - destruct (bool_decide _); [reflexivity|].
    destruct (_ >? _); [|reflexivity].
    pose proof (SharedQueueDump_qlength i cstate ts) as Hd.
    destruct (SharedQueueDump i cstate ts) as [[[dumped c2] ts2] ev].
    cbn [fst snd] in Hd. destruct dumped; exact Hd.
  - destruct (bool_decide _); reflexivity.
Qed.

Lemma finish_consumer_live i cstate store :
  live cstate -> live (finish_consumer i cstate store).1.1.1.
Proof.
  intros Hl. destruct (finish_consumer_spec i cstate store) as (_ & _ & Hs).
  unfold finish_status, live in *.
  destruct Hs as [-> | [_ ->]]; auto.
Qed.

(** A wake-up of a producer that has only [SharedQueueFinish] left to
    do. *)
Lemma producer_turn_kept idx p n cstate :
  drain_kept p cstate (producer_turn idx (p, replicate n [PFinish]) cstate).1
    (producer_turn idx (p, replicate n [PFinish]) cstate).2.
Proof.
  destruct n as [|n].
  - unfold producer_turn. simpl. split; [reflexivity|].
    split; [exists 0%nat; reflexivity|]. split; [reflexivity|auto].
  - cbn [replicate]. rewrite producer_turn_finish.
    pose proof (finish_consumer_qlength idx cstate (p_store p)) as HL.
    pose proof (finish_consumer_live idx cstate (p_store p)) as Hl.
    destruct (finish_consumer idx cstate (p_store p)) as [[[c s] b] ev].
    cbn [fst snd] in *. split; [reflexivity|].
    split; [exists n; reflexivity|]. split; assumption.
Qed.

Lemma drain_kept_trans p c env1 c1 env2 c2 :
  drain_kept p c env1 c1 -> drain_kept env1.1 c1 env2 c2 ->
  drain_kept p c env2 c2.
Proof.
  intros (Hw1 & _ & HL1 & Hl1) (Hw2 & Hs2 & HL2 & Hl2).
  split; [congruence|]. split; [exact Hs2|]. split; [congruence|auto].
Qed.

Lemma drain_kept_slot p c env c1 c2 :
  drain_kept p c env c1 ->
  cs_qlength c2 = cs_qlength c1 -> cs_status c2 = cs_status c1 ->
  drain_kept p c env c2.
Proof.
  intros (Hw & Hs & HL & Hl) HL2 Hst2.
  split; [exact Hw|]. split; [exact Hs|]. split; [congruence|].
  unfold live in *. rewrite Hst2. exact Hl.
Qed.

Lemma pull_chunk_slot cstate len offset msg :
  cs_qlength (pull_chunk cstate len offset msg).1.1 = cs_qlength cstate
  /\ cs_status (pull_chunk cstate len offset msg).1.1 = cs_status cstate.
Proof.
  unfold pull_chunk.
  match goal with |- context [QUEUE_READ cstate ?l] =>
    pose proof (QUEUE_READ_qlength cstate l) as HL;
    pose proof (QUEUE_READ_status cstate l) as Hs;
    destruct (QUEUE_READ cstate l) as [buf c] end.
  cbn [fst snd] in *. auto.
Qed.

Lemma pull_wait_kept idx datalen : forall fuel p n cstate offset msg,
  let out := pull_wait (producer_turn idx) fuel idx datalen
               (p, replicate n [PFinish]) cstate offset msg in
  drain_kept p cstate out.1.1.2 out.1.2.
Proof.
  induction fuel as [|fuel IH]; intros p n cstate offset msg; cbv zeta.
  - cbn [pull_wait fst snd]. split; [reflexivity|].
    split; [exists n; reflexivity|]. split; [reflexivity|auto].
  - cbn [pull_wait].
    pose proof (producer_turn_kept idx p n cstate) as Hk.
    destruct (producer_turn idx (p, replicate n [PFinish]) cstate)
      as [[p1 s1] c1].
    cbn [fst snd] in Hk.
    assert (Hm : exists m, s1 = replicate m [PFinish])
      by (destruct Hk as (_ & Hm & _); exact Hm).
    destruct Hm as [m ->].
    destruct (cs_ntuples c1 =? LONG_TUPLE).
    + specialize (IH p1 m c1 offset msg). cbv zeta in IH.
      destruct (pull_wait _ fuel idx datalen _ c1 offset msg)
        as [[[r e] c] ev].
      cbn [fst snd] in *. eapply drain_kept_trans; [exact Hk|exact IH].
    + pose proof (QUEUE_READ_qlength c1 SIZEOF_INT) as HL2.
      pose proof (QUEUE_READ_status c1 SIZEOF_INT) as Hs2.
      destruct (QUEUE_READ c1 SIZEOF_INT) as [buf c2]. cbn [fst snd] in *.
      pose proof (pull_chunk_slot c2 (bytes_int buf) offset msg) as [HL3 Hs3].
      destruct (pull_chunk c2 (bytes_int buf) offset msg) as [[c3 off3] msg3].
      cbn [fst snd] in *.
      destruct (off3 =? datalen).
      * cbn [fst snd]. apply (drain_kept_slot p cstate _ c1); [exact Hk| |];
          congruence.
      * specialize (IH p1 m (pull_request_more c3 off3) off3 msg3).
        cbv zeta in IH.
        destruct (pull_wait _ fuel idx datalen _ _ off3 msg3)
          as [[[r e] c] ev].
        cbn [fst snd] in *.
        apply (drain_kept_trans p cstate (p1, replicate m [PFinish])
                 (pull_request_more c3 off3)); [|exact IH].
        apply (drain_kept_slot p cstate _ c1); [exact Hk| |];
          unfold pull_request_more, set_q, set_ntuples;
          cbn [cs_qlength cs_status]; congruence.
Qed.

Lemma drain_kept_refl p n cstate :
  drain_kept p cstate (p, replicate n [PFinish]) cstate.
Proof.
  split; [reflexivity|]. split; [exists n; reflexivity|].
  split; [reflexivity|auto].
Qed.

Lemma read_deliver_kept idx p cstate
  (x : option (list byte) * ReadEnv * ConsState * list Event) :
  drain_kept p cstate x.1.1.2 x.1.2 ->
  drain_kept p cstate (read_deliver idx x).1.1.2 (read_deliver idx x).1.2.
Proof.
  destruct x as [[[[msg|] e] c] ev]; cbn [read_deliver fst snd]; [|auto].
  intros H. apply (drain_kept_slot p cstate e c); [exact H| |]; reflexivity.
Qed.

Lemma read_row_kept idx fuel p n cstate :
  let out := read_row (producer_turn idx) fuel idx
               (p, replicate n [PFinish]) cstate in
  drain_kept p cstate out.1.1.2 out.1.2.
Proof.
  cbv zeta. unfold read_row.
  pose proof (QUEUE_READ_qlength cstate SIZEOF_INT) as HL1.
  pose proof (QUEUE_READ_status cstate SIZEOF_INT) as Hs1.
  destruct (QUEUE_READ cstate SIZEOF_INT) as [buf c1]. cbn [fst snd] in *.
  apply read_deliver_kept.
  destruct (_ >? _).
  - unfold sq_pull_long_tuple.
    pose proof (pull_chunk_slot c1 (bytes_int buf) 0 []) as [HL2 Hs2].
    destruct (pull_chunk c1 (bytes_int buf) 0 []) as [[c2 off] msg].
    cbn [fst snd] in *. destruct (off =? bytes_int buf).
    + cbn [fst snd].
      apply (drain_kept_slot p cstate _ cstate);
        [apply drain_kept_refl| |]; congruence.
    + pose proof (pull_wait_kept idx (bytes_int buf) fuel p n
                    (pull_request_more c2 off) off msg) as Hk.
      cbv zeta in Hk.
      destruct (pull_wait _ fuel idx (bytes_int buf) _ _ off msg)
        as [[[r e] c] ev].
      cbn [fst snd] in *.
      apply (drain_kept_trans p cstate (p, replicate n [PFinish])
               (pull_request_more c2 off)); [|exact Hk].
      apply (drain_kept_slot p cstate _ cstate);
        [apply drain_kept_refl| |];
        unfold pull_request_more, set_q, set_ntuples;
        cbn [cs_qlength cs_status]; congruence.
  - pose proof (QUEUE_READ_qlength c1 (bytes_int buf)) as HL2.
    pose proof (QUEUE_READ_status c1 (bytes_int buf)) as Hs2.
    destruct (QUEUE_READ c1 (bytes_int buf)) as [msg c2]. cbn [fst snd] in *.
    apply (drain_kept_slot p cstate _ cstate);
      [apply drain_kept_refl| |]; congruence.
Qed.

Lemma read_loop_kept idx canwait : forall fuel p n cstate,
  let out := read_loop (producer_turn idx) fuel idx canwait
               (p, replicate n [PFinish]) cstate in
  p_written out.1.1.2.1 = p_written p
  /\ cs_qlength out.1.2 = cs_qlength cstate
  /\ (live cstate -> out.1.1.1 <> ReadEOF -> live out.1.2).
Proof.
  assert (Hrow : forall fuel p n cstate,
            let out := read_row (producer_turn idx) fuel idx
                         (p, replicate n [PFinish]) cstate in
            p_written out.1.1.2.1 = p_written p
            /\ cs_qlength out.1.2 = cs_qlength cstate
            /\ (live cstate -> out.1.1.1 <> ReadEOF -> live out.1.2)).
  { intros fuel p n cstate. cbv zeta.
    destruct (read_row_kept idx fuel p n cstate) as (Hw & _ & HL & Hl).
    auto. }
  induction fuel as [|fuel IH]; intros p n cstate; cbv zeta;
    cbn [read_loop]; (destruct (cs_ntuples cstate <=? 0); [|apply Hrow]).
  - destruct (cs_status cstate) eqn:Hst; try destruct canwait;
      cbn [fst snd]; repeat split; auto; congruence.
  - destruct (cs_status cstate) eqn:Hst; try destruct canwait;
      cbn [fst snd]; try (repeat split; auto; congruence).
    + pose proof (producer_turn_kept idx p n cstate) as Hk.
      destruct (producer_turn idx (p, replicate n [PFinish]) cstate)
        as [[p1 s1] c1].
      cbn [fst snd] in Hk. destruct Hk as (Hw & [m Hm] & HL & Hl).
      cbn [fst snd] in *. subst s1.
      specialize (IH p1 m c1). cbv zeta in IH.
      destruct (read_loop _ fuel idx true _ c1) as [[[r e] c] ev].
      cbn [fst snd] in *. destruct IH as (Hw' & HL' & Hl').
      repeat split; [congruence|congruence|auto].
    + pose proof (producer_turn_kept idx p n cstate) as Hk.
      destruct (producer_turn idx (p, replicate n [PFinish]) cstate)
        as [[p1 s1] c1].
      cbn [fst snd] in Hk. destruct Hk as (Hw & [m Hm] & HL & Hl).
      cbn [fst snd] in *. subst s1.
      specialize (IH p1 m c1). cbv zeta in IH.
      destruct (read_loop _ fuel idx true _ c1) as [[[r e] c] ev].
      cbn [fst snd] in *. destruct IH as (Hw' & HL' & Hl').
      repeat split; [congruence|congruence|auto].
Qed.

Lemma SharedQueueRead_kept idx canwait fuel p n cstate :
  let out := SharedQueueRead (producer_turn idx) fuel idx canwait
               (p, replicate n [PFinish]) cstate in
  p_written out.1.1.2.1 = p_written p
  /\ cs_qlength out.1.2 = cs_qlength cstate
  /\ (live cstate -> out.1.1.1 <> ReadEOF -> live out.1.2).
Proof.
  cbv zeta. unfold SharedQueueRead.
  pose proof (read_loop_kept idx canwait fuel p n cstate) as H.
  cbv zeta in H.
  destruct (read_loop _ fuel idx canwait _ cstate) as [[[r e] c] ev].
  exact H.
Qed.

(** *** Progress of the producer

    [SharedQueueDump] on an empty queue queues the row at the head of the
    store, or its first part. *)
Lemma dump_loop_queues n idx cstate ts t rest :
  flight_inv cstate (Some ts) (Normal []) -> ts_active ts = 1%nat ->
  pending ts = t :: rest -> (length rest <= n)%nat ->
  0 < cs_ntuples (dump_loop (S n) idx cstate ts).1.1.2.
Proof.
  intros (Hring & Hok & Hhead & Hrows) Ha Hp Hlen.
  simpl in Hrows. rewrite Hp in Hrows.
  apply Forall_cons in Hrows as [Hrt Hrrest].
  destruct (tuplestore_get_pending ts t rest Ha Hp)
    as (ts2 & Hget & Ha2 & Hp2 & Hok2 & _ & Hgb & Hokgb).
  cbn [dump_loop]. rewrite (tuplestore_ateof_pending ts Ha),
    bool_decide_eq_false_2 by (rewrite Hp; discriminate).
  rewrite Hget.
  pose proof (ring_free_space _ _ Hring) as Hfree.
  cbn [used_bytes] in Hfree. simpl in Hfree.
  pose proof Hring as [_ [Hn _]]. simpl in Hn.
  destruct (Z.ltb_spec (QUEUE_FREE_SPACE cstate) (SIZEOF_INT + msglen t))
    as [Hfull|Hfit].
  - destruct (Z.leb_spec (cs_ntuples cstate) 0) as [_|Hgt]; [|lia].
    destruct (push_first cstate t Hring ltac:(lia) Hrt)
      as (c & Hpush & Hrc & _).
    rewrite Hpush. cbn [fst snd].
    destruct Hrc as [_ (_ & _ & Hn1 & _)]. lia.
  - destruct (enqueue_mode cstate (Normal []) t Hring eq_refl Hfit)
      as (Hrc & Hst & HL & _).
    cbv zeta in Hrc. cbn [mode_push app] in Hrc.
    match type of Hrc with ring_inv ?c0 _ => set (c1 := c0) in * end.
    destruct (dump_loop_spec n idx c1 ts2 (Normal [t]))
      as (r & c' & ts' & ev' & mode' & Hd & (Hrc' & _) & Hpm & _).
    { split; [exact Hrc|]. split; [exact Hok2|]. simpl. rewrite Hp2.
      split; [exact I|exact Hrrest]. }
    { exact Ha2. }
    { rewrite Hp2. exact Hlen. }
    cbv zeta. fold c1. rewrite Hd. cbn [fst snd].
    inversion Hpm; subst. destruct Hrc' as [_ [Hn' _]].
    rewrite Hn'. simpl. lia.
Qed.

Lemma finish_queues idx cstate ts t rest :
  flight_inv cstate (Some ts) (Normal []) ->
  cs_status cstate = CONSUMER_ACTIVE -> pending ts = t :: rest ->
  0 < cs_ntuples (finish_consumer idx cstate (Some ts)).1.1.1.
Proof.
  intros Hfl Hst Hp. pose proof Hfl as (Hr & _).
  rewrite (finish_dumps idx cstate ts (Normal []) Hr eq_refl Hst).
  destruct (pending_fuel ts t rest Hp) as (n & -> & Hn).
  pose proof (dump_loop_queues n idx cstate
                (tuplestore_select_read_pointer ts 1) t rest) as Hq.
  destruct (dump_loop (S n) idx cstate (tuplestore_select_read_pointer ts 1))
    as [[[d c] ts'] ev].
  cbn [fst snd] in *.
  assert (0 < cs_ntuples c).
  { apply Hq; auto. }
  destruct d; cbn [fst snd set_status cs_ntuples]; assumption.
Qed.

(** [SharedQueueFinish] marks the end of the data once the store is
    empty. *)
Lemma finish_empty_store idx cstate ts :
  ring_inv cstate (Normal []) -> cs_status cstate = CONSUMER_ACTIVE ->
  pending ts = [] ->
  exists store counted ev,
    finish_consumer idx cstate (Some ts)
    = (set_status CONSUMER_EOF cstate, store, counted, ev).
Proof.
  intros Hr Hst Hp.
  rewrite (finish_dumps idx cstate ts (Normal []) Hr eq_refl Hst).
  rewrite dump_loop_done by (auto; exact Hp).
  eexists _, _, _. reflexivity.
Qed.

(** *** Progress of a read *)

(** The first part of a long row is queued for an active consumer only,
    and the row is at the head of the store. *)
Lemma sys_inv_long_first cstate p read t :
  sys_inv cstate p read (LongFirst t) ->
  cs_status cstate = CONSUMER_ACTIVE
  /\ exists ts rest, p_store p = Some ts /\ pending ts = t :: rest
                     /\ store_ok (Some ts) /\ Forall row_ok (pending ts)
                     /\ p_written p = read ++ t :: rest.
Proof.
  unfold sys_inv. case_bool_decide as Hst.
  - intros ((Hr & Hok & [rest Hh] & Hrows) & Hw). split; [exact Hst|].
    destruct (p_store p) as [ts|]; [|discriminate Hh].
    simpl in *. exists ts, rest. rewrite Hh in Hw. auto.
  - intros (_ & Hacc & _). discriminate.
Qed.

(** With a row queued, whole or its first part, the read returns a
    row. *)
Lemma read_row_progress idx fuel p cstate read mode rem :
  sys_inv cstate p read mode -> idle mode -> 0 < cs_ntuples cstate ->
  p_written p = read ++ rem ->
  Forall (fun t => msglen t - (cs_qlength cstate - SIZEOF_INT)
                   <= Z.of_nat fuel * (cs_qlength cstate - SIZEOF_INT)) rem ->
  exists d,
    (read_row (producer_turn idx) fuel idx (p, replicate fuel [PFinish])
       cstate).1.1.1 = ReadTuple d.
Proof.
  intros Hinv Hidle Hn Hw Hfuel.
  pose proof (sys_inv_ring _ _ _ _ Hinv) as Hr.
  destruct mode as [rq|t|t off|t off|t off rq]; try contradiction.
  - destruct rq as [|t rq].
    { destruct Hr as [_ [Hn0 _]]. simpl in Hn0. lia. }
    destruct (read_row_normal (producer_turn idx) fuel idx
                (p, replicate fuel [PFinish]) cstate t rq Hr)
      as (c & Heq & _).
    rewrite Heq. exists t. reflexivity.
  - destruct (sys_inv_long_first _ _ _ _ Hinv)
      as (Hst & ts & rest & Hs & Hp & Hok & Hrows & Hw').
    rewrite Hw in Hw'. apply app_inv_head in Hw'. subst rem.
    apply Forall_cons in Hfuel as [Hft _].
    destruct (read_row_long_first (producer_turn idx) fuel idx
                (p, replicate fuel [PFinish]) cstate t Hr)
      as (c & Heq & Hrc & Hstc & HLc & _).
    rewrite Heq.
    destruct (pull_wait_progress idx fuel c ts t rest
                (cs_qlength cstate - SIZEOF_INT) (p_written p))
      as (env' & c' & ev' & Hres).
    { split; [exact Hrc|]. split; [exact Hok|]. simpl. rewrite Hp.
      split; [eauto|]. rewrite <- Hp. exact Hrows. }
    { congruence. }
    { exact Hp. }
    { rewrite HLc. exact Hft. }
    destruct p as [store written]. simpl in Hs. subst store.
    simpl p_written in Hres. unfold ReadEnv in *. rewrite Hres.
    exists t. reflexivity.
Qed.

(** A read that may wait returns a row or the end of the data, provided
    the producer runs [SharedQueueFinish] when woken up: it does not stay
    asleep and it raises no error. *)
Lemma read_progress idx fuel p cstate read mode rem :
  sys_inv cstate p read mode -> idle mode -> live cstate ->
  p_written p = read ++ rem -> (1 <= fuel)%nat ->
  Forall (fun t => msglen t
                   <= Z.of_nat fuel * (cs_qlength cstate - SIZEOF_INT)) rem ->
  let r := (SharedQueueRead (producer_turn idx) fuel idx true
              (p, replicate fuel [PFinish]) cstate).1.1.1 in
  r = ReadEOF \/ exists d, r = ReadTuple d.
Proof.
  intros Hinv Hidle Hlive Hw Hfuel Hrows. cbv zeta.
  pose proof (sys_inv_ring _ _ _ _ Hinv) as Hr.
  pose proof Hr as [(HL & _) _].
  assert (Hout : forall (x : ReadResult * ReadEnv * ConsState * list Event),
            (x.1.1.1 = ReadEOF \/ exists d, x.1.1.1 = ReadTuple d) ->
            (let '(r, env, cstate, ev') := x in
             (r, env, cstate,
              [LWLockAcquire sqs_producer_lwlock LW_SHARED;
               LWLockAcquire (cs_lwlock idx) LW_EXCLUSIVE] ++ ev')).1.1.1
            = ReadEOF
            \/ exists d,
                 (let '(r, env, cstate, ev') := x in
                  (r, env, cstate,
                   [LWLockAcquire sqs_producer_lwlock LW_SHARED;
                    LWLockAcquire (cs_lwlock idx) LW_EXCLUSIVE] ++ ev')).1.1.1
                 = ReadTuple d).
  { intros [[[r e] c] ev] H. exact H. }
  unfold SharedQueueRead. apply Hout. clear Hout.
  destruct (Z.leb_spec (cs_ntuples cstate) 0) as [Hn|Hn].
  - (* nothing queued *)
    assert (Hmode : mode = Normal []).
    { destruct mode as [rq|t|t off|t off|t off rq]; try contradiction.
      - destruct rq as [|t rq]; [reflexivity|].
        destruct Hr as [_ [Hn0 _]]. rewrite Hn0 in Hn. simpl in Hn. lia.
      - destruct Hr as [_ (_ & _ & Hn0 & _)]. lia. }
    subst mode.
    destruct Hlive as [Hst|Hst].
    + (* the producer has not finished *)
      destruct fuel as [|fuel]; [lia|].
      cbn [read_loop replicate].
      destruct (Z.leb_spec (cs_ntuples cstate) 0); [|lia]. rewrite Hst.
      destruct (producer_turn_spec idx (p, [PFinish] :: replicate fuel [PFinish])
                  cstate read (Normal []) Hinv)
        as (mode' & Hinv1 & _ & Hpm & HL1).
      { repeat constructor. apply Forall_forall. intros x Hx.
        apply elem_of_replicate in Hx as [-> _]. repeat constructor. }
      rewrite producer_turn_finish in Hinv1, HL1 |- *.
      unfold sys_inv in Hinv. rewrite bool_decide_eq_true_2 in Hinv by exact Hst.
      destruct Hinv as [Hfl Hw0].
      destruct (p_store p) as [ts|] eqn:Hs.
      * destruct (pending ts) as [|t rest] eqn:Hp.
        -- destruct (finish_empty_store idx cstate ts Hr Hst Hp)
             as (store & counted & ev & ->).
           cbn [fst snd]. left.
           destruct fuel; cbn [read_loop set_status cs_ntuples cs_status];
             (destruct (Z.leb_spec (cs_ntuples cstate) 0); [|lia]);
             reflexivity.
        -- pose proof (finish_queues idx cstate ts t rest Hfl Hst Hp) as Hq.
           destruct (finish_consumer idx cstate (Some ts))
             as [[[c1 store1] counted] ev1].
           cbn [fst snd] in *.
           rewrite read_loop_queued by exact Hq.
           assert (Hidle1 : idle mode') by (inversion Hpm; exact I).
           right.
           destruct (read_row_progress idx fuel _ c1 read mode' rem Hinv1
                       Hidle1 Hq Hw) as [d Hd].
           { rewrite HL1. eapply Forall_impl; [exact Hrows|].
             intros x Hx. cbv beta in *. unfold SIZEOF_INT in *. nia. }
           destruct (read_row _ fuel idx _ c1) as [[[r e] c] ev].
           exists d. exact Hd.
      * left. unfold finish_consumer.
        rewrite bool_decide_eq_true_2 by exact Hst.
        cbn [fst snd].
        destruct fuel; cbn [read_loop set_status cs_ntuples cs_status];
          (destruct (Z.leb_spec (cs_ntuples cstate) 0); [|lia]);
          reflexivity.
    + (* the producer has finished *)
      left. destruct fuel; cbn [read_loop];
        (destruct (Z.leb_spec (cs_ntuples cstate) 0); [|lia]);
        rewrite Hst; reflexivity.
  - rewrite read_loop_queued by exact Hn. right.
    apply (read_row_progress idx fuel p cstate read mode rem Hinv Hidle Hn Hw).
    eapply Forall_impl; [exact Hrows|].
    intros x Hx. cbv beta in *. unfold SIZEOF_INT in *. lia.
Qed.

Lemma finish_schedule_ok n :
  Forall (Forall call_rows_ok) (replicate n [PFinish]).
Proof.
  apply Forall_forall. intros x Hx.
  apply elem_of_replicate in Hx as [-> _]. repeat constructor.
Qed.

(** One read of a drain: it returns the next of the rows written and not
    yet read, or the end of the data when there is none. *)
Lemma drain_step idx fuel s rem :
  run_inv s -> sys_eof s = false -> sys_blocked s = false ->
  live (sys_cstate s) ->
  p_written (sys_producer s) = sys_read s ++ rem ->
  (1 <= fuel)%nat ->
  Forall (fits_fuel fuel (cs_qlength (sys_cstate s))) rem ->
  let s' := step idx s (Consume true fuel (replicate fuel [PFinish])) in
  run_inv s' /\ sys_blocked s' = false
  /\ p_written (sys_producer s') = p_written (sys_producer s)
  /\ cs_qlength (sys_cstate s') = cs_qlength (sys_cstate s)
  /\ match rem with
     | [] => sys_read s' = sys_read s /\ sys_eof s' = true
     | t :: _ =>
       sys_read s' = sys_read s ++ [t] /\ sys_eof s' = false
       /\ live (sys_cstate s')
     end.
Proof.
  intros Hinv Heof Hblocked Hlive Hw Hfuel Hrows. cbv zeta.
  split.
  { apply step_inv; [exact Hinv|]. apply finish_schedule_ok. }
  unfold run_inv in Hinv. rewrite Heof in Hinv.
  destruct Hinv as (mode & Hsys & Hidle). specialize (Hidle Hblocked).
  pose proof (read_progress idx fuel (sys_producer s) (sys_cstate s)
                (sys_read s) mode rem Hsys Hidle Hlive Hw Hfuel Hrows) as Hres.
  pose proof (SharedQueueRead_post idx true fuel
                (sys_producer s, replicate fuel [PFinish]) (sys_cstate s)
                (sys_read s) mode Hsys Hidle (finish_schedule_ok fuel))
    as [_ Hpost].
  pose proof (SharedQueueRead_kept idx true fuel (sys_producer s) fuel
                (sys_cstate s)) as (Hkw & HkL & Hkl).
  unfold step. rewrite Hblocked. cbv zeta in *.
  destruct (SharedQueueRead (producer_turn idx) fuel idx true
              (sys_producer s, replicate fuel [PFinish]) (sys_cstate s))
    as [[[r env] c] ev].
  cbn [fst snd] in *.
  destruct Hres as [-> | [d ->]].
  - (* the end of the data *)
    destruct Hpost as [Hst Hsys'].
    unfold sys_inv in Hsys'.
    rewrite bool_decide_eq_false_2 in Hsys' by exact Hst.
    destruct Hsys' as (_ & _ & Hw'). simpl in Hw'.
    rewrite Hkw, Hw in Hw'. apply app_inv_head in Hw'. subst rem.
    cbn [sys_blocked sys_producer sys_cstate sys_read sys_eof].
    repeat split; auto.
  - (* a row *)
    destruct Hpost as (mode' & Hidle' & Hsys').
    assert (Hw' : p_written env.1
                  = (sys_read s ++ [d])
                    ++ in_flight mode'
                         (if bool_decide (cs_status c = CONSUMER_ACTIVE)
                          then pending_store (p_store env.1) else [])).
    { unfold sys_inv in Hsys'. destruct (bool_decide _).
      - destruct Hsys' as [_ Hw']. exact Hw'.
      - destruct Hsys' as (_ & _ & Hw'). exact Hw'. }
    rewrite Hkw, Hw, <- app_assoc in Hw'. apply app_inv_head in Hw'.
    cbn [sys_blocked sys_producer sys_cstate sys_read sys_eof].
    destruct rem as [|t rest]; [discriminate Hw'|].
    inversion Hw'; subst d.
    repeat split; auto.
Qed.

Lemma run_app idx calls1 calls2 s :
  run idx (calls1 ++ calls2) s = run idx calls2 (run idx calls1 s).
Proof. unfold run. apply foldl_app. Qed.

(** The reads of a drain return the rows written and not yet read, one
    per read and in order, then the end of the data. *)
Lemma drain_run idx fuel : forall rem s,
  run_inv s -> sys_eof s = false -> sys_blocked s = false ->
  live (sys_cstate s) ->
  p_written (sys_producer s) = sys_read s ++ rem ->
  (1 <= fuel)%nat ->
  Forall (fits_fuel fuel (cs_qlength (sys_cstate s))) rem ->
  (forall k, (k <= length rem)%nat ->
     let s' := run idx (drain_reads fuel k) s in
     sys_read s' = sys_read s ++ take k rem
     /\ sys_eof s' = false /\ sys_blocked s' = false)
  /\ (let s' := run idx (drain_reads fuel (S (length rem))) s in
      sys_read s' = sys_read s ++ rem
      /\ sys_eof s' = true /\ sys_blocked s' = false).
Proof.
  induction rem as [|t rest IH];
    intros s Hinv Heof Hblocked Hlive Hw Hfuel Hrows.
  - destruct (drain_step idx fuel s [] Hinv Heof Hblocked Hlive Hw Hfuel Hrows)
      as (_ & Hb & _ & _ & Hr & He).
    split.
    + intros k Hk. simpl in Hk. assert (k = 0%nat) as -> by lia.
      cbv zeta. simpl. rewrite app_nil_r. auto.
    + cbv zeta. unfold drain_reads, run. cbn [length replicate foldl].
      rewrite app_nil_r. auto.
  - destruct (drain_step idx fuel s (t :: rest) Hinv Heof Hblocked Hlive Hw
                Hfuel Hrows)
      as (Hinv1 & Hb1 & Hw1 & HL1 & Hr1 & He1 & Hl1).
    set (s1 := step idx s (Consume true fuel (replicate fuel [PFinish]))) in *.
    destruct (IH s1) as [IHk IHend]; auto.
    { rewrite Hw1, Hw, Hr1, <- app_assoc. reflexivity. }
    { rewrite HL1. apply Forall_cons in Hrows as [_ Hrows]. exact Hrows. }
    assert (Hstep : forall k,
              run idx (drain_reads fuel (S k)) s
              = run idx (drain_reads fuel k) s1).
    { intros k. reflexivity. }
    split.
    + intros [|k] Hk; cbv zeta.
      * simpl. rewrite app_nil_r. auto.
      * rewrite Hstep. simpl in Hk.
        destruct (IHk k ltac:(lia)) as (Hr & He & Hb).
        rewrite Hr, Hr1, <- app_assoc. auto.
    + cbv zeta. cbn [length]. rewrite Hstep.
      destruct IHend as (Hr & He & Hb).
      rewrite Hr, Hr1, <- app_assoc. auto.
Qed.

(** The producer writes the rows [ts] for a consumer that is active. *)
Lemma writes_run idx : forall ts s,
  run_inv s -> sys_eof s = false -> sys_blocked s = false ->
  cs_status (sys_cstate s) = CONSUMER_ACTIVE -> Forall row_ok ts ->
  let s' := run idx (writes ts) s in
  run_inv s' /\ sys_eof s' = false /\ sys_blocked s' = false
  /\ cs_status (sys_cstate s') = CONSUMER_ACTIVE
  /\ cs_qlength (sys_cstate s') = cs_qlength (sys_cstate s)
  /\ sys_read s' = sys_read s
  /\ p_written (sys_producer s') = p_written (sys_producer s) ++ ts.
Proof.
  induction ts as [|t ts IH]; intros s Hinv Heof Hblocked Hst Hrows; cbv zeta.
  - simpl. rewrite app_nil_r. auto 10.
  - apply Forall_cons in Hrows as [Hrt Hrows].
    change (run idx (writes (t :: ts)) s)
      with (run idx (writes ts) (step idx s (Produce (PWrite t)))).
    pose proof (step_inv idx s (Produce (PWrite t)) Hinv Hrt) as Hinv1.
    assert (H1 : let s1 := step idx s (Produce (PWrite t)) in
                 sys_eof s1 = false /\ sys_blocked s1 = false
                 /\ cs_status (sys_cstate s1) = CONSUMER_ACTIVE
                 /\ cs_qlength (sys_cstate s1) = cs_qlength (sys_cstate s)
                 /\ sys_read s1 = sys_read s
                 /\ p_written (sys_producer s1)
                    = p_written (sys_producer s) ++ [t]).
    { cbv zeta. unfold step. rewrite Hblocked. unfold produce.
      unfold run_inv in Hinv. rewrite Heof in Hinv.
      destruct Hinv as (mode & Hsys & _). unfold sys_inv in Hsys.
      rewrite bool_decide_eq_true_2 in Hsys by exact Hst.
      destruct Hsys as [Hfl _].
      destruct (write_active_spec idx (sys_cstate s) t
                  (p_store (sys_producer s)) mode Hfl Hst Hrt)
        as (c & store' & ev & mode' & Heq & _ & _ & _ & Hst' & HL').
      rewrite Heq. rewrite bool_decide_eq_true_2 by exact Hst.
      cbn [sys_eof sys_blocked sys_cstate sys_read sys_producer p_written].
      auto 10. }
    cbv zeta in H1.
    set (s1 := step idx s (Produce (PWrite t))) in *.
    destruct H1 as (He1 & Hb1 & Hst1 & HL1 & Hr1 & Hw1).
    destruct (IH s1 Hinv1 He1 Hb1 Hst1 Hrows)
      as (Hinv' & He' & Hb' & Hst' & HL' & Hr' & Hw').
    repeat split; auto; try congruence.
    rewrite Hw', Hw1, <- app_assoc. reflexivity.
Qed.

Lemma producer_turn_alone idx (p : Producer) cstate :
  producer_turn idx (p, []) cstate = ((p, []), cstate).
Proof. reflexivity. Qed.

(** *** Reads while the producer does nothing *)

Lemma pull_wait_alone idx datalen : forall fuel (p : Producer) cstate offset msg,
  cs_status (pull_wait (producer_turn idx) fuel idx datalen (p, []) cstate
               offset msg).1.2
  = cs_status cstate.
Proof.
  induction fuel as [|fuel IH]; intros p cstate offset msg; [reflexivity|].
  cbn [pull_wait]. rewrite producer_turn_alone.
  destruct (cs_ntuples cstate =? LONG_TUPLE).
  - specialize (IH p cstate offset msg).
    destruct (pull_wait _ fuel idx datalen _ cstate offset msg)
      as [[[r e] c] ev].
    exact IH.
  - pose proof (QUEUE_READ_status cstate SIZEOF_INT) as Hs2.
    destruct (QUEUE_READ cstate SIZEOF_INT) as [buf c2]. cbn [fst snd] in *.
    pose proof (pull_chunk_slot c2 (bytes_int buf) offset msg) as [_ Hs3].
    destruct (pull_chunk c2 (bytes_int buf) offset msg) as [[c3 off3] msg3].
    cbn [fst snd] in *.
    destruct (off3 =? datalen); [cbn [fst snd]; congruence|].
    specialize (IH p (pull_request_more c3 off3) off3 msg3).
    destruct (pull_wait _ fuel idx datalen _ _ off3 msg3) as [[[r e] c] ev].
    cbn [fst snd] in *. rewrite IH.
    unfold pull_request_more, set_q, set_ntuples. cbn [cs_status].
    congruence.
Qed.

Lemma read_row_alone idx fuel (p : Producer) cstate :
  cs_status (read_row (producer_turn idx) fuel idx (p, []) cstate).1.2
  = cs_status cstate.
Proof.
  unfold read_row.
  pose proof (QUEUE_READ_status cstate SIZEOF_INT) as Hs1.
  destruct (QUEUE_READ cstate SIZEOF_INT) as [buf c1]. cbn [fst snd] in *.
  assert (Hd : forall x : option (list byte) * ReadEnv * ConsState
                          * list Event,
            cs_status (read_deliver idx x).1.2 = cs_status x.1.2).
  { intros [[[[msg|] e] c] ev]; reflexivity. }
  rewrite Hd.
  destruct (_ >? _).
  - unfold sq_pull_long_tuple.
    pose proof (pull_chunk_slot c1 (bytes_int buf) 0 []) as [_ Hs2].
    destruct (pull_chunk c1 (bytes_int buf) 0 []) as [[c2 off] msg].
    cbn [fst snd] in *. destruct (off =? bytes_int buf).
    + cbn [fst snd]. congruence.
    + rewrite pull_wait_alone.
      unfold pull_request_more, set_q, set_ntuples. cbn [cs_status].
      congruence.
  - pose proof (QUEUE_READ_status c1 (bytes_int buf)) as Hs2.
    destruct (QUEUE_READ c1 (bytes_int buf)) as [msg c2]. cbn [fst snd] in *.
    congruence.
Qed.

Lemma read_loop_alone idx canwait : forall fuel (p : Producer) cstate,
  cs_status cstate = CONSUMER_ACTIVE ->
  let out := read_loop (producer_turn idx) fuel idx canwait (p, []) cstate in
  out.1.1.1 <> ReadEOF /\ cs_status out.1.2 = CONSUMER_ACTIVE.
Proof.
  induction fuel as [|fuel IH]; intros p cstate Hst; cbv zeta;
    cbn [read_loop]; rewrite ?Hst;
    (destruct (cs_ntuples cstate <=? 0);
     [|split; [apply read_row_not_eof|rewrite read_row_alone; exact Hst]]).
  - destruct canwait; cbn [fst snd]; split; (discriminate || exact Hst).
  - destruct canwait; cbn [fst snd]; [|split; (discriminate || exact Hst)].
    rewrite producer_turn_alone.
    specialize (IH p cstate Hst). cbv zeta in IH.
    destruct (read_loop _ fuel idx true _ cstate) as [[[r e] c] ev].
    exact IH.
Qed.

Lemma run_blocked idx calls : forall s,
  sys_blocked s = true -> run idx calls s = s.
Proof.
  induction calls as [|call calls IH]; intros s Hb; [reflexivity|].
  unfold run. cbn [foldl]. unfold step at 2. rewrite Hb. apply IH. exact Hb.
Qed.

(** Writes of the producer and reads that return without the help of the
    producer leave the consumer active; every row written is recorded. *)
Lemma write_or_poll_run idx : forall calls s,
  run_inv s -> sys_eof s = false -> sys_blocked s = false ->
  cs_status (sys_cstate s) = CONSUMER_ACTIVE ->
  Forall write_or_poll calls ->
  let s' := run idx calls s in
  sys_blocked s' = false ->
  run_inv s' /\ sys_eof s' = false
  /\ cs_status (sys_cstate s') = CONSUMER_ACTIVE
  /\ cs_qlength (sys_cstate s') = cs_qlength (sys_cstate s)
  /\ p_written (sys_producer s')
     = p_written (sys_producer s) ++ rows_written calls.
Proof.
  induction calls as [|call calls IH];
    intros s Hinv Heof Hblocked Hst Hok; cbv zeta.
  - intros _. simpl. rewrite app_nil_r. auto.
  - apply Forall_cons in Hok as [Hc Hok].
    change (run idx (call :: calls) s) with (run idx calls (step idx s call)).
    intros Hb'.
    assert (Hcok : calls_ok call).
    { destruct call as [[t|]|cw fuel [|x sched]]; try contradiction.
      - exact Hc.
      - constructor. }
    pose proof (step_inv idx s call Hinv Hcok) as Hinv1.
    assert (H1 : let s1 := step idx s call in
                 sys_blocked s1 = false ->
                 sys_eof s1 = false
                 /\ cs_status (sys_cstate s1) = CONSUMER_ACTIVE
                 /\ cs_qlength (sys_cstate s1) = cs_qlength (sys_cstate s)
                 /\ p_written (sys_producer s1)
                    = p_written (sys_producer s) ++ rows_written [call]).
    { cbv zeta. unfold step. rewrite Hblocked.
      destruct call as [[t|]|cw fuel [|x sched]]; try contradiction.
      - intros _. unfold produce.
        unfold run_inv in Hinv. rewrite Heof in Hinv.
        destruct Hinv as (mode & Hsys & _). unfold sys_inv in Hsys.
        rewrite bool_decide_eq_true_2 in Hsys by exact Hst.
        destruct Hsys as [Hfl _].
        destruct (write_active_spec idx (sys_cstate s) t
                    (p_store (sys_producer s)) mode Hfl Hst Hc)
          as (c & store' & ev & mode' & Heq & _ & _ & _ & Hst' & HL').
        rewrite Heq. rewrite bool_decide_eq_true_2 by exact Hst.
        cbn [sys_eof sys_blocked sys_cstate sys_read sys_producer p_written].
        auto.
      - pose proof (SharedQueueRead_kept idx cw fuel (sys_producer s) 0
                      (sys_cstate s)) as (Hkw & HkL & _).
        pose proof (read_loop_alone idx cw fuel (sys_producer s)
                      (sys_cstate s) Hst) as Hal.
        cbv zeta in *. unfold SharedQueueRead in *.
        change (replicate 0 [PFinish]) with (@nil (list ProducerCall)) in *.
        destruct (read_loop (producer_turn idx) fuel idx cw
                    (sys_producer s, []) (sys_cstate s))
          as [[[r env] c] ev].
        cbn [fst snd] in *. destruct Hal as [Hne Hst'].
        simpl rows_written. rewrite app_nil_r.
        destruct r;
          cbn [sys_eof sys_blocked sys_cstate sys_read sys_producer];
          intros Hb; auto; congruence. }
    cbv zeta in H1.
    set (s1 := step idx s call) in *.
    destruct (sys_blocked s1) eqn:Hb1.
    { rewrite (run_blocked idx calls s1 Hb1) in Hb'. congruence. }
    destruct (H1 eq_refl) as (He1 & Hst1 & HL1 & Hw1).
    destruct (IH s1 Hinv1 He1 Hb1 Hst1 Hok Hb')
      as (Hinv' & He' & Hst' & HL' & Hw').
    repeat split; auto; try congruence.
    rewrite Hw', Hw1, <- app_assoc.
    change (call :: calls) with ([call] ++ calls).
    unfold rows_written. rewrite omap_app. reflexivity.
Qed.

(** C2. The reads of a consumer return the rows the producer has written
    for it with [SharedQueueWrite], all of them, once each and in the
    order written, whether a row was queued at once, went through the
    store, or is longer than the queue.  The consumer's slot starts as
    [SharedQueueBind] leaves it; the consumer reads with [canwait] set and
    the producer, once it has written its rows, runs [SharedQueueFinish]
    when woken up, [fuel] wake-ups per read being enough for the longest
    row.  Then
    - after the writes of [ts] the first [k] reads return the first [k]
      rows of [ts], and read number [length ts + 1] returns true;
    - the same holds when reads that need no help of the producer are
      made between the writes: what they return are the first rows
      written, and the reads that follow the last write return the
      others, then true;
    - whatever the calls, writes, passes of [SharedQueueFinish] and reads
      in any order, the rows read so far are the first of the rows written
      while the consumer was active, and all of them once a read has
      returned true. *)
Theorem reads_return_the_rows_written_in_order
  (consumerIdx : Z) (cstate : ConsState) (ts : list RemoteDataRow)
  (fuel : nat) :
  fresh_slot cstate -> Forall row_ok ts -> (1 <= fuel)%nat ->
  Forall (fits_fuel fuel (cs_qlength cstate)) ts ->
  (forall k, (k <= length ts)%nat ->
     let s := run consumerIdx (writes ts ++ drain_reads fuel k)
                (start cstate) in
     sys_read s = take k ts /\ sys_eof s = false /\ sys_blocked s = false)
  /\ (let s := run consumerIdx
                 (writes ts ++ drain_reads fuel (S (length ts)))
                 (start cstate) in
      sys_read s = ts /\ sys_eof s = true /\ sys_blocked s = false)
  /\ (forall calls,
        Forall write_or_poll calls -> rows_written calls = ts ->
        let s0 := run consumerIdx calls (start cstate) in
        sys_blocked s0 = false ->
        let s := run consumerIdx
                   (calls
                    ++ drain_reads fuel
                         (S (length ts - length (sys_read s0))))
                   (start cstate) in
        sys_read s0 = take (length (sys_read s0)) ts
        /\ sys_read s = ts /\ sys_eof s = true /\ sys_blocked s = false)
  /\ (forall calls, Forall calls_ok calls ->
        let s := run consumerIdx calls (start cstate) in
        exists rest,
          p_written (sys_producer s) = sys_read s ++ rest
          /\ (sys_eof s = true -> rest = [])).
Proof.
  intros Hfresh Hrows Hfuel Hfits.
  pose proof (run_inv_start _ Hfresh) as Hinv0.
  pose proof Hfresh as (_ & Hst & _).
  split; [|split; [|split]].
  - intros k Hle. cbv zeta. rewrite run_app.
    destruct (writes_run consumerIdx ts (start cstate) Hinv0 eq_refl eq_refl
                Hst Hrows)
      as (Hinv & He & Hb & Hst' & HL & Hr & Hw).
    simpl in HL, Hr, Hw.
    destruct (drain_run consumerIdx fuel ts
                (run consumerIdx (writes ts) (start cstate)))
      as [Hk _]; auto.
    { left. exact Hst'. }
    { rewrite Hw, Hr. reflexivity. }
    { rewrite HL. exact Hfits. }
    destruct (Hk k Hle) as (H1 & H2 & H3). rewrite H1, Hr. auto.
  - cbv zeta. rewrite run_app.
    destruct (writes_run consumerIdx ts (start cstate) Hinv0 eq_refl eq_refl
                Hst Hrows)
      as (Hinv & He & Hb & Hst' & HL & Hr & Hw).
    simpl in HL, Hr, Hw.
    destruct (drain_run consumerIdx fuel ts
                (run consumerIdx (writes ts) (start cstate)))
      as [_ Hend]; auto.
    { left. exact Hst'. }
    { rewrite Hw, Hr. reflexivity. }
    { rewrite HL. exact Hfits. }
    destruct Hend as (H1 & H2 & H3). rewrite H1, Hr. auto.
  - intros calls Hok Hts. cbv zeta. intros Hb0. rewrite run_app.
    destruct (write_or_poll_run consumerIdx calls (start cstate) Hinv0
                eq_refl eq_refl Hst Hok Hb0)
      as (Hinv & He & Hst' & HL & Hw).
    simpl in HL, Hw. rewrite Hts in Hw.
    set (s0 := run consumerIdx calls (start cstate)) in *.
    destruct (run_inv_prefix s0 Hinv) as (rest & Hpre & _).
    rewrite Hw in Hpre.
    assert (Hlen : (length ts - length (sys_read s0))%nat = length rest).
    { rewrite Hpre, length_app. lia. }
    rewrite Hlen.
    destruct (drain_run consumerIdx fuel rest s0) as [_ Hend]; auto.
    { left. exact Hst'. }
    { rewrite Hw. exact Hpre. }
    { rewrite HL. rewrite Hpre in Hfits.
      apply Forall_app in Hfits as [_ Hfits]. exact Hfits. }
    destruct Hend as (H1 & H2 & H3). split.
    + rewrite Hpre, take_app_length. reflexivity.
    + rewrite H1, <- Hpre. auto.
  - intros calls Hok. cbv zeta. apply run_inv_prefix.
    apply run_inv_run; [|exact Hok]. exact Hinv0.
Qed.

Lemma reads_return_the_rows_written_in_order_witness :
  let s := run 0 (writes sample_rows ++ drain_reads 5 4)
             (start (sample_consumer CONSUMER_ACTIVE)) in
  sys_read s = sample_rows /\ sys_eof s = true /\ sys_blocked s = false.
Proof.
  destruct (reads_return_the_rows_written_in_order 0
              (sample_consumer CONSUMER_ACTIVE) sample_rows 5)
    as (_ & Hall & _); [| | | |exact Hall].
  - unfold fresh_slot, slot_wf, SIZEOF_INT, INT_MAX, QLENGTH_MAX. simpl.
    repeat split; lia.
  - repeat constructor; unfold row_ok, INT_MAX; vm_compute; discriminate.
  - lia.
  - repeat constructor; unfold fits_fuel, SIZEOF_INT; vm_compute;
      discriminate.
Defined.
